(* ===== verification/_CoqProject ===== *)
-Q . S2P
Prelude.v
Errors.v
External.v
FutureUtil.v
Strs.v
Storage.v
HashSpace.v
Ipfs.v
Address.v
Protocol.v
Crypto.v
Relation.v
Capnp.v
Handshake.v
Hoare.v
Reactor.v
HomeServer.v
Rpc.v
RpcStreams.v
Process.v
ProcessProps.v
HomeInvariants.v
HomeServerProps.v
Connect.v
ConnectFrame.v
ConnectProps.v
Forwarding.v
ClientSafety.v
Net.v
Service.v
ServiceProps.v
JsonRpc.v
JsonRpcServer.v
Config.v
HomeNode.v
Startup.v
ButtonCli.v
TheButton.v
ButtonRun.v
EndToEnd.v
Composition.v
Scenarios.v
Memsocket.v
RemoteCalls.v
MemsocketCall.v
RemoteClient.v
RemotePairing.v
ProcessSafety.v
Network.v
NetworkLoops.v
NetworkPairing.v
Samples.v
WireSamples.v
NetworkSamples.v
StorageTests.v
ProtocolTests.v
