(* ===== verification/Prelude.v ===== *)
(** * Mercury: a verification library for the person-to-person network stack

    Mercury lets people own cryptographic profiles, have them hosted by home
    nodes, pair profiles into relations that both sides have signed, and call
    each other's applications through the homes.  The library models the Rust
    crates under [src/] as executable definitions and proves what makes them
    correct, and in a number of places, where they are not.

    ** The program and its model

    - [src/storage]: key-value stores, content-addressed hash spaces and
      attribute addresses.  [Strs.v] has the string functions of the standard
      library they use; [Storage.v] the [KeyValueStore] interface with its laws,
      the in-memory stores, the key adapter ([async/mod.rs], [async/imp.rs],
      [sync/imp.rs]) and the file stores over a model of [std::fs]
      ([async/fs.rs]); [HashSpace.v] hashers, coders, serializers, the modular
      hash spaces and the hash web ([common/], [async/], [sync/]); [Ipfs.v] the
      hash space over an IPFS client; [Address.v] attributes, formats and blob
      addresses ([meta/mod.rs], [format/mod.rs], the resolver of
      [async/imp.rs]).
    - [src/home-protocol]: [Protocol.v] has the data of [lib.rs] and its
      conversions, [Crypto.v] the signers and validators of [crypto.rs],
      [Relation.v] the half proofs, proofs and their validation, [FutureUtil.v]
      the two result collectors of [future.rs], [Handshake.v] the temporary
      handshake of [handshake.rs], [Capnp.v] the wire format of
      [mercury_capnp/mod.rs], [Rpc.v] the [Home] and [HomeSession] interfaces
      with the dispatchers and client proxies of [mercury_capnp/],
      [RpcStreams.v] their event and call streams and how both ends are set up.
      [Process.v] has a process with a home, the proxies of its clients and all
      the loops they spawn, which [Reactor.v], programs on a reactor, polls in
      any order; [ProcessProps.v] what the loops come to.
    - [src/home-node]: [HomeServer.v] has the server of [server.rs] with its
      databases, connections, sessions and queues; [HomeInvariants.v] the
      transition system of all requests of all clients, and its invariants;
      [HomeServerProps.v] what the single operations do; [HomeNode.v] the
      program of [bin/mercury-home.rs], which accepts clients and serves them.
    - [src/connect]: [Connect.v] has the client of [profile.rs] and
      [simple_profile_repo.rs], [Net.v] the TCP connector of [net.rs],
      [Service.v] the profile factory, admin sessions, the service and the
      sessions of applications ([service.rs], [sdk.rs]), [JsonRpc.v] the methods
      and sessions applications of other processes use ([jsonrpc/api.rs]),
      [JsonRpcServer.v] the serving of their connections ([jsonrpc/mod.rs],
      [jsonrpc/server_dispatcher.rs]), [Startup.v] the programs under [bin/];
      [ConnectProps.v] and [ServiceProps.v] have properties of client and
      service.  [Forwarding.v] has the forwarding of events to the listeners of a
      session and the storing of relations poll by poll, over the bounded
      channels of the code; [Connect.v] what they come to when no send has to
      wait.
    - [Config.v] has configuration files and options of all programs
      ([home-protocol/src/util.rs], [home-node/src/config.rs], TheButton).  Of the
      example application under [src/examples], [ButtonCli.v] has the command
      line and the log, [TheButton.v] the client and the operations of the
      server, [ButtonRun.v] the running program: the [select] of its parts,
      signals, timer and interrupt.
    - The parts together: [EndToEnd.v] a client whose homes are connections to
      the home node, and a run of the two; [Composition.v] what joining, logging
      in and pairing come to; [RemoteClient.v] and [RemotePairing.v] the same over
      the wire; [ConnectFrame.v] what any operation of a client may do to it,
      [ClientSafety.v] and [ProcessSafety.v] the safety of clients and of the
      home's process.  [Network.v] is a transition system of a home, its users
      and their loops, and what holds in all its states; [NetworkLoops.v] shows
      that its loops come to rest and [NetworkPairing.v] that two of its users
      pair.
    - Tests as programs: [Scenarios.v] those of [src/test/src/home.rs] over an
      interface to the home ([TestMode]), with its direct mode; [Memsocket.v] and
      [MemsocketCall.v] the mode over sockets in memory, on the stages of a call
      in any process ([RemoteCalls.v]); [StorageTests.v] and
      [ProtocolTests.v] the unit tests of the crates.
    - [Samples.v], [WireSamples.v] and [NetworkSamples.v] have sample runs of the programs, on which
      the properties of their components are evaluated.
    - [Errors.v] has the error types of the three crates with their chains of
      causes, [External.v] what the crates take from third parties, each as a
      class of functions with a class of documented laws and a small concrete
      instance; [Hoare.v] a program logic for the state-passing code.

    The parts meet in interfaces: [KeyValueStoreLaws] is proved for every store
    and is all that hash spaces, the home server and the client rely on;
    [HashSpaceLaws] likewise for hash spaces; the record [Home] is implemented by
    the connections of a home server and by the proxy, and is what the client
    uses; [HomeConnector] is what it takes to get one; [UserInterface],
    [JsonValues], [PubSub] and [CancelChannels] are what the service and its
    JSON-RPC interface are given; [ClientInvariant] is what an invariant of
    clients has to satisfy to be kept by all operations, and [SafeConnector]
    what homes promise to the safety of clients; [TestMode] is what the scenarios need of a
    home, direct or remote; [Clap] with its laws is the command line parser.

    ** State and time

    Shared mutable state ([Rc], [RefCell], databases, channels, the reactor's
    tasks) is an explicit record per component.  An asynchronous method has type
    [IO W (Future W E A)]: its call phase runs when it is invoked, its poll phase
    when the reactor polls the future, in any later state.  Properties are
    stated for arbitrary states in between, so they hold for every interleaving
    of calls and polls; [await] is the special case with nothing in between.
    Steps inside one poll are not interrupted: all stores of the repository
    return futures that are already completed, and sends to channels complete
    or fail: home and proxies send through clones of a sender, each of which has
    a place in the channel.  The listeners of a client's session are the
    exception: their senders are not cloned, and [Forwarding.v] has them wait.
    Weak references are keys into heaps, which may have lost the
    entry.  Code that may panic returns a [Panicking] value.  Where several
    futures share state between polls (the three futures of a JSON-RPC
    connection, subscriptions, handshakes and connections of the home program,
    the loops of TheButton and of the remote home) their interleavings are a
    step relation or an arbitrary sequence of operations.  Where a main program
    runs among spawned tasks it is a tree of steps ([Prog]); [ends] quantifies
    over all schedules of the tasks, by rule induction.

    ** What is proved

    - Relations: validation accepts exactly the proofs both sides have signed;
      pairing by [RelationHalfProof::new] and [sign_remaining_half] gives such a
      proof in the same canonical form on both sides.
    - Stores and hash spaces: the file stores, blocking and asynchronous, refine
      a partial map kept in files under any sequence of operations and faults of
      the disk, reads included; every store keeps the laws of the interface;
      what is stored in a hash space
      resolves to itself and what resolves hashes to its link.  Addresses
      resolve to exactly the blobs reachable by their attribute paths.
    - Home node: in every reachable state the databases hold profiles under
      their own certified id, every event or call queued or delivered was
      authenticated, and no request of one client touches what is stored for
      another; the outcome of each request on every branch.  The home program
      refines this system and serves only clients whose id matches their key.
    - Remote homes: the proxy and dispatcher together are transparent up to
      what the wire format drops, which is stated exactly; the loops that carry
      events and frames come to rest under every schedule, and then everything
      has arrived in order (termination by a measure on the messages under way).
    - Clients: relations only grow and cached sessions stay alive; homes are
      found whenever one is reachable; logging in connects to the home that was
      asked for, shows it the first proof of it, and keeps the session it gives;
      joining, pairing and calling do what they promise or leave the client as
      it was; events reach every listener once and in order.
    - The service: it has one wrapper per profile, with the signer of the
      profile, whatever is asked of it and in whatever order; an application sees its own relations and
      calls only; what is there after start-up.
    - The JSON-RPC interface: at most one live subscription per connection,
      answers in the order of the requests, and, for every schedule, while the
      connection is open, an answer to every request that arrived and none to a
      notification (liveness by a decreasing measure).
    - Programs: options are the 64-bit numbers that were given, or refused;
      a run of TheButton ends exactly when a part of it ends or it is
      interrupted, and until then every press reaches every client that is
      still there; a command line the parser accepts leaves [main] nothing to
      complain about.
    - Together: a user who joins a home and logs in hears of every peer that
      asks for a relation there, directly and over the wire.  In every state of
      a network of a home and any number of users, with everything interleaved,
      every relation a user has stored is signed by both sides, although clients
      do not check what they are told: what the home's invariant says of its
      channels carries through dispatchers, loops and listeners.  The loops of a
      network come to rest under every schedule, if applications read the events
      they asked for or no more are on their way than a channel holds (a measure
      on the events yet to come, to be forwarded, to be handled and to be read),
      and then every event has reached its listeners and every relation is
      stored; this is shown of users with at most one session.  So two users pair, whenever
      the second answers, and both have the same proof.
      A call goes through its stages in a process full of other loops, and
      inevitably both applications are connected.
    - The scenarios of the test crate pass for all keys in both modes, and the
      unit tests for all data.
    - Deviations, as theorems: sessions can be taken over with an unsigned
      proof, registrations can race, events can overtake buffered ones,
      addresses without an attribute part panic, a failed write loses the old
      value, the home that answers is not compared with the one asked for,
      leaving a home keeps its session, closing the sending side of a JSON-RPC
      connection loses its requests, a stream of events nobody reads stops the
      storing of relations, starting a client again forgets its homes,
      one failure ends the loops over pairing requests and incoming calls, and a
      second home joined over the wire is lost.

    ** Bounds

    Loops over lists are structural.  [collect_results] runs one iteration per
    future and [collect_results2] as many rounds as the slowest future takes;
    the fuel of both is shown to suffice.  Lengths that the code truncates
    ([as u32]) are kept at 32 bits in [Handshake.v] and [Capnp.v], parsed
    numbers at 64 bits in [Config.v], where twenty digits are enough to print
    one.  A spawned task takes one send more than it has messages.

    ** What is not modelled

    The reactor's scheduling beyond what is said above, the RPC runtime and
    generated stubs (a record of methods), sockets, back traces, the command
    line parser and the logging library, signals and timers (what they yield is
    a parameter), the capacity of the response channel of a JSON-RPC connection,
    the traits for key vaults and access managers, which nothing implements, and
    the code that is commented out ([test/src/dummy.rs], [test/src/connect.rs],
    parts of [storage/src/async/imp.rs]) or ignored.  Hash table order and the
    order in which [select_ok] and [select_all] complete are parameters with
    laws.

    ** Plan

    Next are the applications of the users of a network, users who log in to
    several homes, and expiry of sessions and calls over time. *)

From stdpp Require Export base gmap list strings fin_maps countable.
From Stdlib Require Export Strings.Byte.
From Stdlib Require Import Lia.

(** Every notation of the library lives in this scope. *)
Declare Scope mercury_scope.
Delimit Scope mercury_scope with mercury.
Open Scope mercury_scope.

(** ** Bytes: [u8] and [Vec<u8>] *)

Abbreviation u8 := Byte.byte (only parsing).
Abbreviation bytes := (list Byte.byte) (only parsing).

#[export] Instance byte_eq_dec : EqDecision Byte.byte := Byte.byte_eq_dec.

#[export] Program Instance byte_countable : Countable Byte.byte :=
  {| encode b := encode (Byte.to_N b);
     decode p := n ← decode p; Byte.of_N n |}.
Next Obligation. intros b. simpl. rewrite decode_encode. apply Byte.of_to_N. Qed.

(** [Ord] on [Vec<u8>]: lexicographic, a proper prefix being smaller. *)
Fixpoint bytes_ltb (xs ys : bytes) : bool :=
  match xs, ys with
  | _, [] => false
  | [], _ :: _ => true
  | x :: xs', y :: ys' =>
      if N.ltb (Byte.to_N x) (Byte.to_N y) then true
      else if N.ltb (Byte.to_N y) (Byte.to_N x) then false
      else bytes_ltb xs' ys'
  end.

(** ** [std::result::Result] *)

Inductive Result (E A : Type) : Type :=
| Ok (a : A)
| Err (e : E).
Arguments Ok {E A} a.
Arguments Err {E A} e.

#[export] Instance result_ret {E} : MRet (Result E) := fun A a => Ok a.
#[export] Instance result_bind {E} : MBind (Result E) :=
  fun A B k m => match m with Ok a => k a | Err e => Err e end.
#[export] Instance result_fmap {E} : FMap (Result E) :=
  fun A B f m => match m with Ok a => Ok (f a) | Err e => Err e end.

#[export] Instance result_eq_dec {E A} `{EqDecision E, EqDecision A} :
  EqDecision (Result E A).
Proof. solve_decision. Defined.

Definition is_ok {E A} (r : Result E A) : bool :=
  match r with Ok _ => true | Err _ => false end.

Definition is_err {E A} (r : Result E A) : bool := negb (is_ok r).

(** [Result::ok]: forget the error. *)
Definition ok {E A} (r : Result E A) : option A :=
  match r with Ok a => Some a | Err _ => None end.

Definition map_err {E F A} (f : E → F) (r : Result E A) : Result F A :=
  match r with Ok a => Ok a | Err e => Err (f e) end.

(** [Option::ok_or]. *)
Definition ok_or {E A} (o : option A) (e : E) : Result E A :=
  match o with Some a => Ok a | None => Err e end.

(** Code that may [panic!] (an [unwrap], an out of range slice, an
    unimplemented branch) returns a [Panicking] value. *)
Inductive Panicking (A : Type) : Type :=
| Returns (a : A)
| Panics.
Arguments Returns {A} a.
Arguments Panics {A}.

#[export] Instance panicking_ret : MRet Panicking := fun A a => Returns a.
#[export] Instance panicking_bind : MBind Panicking :=
  fun A B k m => match m with Returns a => k a | Panics => Panics end.

(** ** Synchronous state passing and futures

    [IO W A] is code that runs now on the shared state [W].  A [Future W E A]
    is what an asynchronous method returns: code that runs when the reactor
    polls it.  A method of type [IO W (Future W E A)] therefore has a call
    phase, whose effects happen when the method is invoked, and a poll phase,
    whose effects happen later, possibly after other calls. *)

Definition IO (W A : Type) : Type := W → A * W.
Definition Future (W E A : Type) : Type := IO W (Result E A).

Definition future_ok {W E A} (a : A) : Future W E A := fun w => (Ok a, w).
Definition future_err {W E A} (e : E) : Future W E A := fun w => (Err e, w).
(** [future::result], and [into_future] on a [Result]. *)
Definition future_result {W E A} (r : Result E A) : Future W E A := fun w => (r, w).

(** [and_then]: the closure runs when the first future has completed, and the
    future it returns is polled right away. *)
Definition and_then {W E A B} (f : Future W E A) (k : A → IO W (Future W E B))
  : Future W E B :=
  fun w => match f w with
           | (Ok a, w1) => let '(g, w2) := k a w1 in g w2
           | (Err e, w1) => (Err e, w1)
           end.

(** [then]: as [and_then], on both outcomes. *)
Definition future_then {W E F A B} (f : Future W E A)
    (k : Result E A → IO W (Future W F B)) : Future W F B :=
  fun w => let '(r, w1) := f w in let '(g, w2) := k r w1 in g w2.

Definition future_map {W E A B} (g : A → B) (f : Future W E A) : Future W E B :=
  fun w => let '(r, w1) := f w in (g <$> r, w1).

Definition future_map_err {W E F A} (g : E → F) (f : Future W E A) : Future W F A :=
  fun w => let '(r, w1) := f w in (map_err g r, w1).

(** Calling a method and polling the future it returns with nothing between. *)
Definition await {W E A} (m : IO W (Future W E A)) : Future W E A :=
  fun w => let '(f, w1) := m w in f w1.

Definition io_ret {W A} (a : A) : IO W A := fun w => (a, w).

(** [Stream::for_each] on the items a stream has yielded: one item after the
    other, until the first failure. *)
Fixpoint for_each {W E A} (body : A → IO W (Future W E unit)) (items : list A)
  : Future W E unit :=
  match items with
  | [] => future_ok tt
  | item :: items => and_then (await (body item)) (fun _ => io_ret (for_each body items))
  end.

(** ** Automation *)

Create HintDb mercury.
Create Rewrite HintDb mercury.

(** Case analysis on the discriminee of a match or conditional of the goal or
    of a hypothesis, keeping the equation. *)
Ltac case_step :=
  match goal with
  | |- context [match ?x with _ => _ end] => destruct x eqn:?
  | H : context [match ?x with _ => _ end] |- _ => destruct x eqn:?
  end.

Ltac crush := repeat (case_step; simplify_eq/=); try done; eauto with mercury.

(** ** Lemmas shared by the components *)

Lemma bytes_ltb_irrefl xs : bytes_ltb xs xs = false.
Proof. induction xs as [|x xs IH]; simpl; [done|]. by rewrite N.ltb_irrefl. Qed.

Lemma byte_to_N_inj x y : Byte.to_N x = Byte.to_N y → x = y.
Proof.
  intros H. apply (f_equal Byte.of_N) in H. rewrite !Byte.of_to_N in H. congruence.
Qed.

(** The order is total: two vectors neither of which is smaller are equal. *)
Lemma bytes_ltb_total xs ys :
  bytes_ltb xs ys = false → bytes_ltb ys xs = false → xs = ys.
Proof.
  revert ys; induction xs as [|x xs IH]; intros [|y ys]; simpl; try done.
  destruct (N.ltb_spec (Byte.to_N x) (Byte.to_N y)); [done|].
  destruct (N.ltb_spec (Byte.to_N y) (Byte.to_N x)); [done|].
  intros H1 H2. f_equal; [|by apply IH]. apply byte_to_N_inj. lia.
Qed.

Lemma bytes_ltb_asym xs ys : bytes_ltb xs ys = true → bytes_ltb ys xs = false.
Proof.
  revert ys; induction xs as [|x xs IH]; intros [|y ys]; simpl; try done.
  destruct (N.ltb_spec (Byte.to_N x) (Byte.to_N y)),
           (N.ltb_spec (Byte.to_N y) (Byte.to_N x)); try done; try lia.
  apply IH.
Qed.

Lemma bytes_ltb_neq xs ys : bytes_ltb xs ys = true → xs ≠ ys.
Proof. intros H ->. by rewrite bytes_ltb_irrefl in H. Qed.

(** Running a call once its result is known, without normalising its state. *)
Lemma fst_eq {A B} (x : A * B) a : x.1 = a → x = (a, x.2).
Proof. destruct x. by intros <-. Qed.

Lemma is_err_false {E A} (r : Result E A) : is_err r = false → ∃ a, r = Ok a.
Proof. destruct r; [eauto|done]. Qed.

Lemma is_err_true {E A} (r : Result E A) : is_err r = true → ∃ e, r = Err e.
Proof. destruct r; [done|eauto]. Qed.

Lemma map_err_ok {E F A} (f : E → F) (r : Result E A) a :
  map_err f r = Ok a → r = Ok a.
Proof. destruct r; by intros [= ->]. Qed.

(** The loop over a stream, split in two. *)
Lemma for_each_app {W E A} (body : A → IO W (Future W E unit)) xs ys w :
  for_each body (xs ++ ys) w
  = match for_each body xs w with
    | (Ok _, w) => for_each body ys w
    | (Err e, w) => (Err e, w)
    end.
Proof.
  revert w; induction xs as [|x xs IH]; intros w; [done|]. simpl. unfold and_then at 1 2.
  destruct (await (body x) w) as [[[]|e] w1]; [|done]. simpl. by rewrite IH.
Qed.

#[export] Hint Resolve bytes_ltb_irrefl bytes_ltb_asym bytes_ltb_neq : mercury.
