(* ===== verification/Errors.v ===== *)
(** * The error types of the three crates

    [storage/src/error.rs], [home-protocol/src/error.rs] and
    [connect/src/error.rs].  The last two wrap an [ErrorKind] in a
    [failure::Context]: the kind put on last, with the chain of causes below
    it.  Equality of errors compares the outermost kinds only. *)

From S2P Require Import Prelude.

(** ** [storage/src/error.rs] *)
Module Storage.

(** Boxed foreign errors ([Box<Error + Send>]) are kept as their description. *)
Inductive HashError : Set :=
| UnsupportedType
| BadInputLength
| UnknownCode
| HashError_Other (description : string).

Inductive SerializerError : Set :=
| SerializationError (description : string)
| DeserializationError (description : string)
| SerializerError_Other (description : string).

Inductive StorageError : Set :=
| OutOfDiskSpace
| InvalidKey
| StringError (s : string).

Inductive StringCoderError : Set :=
| StringCoderError_Other (description : string).

Inductive HashSpaceError : Set :=
| HashSpace_HashError (e : HashError)
| HashSpace_StorageError (e : StorageError)
| HashSpace_StringCoderError (e : StringCoderError)
| LinkFormatError (s : string)
| UnknownHashSpace (s : string)
| UnsupportedHashSpace (s : string)
| HashSpace_Other (description : string).

Inductive FormatParserError : Set :=
| TODO.

Inductive AddressResolutionError : Set :=
| Address_HashSpaceError (e : HashSpaceError)
| AttributeNotFound (s : string)
| WrongAttributeType
| UnknownFormat (s : string)
| Address_FormatParserError (e : FormatParserError).

(** The [Error::description] methods. *)
Definition HashError_description (e : HashError) : string :=
  match e with
  | UnsupportedType => "This type is not supported yet"
  | BadInputLength => "Not matching input length"
  | UnknownCode => "Found unknown code"
  | HashError_Other e => e
  end.

Definition SerializerError_description (e : SerializerError) : string :=
  match e with
  | SerializationError e => e
  | DeserializationError e => e
  | SerializerError_Other e => e
  end.

Definition StorageError_description (e : StorageError) : string :=
  match e with
  | OutOfDiskSpace => "Run out of disk space"
  | InvalidKey => "The given key holds no value"
  | StringError s => s
  end.

Definition StringCoderError_description (e : StringCoderError) : string :=
  match e with StringCoderError_Other e => e end.

Definition HashSpaceError_description (e : HashSpaceError) : string :=
  match e with
  | HashSpace_HashError e => HashError_description e
  | HashSpace_StorageError e => StorageError_description e
  | HashSpace_StringCoderError e => StringCoderError_description e
  | LinkFormatError s => s
  | UnknownHashSpace s => s
  | UnsupportedHashSpace s => s
  | HashSpace_Other e => e
  end.

#[global] Instance StorageError_eq_dec : EqDecision StorageError.
Proof. solve_decision. Defined.

End Storage.

(** ** [home-protocol/src/error.rs] *)
Module Proto.

Inductive ErrorKind : Set :=
| ProfileLookupFailed
| ProfileUpdateFailed
| HashDecodeFailed
| HashEncodeFailed
| SignerCreationFailed
| SignatureValidationFailed
| TlsHandshakeFailed
| RelationSigningFailed
| RelationValidationFailed
| ProfileValidationFailed
| MultiaddrSerializationFailed
| MultiaddrDeserializationFailed
| PeerIdRetreivalFailed
| FailedToClaimProfile
| PersonaExpected
| AlreadyRegistered
| HomeIdMismatch
| RelationTypeMismatch
| InvalidSignature
| StorageFailed
| ProfileMismatch
| PublicKeyMismatch
| SignerMismatch
| PeerNotHostedHere
| InvalidRelationProof
| TimeoutFailed
| FailedToReadResponse
| ProfileDeregistered
| FailedToLoadProfile
| CallFailed
| FailedToPushEvent
| ConnectionToHomeFailed
| FailedToSend
| ContextValidationFailed
| FailedToGetSession
| FailedToResolveUrl
| PairRequestFailed
| PairResponseFailed
| RegisterFailed
| UnregisterFailed
| FailedToCreateSession
| DhtLookupFailed
| PingFailed
| LoginFailed.

Definition display (k : ErrorKind) : string :=
  match k with
  | ProfileLookupFailed => "profile lookup failed"
  | ProfileUpdateFailed => "profile update failed"
  | HashDecodeFailed => "hash decode failed"
  | HashEncodeFailed => "hash encode failed"
  | SignerCreationFailed => "signer creation failed"
  | SignatureValidationFailed => "signature validation failed"
  | TlsHandshakeFailed => "handshake failed"
  | RelationSigningFailed => "relation signing failed"
  | RelationValidationFailed => "relation validation failed"
  | ProfileValidationFailed => "profile validation failed"
  | MultiaddrSerializationFailed => "multiaddress serialization failed"
  | MultiaddrDeserializationFailed => "multiaddress deserialization failed"
  | PeerIdRetreivalFailed => "failed to fetch peer id"
  | FailedToClaimProfile => "profile claim failed"
  | PersonaExpected => "persona expected"
  | AlreadyRegistered => "already registered"
  | HomeIdMismatch => "home id mismatch"
  | RelationTypeMismatch => "relation type mismatch"
  | InvalidSignature => "invalid signature"
  | StorageFailed => "storage failed"
  | ProfileMismatch => "profile mismatch"
  | PublicKeyMismatch => "public key mismatch"
  | SignerMismatch => "signer mismatch"
  | PeerNotHostedHere => "peer not hosted here"
  | InvalidRelationProof => "invalid relation proof"
  | TimeoutFailed => "timeout failed"
  | FailedToReadResponse => "failed to read response"
  | ProfileDeregistered => "deregistered"
  | FailedToLoadProfile => "profile load failed"
  | CallFailed => "call failed"
  | FailedToPushEvent => "failed to push event"
  | ConnectionToHomeFailed => "connection to home failed"
  | FailedToSend => "failed to send"
  | ContextValidationFailed => "context validation failed"
  | FailedToGetSession => "failed to get session"
  | FailedToResolveUrl => "failed to resolve URL"
  | PairRequestFailed => "pair request failed"
  | PairResponseFailed => "pair response failed"
  | RegisterFailed => "profile registration failed"
  | UnregisterFailed => "profile deregistration failed"
  | FailedToCreateSession => "failed to create session"
  | DhtLookupFailed => "DHT lookup failed"
  | PingFailed => "ping failed"
  | LoginFailed => "login failed"
  end.

#[global] Instance ErrorKind_eq_dec : EqDecision ErrorKind.
Proof. solve_decision. Defined.

End Proto.

(** ** [connect/src/error.rs] *)
Module Conn.

Inductive ErrorKind : Set :=
| ConnectionToHomeFailed
| HandshakeFailed
| PeerIdRetreivalFailed
| FailedToGetContacts
| FailedToGetSession
| AddressConversionFailed
| ConnectionFailed
| FailedToLoadProfile
| FailedToResolveProfile
| HomeProfileExpected
| FailedToClaimProfile
| RegistrationFailed
| DeregistrationFailed
| PairRequestFailed
| PeerResponseFailed
| ProfileUpdateFailed
| CallFailed
| CallRefused
| LookupFailed
| HomeProofNotFound
| PersonaProfileExpected
| NoHomesFound
| LoginFailed
| FailedToGetPeerId
| FailedToAuthorize
| ImplementationError.

Definition display (k : ErrorKind) : string :=
  match k with
  | ConnectionToHomeFailed => "connection to home failed"
  | HandshakeFailed => "handshake failed"
  | PeerIdRetreivalFailed => "peer id retreival failed"
  | FailedToGetContacts => "failed to get contacts"
  | FailedToGetSession => "failed to get session"
  | AddressConversionFailed => "address conversion failed"
  | ConnectionFailed => "failed to connect tcp stream"
  | FailedToLoadProfile => "failed to load profile"
  | FailedToResolveProfile => "failed to resolve profile"
  | HomeProfileExpected => "home profile expected"
  | FailedToClaimProfile => "failed to claim profile"
  | RegistrationFailed => "registration failed"
  | DeregistrationFailed => "deregistration failed"
  | PairRequestFailed => "pair request failed"
  | PeerResponseFailed => "peer response failed"
  | ProfileUpdateFailed => "profile update failed"
  | CallFailed => "call failed"
  | CallRefused => "call refused"
  | LookupFailed => "lookup failed"
  | HomeProofNotFound => "no proof found for home"
  | PersonaProfileExpected => "persona profile expected"
  | NoHomesFound => "no homes found"
  | LoginFailed => "login failed"
  | FailedToGetPeerId => "failed to get peer id"
  | FailedToAuthorize => "failed to authorize"
  | ImplementationError => "implementation error"
  end.

#[global] Instance ErrorKind_eq_dec : EqDecision ErrorKind.
Proof. solve_decision. Defined.

End Conn.

(** ** [failure::Context]

    The chain of causes below an error, outermost first.  A link is an error of
    one of the crates, or a foreign one of which the description is kept. *)
Inductive CauseLink : Set :=
| CauseStorage (e : Storage.StorageError)
| CauseProto (k : Proto.ErrorKind)
| CauseConn (k : Conn.ErrorKind)
| CauseForeign (description : string).

(** [struct Error { inner: Context<ErrorKind> }] of [home-protocol]. *)
Record ProtoError : Set := mkProtoError
  { proto_inner : Proto.ErrorKind; proto_chain : list CauseLink }.

(** [struct Error { inner: Context<ErrorKind> }] of [connect]. *)
Record ConnError : Set := mkConnError
  { conn_inner : Conn.ErrorKind; conn_chain : list CauseLink }.

(** [From<ErrorKind>], [From<Context<ErrorKind>>] and [Error::kind]. *)
Definition proto_from (k : Proto.ErrorKind) : ProtoError := mkProtoError k [].
Definition proto_from_context (k : Proto.ErrorKind) (c : list CauseLink) : ProtoError :=
  mkProtoError k c.
Definition proto_kind (e : ProtoError) : Proto.ErrorKind := proto_inner e.

Definition conn_from (k : Conn.ErrorKind) : ConnError := mkConnError k [].
Definition conn_from_context (k : Conn.ErrorKind) (c : list CauseLink) : ConnError :=
  mkConnError k c.
Definition conn_kind (e : ConnError) : Conn.ErrorKind := conn_inner e.

(** [Fail::cause]: the next error of the chain. *)
Definition proto_error_cause (e : ProtoError) : option CauseLink := head (proto_chain e).
Definition conn_error_cause (e : ConnError) : option CauseLink := head (conn_chain e).

(** [impl PartialEq for Error]: the contexts are compared, not the causes. *)
Definition proto_error_eqb (e f : ProtoError) : bool :=
  bool_decide (proto_inner e = proto_inner f).
Definition conn_error_eqb (e f : ConnError) : bool :=
  bool_decide (conn_inner e = conn_inner f).

(** [impl Display for Error]: the text of the outermost kind. *)
Definition proto_error_display (e : ProtoError) : string := Proto.display (proto_inner e).
Definition conn_error_display (e : ConnError) : string := Conn.display (conn_inner e).

(** [err.context(kind).into()], by the type of [err]. *)
Class ToCause (E : Type) := to_cause : E → list CauseLink.
#[export] Instance storage_to_cause : ToCause Storage.StorageError :=
  fun e => [CauseStorage e].
#[export] Instance proto_to_cause : ToCause ProtoError :=
  fun e => CauseProto (proto_inner e) :: proto_chain e.
#[export] Instance conn_to_cause : ToCause ConnError :=
  fun e => CauseConn (conn_inner e) :: conn_chain e.
#[export] Instance string_to_cause : ToCause string := fun s => [CauseForeign s].

Definition proto_context `{ToCause E} (k : Proto.ErrorKind) (e : E) : ProtoError :=
  proto_from_context k (to_cause e).
Definition conn_context `{ToCause E} (k : Conn.ErrorKind) (e : E) : ConnError :=
  conn_from_context k (to_cause e).

(** ** Lemmas *)

Lemma proto_error_eqb_kind e f :
  proto_error_eqb e f = true ↔ proto_kind e = proto_kind f.
Proof. apply bool_decide_eq_true. Qed.

Lemma conn_error_eqb_kind e f :
  conn_error_eqb e f = true ↔ conn_kind e = conn_kind f.
Proof. apply bool_decide_eq_true. Qed.

Lemma proto_context_kind `{ToCause E} k (e : E) : proto_kind (proto_context k e) = k.
Proof. done. Qed.

Lemma conn_context_kind `{ToCause E} k (e : E) : conn_kind (conn_context k e) = k.
Proof. done. Qed.

#[export] Hint Rewrite @proto_context_kind @conn_context_kind : mercury.
