(* ===== verification/External.v ===== *)
(** * What the repository takes from other crates

    Each class holds the functions of a third-party crate the sources call, as
    parameters; each [...Laws] class holds the documented behaviour the
    development relies on.  The [Sample] module gives a small concrete
    instance of every class, on which the examples of the library evaluate. *)

From Stdlib Require Import Strings.Ascii.
From S2P Require Import Prelude Errors.

(** ** [bincode]: [serialize] on a struct of a [String] and two [Vec<u8>] *)
Class Bincode := { bincode_serialize : string → bytes → bytes → bytes }.

(** Distinct values have distinct encodings, for lengths a [u64] can hold. *)
Class BincodeLaws `{Bincode} : Prop := {
  bincode_inj s a b s' a' b' :
    (N.of_nat (String.length s) < 2 ^ 64 → N.of_nat (String.length s') < 2 ^ 64 →
     N.of_nat (length a) < 2 ^ 64 → N.of_nat (length a') < 2 ^ 64 →
     bincode_serialize s a b = bincode_serialize s' a' b' →
     s = s' ∧ a = a' ∧ b = b')%N
}.

(** ** [multihash] *)
Inductive MultihashError : Set :=
| Mh_BadInputLength
| Mh_UnknownCode
| Mh_UnsupportedType.

Class Multihash := {
  MhAlg : Set;
  mh_Keccak256 : MhAlg;
  (** [decode(bytes)?.alg] *)
  mh_decode_alg : bytes → Result MultihashError MhAlg;
  mh_encode : MhAlg → bytes → Result MultihashError bytes;
}.

Class MultihashLaws `{Multihash} : Prop := {
  mh_keccak_total d : ∃ h, mh_encode mh_Keccak256 d = Ok h;
  mh_decode_encode alg d h : mh_encode alg d = Ok h → mh_decode_alg h = Ok alg;
}.

Definition multihash_error_text (e : MultihashError) : string :=
  match e with
  | Mh_BadInputLength => "Not matching input length"
  | Mh_UnknownCode => "Found unknown code"
  | Mh_UnsupportedType => "This type is not supported yet"
  end.

#[export] Instance multihash_to_cause : ToCause MultihashError :=
  fun e => [CauseForeign (multihash_error_text e)].

(** ** [multibase] *)
Class Multibase := {
  MbBase : Set;
  mb_Base64url : MbBase;
  mb_encode : MbBase → bytes → string;
  mb_decode : string → Result string (MbBase * bytes);
}.

Class MultibaseLaws `{Multibase} : Prop := {
  mb_decode_encode base b : mb_decode (mb_encode base b) = Ok (base, b)
}.

(** ** [signatory] / [signatory_dalek]: ed25519 *)
Class Ed25519 := {
  ed_Seed : Set;
  ed_PublicKey : Set;
  ed_Signature : Set;
  ed_seed_from_slice : bytes → Result string ed_Seed;
  ed_public_key : ed_Seed → Result string bytes;
  (** [sign(..).unwrap()]: a software signer does not fail *)
  ed_sign : ed_Seed → bytes → bytes;
  ed_public_from_bytes : bytes → Result string ed_PublicKey;
  ed_signature_from_bytes : bytes → Result string ed_Signature;
  ed_verify : ed_PublicKey → bytes → ed_Signature → Result string unit;
}.

(** A signature verifies under the public key of the seed that made it. *)
Class Ed25519Laws `{Ed25519} : Prop := {
  ed_verify_sign seed pk data :
    ed_public_key seed = Ok pk →
    ∃ p s, ed_public_from_bytes pk = Ok p
         ∧ ed_signature_from_bytes (ed_sign seed data) = Ok s
         ∧ ed_verify p data s = Ok tt
}.

(** ** [serde_json]: [to_vec] and [from_slice] at a type *)
Class SerdeJson (T : Type) := {
  json_to_vec : T → Result string bytes;
  json_from_slice : bytes → Result string T;
}.

Class SerdeJsonLaws (T : Type) `{SerdeJson T} : Prop := {
  json_roundtrip x b : json_to_vec x = Ok b → json_from_slice b = Ok x
}.

(** ** [futures::sync]: [mpsc] and [oneshot] channels

    Both ends of a channel are named by the channel, as a reference would
    be.  [mpsc_received] is what the channel has accepted for its receiver so
    far, in order; a send fails when the receiver was dropped. *)
Abbreviation SinkId := nat (only parsing).
Abbreviation OneshotId := nat (only parsing).

(** What polling a [oneshot::Receiver] finds. *)
Inductive OneshotState (A : Type) : Type :=
| NotReady
| Sent (a : A)
| Canceled.
Arguments NotReady {A}.
Arguments Sent {A} a.
Arguments Canceled {A}.

Class Channels (Msg Chans : Type) := {
  mpsc_channel : nat → Chans → SinkId * Chans;
  mpsc_send : SinkId → Msg → Chans → Result string unit * Chans;
  mpsc_received : SinkId → Chans → list Msg;
  oneshot_channel : Chans → OneshotId * Chans;
  oneshot_send : OneshotId → option SinkId → Chans → Result (option SinkId) unit * Chans;
  oneshot_drop : OneshotId → Chans → Chans;
  oneshot_poll : OneshotId → Chans → OneshotState (option SinkId);
}.

Class ChannelsLaws (Msg Chans : Type) `{Channels Msg Chans} : Prop := {
  mpsc_channel_new cap c s c' :
    mpsc_channel cap c = (s, c') →
    mpsc_received s c' = [] ∧ (∀ s', s' ≠ s → mpsc_received s' c' = mpsc_received s' c);
  mpsc_send_ok s m c c' :
    mpsc_send s m c = (Ok tt, c') →
    mpsc_received s c' = mpsc_received s c ++ [m]
    ∧ (∀ s', s' ≠ s → mpsc_received s' c' = mpsc_received s' c);
  mpsc_send_err s m c e c' :
    mpsc_send s m c = (Err e, c') → ∀ s', mpsc_received s' c' = mpsc_received s' c;
  (* oneshots *)
  oneshot_channel_new c o c' :
    oneshot_channel c = (o, c') →
    oneshot_poll o c' = NotReady ∧ (∀ s, mpsc_received s c' = mpsc_received s c);
  oneshot_drop_cancels o c :
    oneshot_poll o c = NotReady → oneshot_poll o (oneshot_drop o c) = Canceled;
  oneshot_drop_received o c s :
    mpsc_received s (oneshot_drop o c) = mpsc_received s c;
  oneshot_send_ok o v c c' :
    oneshot_send o v c = (Ok tt, c') → oneshot_poll o c' = Sent v;
  oneshot_send_received o v c s :
    mpsc_received s (oneshot_send o v c).2 = mpsc_received s c;
  mpsc_send_oneshot s m c o :
    oneshot_poll o (mpsc_send s m c).2 = oneshot_poll o c;
}.

(** A channel whose receiver is kept ([open]): sends to it succeed, whatever
    else goes on, and it is not made again. *)
Class KeepsOpen {Msg Chans : Type} `{Channels Msg Chans} (open : SinkId → Chans → Prop) : Prop := {
  open_new n c : open (mpsc_channel n c).1 (mpsc_channel n c).2;
  keep_send s m c : open s c → (mpsc_send s m c).1 = Ok tt;
  keep_after_send s t m c : open s c → open s (mpsc_send t m c).2;
  keep_after_channel s n c : open s c → (mpsc_channel n c).1 ≠ s ∧ open s (mpsc_channel n c).2;
  keep_after_oneshot s c : open s c → open s (oneshot_channel c).2;
  keep_after_answer s o v c : open s c → open s (oneshot_send o v c).2;
}.

(** [live o c]: the oneshot was made and its receiver has not been dropped.
    Other operations on channels leave it alone. *)
Class KeepsLive {Msg Chans : Type} `{Channels Msg Chans} (live : OneshotId → Chans → Prop) : Prop := {
  live_new c : live (oneshot_channel c).1 (oneshot_channel c).2;
  live_after_channel o n c : live o c →
    live o (mpsc_channel n c).2 ∧ oneshot_poll o (mpsc_channel n c).2 = oneshot_poll o c;
  live_after_send o s m c : live o c → live o (mpsc_send s m c).2;
  live_after_oneshot o c : live o c →
    (oneshot_channel c).1 ≠ o ∧ live o (oneshot_channel c).2
    ∧ oneshot_poll o (oneshot_channel c).2 = oneshot_poll o c;
  live_answer o v c : live o c → oneshot_poll o c = NotReady → (oneshot_send o v c).1 = Ok tt;
  live_after_answer o o' v c : live o c →
    live o (oneshot_send o' v c).2
    ∧ (o ≠ o' → oneshot_poll o (oneshot_send o' v c).2 = oneshot_poll o c);
}.

(** Bounded channels as one sender that is not cloned meets them.
    [mpsc_taken] is how many messages the receiver has taken out so far,
    [mpsc_recv] takes the next one, if there is one.  [mpsc_ready]: the sender is
    not parked, so the next [send] goes through (or fails, when the receiver was
    dropped); otherwise [send] waits.  A sender is parked by the message that
    exceeds the capacity of the channel, until the receiver takes one.  (In late
    versions of the library the future of that [send] waits for it itself, in
    earlier ones, as here, the next [send] does; with the former a receiver that
    does not read holds a sender up one message earlier.) *)
Class BoundedChannels (Msg Chans : Type) `{Channels Msg Chans} := {
  mpsc_capacity : SinkId → Chans → nat;
  mpsc_taken : SinkId → Chans → nat;
  mpsc_ready : SinkId → Chans → bool;
  mpsc_recv : SinkId → Chans → option Msg * Chans;
}.

Class BoundedLaws (Msg Chans : Type) `{BoundedChannels Msg Chans} : Prop := {
  bounded_new cap c s c' :
    mpsc_channel cap c = (s, c') →
    mpsc_capacity s c' = cap ∧ mpsc_taken s c' = 0
    ∧ ∀ s', s' ≠ s → mpsc_capacity s' c' = mpsc_capacity s' c ∧ mpsc_taken s' c' = mpsc_taken s' c;
  bounded_send s m c s' :
    mpsc_capacity s' (mpsc_send s m c).2 = mpsc_capacity s' c
    ∧ mpsc_taken s' (mpsc_send s m c).2 = mpsc_taken s' c;
  bounded_recv s c :
    (mpsc_recv s c).1 = mpsc_received s c !! mpsc_taken s c;
  bounded_recv_after s c s' :
    mpsc_received s' (mpsc_recv s c).2 = mpsc_received s' c
    ∧ mpsc_capacity s' (mpsc_recv s c).2 = mpsc_capacity s' c
    ∧ mpsc_taken s' (mpsc_recv s c).2
      = if decide (s' = s ∧ is_Some (mpsc_recv s c).1) then S (mpsc_taken s' c) else mpsc_taken s' c;
  bounded_ready s c :
    length (mpsc_received s c) ≤ mpsc_taken s c + mpsc_capacity s c → mpsc_ready s c = true;
  bounded_ready_send s m c :
    mpsc_ready s c = true → (mpsc_send s m c).1 = Ok tt →
    length (mpsc_received s c) ≤ mpsc_taken s c + mpsc_capacity s c;
}.

(** Taking a message drops no receiver. *)
Class KeepsReading {Msg Chans : Type} `{BoundedChannels Msg Chans} (open : SinkId → Chans → Prop) : Prop :=
  keep_after_recv s t c : open s c → open s (mpsc_recv t c).2.

(** ** [futures::future::select_ok]

    The futures run side by side and the first success wins; the error of the
    one that fails last is reported when all of them fail.  Seen from outside
    they complete one after the other, in an order the reactor chooses; a future
    that did not get to complete has had no effect.  The empty list makes
    [select_ok] panic, callers exclude it. *)
Fixpoint first_ok {W E A} (f : Future W E A) (fs : list (Future W E A)) : Future W E A := λ w,
  match f w with
  | (Ok a, w) => (Ok a, w)
  | (Err e, w) => match fs with [] => (Err e, w) | g :: gs => first_ok g gs w end
  end.

Class SelectOk (W : Type) :=
  { select_ok : ∀ E A : Type, Future W E A → list (Future W E A) → Future W E A }.
Arguments select_ok {W _ E A}.

Class SelectOkLaws (W : Type) `{SelectOk W} : Prop := {
  select_ok_order E A (f : Future W E A) fs w :
    ∃ g gs, g :: gs ≡ₚ f :: fs ∧ select_ok f fs w = first_ok g gs w
}.

Lemma first_ok_inv {W E A} (f : Future W E A) fs w a w' :
  first_ok f fs w = (Ok a, w') → ∃ g w0, g ∈ f :: fs ∧ g w0 = (Ok a, w').
Proof.
  revert f w; induction fs as [|h fs IH]; intros f w; simpl.
  - destruct (f w) as [[b|e] w1] eqn:Hf; [|done]. intros [= -> ->]. exists f, w. split; [left|done].
  - destruct (f w) as [[b|e] w1] eqn:Hf.
    + intros [= -> ->]. exists f, w. split; [left|done].
    + intros H. destruct (IH _ _ H) as (g & w0 & Hin & Hg). exists g, w0. split; [by right|done].
Qed.

(** What [select_ok] succeeds with came from one of its futures. *)
Lemma select_ok_inv `{SelectOkLaws W} {E A} (f : Future W E A) fs w a w' :
  select_ok f fs w = (Ok a, w') → ∃ g w0, g ∈ f :: fs ∧ g w0 = (Ok a, w').
Proof.
  destruct (select_ok_order E A f fs w) as (g & gs & Hp & ->). intros Hok.
  destruct (first_ok_inv _ _ _ _ _ Hok) as (h & w0 & Hin & Hh). exists h, w0. by rewrite <- Hp.
Qed.

(** ** [HashMap::values], in the order of the hash table *)
Class HashValues (K : Type) `{Countable K} :=
  { hash_values : ∀ A : Type, gmap K A → list A }.
Arguments hash_values {K _ _ _ A}.

Class HashValuesLaws (K : Type) `{HashValues K} : Prop := {
  hash_values_perm A (m : gmap K A) : hash_values m ≡ₚ (map_to_list m).*2
}.

(** ** Sample instances *)
Module Sample.

(** Length-prefixed fields, the length as a run of [x01] closed by [x00]. *)
Fixpoint unary (n : nat) : bytes :=
  match n with O => [x00] | S n => x01 :: unary n end.

Definition field (b : bytes) : bytes := unary (length b) ++ b.

Definition bincode : Bincode :=
  {| bincode_serialize s a b := field (String.list_byte_of_string s) ++ field a ++ field b |}.

(** Multihash with an identity digest behind the Keccak-256 code. *)
Definition multihash : Multihash :=
  {| MhAlg := unit; mh_Keccak256 := tt;
     mh_decode_alg b :=
       match b with
       | x1b :: _ => Ok tt
       | [] => Err Mh_BadInputLength
       | _ => Err Mh_UnknownCode
       end;
     mh_encode _ d := Ok (x1b :: d) |}.

Definition multibase : Multibase :=
  {| MbBase := unit; mb_Base64url := tt;
     mb_encode _ b := String "u"%char (String.string_of_list_byte b);
     mb_decode s :=
       match s with
       | String "u"%char s => Ok (tt, String.list_byte_of_string s)
       | _ => Err "unknown base"
       end |}.

(** The public key is the seed; a signature is the key followed by the data. *)
Definition ed25519 : Ed25519 :=
  {| ed_Seed := bytes; ed_PublicKey := bytes; ed_Signature := bytes;
     ed_seed_from_slice b := match b with [] => Err "empty seed" | _ => Ok b end;
     ed_public_key s := Ok s;
     ed_sign s d := s ++ d;
     ed_public_from_bytes := Ok;
     ed_signature_from_bytes := Ok;
     ed_verify p d s := if decide (s = p ++ d) then Ok tt else Err "bad signature" |}.

Section channels.
Context {Msg : Type}.

(** Logs of what was sent, a set of channels whose receiver was dropped, the
    state of each oneshot, the capacities, and how much was taken out. *)
Record chans : Type := mkChans
  { next_id : nat; logs : gmap nat (list Msg); closed : gset nat;
    oneshots : gmap nat (OneshotState (option SinkId));
    capacities : gmap nat nat; takens : gmap nat nat }.

Definition chans_empty : chans := mkChans 0 ∅ ∅ ∅ ∅ ∅.

Definition received (s : nat) (c : chans) : list Msg := default [] (logs c !! s).

Definition poll (o : nat) (c : chans) : OneshotState (option SinkId) :=
  default Canceled (oneshots c !! o).

#[export] Instance channels : Channels Msg chans :=
  {| mpsc_channel n c :=
       (next_id c, mkChans (S (next_id c)) (<[next_id c := []]> (logs c))
                           (closed c ∖ {[next_id c]}) (oneshots c)
                           (<[next_id c := n]> (capacities c)) (<[next_id c := 0]> (takens c)));
     mpsc_send s m c :=
       if decide (s ∈ closed c) then (Err "receiver dropped", c)
       else (Ok tt, mkChans (next_id c) (<[s := received s c ++ [m]]> (logs c))
                            (closed c) (oneshots c) (capacities c) (takens c));
     mpsc_received := received;
     oneshot_channel c :=
       (next_id c, mkChans (S (next_id c)) (logs c) (closed c)
                           (<[next_id c := NotReady]> (oneshots c)) (capacities c) (takens c));
     oneshot_send o v c :=
       (Ok tt, mkChans (next_id c) (logs c) (closed c) (<[o := Sent v]> (oneshots c))
                       (capacities c) (takens c));
     oneshot_drop o c :=
       match poll o c with
       | NotReady => mkChans (next_id c) (logs c) (closed c) (<[o := Canceled]> (oneshots c))
                             (capacities c) (takens c)
       | _ => c
       end;
     oneshot_poll := poll |}.

Definition capacity (s : nat) (c : chans) : nat := default 0 (capacities c !! s).
Definition taken (s : nat) (c : chans) : nat := default 0 (takens c !! s).

#[export] Instance bounded : BoundedChannels Msg chans :=
  {| mpsc_capacity := capacity;
     mpsc_taken := taken;
     mpsc_ready s c :=
       bool_decide (s ∈ closed c) || bool_decide (length (received s c) ≤ taken s c + capacity s c);
     mpsc_recv s c :=
       match received s c !! taken s c with
       | Some m => (Some m, mkChans (next_id c) (logs c) (closed c) (oneshots c) (capacities c)
                              (<[s := S (taken s c)]> (takens c)))
       | None => (None, c)
       end |}.

End channels.
Arguments chans : clear implicits.

(** Dropping the receiving end of a channel. *)
Definition close {Msg} (s : nat) (c : chans Msg) : chans Msg :=
  mkChans (next_id c) (logs c) ({[s]} ∪ closed c) (oneshots c) (capacities c) (takens c).

Lemma unary_app_inj m n xs ys : unary m ++ xs = unary n ++ ys → m = n ∧ xs = ys.
Proof.
  revert n; induction m as [|m IH]; intros [|n]; simpl; intros [=]; try done.
  by destruct (IH n) as [-> ->].
Qed.

Lemma field_app_inj a a' xs ys : field a ++ xs = field a' ++ ys → a = a' ∧ xs = ys.
Proof.
  unfold field. rewrite <- !app_assoc. intros [Hl H]%unary_app_inj.
  by apply app_inj_1 in H.
Qed.

(** A self-delimiting text for byte strings, in place of JSON. *)
Fixpoint parse_unary (b : bytes) : option (nat * bytes) :=
  match b with
  | x00 :: b => Some (0, b)
  | x01 :: b => '(n, b) ← parse_unary b; Some (S n, b)
  | _ => None
  end.

Definition json_bytes : SerdeJson bytes :=
  {| json_to_vec b := Ok (field b);
     json_from_slice b :=
       match parse_unary b with
       | Some (n, b) => if decide (length b = n) then Ok b else Err "trailing characters"
       | None => Err "expected value"
       end |}.

Lemma parse_unary_unary n b : parse_unary (unary n ++ b) = Some (n, b).
Proof. induction n as [|n IH]; simpl; [done|]. by rewrite IH. Qed.

Lemma parse_unary_inv b n b' : parse_unary b = Some (n, b') → b = unary n ++ b'.
Proof.
  revert n; induction b as [|[] b IH]; intros n; simpl; try done.
  - by intros [= <- <-].
  - destruct (parse_unary b) as [[m b'']|]; simpl; [|done]. intros [= <- <-].
    simpl. by rewrite (IH m).
Qed.

Lemma json_bytes_inv b x : @json_from_slice _ json_bytes b = Ok x → b = field x.
Proof.
  simpl. destruct (parse_unary b) as [[n b']|] eqn:Hp; [|done].
  case_decide as Hn; [|done]. intros [= ->]. apply parse_unary_inv in Hp. by subst.
Qed.

#[export] Instance json_bytes_laws : @SerdeJsonLaws bytes json_bytes.
Proof.
  split. intros x b. simpl. intros [= <-]. unfold field. rewrite parse_unary_unary.
  by rewrite decide_True.
Qed.

#[export] Instance bincode_laws : @BincodeLaws bincode.
Proof.
  split. intros s a b s' a' b' _ _ _ _. simpl.
  intros [Hs [Ha Hb]%field_app_inj]%field_app_inj. split_and!; [|done|].
  - apply (f_equal String.string_of_list_byte) in Hs.
    by rewrite !String.string_of_list_byte_of_string in Hs.
  - rewrite <- (app_nil_r (field b)), <- (app_nil_r (field b')) in Hb.
    by apply field_app_inj in Hb as [-> _].
Qed.

#[export] Instance multihash_laws : @MultihashLaws multihash.
Proof. split; simpl; [eauto|]. intros [] d h. by intros [= <-]. Qed.

#[export] Instance multibase_laws : @MultibaseLaws multibase.
Proof. split. intros [] b. simpl. by rewrite String.list_byte_of_string_of_list_byte. Qed.

#[export] Instance ed25519_laws : @Ed25519Laws ed25519.
Proof.
  split. intros seed pk data [= ->]. exists pk, (pk ++ data). simpl.
  by rewrite decide_True.
Qed.

(** The futures complete in the order of the list; the table is in key order. *)
Definition select_first {W} : SelectOk W := {| select_ok E A := first_ok |}.

#[export] Instance select_first_laws W : @SelectOkLaws W select_first.
Proof. split. intros E A f fs w. by exists f, fs. Qed.

Definition hash_in_order {K} `{Countable K} : HashValues K :=
  {| hash_values A m := (map_to_list m).*2 |}.

#[export] Instance hash_in_order_laws {K} `{Countable K} : @HashValuesLaws K _ _ hash_in_order.
Proof. by split. Qed.

#[export] Instance channels_laws Msg : ChannelsLaws Msg (chans Msg).
Proof.
  split; simpl; unfold received, poll; intros.
  - simplify_eq/=. split; [by rewrite lookup_insert_eq|].
    intros s' ?. by rewrite lookup_insert_ne.
  - case_decide; simplify_eq/=. split; [by rewrite lookup_insert_eq|].
    intros s' ?. by rewrite lookup_insert_ne.
  - case_decide; by simplify_eq/=.
  - simplify_eq/=. by rewrite lookup_insert_eq.
  - rewrite H. simpl. by rewrite lookup_insert_eq.
  - by destruct (default Canceled (oneshots c !! o)).
  - simplify_eq/=. by rewrite lookup_insert_eq.
  - done.
  - by case_decide.
Qed.

#[export] Instance bounded_laws Msg : BoundedLaws Msg (chans Msg).
Proof.
  split; simpl; unfold capacity, taken; intros.
  - simplify_eq/=. rewrite !lookup_insert_eq. split_and!; [done..|].
    intros s' ?. by rewrite !lookup_insert_ne.
  - by case_decide.
  - by destruct (received s c !! _).
  - destruct (received s c !! _) as [m|] eqn:Hm; simpl.
    + do 2 (split; [done|]). destruct (decide (s' = s)) as [->|Hne].
      * by rewrite lookup_insert_eq, decide_True.
      * rewrite lookup_insert_ne by done. by rewrite decide_False by naive_solver.
    + do 2 (split; [done|]). rewrite decide_False; [done|]. by intros [_ []].
  - apply orb_true_iff. right. by apply bool_decide_eq_true.
  - case_decide; [done|]. rewrite bool_decide_false in H by done. by apply bool_decide_eq_true in H.
Qed.

(** Channels that were made and whose receiver is there. *)
Definition is_open {Msg} (s : SinkId) (c : chans Msg) : Prop := s < next_id c ∧ s ∉ closed c.

#[export] Instance keeps_open Msg : KeepsOpen (Msg:=Msg) is_open.
Proof.
  split; unfold is_open; simpl.
  - intros _ c. split; [lia|set_solver].
  - intros s m c [_ Ho]. by rewrite decide_False.
  - intros s t m c Ho. by case_decide.
  - intros s _ c [Ho ?]. split; [lia|]. split; [lia|set_solver].
  - intros s c [??]. split; [lia|done].
  - done.
Qed.

#[export] Instance keeps_reading Msg : KeepsReading (Msg:=Msg) is_open.
Proof. intros s t c Ho. simpl. by destruct (received t c !! _). Qed.

Definition is_live {Msg} (o : OneshotId) (c : chans Msg) : Prop := o < next_id c.

#[export] Instance keeps_live Msg : KeepsLive (Msg:=Msg) is_live.
Proof.
  split; unfold is_live; simpl; unfold poll; intros; try lia; try done.
  - split; [lia|done].
  - case_decide; simpl; lia.
  - split; [lia|]. split; [lia|]. simpl. rewrite lookup_insert_ne by lia. done.
  - split; [done|]. intros Hne. simpl. by rewrite lookup_insert_ne.
Qed.

End Sample.
