(* ===== verification/FutureUtil.v ===== *)
(** * Collecting the results of many futures ([home-protocol/src/future.rs])

    [collect_results] loops over [select_all]; [collect_results2] is the
    hand-written [poll_fn].  Both must deliver every result, successes and
    failures alike, in the order of the input futures. *)

From stdpp Require Import sorting.
From S2P Require Import Prelude.

(** The comparison given to the sort. *)
Definition index_le {A} (p q : nat * A) : Prop := p.1 ≤ q.1.
#[global] Instance index_le_dec {A} : RelDecision (@index_le A).
Proof. unfold index_le. solve_decision. Defined.
#[global] Instance index_le_total {A} : Total (@index_le A).
Proof. intros p q. unfold index_le. lia. Qed.
#[global] Instance index_le_trans {A} : Transitive (@index_le A).
Proof. intros p q r. unfold index_le. lia. Qed.

Section collect.
Context {Fut T E : Type}.

(** What a future completes with. *)
Context (result_of : Fut → Result E T).

(** [slice::sort_unstable_by] on the original index. *)
Definition sort_by_index {A} (l : list (nat * A)) : list (nat * A) :=
  merge_sort index_le l.

(** The iterator [enumerate()] makes. *)
Fixpoint enumerate_from {A} (i : nat) (l : list A) : list (nat * A) :=
  match l with [] => [] | a :: l => (i, a) :: enumerate_from (S i) l end.
Definition enumerate {A} (l : list A) : list (nat * A) := enumerate_from 0 l.

(** ** [collect_results]

    [select_all] is the combinator of the [futures] crate: it waits for the
    first of the (tagged) futures to complete and returns its result with the
    futures that are left. *)
Context (select_all : list (nat * Fut) → (nat * Result E T) * list (nat * Fut)).

(** [loop_fn]: one iteration per future; [fuel] bounds the iterations. *)
Fixpoint collect_loop (fuel : nat) (finished_results : list (nat * Result E T))
    (pending_futures : list (nat * Fut)) : option (list (nat * Result E T)) :=
  match fuel with
  | O => None
  | S fuel =>
      let '(first_finished_res, rest) := select_all pending_futures in
      let completed := finished_results ++ [first_finished_res] in
      match rest with
      | [] => Some completed
      | _ => collect_loop fuel completed rest
      end
  end.

Definition collect_results (futures_iterator : list Fut) : option (list (Result E T)) :=
  let futures_vec := enumerate futures_iterator in
  match futures_vec with
  | [] => Some []
  | _ =>
      idx_res_vec ← collect_loop (length futures_vec) [] futures_vec;
      Some ((sort_by_index idx_res_vec).*2)
  end.

(** ** [collect_results2]

    [poll t f] is the outcome of polling [f] in the [t]-th round: [None] for
    [NotReady]. *)
Context (poll : nat → Fut → option (Result E T)).

(** The [filter_map] over the drained input. *)
Fixpoint poll_inputs (t : nat) (input : list (nat * Fut)) (output : list (nat * Result E T))
  : list (nat * Fut) * list (nat * Result E T) :=
  match input with
  | [] => ([], output)
  | (idx, f) :: input =>
      match poll t f with
      | None => let '(x, output) := poll_inputs t input output in ((idx, f) :: x, output)
      | Some r => poll_inputs t input (output ++ [(idx, r)])
      end
  end.

(** One call of the closure given to [poll_fn]: [Some] when it is ready. *)
Definition poll_fn_step (t : nat) (st : list (nat * Fut) * list (nat * Result E T))
  : option (list (Result E T)) * (list (nat * Fut) * list (nat * Result E T)) :=
  let '(x, output) := poll_inputs t st.1 st.2 in
  match x with
  | [] => (Some ((sort_by_index output).*2), ([], []))
  | _ => (None, (x, output))
  end.

(** Rounds [t], [t+1], ... until one is ready, at most [n] of them. *)
Fixpoint poll_rounds (n t : nat) (st : list (nat * Fut) * list (nat * Result E T))
  : option (list (Result E T)) :=
  match n with
  | O => None
  | S n => match poll_fn_step t st with
           | (Some r, _) => Some r
           | (None, st') => poll_rounds n (S t) st'
           end
  end.

Definition collect_results2 (n : nat) (futures_iterator : list Fut) : option (list (Result E T)) :=
  poll_rounds n 0 (enumerate futures_iterator, []).

(** ** Documented behaviour of the combinator and of polling *)

(** [select_all] on a non-empty list returns the result of one of the futures
    and the others, in some order. *)
Definition select_all_ok : Prop :=
  ∀ l, l ≠ [] → ∃ l1 i f l2, l = l1 ++ (i, f) :: l2
    ∧ (select_all l).1 = (i, result_of f) ∧ (select_all l).2 ≡ₚ l1 ++ l2.

(** A future becomes ready with its own result only. *)
Definition poll_ok : Prop := ∀ t f r, poll t f = Some r → r = result_of f.

End collect.

(** ** Lemmas *)

Section lemmas.
Context {Fut T E : Type} (result_of : Fut → Result E T).

(** The tagged results of tagged futures. *)
Definition tag_result (p : nat * Fut) : nat * Result E T := (p.1, result_of p.2).

Lemma enumerate_from_fst {A} i (l : list A) : (enumerate_from i l).*1 = seq i (length l).
Proof. revert i; induction l as [|a l IH]; intros i; simpl; [done|]. by rewrite IH. Qed.

Lemma enumerate_from_snd {A} i (l : list A) : (enumerate_from i l).*2 = l.
Proof. revert i; induction l as [|a l IH]; intros i; simpl; [done|]. by rewrite IH. Qed.

Lemma length_enumerate_from {A} i (l : list A) : length (enumerate_from i l) = length l.
Proof. rewrite <- (enumerate_from_snd i l) at 2. by rewrite length_fmap. Qed.

Lemma tag_enumerate_fst i l : (tag_result <$> enumerate_from i l).*1 = seq i (length l).
Proof.
  rewrite <- (enumerate_from_fst i l), <- list_fmap_compose. by apply list_fmap_ext.
Qed.

Lemma tag_enumerate_snd i l : (tag_result <$> enumerate_from i l).*2 = result_of <$> l.
Proof.
  rewrite <- (enumerate_from_snd i l) at 2. rewrite <- !list_fmap_compose.
  by apply list_fmap_ext.
Qed.

(** Two lists with the same entries, both strictly ordered by index, are equal. *)
Lemma sorted_by_index_unique {A} (l k : list (nat * A)) i n :
  l ≡ₚ k → k.*1 = seq i n → StronglySorted index_le l → l = k.
Proof.
  revert l i n; induction k as [|[j a] k IH]; intros l i n Hp Hk Hs.
  - by apply Permutation_nil_r in Hp.
  - destruct n as [|n]; [done|]. injection Hk as -> Hk. change (k.*1 = seq (S i) n) in Hk.
    destruct l as [|[j' a'] l]; [by apply Permutation_nil_l in Hp|].
    apply StronglySorted_inv in Hs as [Hs Hall].
    assert (j' = i) as ->.
    { assert (i ≤ j').
      { assert (j' ∈ ((i, a) :: k).*1) as Hin.
        { rewrite <- Hp. simpl. left. }
        change (j' ∈ i :: k.*1) in Hin. rewrite Hk in Hin. apply elem_of_cons in Hin as [->|Hin]; [done|].
        apply elem_of_seq in Hin. lia. }
      assert ((i, a) ∈ (j', a') :: l) as Hin by (rewrite Hp; left).
      apply elem_of_cons in Hin as [[= -> ->]|Hin]; [done|].
      rewrite Forall_forall in Hall. apply list_elem_of_In, Hall in Hin as Hle. clear Hall; rename Hle into Hall. unfold index_le in Hall. simpl in Hall. lia. }
    assert ((i, a') ∈ (i, a) :: k) as Hin by (rewrite <- Hp; left).
    apply elem_of_cons in Hin as [[= ->]|Hin].
    + f_equal. eapply IH; [|exact Hk|done]. by eapply Permutation_cons_inv.
    + exfalso. assert (i ∈ k.*1) as Hi.
      { apply list_elem_of_fmap. by exists (i, a'). }
      rewrite Hk, elem_of_seq in Hi. lia.
Qed.

Lemma sort_by_index_tagged l (out : list (nat * Result E T)) :
  out ≡ₚ tag_result <$> enumerate l → (sort_by_index out).*2 = result_of <$> l.
Proof.
  intros Hp. rewrite <- (tag_enumerate_snd 0). f_equal.
  eapply (sorted_by_index_unique _ _ 0 (length l)).
  - unfold sort_by_index. by rewrite merge_sort_Permutation.
  - apply tag_enumerate_fst.
  - apply (StronglySorted_merge_sort _).
Qed.

Lemma collect_loop_complete select_all (Hsel : select_all_ok result_of select_all)
    fuel finished pending :
  pending ≠ [] → length pending ≤ fuel →
  ∃ out, collect_loop select_all fuel finished pending = Some out
         ∧ out ≡ₚ finished ++ (tag_result <$> pending).
Proof.
  revert finished pending; induction fuel as [|fuel IH]; intros finished pending Hne Hlen.
  { destruct pending; simpl in *; [done|lia]. }
  destruct (Hsel pending Hne) as (l1 & i & f & l2 & -> & H1 & H2). simpl.
  destruct (select_all _) as [res rest]; simpl in *; subst res.
  assert (tag_result <$> l1 ++ (i, f) :: l2 ≡ₚ (i, result_of f) :: (tag_result <$> rest)) as Ht.
  { rewrite H2, !fmap_app. simpl. by rewrite Permutation_middle. }
  rewrite length_app in Hlen; simpl in Hlen.
  assert (length rest = length l1 + length l2) as Hr by (by rewrite H2, length_app).
  destruct rest as [|p rest].
  - eexists; split; [done|]. by rewrite Ht.
  - destruct (IH (finished ++ [(i, result_of f)]) (p :: rest)) as (out & -> & Hout);
      [done|simpl in *; lia|].
    eexists; split; [done|]. by rewrite Hout, Ht, <- app_assoc.
Qed.

Lemma collect_results_total select_all (Hsel : select_all_ok result_of select_all) futs :
  collect_results select_all futs = Some (result_of <$> futs).
Proof.
  unfold collect_results. destruct futs as [|f futs]; [done|].
  change (enumerate (f :: futs)) with ((0, f) :: enumerate_from 1 futs).
  cbn beta iota. destruct (collect_loop_complete select_all Hsel
    (length ((0, f) :: enumerate_from 1 futs)) [] ((0, f) :: enumerate_from 1 futs))
    as (out & -> & Hout); [done..|].
  cbn [mbind option_bind]. f_equal. by apply (sort_by_index_tagged (f :: futs)).
Qed.

Lemma poll_inputs_perm poll (Hp : poll_ok result_of poll) t input output :
  (poll_inputs poll t input output).2 ++ (tag_result <$> (poll_inputs poll t input output).1)
  ≡ₚ output ++ (tag_result <$> input).
Proof.
  revert output; induction input as [|[i f] input IH]; intros output; simpl; [done|].
  destruct (poll t f) as [r|] eqn:Hr.
  - rewrite IH. apply Hp in Hr as ->. by rewrite <- app_assoc.
  - specialize (IH output). destruct (poll_inputs poll t input output) as [x out]; simpl in *.
    by rewrite <- !Permutation_middle, IH.
Qed.

(** What stays pending after a round was pending before and was not ready. *)
Lemma poll_inputs_pending (poll : nat → Fut → option (Result E T)) t input output i f :
  (i, f) ∈ (poll_inputs poll t input output).1 → (i, f) ∈ input ∧ poll t f = None.
Proof.
  revert output; induction input as [|[j g] input IH]; intros output; simpl.
  { by intros ?%elem_of_nil. }
  destruct (poll t g) as [r|] eqn:Hr.
  - intros [??]%IH. split; [by right|done].
  - specialize (IH output). destruct (poll_inputs poll t input output) as [x out]; simpl in *.
    intros [[= -> ->]|Hin]%elem_of_cons; [split; [left|done]|].
    destruct (IH Hin). split; [by right|done].
Qed.

Lemma poll_rounds_result poll (Hp : poll_ok result_of poll) n t l st r :
  st.2 ++ (tag_result <$> st.1) ≡ₚ tag_result <$> enumerate l →
  poll_rounds poll n t st = Some r → r = result_of <$> l.
Proof.
  revert t st; induction n as [|n IH]; intros t st Hst; simpl; [done|].
  unfold poll_fn_step. pose proof (poll_inputs_perm poll Hp t st.1 st.2) as Hperm.
  destruct (poll_inputs poll t st.1 st.2) as [[|p x] out]; simpl in *.
  - intros [= <-]. apply sort_by_index_tagged. by rewrite <- Hst, <- Hperm, app_nil_r.
  - apply IH. simpl. by rewrite <- Hst, <- Hperm.
Qed.

Lemma poll_rounds_ready (poll : nat → Fut → option (Result E T)) n t st :
  (∀ i f, (i, f) ∈ st.1 → ∃ k, k < S n ∧ poll (t + k) f ≠ None) →
  ∃ r, poll_rounds poll (S n) t st = Some r.
Proof.
  revert t st; induction n as [|n IH]; intros t st Hready.
  - simpl. unfold poll_fn_step.
    pose proof (poll_inputs_pending poll t st.1 st.2) as Hpend.
    destruct (poll_inputs poll t st.1 st.2) as [[|[i f] x] out]; simpl in *; [eauto|].
    destruct (Hpend i f) as [Hin Hnone]; [left|].
    destruct (Hready i f Hin) as (k & ? & Hk). replace k with 0 in Hk by lia.
    by rewrite Nat.add_0_r, Hnone in Hk.
  - cbn [poll_rounds]. unfold poll_fn_step at 1.
    pose proof (poll_inputs_pending poll t st.1 st.2) as Hpend.
    destruct (poll_inputs poll t st.1 st.2) as [[|p x] out]; [eauto|].
    apply IH. intros i f Hin. destruct (Hpend i f Hin) as [Hin' Hnone].
    destruct (Hready i f Hin') as ([|k] & ? & Hk).
    { by rewrite Nat.add_0_r, Hnone in Hk. }
    exists k. split; [lia|]. by replace (S t + k) with (t + S k) by lia.
Qed.

End lemmas.

(** ** Theorems *)

Section theorems.
Context {Fut T E : Type} (result_of : Fut → Result E T).

(** C34: [collect_results] terminates for every list of futures, the empty one
    included, after one iteration per future, and returns every result in the
    order of the input, whichever future [select_all] completes first. *)
Theorem collect_results_spec select_all (futs : list Fut) :
  select_all_ok result_of select_all →
  collect_results select_all futs = Some (result_of <$> futs).
Proof.
  intros Hsel. by apply collect_results_total.
Qed.

(** C35: the two implementations agree: whenever [collect_results2] is ready, it
    returns what [collect_results] does, and it is ready no later than the round
    by which every future has been ready in some round. *)
Theorem collect_results2_equiv select_all poll n (futs : list Fut) :
  select_all_ok result_of select_all → poll_ok result_of poll →
  (∀ f, f ∈ futs → ∃ k, k < S n ∧ poll k f ≠ None) →
  collect_results2 poll (S n) futs = collect_results select_all futs
  ∧ ∀ m r, collect_results2 poll m futs = Some r →
      collect_results select_all futs = Some r.
Proof.
  intros Hsel Hpoll Hready.
  rewrite (collect_results_total result_of select_all Hsel).
  assert (∀ m r, collect_results2 poll m futs = Some r → Some (result_of <$> futs) = Some r)
    as Hsafe.
  { intros m r Hr. f_equal. symmetry.
    by eapply (poll_rounds_result result_of poll Hpoll _ _ _ (enumerate futs, [])). }
  split; [|done].
  destruct (poll_rounds_ready poll n 0 (enumerate futs, [])) as [r Hr].
  { intros i f Hin. apply Hready. simpl in Hin. unfold enumerate in Hin.
    rewrite <- (enumerate_from_snd 0 futs). apply list_elem_of_fmap. by exists (i, f). }
  unfold collect_results2. rewrite Hr. symmetry. by eapply Hsafe.
Qed.

End theorems.

(** ** Witnesses: futures that know the round in which they complete *)

Section witnesses.

(** A [select_all] that always completes the last of the futures first. *)
Definition select_last (l : list (nat * (nat * Result string nat)))
  : (nat * Result string nat) * list (nat * (nat * Result string nat)) :=
  match rev l with
  | [] => ((0, Err "select_all on an empty list"), [])
  | (i, f) :: rest => ((i, f.2), rev rest)
  end.

Definition poll_at (t : nat) (f : nat * Result string nat) : option (Result string nat) :=
  if Nat.leb f.1 t then Some f.2 else None.

Lemma select_last_ok : select_all_ok snd select_last.
Proof.
  intros l Hne. unfold select_last. destruct (rev l) as [|[i f] rest] eqn:Hr.
  - apply (f_equal (@rev _)) in Hr. by rewrite rev_involutive in Hr.
  - apply (f_equal (@rev _)) in Hr. rewrite rev_involutive in Hr. simpl in Hr.
    exists (rev rest), i, f, []. by rewrite app_nil_r.
Qed.

Lemma poll_at_ok : poll_ok snd poll_at.
Proof. intros t f r. unfold poll_at. case_match; congruence. Qed.

Lemma collect_results_spec_witness :
  collect_results select_last [(2, Ok 1); (0, Err "e"); (1, Ok 3)] = Some [Ok 1; Err "e"; Ok 3].
Proof. apply (collect_results_spec snd select_last). exact select_last_ok. Defined.

Lemma collect_results2_equiv_witness :
  collect_results2 poll_at 3 [(2, Ok 1); (0, Err "e"); (1, Ok 3)]
  = collect_results select_last [(2, Ok 1); (0, Err "e"); (1, Ok 3)].
Proof.
  apply (collect_results2_equiv snd select_last poll_at 2).
  - exact select_last_ok.
  - exact poll_at_ok.
  - intros f Hin. exists 2. split; [lia|].
    rewrite !elem_of_cons in Hin. destruct Hin as [->|[->|[->|Hin]]]; [done..|].
    by apply elem_of_nil in Hin.
Defined.
End witnesses.
