(* ===== verification/Strs.v ===== *)
(** * The operations of [std::str] the parsers use

    Strings are sequences of UTF-8 bytes, indexed by byte.  The separators the
    sources look for are ASCII, so the slices below always fall on character
    boundaries. *)

From Stdlib Require Import Strings.Ascii.
From S2P Require Import Prelude.

(** [str::starts_with(char)]. *)
Definition starts_with (c : ascii) (s : string) : bool :=
  match s with String d _ => bool_decide (d = c) | EmptyString => false end.

(** [str::find(char)]. *)
Fixpoint find_char (c : ascii) (s : string) : option nat :=
  match s with
  | EmptyString => None
  | String d s => if decide (d = c) then Some 0 else S <$> find_char c s
  end.

(** [str::split_at]: panics beyond the end. *)
Fixpoint split_at (n : nat) (s : string) : Panicking (string * string) :=
  match n, s with
  | O, _ => Returns (EmptyString, s)
  | S n, String c s => '(a, b) ← split_at n s; Returns (String c a, b)
  | S _, EmptyString => Panics
  end.

(** [&s[n..]]: panics beyond the end. *)
Fixpoint slice_from (n : nat) (s : string) : Panicking string :=
  match n, s with
  | O, _ => Returns s
  | S n, String _ s => slice_from n s
  | S _, EmptyString => Panics
  end.

(** [str::split(char)]: always at least one piece. *)
Fixpoint split (c : ascii) (s : string) : list string :=
  match s with
  | EmptyString => [EmptyString]
  | String d s =>
      if decide (d = c) then EmptyString :: split c s
      else match split c s with
           | [] => [String d EmptyString]
           | p :: ps => String d p :: ps
           end
  end.

(** [c] does not occur in [s]. *)
Fixpoint no_char (c : ascii) (s : string) : bool :=
  match s with
  | EmptyString => true
  | String d s => bool_decide (d ≠ c) && no_char c s
  end.

(** Joining pieces with a separator, the inverse of [split]. *)
Fixpoint join (c : ascii) (ps : list string) : string :=
  match ps with
  | [] => EmptyString
  | [p] => p
  | p :: ps => p +:+ String c (join c ps)
  end.

(** ** Lemmas *)

Lemma string_app_nil_r s : s +:+ "" = s.
Proof. induction s as [|c s IH]; simpl; [done|]. unfold String.app in *. simpl. by rewrite IH. Qed.

Lemma string_app_cons c s t : String c s +:+ t = String c (s +:+ t).
Proof. done. Qed.

Lemma no_char_cons c d s : no_char c (String d s) = true ↔ d ≠ c ∧ no_char c s = true.
Proof. simpl. rewrite andb_true_iff, bool_decide_eq_true. done. Qed.

Lemma find_char_app c s t :
  no_char c s = true → find_char c (s +:+ String c t) = Some (String.length s).
Proof.
  induction s as [|d s IH]; [intros _; unfold String.app; simpl; by rewrite decide_True|].
  intros [Hd Hs]%no_char_cons. rewrite string_app_cons. simpl.
  rewrite decide_False by done. by rewrite IH.
Qed.

Lemma find_char_None c s : find_char c s = None ↔ no_char c s = true.
Proof.
  induction s as [|d s IH]; simpl; [done|]. rewrite andb_true_iff, bool_decide_eq_true.
  case_decide as Hd; [naive_solver|]. destruct (find_char c s); naive_solver.
Qed.

Lemma find_char_Some c s n :
  find_char c s = Some n →
  ∃ a b, s = a +:+ String c b ∧ no_char c a = true ∧ n = String.length a.
Proof.
  revert n; induction s as [|d s IH]; intros n; simpl; [done|].
  case_decide as Hd.
  - intros [= <-]. subst d. by exists "", s.
  - destruct (find_char c s) as [m|]; simpl; [|done]. intros [= <-].
    destruct (IH m eq_refl) as (a & b & -> & Ha & ->).
    exists (String d a), b. rewrite string_app_cons, no_char_cons. done.
Qed.

Lemma split_at_app s t : split_at (String.length s) (s +:+ t) = Returns (s, t).
Proof.
  induction s as [|c s IH]; [done|]. rewrite string_app_cons. simpl. by rewrite IH.
Qed.

Lemma split_at_length s : split_at (String.length s) s = Returns (s, "").
Proof. rewrite <- (string_app_nil_r s) at 2. apply split_at_app. Qed.

Lemma split_no_char c s : no_char c s = true → split c s = [s].
Proof.
  induction s as [|d s IH]; [done|]. intros [Hd Hs]%no_char_cons. simpl.
  rewrite decide_False by done. by rewrite IH.
Qed.

Lemma split_app c s t : no_char c s = true → split c (s +:+ String c t) = s :: split c t.
Proof.
  induction s as [|d s IH]; [intros _; unfold String.app; simpl; by rewrite decide_True|].
  intros [Hd Hs]%no_char_cons. rewrite string_app_cons. simpl.
  rewrite decide_False by done. by rewrite IH.
Qed.

Lemma split_join c ps :
  ps ≠ [] → Forall (λ p, no_char c p = true) ps → split c (join c ps) = ps.
Proof.
  induction ps as [|p ps IH]; [done|]. intros _ Hall.
  apply Forall_cons_1 in Hall as [Hp Hps]. destruct ps as [|q ps].
  - simpl. by apply split_no_char.
  - change (join c (p :: q :: ps)) with (p +:+ String c (join c (q :: ps))).
    rewrite split_app by done. by rewrite IH.
Qed.

Lemma split_not_nil c s : split c s ≠ [].
Proof. destruct s as [|d s]; simpl; [done|]. case_decide; [done|]. by destruct (split c s). Qed.

Lemma join_split c s : join c (split c s) = s.
Proof.
  induction s as [|d s IH]; simpl; [done|]. pose proof (split_not_nil c s) as Hne.
  case_decide as Hd; destruct (split c s) as [|p ps]; try done.
  - subst d. change (join c ("" :: p :: ps)) with (String c (join c (p :: ps))). by rewrite IH.
  - destruct ps as [|q ps].
    + simpl in IH. simpl. by rewrite IH.
    + change (join c (String d p :: q :: ps)) with (String d (join c (p :: q :: ps))).
      by rewrite IH.
Qed.

Lemma split_app_any c s t : split c (s +:+ String c t) = split c s ++ split c t.
Proof.
  induction s as [|d s IH].
  { unfold String.app. simpl. by rewrite decide_True. }
  rewrite string_app_cons. simpl. case_decide; [by rewrite IH|]. rewrite IH.
  pose proof (split_not_nil c s). by destruct (split c s).
Qed.

Lemma split_app_last c s t :
  no_char c t = true →
  ∃ ps p, split c s = ps ++ [p] ∧ split c (s +:+ t) = ps ++ [p +:+ t].
Proof.
  intros Ht. induction s as [|d s (ps & p & H1 & H2)].
  { exists [], "". simpl. split; [done|]. unfold String.app; simpl. by apply split_no_char. }
  rewrite string_app_cons. simpl. rewrite H1, H2. case_decide.
  { by exists ("" :: ps), p. }
  destruct ps as [|q ps]; simpl; [by exists [], (String d p)|by exists (String d q :: ps), p].
Qed.

Lemma starts_with_app c s t : s ≠ "" → starts_with c (s +:+ t) = starts_with c s.
Proof. by destruct s. Qed.

Lemma starts_with_no_char c s : no_char c s = true → starts_with c s = false.
Proof. destruct s; [done|]. intros [? _]%no_char_cons. by apply bool_decide_eq_false. Qed.

#[export] Hint Rewrite find_char_app split_at_app split_app split_no_char : mercury.
