(* ===== verification/Storage.v ===== *)
(** * Key-value stores ([storage/src/async/], [storage/src/sync/])

    The [KeyValueStore] interface with the laws its clients rely on, and its
    implementations: the in-memory stores, the key adapter and the file
    stores over a model of [std::fs]. *)

From Stdlib Require Import Strings.Ascii.
From S2P Require Import Prelude Errors External Strs.
Import Errors.Storage.

(** ** The interface

    All implementations below return futures that are already completed when
    the method returns, so a method is its effect on the store together with
    the result that future carries. *)
Class KeyValueStore (S K V : Type) := {
  kv_set : K → V → S → Result StorageError unit * S;
  kv_get : K → S → Result StorageError V;
  kv_clear_local : K → S → Result StorageError unit * S;
}.

(** What a client may rely on, for the keys that are [valid] for the store: a
    successful [set] is read back, a failed one leaves no third value behind, a
    successful [clear_local] removes the entry, a failed one changes nothing,
    and no operation touches another key. *)
Class KeyValueStoreLaws (S K V : Type) `{KeyValueStore S K V} (valid : K → Prop) : Prop := {
  kv_set_ok k v s s' : valid k → kv_set k v s = (Ok tt, s') → kv_get k s' = Ok v;
  kv_set_err k v s e s' v' : valid k →
    kv_set k v s = (Err e, s') → kv_get k s' = Ok v' → v' = v ∨ kv_get k s = Ok v';
  kv_set_other k v s r s' k' : valid k → valid k' →
    kv_set k v s = (r, s') → k' ≠ k → kv_get k' s' = kv_get k' s;
  kv_clear_ok k s s' : valid k →
    kv_clear_local k s = (Ok tt, s') → is_err (kv_get k s') = true;
  kv_clear_err k s e s' : valid k → kv_clear_local k s = (Err e, s') → kv_get k s' = kv_get k s;
  kv_clear_other k s r s' k' : valid k → valid k' →
    kv_clear_local k s = (r, s') → k' ≠ k → kv_get k' s' = kv_get k' s;
}.

(** Every key is valid. *)
Definition any_key {K : Type} (_ : K) : Prop := True.

(** ** [InMemoryStore]: the asynchronous and the synchronous version *)

Record InMemoryStore (K V : Type) `{Countable K} : Type := mkInMemoryStore { store_map : gmap K V }.
Arguments mkInMemoryStore {K V _ _}.
Arguments store_map {K V _ _}.

Section in_memory.
Context {K V : Type} `{Countable K}.

Definition InMemoryStore_new : InMemoryStore K V := mkInMemoryStore ∅.

Definition InMemoryStore_set (key : K) (object : V) (s : InMemoryStore K V)
  : Result StorageError unit * InMemoryStore K V :=
  (Ok tt, mkInMemoryStore (<[key := object]> (store_map s))).

Definition InMemoryStore_get (key : K) (s : InMemoryStore K V) : Result StorageError V :=
  match store_map s !! key with
  | Some val => Ok val
  | None => Err InvalidKey
  end.

Definition InMemoryStore_clear_local (key : K) (s : InMemoryStore K V)
  : Result StorageError unit * InMemoryStore K V :=
  (ok_or ((λ _, tt) <$> store_map s !! key) InvalidKey,
   mkInMemoryStore (delete key (store_map s))).

#[export] Instance InMemoryStore_kv : KeyValueStore (InMemoryStore K V) K V :=
  {| kv_set := InMemoryStore_set; kv_get := InMemoryStore_get;
     kv_clear_local := InMemoryStore_clear_local |}.

(** [storage/src/sync/imp.rs]: [store] and [lookup]. *)
Definition sync_store (key : K) (object : V) (s : InMemoryStore K V)
  : Result StorageError unit * InMemoryStore K V :=
  (Ok tt, mkInMemoryStore (<[key := object]> (store_map s))).

Definition sync_lookup (key : K) (s : InMemoryStore K V) : Result StorageError V :=
  ok_or (store_map s !! key) InvalidKey.

End in_memory.

(** ** [KeyAdapter]: a store used through converted keys *)

Record KeyAdapter (T : Type) : Type := mkKeyAdapter { adapted : T }.
Arguments mkKeyAdapter {T}.
Arguments adapted {T}.

Section key_adapter.
Context {Preferred Available V T : Type} (into : Preferred → Available)
        {KV : KeyValueStore T Available V}.

Definition KeyAdapter_set (key : Preferred) (value : V) (s : KeyAdapter T)
  : Result StorageError unit * KeyAdapter T :=
  let '(r, t) := kv_set (into key) value (adapted s) in (r, mkKeyAdapter t).

Definition KeyAdapter_get (key : Preferred) (s : KeyAdapter T) : Result StorageError V :=
  kv_get (into key) (adapted s).

Definition KeyAdapter_clear_local (key : Preferred) (s : KeyAdapter T)
  : Result StorageError unit * KeyAdapter T :=
  let '(r, t) := kv_clear_local (into key) (adapted s) in (r, mkKeyAdapter t).

Definition KeyAdapter_kv : KeyValueStore (KeyAdapter T) Preferred V :=
  {| kv_set := KeyAdapter_set; kv_get := KeyAdapter_get;
     kv_clear_local := KeyAdapter_clear_local |}.

End key_adapter.

(** ** A model of [std::fs]

    Files by path, the directories that exist, and a plan of the faults the
    next calls meet (none once the plan is used up).  A failing [write_all] has
    written a prefix. *)

Inductive Fault : Set :=
| NoFault
| IoFault (description : string) (written : nat).

Record FileSystem : Set := mkFileSystem
  { fs_files : gmap string bytes; fs_dirs : gset string; fs_plan : list Fault }.

Definition next_fault (fs : FileSystem) : Fault * FileSystem :=
  match fs_plan fs with
  | [] => (NoFault, fs)
  | f :: plan => (f, mkFileSystem (fs_files fs) (fs_dirs fs) plan)
  end.

(** Whether nothing follows the last separator of a path. *)
Definition ends_with_sep (path : string) : bool :=
  match rev (split "/"%char path) with
  | last :: _ => bool_decide (last = "")
  | [] => true
  end.

(** [Path::join]: an absolute argument replaces the base, and a separator is
    added where there is none. *)
Definition path_join (base key : string) : string :=
  if starts_with "/"%char key then key
  else if ends_with_sep base then base +:+ key
  else base +:+ "/" +:+ key.

(** The directory part of a path, and a directory's name without the trailing
    separator. *)
Definition path_parent (path : string) : string :=
  match rev (split "/"%char path) with
  | [] => ""
  | _ :: dirs => join "/"%char (rev dirs)
  end.

Definition dir_name (path : string) : string :=
  if ends_with_sep path then path_parent path else path.

Definition create_dir_all (dir : string) (fs : FileSystem) : Result string unit * FileSystem :=
  let '(f, fs) := next_fault fs in
  match f with
  | IoFault e _ => (Err e, fs)
  | NoFault => (Ok tt, mkFileSystem (fs_files fs) ({[dir_name dir]} ∪ fs_dirs fs) (fs_plan fs))
  end.

(** [File::create]: truncates. *)
Definition file_create (path : string) (fs : FileSystem) : Result string unit * FileSystem :=
  let '(f, fs) := next_fault fs in
  match f with
  | IoFault e _ => (Err e, fs)
  | NoFault =>
      if decide (path_parent path ∈ fs_dirs fs)
      then (Ok tt, mkFileSystem (<[path := []]> (fs_files fs)) (fs_dirs fs) (fs_plan fs))
      else (Err "entity not found", fs)
  end.

Definition file_write_all (path : string) (value : bytes) (fs : FileSystem)
  : Result string unit * FileSystem :=
  let '(f, fs) := next_fault fs in
  match f with
  | IoFault e n =>
      (Err e, mkFileSystem (<[path := take n value]> (fs_files fs)) (fs_dirs fs) (fs_plan fs))
  | NoFault => (Ok tt, mkFileSystem (<[path := value]> (fs_files fs)) (fs_dirs fs) (fs_plan fs))
  end.

(** [File::open] and [read_to_end]: they leave the file system as it is.  What
    goes wrong with this read is an argument; what has been read by then is
    thrown away. *)
Definition file_read (f : Fault) (path : string) (fs : FileSystem) : Result string bytes :=
  match f with
  | IoFault e _ => Err e
  | NoFault => ok_or (fs_files fs !! path) "entity not found"
  end.

Definition remove_file (path : string) (fs : FileSystem) : Result string unit * FileSystem :=
  let '(f, fs) := next_fault fs in
  match f with
  | IoFault e _ => (Err e, fs)
  | NoFault =>
      match fs_files fs !! path with
      | Some _ => (Ok tt, mkFileSystem (delete path (fs_files fs)) (fs_dirs fs) (fs_plan fs))
      | None => (Err "entity not found", fs)
      end
  end.

(** ** [BlockingFileStore] *)

Record BlockingFileStore : Set := mkBlockingFileStore
  { base_path : string; file_system : FileSystem }.

Definition BlockingFileStore_new (base_path_str : string) (fs : FileSystem)
  : Result StorageError BlockingFileStore := Ok (mkBlockingFileStore base_path_str fs).

Definition set_bytes (base : string) (key : string) (value : bytes) (fs : FileSystem)
  : Result string unit * FileSystem :=
  let file_path := path_join base key in
  match create_dir_all base fs with
  | (Err e, fs) => (Err e, fs)
  | (Ok _, fs) =>
      match file_create file_path fs with
      | (Err e, fs) => (Err e, fs)
      | (Ok _, fs) => file_write_all file_path value fs
      end
  end.

Definition get_bytes (f : Fault) (base : string) (key : string) (fs : FileSystem) : Result string bytes :=
  file_read f (path_join base key) fs.

Section file_store.
Context {V : Type} {SJ : SerdeJson V}.

Definition BlockingFileStore_set (key : string) (value : V) (s : BlockingFileStore)
  : Result StorageError unit * BlockingFileStore :=
  match json_to_vec value with
  | Err e => (Err (StringError e), s)
  | Ok bytes =>
      let '(res, fs) := set_bytes (base_path s) key bytes (file_system s) in
      (map_err StringError res, mkBlockingFileStore (base_path s) fs)
  end.

Definition BlockingFileStore_get (f : Fault) (key : string) (s : BlockingFileStore)
  : Result StorageError V :=
  match get_bytes f (base_path s) key (file_system s) with
  | Err e => Err (StringError e)
  | Ok bytes => map_err StringError (json_from_slice bytes)
  end.

Definition BlockingFileStore_clear_local (key : string) (s : BlockingFileStore)
  : Result StorageError unit * BlockingFileStore :=
  let '(res, fs) := remove_file (path_join (base_path s) key) (file_system s) in
  (map_err StringError res, mkBlockingFileStore (base_path s) fs).

(** As a [KeyValueStore], with reads that nothing goes wrong with. *)
#[export] Instance BlockingFileStore_kv : KeyValueStore BlockingFileStore string V :=
  {| kv_set := BlockingFileStore_set; kv_get := BlockingFileStore_get NoFault;
     kv_clear_local := BlockingFileStore_clear_local |}.

(** ** [AsyncFileStore]

    [schedule] runs a file operation on the store's own runtime and hands the
    result back over a oneshot; [alive] tells whether that runtime still runs
    its tasks (a dropped task cancels the oneshot). *)
Record AsyncFileStore : Set := mkAsyncFileStore { async_store : BlockingFileStore; alive : bool }.

Definition schedule {A} (fut : FileSystem → Result StorageError A * FileSystem)
    (s : AsyncFileStore) : Result StorageError A * AsyncFileStore :=
  if alive s then
    let '(r, fs) := fut (file_system (async_store s)) in
    (r, mkAsyncFileStore (mkBlockingFileStore (base_path (async_store s)) fs) true)
  else (Err (StringError "oneshot canceled"), s).

Definition AsyncFileStore_set (key : string) (value : V) (s : AsyncFileStore)
  : Result StorageError unit * AsyncFileStore :=
  match json_to_vec value with
  | Err e => (Err (StringError e), s)
  | Ok bytes =>
      let base := base_path (async_store s) in
      let file_path := path_join base key in
      schedule (λ fs,
        let '(r, fs) := create_dir_all base fs in
        match r with
        | Err e => (Err (StringError e), fs)
        | Ok _ =>
            let '(r, fs) := file_create file_path fs in
            match r with
            | Err e => (Err (StringError e), fs)
            | Ok _ => let '(r, fs) := file_write_all file_path bytes fs in
                      (map_err StringError r, fs)
            end
        end) s
  end.

Definition AsyncFileStore_get (f : Fault) (key : string) (s : AsyncFileStore)
  : Result StorageError V * AsyncFileStore :=
  schedule (λ fs,
    (bytes ← map_err StringError (file_read f (path_join (base_path (async_store s)) key) fs);
     map_err StringError (json_from_slice bytes), fs)) s.

Definition AsyncFileStore_clear_local (key : string) (s : AsyncFileStore)
  : Result StorageError unit * AsyncFileStore :=
  schedule (λ fs,
    let '(r, fs) := remove_file (path_join (base_path (async_store s)) key) fs in
    (map_err StringError r, fs)) s.

End file_store.

(** ** The abstract store: a partial map, and an operation that may fail

    An abstract operation is given with the result the implementation reported
    for it; a failed [set] may have removed the entry or written it. *)
Inductive StoreOp (K V : Type) : Type :=
| OpSet (k : K) (v : V)
| OpGet (k : K)
| OpClear (k : K).
Arguments OpSet {K V}.
Arguments OpGet {K V}.
Arguments OpClear {K V}.

Definition op_key {K V} (op : StoreOp K V) : K :=
  match op with OpSet k _ | OpGet k | OpClear k => k end.

Inductive OpResult (V : Type) : Type :=
| Done
| Value (v : V)
| Failed (e : StorageError).
Arguments Done {V}.
Arguments Value {V}.
Arguments Failed {V}.

Definition run_op {S K V} `{KeyValueStore S K V} (op : StoreOp K V) (s : S) : OpResult V * S :=
  match op with
  | OpSet k v => let '(r, s) := kv_set k v s in
                 (match r with Ok _ => Done | Err e => Failed e end, s)
  | OpGet k => (match kv_get k s with Ok v => Value v | Err e => Failed e end, s)
  | OpClear k => let '(r, s) := kv_clear_local k s in
                 (match r with Ok _ => Done | Err e => Failed e end, s)
  end.

Section abstract.
Context {K V : Type} `{Countable K}.

Inductive abs_step : StoreOp K V → OpResult V → gmap K V → gmap K V → Prop :=
| abs_set k v m : abs_step (OpSet k v) Done m (<[k := v]> m)
| abs_set_kept k v e m : abs_step (OpSet k v) (Failed e) m m
| abs_set_written k v e m : abs_step (OpSet k v) (Failed e) m (<[k := v]> m)
| abs_set_lost k v e m : abs_step (OpSet k v) (Failed e) m (delete k m)
| abs_get k v m : m !! k = Some v → abs_step (OpGet k) (Value v) m m
| abs_get_none k e m : m !! k = None → abs_step (OpGet k) (Failed e) m m
| abs_clear k m : abs_step (OpClear k) Done m (delete k m)
| abs_clear_failed k e m : abs_step (OpClear k) (Failed e) m m.

(** The store [s] holds the map [m] at the valid keys. *)
Definition represents {S} `{KeyValueStore S K V} (valid : K → Prop) (s : S) (m : gmap K V)
  : Prop := ∀ k, valid k → ok (kv_get k s) = m !! k.

End abstract.

#[export] Hint Constructors abs_step : mercury.

(** Operations on a file store, each with what goes wrong if it is a read. *)
Section file_ops.
Context {V : Type} {SJ : SerdeJson V}.
Abbreviation FileOp := (StoreOp string V * Fault)%type.

Definition run_file_op (op : FileOp) (s : BlockingFileStore) : OpResult V * BlockingFileStore :=
  match op with
  | (OpSet k v, _) => let '(r, s) := BlockingFileStore_set k v s in
                      (match r with Ok _ => Done | Err e => Failed e end, s)
  | (OpGet k, f) => (match BlockingFileStore_get f k s with Ok v => Value v | Err e => Failed e end, s)
  | (OpClear k, _) => let '(r, s) := BlockingFileStore_clear_local k s in
                      (match r with Ok _ => Done | Err e => Failed e end, s)
  end.

Definition run_async_op (op : FileOp) (s : AsyncFileStore) : OpResult V * AsyncFileStore :=
  match op with
  | (OpSet k v, _) => let '(r, s) := AsyncFileStore_set k v s in
                      (match r with Ok _ => Done | Err e => Failed e end, s)
  | (OpGet k, f) => let '(r, s) := AsyncFileStore_get f k s in
                    (match r with Ok v => Value v | Err e => Failed e end, s)
  | (OpClear k, _) => let '(r, s) := AsyncFileStore_clear_local k s in
                      (match r with Ok _ => Done | Err e => Failed e end, s)
  end.

Fixpoint run_ops {S} (run : FileOp → S → OpResult V * S) (ops : list FileOp) (s : S)
  : list (OpResult V) * S :=
  match ops with
  | [] => ([], s)
  | op :: ops => let '(r, s) := run op s in let '(rs, s) := run_ops run ops s in (r :: rs, s)
  end.

(** What the abstract map allows: a read something goes wrong with fails, and
    leaves the map alone. *)
Inductive abs_file_steps : list FileOp → list (OpResult V) → gmap string V → gmap string V → Prop :=
| abs_nil m : abs_file_steps [] [] m m
| abs_cons op f r m m' ops rs m'' :
    (f = NoFault ∨ ∀ k, op ≠ OpGet k) →
    abs_step op r m m' → abs_file_steps ops rs m' m'' → abs_file_steps ((op, f) :: ops) (r :: rs) m m''
| abs_read_fails k e n ops rs m m' :
    abs_file_steps ops rs m m' →
    abs_file_steps ((OpGet k, IoFault e n) :: ops) (Failed (StringError e) :: rs) m m'.

(** The files of the store below its base path are the texts of the values. *)
Definition files_hold (plain : string → Prop) (s : BlockingFileStore) (m : gmap string V) : Prop :=
  ∀ k, plain k →
    (b ← fs_files (file_system s) !! path_join (base_path s) k; ok (json_from_slice b)) = m !! k.
End file_ops.

(** A file name: no separator, and not one of the names of a directory. *)
Definition plain_key (k : string) : Prop :=
  no_char "/"%char k = true ∧ k ∉ ["" ; "." ; ".."].

(** [serde_json] on a struct: its text is an object, of which no proper prefix
    parses. *)
Class SerdeJsonObject (T : Type) `{SerdeJson T} : Prop := {
  json_object_prefix x b n :
    json_to_vec x = Ok b → n < length b → is_err (json_from_slice (T:=T) (take n b)) = true
}.

(** ** Lemmas *)

Section in_memory_laws.
Context {K V : Type} `{Countable K}.

#[export] Instance InMemoryStore_laws : KeyValueStoreLaws (InMemoryStore K V) K V any_key.
Proof.
  split; simpl; unfold InMemoryStore_set, InMemoryStore_get, InMemoryStore_clear_local;
    intros; simplify_eq/=.
  - by rewrite lookup_insert_eq.
  - by rewrite lookup_insert_ne.
  - by rewrite lookup_delete_eq.
  - rewrite delete_id; [done|]. by destruct (store_map s !! k).
  - by rewrite lookup_delete_ne.
Qed.

End in_memory_laws.

Section key_adapter_laws.
Context {P K V T : Type} (into : P → K) {KV : KeyValueStore T K V} {valid : K → Prop}
        {KVL : KeyValueStoreLaws T K V valid} {INJ : Inj (=) (=) into}.

Lemma KeyAdapter_laws :
  @KeyValueStoreLaws (KeyAdapter T) P V (KeyAdapter_kv into) (valid ∘ into).
Proof.
  split; simpl; unfold KeyAdapter_set, KeyAdapter_get, KeyAdapter_clear_local; intros;
    repeat case_match; simplify_eq/=.
  - by eapply kv_set_ok.
  - by eapply kv_set_err.
  - eapply kv_set_other; [| |done|]; try done. by intros ?%(inj into).
  - by eapply kv_clear_ok.
  - by eapply kv_clear_err.
  - eapply kv_clear_other; [| |done|]; try done. by intros ?%(inj into).
Qed.

End key_adapter_laws.

Lemma laws_weaken {S K V : Type} {KV : KeyValueStore S K V} (P Q : K → Prop) :
  (∀ k, Q k → P k) → KeyValueStoreLaws S K V P → KeyValueStoreLaws S K V Q.
Proof.
  intros HPQ L. split; intros.
  - eapply kv_set_ok; eauto.
  - eapply kv_set_err; eauto.
  - eapply kv_set_other; [| |done|]; auto.
  - eapply kv_clear_ok; eauto.
  - eapply kv_clear_err; eauto.
  - eapply kv_clear_other; [| |done|]; auto.
Qed.

(** Paths *)

Lemma path_join_eq base k k' :
  plain_key k → plain_key k' → path_join base k = path_join base k' → k = k'.
Proof.
  intros [Hk _] [Hk' _]. unfold path_join. rewrite !starts_with_no_char by done.
  case_match; intros Heq; [by apply (inj (String.app base)) in Heq|].
  apply (inj (String.app base)) in Heq. unfold String.app in Heq. by simplify_eq/=.
Qed.

Lemma path_join_parent base k : plain_key k → path_parent (path_join base k) = dir_name base.
Proof.
  intros [Hk _]. unfold path_join, dir_name. rewrite starts_with_no_char by done.
  unfold ends_with_sep.
  destruct (split_app_last "/"%char base k Hk) as (ps & p & H1 & H2).
  rewrite H1, rev_unit. case_bool_decide as Hp.
  - unfold path_parent. rewrite H1, H2, !rev_unit. done.
  - unfold path_parent. change ("/" +:+ k) with (String "/"%char k).
    rewrite split_app_any, (split_no_char _ k Hk), rev_unit, rev_involutive. apply join_split.
Qed.

(** The file operations in one view: only the file at the path changes, and it
    ends up as it was, or with a prefix of the new contents, which is all of
    them exactly when the call succeeds. *)
Lemma set_bytes_spec base key value fs r fs' :
  plain_key key → set_bytes base key value fs = (r, fs') →
  (∀ p, p ≠ path_join base key → fs_files fs' !! p = fs_files fs !! p)
  ∧ match r with
    | Ok _ => fs_files fs' !! path_join base key = Some value
    | Err _ => fs_files fs' !! path_join base key = fs_files fs !! path_join base key
               ∨ ∃ n, fs_files fs' !! path_join base key = Some (take n value)
    end.
Proof.
  intros Hk. pose proof (path_join_parent base key Hk) as Hparent.
  unfold set_bytes, create_dir_all, file_create, file_write_all, next_fault.
  rewrite Hparent. repeat case_match; intros; simplify_eq/=;
    (split; [intros p Hp; by rewrite ?lookup_insert_ne by done|]);
    rewrite ?lookup_insert_eq; eauto; right; by exists 0.
Qed.

Lemma remove_file_spec path fs r fs' :
  remove_file path fs = (r, fs') →
  match r with
  | Ok _ => fs_files fs' = delete path (fs_files fs)
  | Err _ => fs_files fs' = fs_files fs
  end.
Proof. unfold remove_file, next_fault. repeat case_match; intros; by simplify_eq/=. Qed.

Section file_store_laws.
Context {V : Type} {SJ : SerdeJson V} {SJL : SerdeJsonLaws V} {SJO : SerdeJsonObject V}.

#[export] Instance BlockingFileStore_laws :
  KeyValueStoreLaws BlockingFileStore string V plain_key.
Proof.
  split; simpl; unfold BlockingFileStore_set, BlockingFileStore_get,
    BlockingFileStore_clear_local, get_bytes, file_read.
  - intros k v s s' Hk. destruct (json_to_vec v) as [b|] eqn:Hb; [|done].
    destruct (set_bytes _ _ _ _) as [r fs] eqn:Hs.
    destruct r as [[]|]; simpl; [|done]. intros [= <-]. simpl.
    apply set_bytes_spec in Hs as [_ Hs]; [|done]. rewrite Hs. simpl.
    by rewrite (json_roundtrip _ _ Hb).
  - intros k v s e s' v' Hk. destruct (json_to_vec v) as [b|] eqn:Hb; [|intros [= _ <-]; by right].
    destruct (set_bytes _ _ _ _) as [r fs] eqn:Hs. destruct r as [|e']; [done|].
    simpl. intros [= _ <-]. simpl.
    apply set_bytes_spec in Hs as [_ [Hs|[n Hs]]]; [rewrite Hs; by right| |done].
    rewrite Hs. simpl. intros Hv%map_err_ok. left.
    destruct (decide (n < length b)) as [Hn|Hn].
    + pose proof (json_object_prefix _ _ _ Hb Hn) as He. by rewrite Hv in He.
    + rewrite take_ge in Hv by lia. rewrite (json_roundtrip _ _ Hb) in Hv. by simplify_eq.
  - intros k v s r s' k' Hk Hk' Hs Hne. destruct (json_to_vec v) as [b|]; [|by simplify_eq].
    destruct (set_bytes _ _ _ _) as [r' fs] eqn:Hs'. simplify_eq/=.
    apply set_bytes_spec in Hs' as [Hs' _]; [|done].
    rewrite Hs'; [done|]. intros Heq. by apply path_join_eq in Heq.
  - intros k s s' Hk. destruct (remove_file _ _) as [r fs] eqn:Hr.
    apply remove_file_spec in Hr. destruct r as [[]|]; simpl; [|done]. intros [= <-]. simpl.
    by rewrite Hr, lookup_delete_eq.
  - intros k s e s' Hk. destruct (remove_file _ _) as [r fs] eqn:Hr.
    apply remove_file_spec in Hr. destruct r as [[]|]; simpl; [done|]. intros [= _ <-]. simpl.
    by rewrite Hr.
  - intros k s r s' k' Hk Hk'. destruct (remove_file _ _) as [r' fs] eqn:Hr.
    apply remove_file_spec in Hr. intros [= _ <-] Hne. simpl.
    destruct r' as [[]|]; rewrite Hr; [|done]. rewrite lookup_delete_ne; [done|].
    intros Heq. apply path_join_eq in Heq; congruence.
Qed.

End file_store_laws.

(** ** Theorems *)

Section theorems.
Context {S K V : Type} `{Countable K} {KV : KeyValueStore S K V} {valid : K → Prop}.

Lemma run_op_refines {KVL : KeyValueStoreLaws S K V valid} op s m r s' :
  valid (op_key op) → represents valid s m → run_op op s = (r, s') →
  ∃ m', abs_step op r m m' ∧ represents valid s' m'.
Proof.
  intros Hk Hrep. destruct op as [k v|k|k]; simpl in *.
  - destruct (kv_set k v s) as [res s''] eqn:Hs. intros [= <- ->]. destruct res as [[]|e].
    + exists (<[k := v]> m). split; [constructor|]. intros k' Hk'.
      destruct (decide (k' = k)) as [->|Hne].
      * by rewrite (kv_set_ok _ _ _ _ Hk Hs), lookup_insert_eq.
      * rewrite lookup_insert_ne by done. by rewrite (kv_set_other _ _ _ _ _ _ Hk Hk' Hs Hne), Hrep.
    + assert (∀ k', valid k' → k' ≠ k → ok (kv_get k' s') = m !! k') as Hother.
      { intros k' Hk' Hne. by rewrite (kv_set_other _ _ _ _ _ _ Hk Hk' Hs Hne), Hrep. }
      destruct (kv_get k s') as [v'|e'] eqn:Hv'.
      * destruct (kv_set_err _ _ _ _ _ _ Hk Hs Hv') as [->|Hold].
        -- exists (<[k := v]> m). split; [constructor|]. intros k' Hk'.
           destruct (decide (k' = k)) as [->|Hne]; [by rewrite Hv', lookup_insert_eq|].
           rewrite lookup_insert_ne by done. by apply Hother.
        -- exists m. split; [constructor|]. intros k' Hk'.
           destruct (decide (k' = k)) as [->|Hne]; [|by apply Hother].
           by rewrite Hv', <- (Hrep k Hk), Hold.
      * exists (delete k m). split; [constructor|]. intros k' Hk'.
        destruct (decide (k' = k)) as [->|Hne]; [by rewrite Hv', lookup_delete_eq|].
        rewrite lookup_delete_ne by done. by apply Hother.
  - intros [= <- <-]. exists m. split; [|done]. specialize (Hrep k Hk).
    destruct (kv_get k s); by constructor.
  - destruct (kv_clear_local k s) as [res s''] eqn:Hs. intros [= <- ->]. destruct res as [[]|e].
    + exists (delete k m). split; [constructor|]. intros k' Hk'.
      destruct (decide (k' = k)) as [->|Hne].
      * rewrite lookup_delete_eq. destruct (is_err_true _ (kv_clear_ok _ _ _ Hk Hs)) as [e ->]. done.
      * rewrite lookup_delete_ne by done.
        by rewrite (kv_clear_other _ _ _ _ _ Hk Hk' Hs Hne), Hrep.
    + exists m. split; [constructor|]. intros k' Hk'.
      destruct (decide (k' = k)) as [->|Hne].
      * by rewrite (kv_clear_err _ _ _ _ Hk Hs), Hrep.
      * by rewrite (kv_clear_other _ _ _ _ _ Hk Hk' Hs Hne), Hrep.
Qed.

End theorems.

Section file_theorems.
Context {V : Type} {SJ : SerdeJson V}.

Lemma async_set_equiv (bs : BlockingFileStore) k (v : V) :
  AsyncFileStore_set k v (mkAsyncFileStore bs true)
  = let '(r, bs') := BlockingFileStore_set k v bs in (r, mkAsyncFileStore bs' true).
Proof.
  unfold BlockingFileStore_set, AsyncFileStore_set, set_bytes, schedule.
  destruct (json_to_vec v) as [b|]; [|done]. simpl.
  destruct (create_dir_all _ _) as [[[]|] fs]; [|done].
  destruct (file_create _ fs) as [[[]|] fs']; [|done].
  by destruct (file_write_all _ b fs').
Qed.

Lemma async_get_equiv (bs : BlockingFileStore) f k :
  AsyncFileStore_get (V:=V) f k (mkAsyncFileStore bs true)
  = (BlockingFileStore_get (V:=V) f k bs, mkAsyncFileStore bs true).
Proof.
  unfold AsyncFileStore_get, schedule, BlockingFileStore_get, get_bytes. simpl. f_equal.
  - by destruct (file_read _ _ _).
  - by destruct bs.
Qed.

Lemma async_clear_equiv (bs : BlockingFileStore) k :
  AsyncFileStore_clear_local k (mkAsyncFileStore bs true)
  = let '(r, bs') := BlockingFileStore_clear_local k bs in (r, mkAsyncFileStore bs' true).
Proof. unfold BlockingFileStore_clear_local, AsyncFileStore_clear_local, schedule. simpl. by destruct (remove_file _ _). Qed.

(** With its runtime stopped the asynchronous store reports an error and leaves
    the files alone. *)
Lemma async_stopped (bs : BlockingFileStore) k (v : V) :
  ∃ e, AsyncFileStore_set k v (mkAsyncFileStore bs false) = (Err (StringError e), mkAsyncFileStore bs false).
Proof. unfold AsyncFileStore_set. case_match; simpl; eauto. Qed.

Lemma run_async_ops_equiv ops bs :
  run_ops run_async_op ops (mkAsyncFileStore bs true)
  = let '(rs, bs') := run_ops (run_file_op (V:=V)) ops bs in (rs, mkAsyncFileStore bs' true).
Proof.
  revert bs; induction ops as [|[op f] ops IH]; intros bs; cbn [run_ops]; [done|].
  assert (run_async_op (op, f) (mkAsyncFileStore bs true)
    = let '(r, bs') := run_file_op (V:=V) (op, f) bs in (r, mkAsyncFileStore bs' true)) as ->.
  { destruct op as [k v|k|k]; cbn [run_async_op run_file_op].
    - rewrite async_set_equiv. by destruct (BlockingFileStore_set k v bs).
    - by rewrite async_get_equiv.
    - rewrite async_clear_equiv. by destruct (BlockingFileStore_clear_local k bs). }
  destruct (run_file_op (op, f) bs) as [r bs1]. rewrite IH. by destruct (run_ops run_file_op ops bs1).
Qed.

Lemma files_hold_represents (s : BlockingFileStore) (m : gmap string V) :
  files_hold plain_key s m ↔ represents plain_key s m.
Proof.
  assert (∀ k, ok (BlockingFileStore_get (V:=V) NoFault k s)
    = (b ← fs_files (file_system s) !! path_join (base_path s) k; ok (json_from_slice b))) as Hget.
  { intros k. unfold BlockingFileStore_get, get_bytes, file_read. destruct (_ !! _) as [b|]; [|done]. simpl.
    by destruct (json_from_slice b). }
  unfold files_hold, represents. simpl. by setoid_rewrite Hget.
Qed.

(** The operations of the file store touch nothing but the file of their key. *)
Lemma run_file_op_files op f s r s' :
  plain_key (op_key op) → run_file_op (V:=V) (op, f) s = (r, s') →
  base_path s' = base_path s
  ∧ ∀ p, p ≠ path_join (base_path s) (op_key op) →
      fs_files (file_system s') !! p = fs_files (file_system s) !! p.
Proof.
  intros Hk. destruct op as [k v|k|k]; simpl in *.
  - unfold BlockingFileStore_set. destruct (json_to_vec v) as [b|]; [|by intros [= _ <-]].
    destruct (set_bytes _ _ _ _) as [r' fs] eqn:Hs. apply set_bytes_spec in Hs as [Hs _]; [|done].
    by intros [= _ <-].
  - by intros [= _ <-].
  - unfold BlockingFileStore_clear_local. destruct (remove_file _ _) as [r' fs] eqn:Hr.
    apply remove_file_spec in Hr. intros [= _ <-]. split; [done|]. intros p Hp. simpl.
    destruct r'; rewrite Hr; [by rewrite lookup_delete_ne|done].
Qed.

Lemma run_file_op_refines {SJL : SerdeJsonLaws V} {SJO : SerdeJsonObject V} op f s m r s' :
  plain_key (op_key op) → files_hold plain_key s m → run_file_op (V:=V) (op, f) s = (r, s') →
  ∃ m', files_hold plain_key s' m' ∧ ∀ ops rs m'', abs_file_steps ops rs m' m'' →
    abs_file_steps ((op, f) :: ops) (r :: rs) m m''.
Proof.
  intros Hk Hm Hrun. assert ((∃ k e n, op = OpGet k ∧ f = IoFault e n) ∨ f = NoFault ∨ ∀ k, op ≠ OpGet k)
    as [(k & e & n & -> & ->)|Hf].
  { destruct f as [|e n]; [auto|]. destruct op as [k v|k|k]; [auto| |auto]. left. by exists k, e, n. }
  { simpl in Hrun. injection Hrun as <- <-. exists m. split; [done|]. intros. by constructor. }
  assert (run_op op s = (r, s')) as Hop.
  { rewrite <- Hrun. destruct op as [k v|k|k]; [done| |done]. destruct Hf as [->|Hf]; [done|]. by destruct (Hf k). }
  destruct (run_op_refines op s m r s' Hk (proj1 (files_hold_represents s m) Hm) Hop) as (m' & Hstep & Hm').
  exists m'. split; [by apply files_hold_represents|]. intros. by econstructor.
Qed.

(** C18: the file stores are partial maps kept in files.  Any sequence of [set],
    [get] and [clear_local] calls on plain keys returns the results, faults of
    the disk included, that the map allows in that order, and afterwards the
    files hold the map's values; no file but those of the keys is touched.  The
    asynchronous store on a running runtime does the same. *)
Theorem file_stores_refine_map {SJL : SerdeJsonLaws V} {SJO : SerdeJsonObject V} ops s m rs s' :
  Forall (λ op, plain_key (op_key op.1)) ops → files_hold (V:=V) plain_key s m →
  run_ops run_file_op ops s = (rs, s') →
  (∃ m', abs_file_steps ops rs m m' ∧ files_hold plain_key s' m')
  ∧ base_path s' = base_path s
  ∧ (∀ p, (∀ op, op ∈ ops → p ≠ path_join (base_path s) (op_key op.1)) →
       fs_files (file_system s') !! p = fs_files (file_system s) !! p)
  ∧ run_ops run_async_op ops (mkAsyncFileStore s true) = (rs, mkAsyncFileStore s' true).
Proof.
  intros Hv Hm Hrun. rewrite run_async_ops_equiv, Hrun. revert s m rs s' Hm Hrun.
  induction Hv as [|[op f] ops Hop Hv IH]; intros s m rs s' Hm; cbn [run_ops].
  { intros [= <- <-]. split; [exists m; split; [constructor|done]|done]. }
  destruct (run_file_op (op, f) s) as [r s1] eqn:Hr, (run_ops run_file_op ops s1) as [rs' s2] eqn:Hrs.
  intros [= <- <-]. destruct (run_file_op_refines _ _ _ _ _ _ Hop Hm Hr) as (m1 & Hm1 & Hsteps).
  destruct (run_file_op_files _ _ _ _ _ Hop Hr) as [Hb Hfiles].
  destruct (IH _ _ _ _ Hm1 Hrs) as ((m2 & Hm2 & Hh) & Hb2 & Hfiles2 & _).
  split; [exists m2; split; [by apply Hsteps|done]|]. split; [congruence|]. split; [|done].
  intros p Hp. rewrite Hfiles2.
  - apply Hfiles. apply (Hp (op, f)). by left.
  - intros op' Hin. rewrite Hb. apply Hp. by right.
Qed.

(** Writing is not atomic: a [set] that reports an error can have destroyed
    the value stored before. *)
Theorem failed_set_loses_value (v : V) (b : bytes) :
  json_to_vec v = Ok b → json_from_slice (T:=V) b = Ok v →
  is_err (json_from_slice (T:=V) []) = true →
  ∃ bs bs' e, BlockingFileStore_get (V:=V) NoFault "key" bs = Ok v
    ∧ BlockingFileStore_set "key" v bs = (Err e, bs')
    ∧ is_err (BlockingFileStore_get (V:=V) NoFault "key" bs') = true.
Proof.
  intros Hto Hfrom Hempty.
  exists (mkBlockingFileStore "base"
    (mkFileSystem {["base/key" := b]} {["base"]} [NoFault; NoFault; IoFault "no space left" 0])).
  unfold BlockingFileStore_set, BlockingFileStore_get, get_bytes, file_read.
  rewrite Hto.
  replace (path_join (base_path _) "key") with "base/key" by done.
  do 2 eexists. split_and!; [|reflexivity|].
  - simpl. rewrite lookup_singleton_eq. simpl. by rewrite Hfrom.
  - simpl. rewrite lookup_insert_eq, take_0. simpl. destruct (is_err_true _ Hempty) as [e He]. by rewrite He.
Qed.

End file_theorems.

(** ** Witnesses *)

Section witnesses.
#[local] Existing Instance Sample.json_bytes.
#[local] Existing Instance Sample.json_bytes_laws.

#[local] Instance json_bytes_object : SerdeJsonObject bytes.
Proof.
  split. intros x b n Hb Hn. destruct (json_from_slice (T:=bytes) (take n b)) as [y|e] eqn:Hy; [|done].
  exfalso. apply Sample.json_bytes_inv in Hy. simpl in Hb. injection Hb as <-.
  rewrite <- (take_drop n (Sample.field x)), Hy in Hn.
  assert (Sample.field x ++ [] = Sample.field y ++ drop n (Sample.field x)) as Heq.
  { rewrite <- Hy, take_drop. by rewrite app_nil_r. }
  apply Sample.field_app_inj in Heq as [-> Hd]. rewrite <- Hd, app_nil_r in Hn.
  apply (f_equal length) in Hy. rewrite length_take in Hy. lia.
Qed.

(** A disk that fails the second write of a session, and a read that fails. *)
Definition disk : FileSystem :=
  mkFileSystem {["other" := [x62]]} ∅ [NoFault; NoFault; NoFault; NoFault; NoFault; IoFault "disk full" 1].

Definition disk_ops : list (StoreOp string bytes * Fault) :=
  [ (OpSet "a" [x61], NoFault); (OpGet "a", IoFault "input/output error" 0); (OpGet "a", NoFault);
    (OpSet "a" [x62], NoFault); (OpGet "a", NoFault); (OpClear "b", NoFault) ].
Definition disk_results : list (OpResult bytes) :=
  [ Done; Failed (StringError "input/output error"); Value [x61]; Failed (StringError "disk full");
    Failed (StringError "expected value"); Failed (StringError "entity not found") ].
Definition disk_after : BlockingFileStore := (run_ops run_file_op disk_ops (mkBlockingFileStore "db" disk)).2.

Lemma file_stores_refine_map_witness :
  (∃ m', abs_file_steps disk_ops disk_results ∅ m')
  ∧ fs_files (file_system disk_after) !! "other" = Some [x62]
  ∧ run_ops run_async_op disk_ops (mkAsyncFileStore (mkBlockingFileStore "db" disk) true)
    = (disk_results, mkAsyncFileStore disk_after true).
Proof.
  destruct (file_stores_refine_map disk_ops (mkBlockingFileStore "db" disk) ∅ disk_results disk_after)
    as ((m' & Hsteps & _) & _ & Hfiles & Hasync).
  - repeat (constructor; [split; [reflexivity|by vm_compute; set_solver]|]). constructor.
  - intros k [Hk _]. simpl. rewrite lookup_singleton_ne; [done|].
    unfold path_join. rewrite starts_with_no_char by done. simpl. discriminate.
  - vm_compute. reflexivity.
  - split; [by exists m'|]. split; [|exact Hasync]. rewrite Hfiles; [done|].
    intros op Hin. repeat (apply elem_of_cons in Hin as [->|Hin]; [discriminate|]). by apply elem_of_nil in Hin.
Defined.

Lemma failed_set_loses_value_witness :
  ∃ bs bs' e, BlockingFileStore_get (V:=bytes) NoFault "key" bs = Ok [x61]
    ∧ BlockingFileStore_set (V:=bytes) "key" [x61] bs = (Err e, bs')
    ∧ is_err (BlockingFileStore_get (V:=bytes) NoFault "key" bs') = true.
Proof. apply (failed_set_loses_value [x61] [x01; x00; x61]); reflexivity. Defined.
End witnesses.
