(* ===== verification/HashSpace.v ===== *)
(** * Content-addressed spaces ([storage/src/common/], [storage/src/async/],
    [storage/src/sync/])

    Hashers, hash coders and serializers; the modular hash space built from
    a hasher, a key-value store and a coder, in its asynchronous and its
    synchronous version; and the hash web, a set of named spaces addressed by
    links. *)

From Stdlib Require Import Strings.Ascii.
From S2P Require Import Prelude Errors External Strs Storage.
Import Errors.Storage.

(** ** [storage/src/common/mod.rs]: the three traits *)

Record Serializer (O S : Type) : Type := mkSerializer
  { serialize : O → Result SerializerError S;
    deserialize : S → Result SerializerError O }.
Arguments mkSerializer {O S}. Arguments serialize {O S}. Arguments deserialize {O S}.

Record Hasher (D H : Type) : Type := mkHasher
  { get_hash : D → Result HashError H;
    hasher_validate : D → H → Result HashError bool }.
Arguments mkHasher {D H}. Arguments get_hash {D H}. Arguments hasher_validate {D H}.

Record HashCoder (B R : Type) : Type := mkHashCoder
  { coder_encode : B → Result StringCoderError R;
    coder_decode : R → Result StringCoderError B }.
Arguments mkHashCoder {B R}. Arguments coder_encode {B R}. Arguments coder_decode {B R}.

(** What a space relies on: a hash validates the data it was made from, and
    an encoded hash decodes. *)
Class HasherLaws {D H} (h : Hasher D H) : Prop := {
  validate_get_hash d x : get_hash h d = Ok x → hasher_validate h d x = Ok true
}.
Class HashCoderLaws {B R} (c : HashCoder B R) : Prop := {
  decode_coder_encode b r : coder_encode c b = Ok r → coder_decode c r = Ok b
}.

(** ** [storage/src/common/imp.rs] *)

Section multi.
Context {MH : Multihash} {MB : Multibase}.

(** [MultiHasher]. *)
Record MultiHasher : Set := MultiHasher_new { hash_algorithm : MhAlg }.

Definition to_hasher_error (error : MultihashError) : HashError :=
  match error with
  | Mh_BadInputLength => BadInputLength
  | Mh_UnknownCode => UnknownCode
  | Mh_UnsupportedType => UnsupportedType
  end.

Definition get_hash_bytes (h : MultiHasher) (data : bytes) : Result HashError bytes :=
  map_err to_hasher_error (mh_encode (hash_algorithm h) data).

Definition MultiHasher_hasher (h : MultiHasher) : Hasher bytes bytes :=
  mkHasher (get_hash_bytes h)
    (λ data expected_hash,
       calculated_hash ← get_hash_bytes h data;
       Ok (bool_decide (expected_hash = calculated_hash))).

(** [MultiBaseHashCoder]. *)
Record MultiBaseHashCoder : Set := MultiBaseHashCoder_new { base_algorithm : MbBase }.

Definition MultiBaseHashCoder_coder (c : MultiBaseHashCoder) : HashCoder bytes string :=
  mkHashCoder (λ hash_bytes, Ok (mb_encode (base_algorithm c) hash_bytes))
    (λ hash_str, map_err StringCoderError_Other (snd <$> mb_decode hash_str)).

End multi.

(** [IdentitySerializer]. *)
Definition IdentitySerializer : Serializer bytes bytes := mkSerializer Ok Ok.

(** [String::from_utf8]: the well-formed sequences of the Unicode standard
    (no overlong form, no surrogate, nothing above U+10FFFF). *)
Fixpoint utf8_valid_fuel (fuel : nat) (b : list N) : bool :=
  let cont (lo hi c : N) := (N.leb lo c && N.leb c hi)%N in
  let tail := cont 128%N 191%N in
  match fuel with
  | O => false
  | S fuel =>
    match b with
    | [] => true
    | x :: b1 =>
      if N.leb x 127 then utf8_valid_fuel fuel b1 else
      match b1 with
      | [] => false
      | y :: b2 =>
        if (cont 194 223 x && tail y)%N then utf8_valid_fuel fuel b2 else
        match b2 with
        | [] => false
        | z :: b3 =>
          if ((N.eqb x 224 && cont 160 191 y || cont 225 236 x && tail y
               || N.eqb x 237 && cont 128 159 y || cont 238 239 x && tail y) && tail z)%N
          then utf8_valid_fuel fuel b3 else
          match b3 with
          | [] => false
          | w :: b4 =>
            if ((N.eqb x 240 && cont 144 191 y || cont 241 243 x && tail y
                 || N.eqb x 244 && cont 128 143 y) && tail z && tail w)%N
            then utf8_valid_fuel fuel b4 else false
          end
        end
      end
    end
  end.

Definition utf8_valid (b : bytes) : bool := utf8_valid_fuel (S (length b)) (Byte.to_N <$> b).

Section serde.
Context {O : Type} {SJ : SerdeJson O}.

(** [SerdeJsonSerializer]; the text [serde_json::to_string] makes is the bytes
    [to_vec] makes. *)
Definition to_serializer_error (error : string) : SerializerError := SerializationError error.

Definition SerdeJsonSerializer : Serializer O bytes :=
  mkSerializer (λ object, map_err to_serializer_error (json_to_vec object))
    (λ serialized_object,
       json_string ← (if utf8_valid serialized_object then Ok serialized_object
                      else Err (DeserializationError "invalid utf-8"));
       map_err to_serializer_error (json_from_slice json_string)).

End serde.

(** ** The [HashSpace] interface and what it promises *)

Class HashSpace (S O R : Type) := {
  hs_store : O → S → Result HashSpaceError R * S;
  hs_resolve : R → S → Result HashSpaceError O;
  hs_validate : O → R → S → Result HashSpaceError bool;
}.

(** [good] are the spaces that are set up properly. *)
Class HashSpaceLaws (S O R : Type) `{HashSpace S O R} (good : S → Prop) : Prop := {
  (** what was stored resolves *)
  hs_store_resolve o h s s' : good s → hs_store o s = (Ok h, s') → hs_resolve h s' = Ok o;
  (** what resolves validates *)
  hs_resolve_validate h o s : good s → hs_resolve h s = Ok o → hs_validate o h s = Ok true;
  (** a space stays set up *)
  hs_store_good o s : good s → good (hs_store o s).2;
}.

(** ** [ModularHashSpace] *)

Record ModularHashSpace (D B R S : Type) : Type := ModularHashSpace_new
  { hasher : Hasher D B; storage : S; hash_coder : HashCoder B R }.
Arguments ModularHashSpace_new {D B R S}.
Arguments hasher {D B R S}. Arguments storage {D B R S}. Arguments hash_coder {D B R S}.

Section modular.
Context {D B R S : Type} {KV : KeyValueStore S B D}.

Definition with_storage (space : ModularHashSpace D B R S) (s : S) : ModularHashSpace D B R S :=
  ModularHashSpace_new (hasher space) s (hash_coder space).

Definition sync_validate (space : ModularHashSpace D B R S) (serialized_obj : D)
    (readable_hash : R) : Result HashSpaceError bool :=
  hash_bytes ← map_err HashSpace_StringCoderError (coder_decode (hash_coder space) readable_hash);
  valid ← map_err HashSpace_HashError (hasher_validate (hasher space) serialized_obj hash_bytes);
  Ok valid.

(** The asynchronous version: the hash is encoded before the object is stored. *)
Definition Modular_store (serialized_obj : D) (space : ModularHashSpace D B R S)
  : Result HashSpaceError R * ModularHashSpace D B R S :=
  match map_err HashSpace_HashError (get_hash (hasher space) serialized_obj) with
  | Err e => (Err e, space)
  | Ok hash_bytes =>
      match map_err HashSpace_StringCoderError (coder_encode (hash_coder space) hash_bytes) with
      | Err e => (Err e, space)
      | Ok hash_str =>
          let '(res, s) := kv_set hash_bytes serialized_obj (storage space) in
          (map_err HashSpace_StorageError ((λ _, hash_str) <$> res), with_storage space s)
      end
  end.

Definition Modular_resolve (hash_str : R) (space : ModularHashSpace D B R S)
  : Result HashSpaceError D :=
  match map_err HashSpace_StringCoderError (coder_decode (hash_coder space) hash_str) with
  | Err e => Err e
  | Ok hash_bytes =>
      serialized_obj ← map_err HashSpace_StorageError (kv_get hash_bytes (storage space));
      match hasher_validate (hasher space) serialized_obj hash_bytes with
      | Err e => Err (HashSpace_HashError e)
      | Ok v => if v : bool then Ok serialized_obj else Err (HashSpace_StorageError InvalidKey)
      end
  end.

Definition Modular_validate (object : D) (hash_str : R) (space : ModularHashSpace D B R S)
  : Result HashSpaceError bool := sync_validate space object hash_str.

#[export] Instance Modular_hashspace : HashSpace (ModularHashSpace D B R S) D R :=
  {| hs_store := Modular_store; hs_resolve := Modular_resolve; hs_validate := Modular_validate |}.

End modular.

(** The synchronous version, over the synchronous [KeyValueStore] trait: the
    object is stored before its hash is encoded. *)
Class SyncKeyValueStore (S K V : Type) := {
  skv_store : K → V → S → Result StorageError unit * S;
  skv_lookup : K → S → Result StorageError V;
}.

#[export] Instance InMemoryStore_skv {K V} `{Countable K} :
  SyncKeyValueStore (InMemoryStore K V) K V :=
  {| skv_store := sync_store; skv_lookup := sync_lookup |}.

Section sync_modular.
Context {D B R S : Type} {SKV : SyncKeyValueStore S B D}.

Definition Sync_store (serialized_obj : D) (space : ModularHashSpace D B R S)
  : Result HashSpaceError R * ModularHashSpace D B R S :=
  match map_err HashSpace_HashError (get_hash (hasher space) serialized_obj) with
  | Err e => (Err e, space)
  | Ok hash_bytes =>
      let '(res, s) := skv_store hash_bytes serialized_obj (storage space) in
      match map_err HashSpace_StorageError res with
      | Err e => (Err e, with_storage space s)
      | Ok _ =>
          (map_err HashSpace_StringCoderError (coder_encode (hash_coder space) hash_bytes),
           with_storage space s)
      end
  end.

Definition Sync_resolve (hash_str : R) (space : ModularHashSpace D B R S)
  : Result HashSpaceError D :=
  hash_bytes ← map_err HashSpace_StringCoderError (coder_decode (hash_coder space) hash_str);
  serialized_obj ← map_err HashSpace_StorageError (skv_lookup hash_bytes (storage space));
  valid_hash ← map_err HashSpace_HashError
                 (hasher_validate (hasher space) serialized_obj hash_bytes);
  if negb valid_hash then Err (HashSpace_StorageError InvalidKey) else Ok serialized_obj.

Definition Sync_validate (serialized_obj : D) (hash_str : R) (space : ModularHashSpace D B R S)
  : Result HashSpaceError bool :=
  hash_bytes ← map_err HashSpace_StringCoderError (coder_decode (hash_coder space) hash_str);
  valid ← map_err HashSpace_HashError (hasher_validate (hasher space) serialized_obj hash_bytes);
  Ok valid.

End sync_modular.

(** ** [HashWebLink] and [HashWeb] *)

Definition HashWebLink_HashSpaceId_Separator : ascii := "/".
Definition HashWebLink_Attribute_Separator : ascii := "#".

Abbreviation HashSpaceId := string (only parsing).

Record HashWebLink : Set := HashWebLink_new { link_hashspace : HashSpaceId; link_hash : string }.

(** [HashWebLink::parse]; neither slice is out of range, so it does not panic
    (see [HashWebLink_parse_spec]). *)
Definition HashWebLink_parse (address_str : string)
  : Panicking (Result HashSpaceError HashWebLink) :=
  address ← (if starts_with "/"%char address_str then slice_from 1 address_str
             else Returns address_str);
  match find_char "/"%char address with
  | None => Returns (Err (LinkFormatError address_str))
  | Some slash_pos =>
      '(hashspace_id, slashed_hash) ← split_at slash_pos address;
      hash ← slice_from 1 slashed_hash;
      Returns (Ok (HashWebLink_new hashspace_id hash))
  end.

(** [Space] is the type of the boxed spaces. *)
Record HashWeb (Space : Type) : Type := HashWeb_new
  { hashspaces : gmap HashSpaceId Space; default_space : HashSpaceId }.
Arguments HashWeb_new {Space}. Arguments hashspaces {Space}. Arguments default_space {Space}.

Section hashweb.
Context {Space O : Type} {HS : HashSpace Space O string}.

Definition HashWeb_store (object : O) (web : HashWeb Space)
  : Result HashSpaceError string * HashWeb Space :=
  match hashspaces web !! default_space web with
  | None => (Err (UnsupportedHashSpace (default_space web)), web)
  | Some hashspace =>
      let '(res, hashspace) := hs_store object hashspace in
      ((λ hash, default_space web +:+
                String HashWebLink_HashSpaceId_Separator hash) <$> res,
       HashWeb_new (<[default_space web := hashspace]> (hashspaces web)) (default_space web))
  end.

Definition HashWeb_resolve (hashlink_str : string) (web : HashWeb Space)
  : Panicking (Result HashSpaceError O) :=
  hashlink ← HashWebLink_parse hashlink_str;
  match hashlink with
  | Err e => Returns (Err e)
  | Ok hashlink =>
      match hashspaces web !! link_hashspace hashlink with
      | None => Returns (Err (UnsupportedHashSpace (link_hashspace hashlink)))
      | Some hashspace => Returns (hs_resolve (link_hash hashlink) hashspace)
      end
  end.

Definition HashWeb_validate (object : O) (hashlink_str : string) (web : HashWeb Space)
  : Panicking (Result HashSpaceError bool) :=
  hashlink ← HashWebLink_parse hashlink_str;
  match hashlink with
  | Err e => Returns (Err e)
  | Ok hashlink =>
      match hashspaces web !! link_hashspace hashlink with
      | None => Returns (Err (UnsupportedHashSpace (link_hashspace hashlink)))
      | Some hashspace => Returns (hs_validate object (link_hash hashlink) hashspace)
      end
  end.

End hashweb.

(** ** Lemmas *)

#[export] Instance MultiHasher_laws {MH : Multihash} h : HasherLaws (MultiHasher_hasher h).
Proof. split. intros d x Hd. simpl in *. rewrite Hd. simpl. by rewrite bool_decide_true. Qed.

#[export] Instance MultiBaseHashCoder_laws {MB : Multibase} {MBL : MultibaseLaws} c :
  HashCoderLaws (MultiBaseHashCoder_coder c).
Proof. split. intros b r. simpl. intros [= <-]. by rewrite mb_decode_encode. Qed.

Section modular_lemmas.
Context {D B R S : Type} {KV : KeyValueStore S B D}.
Implicit Types space : ModularHashSpace D B R S.

Lemma Modular_store_ok o space h space' :
  Modular_store o space = (Ok h, space') →
  ∃ b s', get_hash (hasher space) o = Ok b ∧ coder_encode (hash_coder space) b = Ok h
          ∧ kv_set b o (storage space) = (Ok tt, s') ∧ space' = with_storage space s'.
Proof.
  unfold Modular_store.
  destruct (get_hash _ o) as [b|e] eqn:Hb; simpl; [|done].
  destruct (coder_encode _ b) as [r|e] eqn:Hr; simpl; [|done].
  destruct (kv_set b o _) as [[[]|e] s'] eqn:Hs; simpl; [|done].
  intros [= <- <-]. eauto 10.
Qed.

Lemma Modular_resolve_ok h space o :
  Modular_resolve h space = Ok o ↔
  ∃ b, coder_decode (hash_coder space) h = Ok b ∧ kv_get b (storage space) = Ok o
       ∧ hasher_validate (hasher space) o b = Ok true.
Proof.
  unfold Modular_resolve.
  destruct (coder_decode _ h) as [b|e]; simpl.
  2: { split; [done|]. naive_solver. }
  destruct (kv_get b _) as [o'|e] eqn:Ho; simpl.
  2: { split; [done|]. intros (? & ? & ? & ?). congruence. }
  destruct (hasher_validate _ o' b) as [[]|e] eqn:Hv; (split; [intros; simplify_eq; eauto|]);
    intros (? & ? & ? & ?); congruence.
Qed.

Context {KVL : KeyValueStoreLaws S B D any_key}.

(** A space whose hasher and coder obey their laws is a hash space. *)
Lemma Modular_store_then_resolve o h space space' :
  HasherLaws (hasher space) → HashCoderLaws (hash_coder space) →
  Modular_store o space = (Ok h, space') → Modular_resolve h space' = Ok o.
Proof.
  intros HL CL (b & s' & Hb & Hr & Hs & ->)%Modular_store_ok.
  apply Modular_resolve_ok. exists b. simpl. split_and!.
  - by apply decode_coder_encode.
  - by eapply kv_set_ok.
  - by apply validate_get_hash.
Qed.

Lemma Modular_resolve_then_validate o h space :
  Modular_resolve h space = Ok o → Modular_validate o h space = Ok true.
Proof.
  intros (b & Hd & _ & Hv)%Modular_resolve_ok.
  unfold Modular_validate, sync_validate. rewrite Hd. simpl. by rewrite Hv.
Qed.

(** The spaces of which hasher and coder obey their laws. *)
Definition modular_good space : Prop :=
  HasherLaws (hasher space) ∧ HashCoderLaws (hash_coder space).

#[export] Instance Modular_laws :
  HashSpaceLaws (ModularHashSpace D B R S) D R modular_good.
Proof.
  split; simpl.
  - intros o h s s' [??]. by apply Modular_store_then_resolve.
  - intros h o s _. by apply Modular_resolve_then_validate.
  - intros o s Hgood. unfold Modular_store.
    destruct (get_hash _ o); simpl; [|done]. destruct (coder_encode _ _); simpl; [|done].
    by destruct (kv_set _ _ _).
Qed.

End modular_lemmas.

(** Links *)

Lemma HashWebLink_parse_no_slash id hash :
  id ≠ "" → no_char "/"%char id = true →
  HashWebLink_parse (id +:+ String "/"%char hash) = Returns (Ok (HashWebLink_new id hash)).
Proof.
  intros Hne Hid. unfold HashWebLink_parse.
  rewrite starts_with_app by done. rewrite starts_with_no_char by done. simpl.
  rewrite find_char_app by done. by rewrite split_at_app.
Qed.

Lemma HashWebLink_parse_leading_slash id hash :
  no_char "/"%char id = true →
  HashWebLink_parse (String "/"%char (id +:+ String "/"%char hash))
  = Returns (Ok (HashWebLink_new id hash)).
Proof.
  intros Hid. unfold HashWebLink_parse. simpl.
  rewrite find_char_app by done. by rewrite split_at_app.
Qed.

(** Parsing never panics; it fails exactly when no separator is left after an
    optional leading one. *)
Lemma HashWebLink_parse_total s :
  (∃ l, HashWebLink_parse s = Returns (Ok l)) ∨ HashWebLink_parse s = Returns (Err (LinkFormatError s)).
Proof.
  unfold HashWebLink_parse. destruct (starts_with _ s) eqn:Hs.
  - destruct s as [|c s]; [done|]. simpl.
    destruct (find_char "/"%char s) as [n|] eqn:Hf; [|by right].
    apply find_char_Some in Hf as (a & b & -> & _ & ->). rewrite split_at_app. simpl. eauto.
  - simpl. destruct (find_char "/"%char s) as [n|] eqn:Hf; [|by right].
    apply find_char_Some in Hf as (a & b & -> & _ & ->). rewrite split_at_app. simpl. eauto.
Qed.

#[export] Hint Rewrite @mb_decode_encode : mercury.

(** ** Theorems *)

Section theorems.
Context {D B R S : Type} {KV : KeyValueStore S B D} {KVL : KeyValueStoreLaws S B D any_key}.

(** C28: storing in a modular hash space gives a hash under which the object
    resolves and validates; content stored before stays resolvable under its own
    hash, unless the two objects are a hash collision. *)
Theorem modular_store_resolve (space space' : ModularHashSpace D B R S) o h :
  HasherLaws (hasher space) → HashCoderLaws (hash_coder space) →
  Modular_store o space = (Ok h, space') →
  Modular_resolve h space' = Ok o
  ∧ Modular_validate o h space' = Ok true
  ∧ ∀ h' o', Modular_resolve h' space = Ok o' →
      Modular_resolve h' space' = Ok o'
      ∨ (∃ b, hasher_validate (hasher space) o b = Ok true
              ∧ hasher_validate (hasher space) o' b = Ok true).
Proof.
  intros HL CL Hs. pose proof (Modular_store_then_resolve _ _ _ _ HL CL Hs) as Hr.
  split; [done|]. split; [by apply Modular_resolve_then_validate|].
  intros h' o' (b' & Hd & Hg & Hv)%Modular_resolve_ok.
  apply Modular_store_ok in Hs as (b & s' & Hb & He & Hset & ->).
  assert (hasher_validate (hasher space) o b' = Ok true
          ∨ hasher_validate (hasher space) o b' ≠ Ok true) as [Hvo|Hvo].
  { destruct (hasher_validate (hasher space) o b') as [[]|]; [by left|by right..]. }
  - right. by exists b'.
  - left. apply Modular_resolve_ok. exists b'. split_and!; try done. simpl.
    rewrite (kv_set_other b o (storage space) _ s' b' I I Hset); [done|].
    intros ->. by apply Hvo, validate_get_hash.
Qed.

End theorems.

Section more_theorems.
Context {MH : Multihash} {MB : Multibase} {S : Type} {KV : KeyValueStore S bytes bytes}.

(** Whatever the storage holds, tampered with or not, a blob resolved from
    a multihash space is one whose hash is the link's. *)
Theorem modular_resolve_integrity h c (s : S) link blob :
  Modular_resolve link (ModularHashSpace_new (MultiHasher_hasher h) s (MultiBaseHashCoder_coder c))
    = Ok blob →
  ∃ base hash, mb_decode link = Ok (base, hash) ∧ mh_encode (hash_algorithm h) blob = Ok hash.
Proof.
  intros (b & Hd & _ & Hv)%Modular_resolve_ok. simpl in *.
  destruct (mb_decode link) as [[base hash]|]; simpl in Hd; [|done]. injection Hd as ->.
  exists base, b. split; [done|]. unfold get_hash_bytes in Hv.
  destruct (mh_encode _ blob) as [x|]; simpl in Hv; [|done].
  injection Hv as ->%bool_decide_eq_true. done.
Qed.

End more_theorems.

Section sync_theorems.
Context {D B R : Type} `{Countable B}.

(** Over an in-memory store the synchronous space returns what the
    asynchronous one returns, always; they leave the same contents behind
    except when the hash cannot be encoded, where the synchronous one has
    already stored the object of the failed call. *)
Theorem sync_async_equiv (space : ModularHashSpace D B R (InMemoryStore B D)) o h :
  (Sync_store o space).1 = (Modular_store o space).1
  ∧ Sync_resolve h space = Modular_resolve h space
  ∧ Sync_validate o h space = Modular_validate o h space
  ∧ ((∀ b, is_ok (coder_encode (hash_coder space) b) = true) →
      Sync_store o space = Modular_store o space)
  ∧ ∀ b e, get_hash (hasher space) o = Ok b → coder_encode (hash_coder space) b = Err e →
      (Modular_store o space).2 = space
      ∧ kv_get b (storage (Sync_store o space).2) = Ok o.
Proof.
  unfold Sync_store, Modular_store, Sync_resolve, Modular_resolve, Sync_validate,
    Modular_validate, sync_validate. split_and!.
  - destruct (get_hash _ o) as [b|]; simpl; [|done]. by destruct (coder_encode _ b).
  - destruct (coder_decode _ h) as [b|]; simpl; [|done].
    unfold sync_lookup, InMemoryStore_get.
    destruct (store_map (storage space) !! b) as [d|]; simpl; [|done].
    by destruct (hasher_validate _ d b) as [[]|].
  - done.
  - intros He. destruct (get_hash _ o) as [b|]; simpl; [|done]. specialize (He b).
    by destruct (coder_encode _ b).
  - intros b e Hg He. rewrite Hg. simpl. rewrite He. simpl. split; [done|]. unfold InMemoryStore_get. simpl.
    by rewrite lookup_insert_eq.
Qed.

End sync_theorems.

Section web_theorems.
Context {Space O : Type} {HS : HashSpace Space O string}.

(** A hash web whose default space has a proper name stores into that space
    only, and the link it gives resolves to the object, with or without a
    leading separator, and validates. *)
Theorem hashweb_store_resolve {good} {HSL : HashSpaceLaws Space O string good}
    (web web' : HashWeb Space) o link :
  (∀ sp, hashspaces web !! default_space web = Some sp → good sp) →
  default_space web ≠ "" → no_char "/"%char (default_space web) = true →
  HashWeb_store o web = (Ok link, web') →
  HashWeb_resolve link web' = Returns (Ok o)
  ∧ HashWeb_resolve (String "/"%char link) web' = Returns (Ok o)
  ∧ HashWeb_validate o link web' = Returns (Ok true)
  ∧ ∀ id, id ≠ default_space web → hashspaces web' !! id = hashspaces web !! id.
Proof.
  intros Hgood Hne Hid. unfold HashWeb_store.
  destruct (hashspaces web !! default_space web) as [sp|] eqn:Hsp; [|done].
  destruct (hs_store o sp) as [[h|e] sp'] eqn:Hs; [|done]. intros [= <- <-].
  specialize (Hgood sp eq_refl). pose proof (hs_store_resolve _ _ _ _ Hgood Hs) as Hr.
  pose proof (hs_store_good o _ Hgood) as Hgood'. rewrite Hs in Hgood'. simpl in Hgood'.
  pose proof (hs_resolve_validate _ _ _ Hgood' Hr) as Hv.
  unfold HashWeb_resolve, HashWeb_validate, HashWebLink_HashSpaceId_Separator.
  rewrite HashWebLink_parse_no_slash, HashWebLink_parse_leading_slash by done.
  cbn [mbind panicking_bind link_hashspace link_hash hashspaces].
  rewrite lookup_insert_eq, Hr, Hv. split_and!; try done.
  intros id Hd. by rewrite lookup_insert_ne.
Qed.

(** Resolving a link is total: it never panics, and it fails with a format
    error on a text without a separator, with an unsupported space on an
    unknown name, and otherwise answers as the named space does. *)
Theorem hashweb_resolve_total (web : HashWeb Space) link :
  (∃ l, HashWebLink_parse link = Returns (Ok l)
        ∧ HashWeb_resolve (O:=O) link web = Returns
            match hashspaces web !! link_hashspace l with
            | Some sp => hs_resolve (link_hash l) sp
            | None => Err (UnsupportedHashSpace (link_hashspace l))
            end)
  ∨ HashWeb_resolve (O:=O) link web = Returns (Err (LinkFormatError link)).
Proof.
  unfold HashWeb_resolve.
  destruct (HashWebLink_parse_total link) as [[l Hl]|He].
  - left. exists l. split; [done|]. rewrite Hl. simpl. by case_match.
  - right. by rewrite He.
Qed.

(** A default space named by the empty string can be stored into, but the
    links it gives out do not name it. *)
Theorem hashweb_empty_default (web web' : HashWeb Space) o link :
  default_space web = "" → HashWeb_store o web = (Ok link, web') →
  ∃ hash, link = String "/"%char hash
    ∧ (no_char "/"%char hash = true →
       HashWeb_resolve (O:=O) link web' = Returns (Err (LinkFormatError link))).
Proof.
  intros Hd. unfold HashWeb_store. rewrite Hd.
  destruct (hashspaces web !! "") as [sp|]; [|done].
  destruct (hs_store o sp) as [[h|e] sp']; [|done]. intros [= <- <-].
  exists h. split; [done|]. intros Hh. unfold HashWeb_resolve, HashWebLink_parse. simpl.
  apply find_char_None in Hh. by rewrite Hh.
Qed.

End web_theorems.

(** ** Witnesses *)

Section witnesses.
#[local] Existing Instance Sample.multihash.
#[local] Existing Instance Sample.multibase.
#[local] Existing Instance Sample.multibase_laws.

Definition sample_space : ModularHashSpace bytes bytes string (InMemoryStore bytes bytes) :=
  ModularHashSpace_new (MultiHasher_hasher (MultiHasher_new mh_Keccak256)) InMemoryStore_new
    (MultiBaseHashCoder_coder (MultiBaseHashCoder_new mb_Base64url)).

Definition sample_stored := (Modular_store [x61] sample_space).2.
Definition sample_link : string :=
  match (Modular_store [x61] sample_space).1 with Ok h => h | Err _ => "" end.

Lemma modular_store_resolve_witness :
  Modular_resolve sample_link sample_stored = Ok [x61].
Proof.
  apply (modular_store_resolve sample_space sample_stored [x61] sample_link).
  - apply MultiHasher_laws.
  - apply MultiBaseHashCoder_laws.
  - apply fst_eq. vm_compute. reflexivity.
Defined.

Lemma modular_resolve_integrity_witness :
  ∃ base hash, mb_decode sample_link = Ok (base, hash)
               ∧ mh_encode mh_Keccak256 [x61] = Ok hash.
Proof.
  apply (modular_resolve_integrity (MultiHasher_new mh_Keccak256)
           (MultiBaseHashCoder_new mb_Base64url) (storage sample_stored)).
  vm_compute. reflexivity.
Defined.

Lemma sync_async_equiv_witness :
  Sync_store [x61] sample_space = Modular_store [x61] sample_space.
Proof. apply (sync_async_equiv sample_space [x61] sample_link). done. Defined.

Definition sample_web (default : string) :
  HashWeb (ModularHashSpace bytes bytes string (InMemoryStore bytes bytes)) :=
  HashWeb_new {[default := sample_space]} default.

Lemma hashweb_store_resolve_witness :
  HashWeb_resolve "cache/ua" (HashWeb_store [x61] (sample_web "cache")).2 = Returns (Err (HashSpace_StorageError InvalidKey))
  ∧ ∃ link, (HashWeb_store [x61] (sample_web "cache")).1 = Ok link
      ∧ HashWeb_resolve link (HashWeb_store [x61] (sample_web "cache")).2 = Returns (Ok [x61]).
Proof.
  split; [by vm_compute|].
  eexists. split; [vm_compute; reflexivity|].
  apply (hashweb_store_resolve (good:=modular_good) (sample_web "cache")).
  - intros sp Hsp. unfold sample_web in Hsp; simpl in Hsp.
    rewrite lookup_singleton_eq in Hsp. injection Hsp as <-.
    split; [apply MultiHasher_laws|apply MultiBaseHashCoder_laws].
  - done.
  - done.
  - apply fst_eq. vm_compute. reflexivity.
Defined.

Lemma hashweb_empty_default_witness :
  ∃ link, (HashWeb_store [x61] (sample_web "")).1 = Ok link
    ∧ HashWeb_resolve link (HashWeb_store [x61] (sample_web "")).2
      = Returns (Err (LinkFormatError link)).
Proof.
  destruct (hashweb_empty_default (sample_web "") (HashWeb_store [x61] (sample_web "")).2
              [x61] (String "/"%char sample_link)) as (hash & Hl & Hr).
  - reflexivity.
  - apply fst_eq. vm_compute. reflexivity.
  - exists (String "/"%char sample_link). split; [vm_compute; reflexivity|].
    apply Hr. injection Hl as <-. vm_compute. reflexivity.
Defined.
End witnesses.
