(* ===== verification/Ipfs.v ===== *)
(** * The IPFS hash space ([storage/src/async/imp.rs])

    A hash space whose contents are kept by an IPFS node, which is a parameter:
    a client that adds data and streams it back. *)

From S2P Require Import Prelude Errors HashSpace.
Import Errors.Storage.

(** [ipfs_api::IpfsClient]: [add] answers with the hash of the data, [cat]
    streams the data of a hash in chunks. *)
Class IpfsClient (C : Type) := {
  ipfs_new : string → N → Result string C;
  ipfs_add : bytes → C → Result string string * C;
  ipfs_cat : string → C → Result string (list bytes);
}.

(** What was added is streamed back under the hash it was given, also after other
    data was added. *)
Class IpfsClientLaws (C : Type) `{IpfsClient C} : Prop := {
  ipfs_add_cat b c h c' : ipfs_add b c = (Ok h, c') →
    ∃ chunks, ipfs_cat h c' = Ok chunks ∧ concat chunks = b;
  ipfs_add_keeps b c h chunks : ipfs_cat h c = Ok chunks →
    ∃ chunks', ipfs_cat h (ipfs_add b c).2 = Ok chunks' ∧ concat chunks' = concat chunks;
}.

Record Ipfs (C : Type) : Type := mkIpfs { ipfs_client : C }.
Arguments mkIpfs {C}.
Arguments ipfs_client {C}.

Section ipfs.
Context {C : Type} {IC : IpfsClient C}.

(** [Ipfs::new]: the description of an [io::Error] of the kind [NotFound]. *)
Definition Ipfs_new (host : string) (port : N) : Result string (Ipfs C) :=
  mkIpfs <$> ipfs_new host port.

Definition Ipfs_store (object : bytes) (s : Ipfs C) : Result HashSpaceError string * Ipfs C :=
  let '(resp, c) := ipfs_add object (ipfs_client s) in (map_err HashSpace_Other resp, mkIpfs c).

Definition Ipfs_resolve (hash : string) (s : Ipfs C) : Result HashSpaceError bytes :=
  map_err HashSpace_Other ((λ chunks, concat chunks) <$> ipfs_cat hash (ipfs_client s)).

Definition Ipfs_validate (object : bytes) (hash : string) (s : Ipfs C) : Result HashSpaceError bool :=
  (λ bytes, bool_decide (bytes = object)) <$> Ipfs_resolve hash s.

#[export] Instance Ipfs_hashspace : HashSpace (Ipfs C) bytes string :=
  {| hs_store := Ipfs_store; hs_resolve := Ipfs_resolve; hs_validate := Ipfs_validate |}.

End ipfs.

(** A [Box<HashSpace>] of one of two kinds, as a hash web holds them. *)
Section either.
Context {A B O R : Type} {HA : HashSpace A O R} {HB : HashSpace B O R}.

#[export] Instance either_hashspace : HashSpace (A + B) O R :=
  {| hs_store o s :=
       match s with
       | inl a => let '(r, a) := hs_store o a in (r, inl a)
       | inr b => let '(r, b) := hs_store o b in (r, inr b)
       end;
     hs_resolve h s := match s with inl a => hs_resolve h a | inr b => hs_resolve h b end;
     hs_validate o h s := match s with inl a => hs_validate o h a | inr b => hs_validate o h b end |}.

Definition either_good (good_a : A → Prop) (good_b : B → Prop) (s : A + B) : Prop :=
  match s with inl a => good_a a | inr b => good_b b end.

#[export] Instance either_laws good_a good_b {LA : HashSpaceLaws A O R good_a}
    {LB : HashSpaceLaws B O R good_b} : HashSpaceLaws (A + B) O R (either_good good_a good_b).
Proof.
  split; simpl.
  - intros o h [a|b] s' Hg.
    + destruct (hs_store o a) as [r a'] eqn:Hs. intros [= -> <-]. by eapply hs_store_resolve.
    + destruct (hs_store o b) as [r b'] eqn:Hs. intros [= -> <-]. by eapply hs_store_resolve.
  - intros h o [a|b] Hg Hr; by eapply hs_resolve_validate.
  - intros o [a|b] Hg.
    + pose proof (hs_store_good o a Hg) as H. by destruct (hs_store o a).
    + pose proof (hs_store_good o b Hg) as H. by destruct (hs_store o b).
Qed.
End either.

(** ** Theorems *)

Section theorems.
Context {C : Type} {IC : IpfsClient C} {ICL : IpfsClientLaws C}.

(** Every IPFS space is set up properly. *)
#[export] Instance Ipfs_laws : HashSpaceLaws (Ipfs C) bytes string (λ _, True).
Proof.
  split; [..|done]; simpl; unfold Ipfs_store, Ipfs_validate, Ipfs_resolve.
  - intros o h s s' _. destruct (ipfs_add o (ipfs_client s)) as [[h'|e] c] eqn:Ha; [|done].
    intros [= -> <-]. destruct (ipfs_add_cat _ _ _ _ Ha) as (chunks & Hc & <-). simpl.
    by rewrite Hc.
  - intros h o s _ Hr. rewrite Hr. simpl. by rewrite bool_decide_true.
Qed.

(** An IPFS space stores any object under a hash that resolves to it, keeps
    what resolved before, and validates by resolving: the answer is whether the
    hash stands for the object, and an error when it stands for nothing. *)
Theorem ipfs_spec (s s' : Ipfs C) o h :
  Ipfs_store o s = (Ok h, s') →
  Ipfs_resolve h s' = Ok o ∧ Ipfs_validate o h s' = Ok true
  ∧ (∀ h' o', Ipfs_resolve h' s = Ok o' →
       Ipfs_resolve h' s' = Ok o' ∧ ∀ o2, Ipfs_validate o2 h' s' = Ok (bool_decide (o' = o2)))
  ∧ ∀ h' o2, is_err (Ipfs_validate o2 h' s') = is_err (Ipfs_resolve h' s').
Proof.
  intros Hs. pose proof (hs_store_resolve o h s s' I Hs) as Hr. simpl in Hr. split; [done|].
  split; [unfold Ipfs_validate; rewrite Hr; simpl; by rewrite bool_decide_true|]. split.
  - intros h' o' Hr'. assert (Ipfs_resolve h' s' = Ok o') as Hk.
    { unfold Ipfs_store, Ipfs_resolve in *.
      destruct (ipfs_cat h' (ipfs_client s)) as [chunks|] eqn:Hc; [|done]. injection Hr' as <-.
      destruct (ipfs_add_keeps o _ _ _ Hc) as (chunks' & Hc' & Heq).
      destruct (ipfs_add o (ipfs_client s)) as [r c]. injection Hs as _ <-. simpl in *.
      rewrite Hc'. simpl. by rewrite Heq. }
    split; [done|]. intros o2. unfold Ipfs_validate. by rewrite Hk.
  - intros h' o2. unfold Ipfs_validate. by destruct (Ipfs_resolve h' s').
Qed.

End theorems.

(** A node that names data by itself and streams it in blocks of two bytes. *)
Section witness.
Fixpoint chunked (fuel : nat) (b : bytes) : list bytes :=
  match fuel, b with
  | Datatypes.S fuel, _ :: _ => take 2 b :: chunked fuel (drop 2 b)
  | _, _ => []
  end.

Definition sample_node : IpfsClient (list string) :=
  {| ipfs_new _ _ := Ok [];
     ipfs_add b c := (Ok (String.string_of_list_byte b), String.string_of_list_byte b :: c);
     ipfs_cat h c :=
       if decide (h ∈ c)
       then let b := String.list_byte_of_string h in Ok (chunked (length b) b)
       else Err "not found" |}.
#[local] Existing Instance sample_node.

Lemma concat_chunked fuel b : length b ≤ fuel → concat (chunked fuel b) = b.
Proof.
  revert b; induction fuel as [|fuel IH]; intros b Hb; [destruct b; simpl in *; [done|lia]|].
  destruct b as [|x b]; [done|]. cbn [chunked concat]. rewrite IH.
  - apply take_drop.
  - rewrite length_drop. simpl in *. lia.
Qed.

Lemma sample_node_laws : IpfsClientLaws (list string).
Proof.
  split; simpl.
  - intros b c h c' [= <- <-]. rewrite decide_True by (by left).
    eexists. split; [done|]. rewrite concat_chunked by done.
    apply String.list_byte_of_string_of_list_byte.
  - intros b c h chunks. case_decide as Hin; [|done]. intros [= <-].
    rewrite decide_True by (by apply list_elem_of_further). eauto.
Qed.
#[local] Existing Instance sample_node_laws.

Definition ipfs_stored := Ipfs_store [x61; x62; x63] (mkIpfs ["d"]).

Lemma ipfs_spec_witness :
  Ipfs_resolve "abc" ipfs_stored.2 = Ok [x61; x62; x63]
  ∧ Ipfs_validate [x65] "d" ipfs_stored.2 = Ok false.
Proof.
  destruct (ipfs_spec (mkIpfs ["d"]) ipfs_stored.2 [x61; x62; x63] "abc") as (H1 & _ & H2 & _);
    [reflexivity|].
  split; [exact H1|].
  destruct (H2 "d" [x64] eq_refl) as [_ H3]. exact (H3 [x65]).
Defined.
End witness.
