(* ===== verification/Address.v ===== *)
(** * Attributes and blob addresses ([storage/src/meta/], [storage/src/format/],
    [AddressResolver] of [storage/src/async/imp.rs])

    An address names a blob by a hash link and then follows link attributes:
    each attribute specifier names a format to parse the current blob with and
    the path of an attribute that holds the link of the next blob. *)

From Stdlib Require Import Strings.Ascii ZArith.
From S2P Require Import Prelude Errors Strs Storage HashSpace.
Import Errors.Storage.

(** ** [storage/src/meta/mod.rs]

    Numbers are kept as the bits they are stored in; the iterators over
    attributes and values are lists. *)

Record GpsLocation : Set := mkGpsLocation { latitude : Z; longitude : Z }.

#[warnings="-register-all"]
Inductive AttributeValue : Set :=
| Boolean (v : bool)
| Integer (v : Z)
| Float (v : Z)
| Timestamp (v : Z)
| Location (v : GpsLocation)
| AttrString (v : string)
| Blob (v : bytes)
| Link (v : string)
| Array (vs : list AttributeValue)
| Object (attrs : list Attribute)
with Attribute : Set :=
| mkAttribute (name : string) (value : AttributeValue).

Definition attr_name (a : Attribute) : string := let '(mkAttribute name _) := a in name.
Definition attr_value (a : Attribute) : AttributeValue := let '(mkAttribute _ value) := a in value.

Definition iter_first_attrval_by_name (iter : list Attribute) (name : string)
  : option AttributeValue :=
  attr_value <$> head (filter (λ attr, attr_name attr = name) iter).

Fixpoint iter_first_attrval_by_path (iter : list Attribute) (path : list string)
  : option AttributeValue :=
  match path with
  | [] => None
  | name :: rest =>
      let first_attrval := iter_first_attrval_by_name iter name in
      match rest with
      | [] => first_attrval
      | _ =>
          match first_attrval with
          | None => None
          | Some (Object attrs) => iter_first_attrval_by_path attrs rest
          | Some _ => None
          end
      end
  end.

(** ** [trait Data] *)

Record Data : Set := mkData { data_blob : bytes; data_attributes : list Attribute }.

Definition first_attrval_by_name (d : Data) (name : string) : option AttributeValue :=
  iter_first_attrval_by_name (data_attributes d) name.

Definition first_attrval_by_path (d : Data) (path : list string) : option AttributeValue :=
  iter_first_attrval_by_path (data_attributes d) path.

(** ** [storage/src/format/mod.rs] *)

Definition Format_Separator : ascii := "@".
Definition Path_Separator : ascii := "/".

(** [trait FormatParser]. *)
Definition FormatParser : Type := bytes → Result FormatParserError Data.

Record FormatRegistry : Type := FormatRegistry_new { formats : gmap string FormatParser }.

Definition resolve_format (reg : FormatRegistry) (format_id : string) (data : bytes)
  : Result AddressResolutionError Data :=
  parser ← ok_or (formats reg !! format_id) (UnknownFormat format_id);
  map_err Address_FormatParserError (parser data).

Definition resolve_attr_link (reg : FormatRegistry) (data : bytes) (attr_spec : string)
  : Panicking (Result AddressResolutionError string) :=
  let format_sep_idx := default (String.length attr_spec) (find_char Format_Separator attr_spec) in
  '(format_id, prefixed_attr_path_str) ← split_at format_sep_idx attr_spec;
  attr_path_str ← slice_from 1 prefixed_attr_path_str;
  let attr_path := split Path_Separator attr_path_str in
  Returns (
    parsed_data ← resolve_format reg format_id data;
    match ok_or (first_attrval_by_path parsed_data attr_path) (AttributeNotFound attr_path_str) with
    | Ok (Link v) => Ok v
    | Ok _ => Err WrongAttributeType
    | Err e => Err e
    end).

(** ** [AddressResolver] *)

Section resolver.
Context {Space : Type} {HS : HashSpace Space bytes string}.

Record AddressResolver : Type := AddressResolver_new
  { format_registry : FormatRegistry; hashweb : HashWeb Space }.

(** The futures chained with [and_then], one per attribute specifier. *)
Fixpoint resolve_attrs (r : AddressResolver) (attribute_specs : list string)
    (blob_fut : Result AddressResolutionError bytes)
  : Panicking (Result AddressResolutionError bytes) :=
  match attribute_specs with
  | [] => Returns blob_fut
  | attr_spec :: rest =>
      match blob_fut with
      | Err e => Returns (Err e)
      | Ok blob =>
          hashlink_res ← resolve_attr_link (format_registry r) blob attr_spec;
          match hashlink_res with
          | Err e => Returns (Err e)
          | Ok hashlink =>
              resolved_link ← HashWeb_resolve hashlink (hashweb r);
              resolve_attrs r rest (map_err Address_HashSpaceError resolved_link)
          end
      end
  end.

(** Nothing can change the hash web or the registry between the call and the
    polls, so the chain of futures is run here on the spot. *)
Definition resolve_blob (r : AddressResolver) (address : string)
  : Panicking (Result AddressResolutionError bytes) :=
  let attr_separ_idx := default (String.length address)
                          (find_char HashWebLink_Attribute_Separator address) in
  '(hashlink_str, hashed_attr_specs_str) ← split_at attr_separ_idx address;
  blob ← HashWeb_resolve hashlink_str (hashweb r);
  attr_specs_str ← slice_from 1 hashed_attr_specs_str;
  resolve_attrs r (split "&"%char attr_specs_str) (map_err Address_HashSpaceError blob).

(** ** Reference definitions *)

(** An address as data, and its text. *)
Record Address : Set := mkAddress
  { addr_link : string; addr_attrs : list (string * list string) }.

Definition attr_spec_text (a : string * list string) : string :=
  a.1 +:+ String Format_Separator (join Path_Separator a.2).

Definition address_text (a : Address) : string :=
  addr_link a +:+ String HashWebLink_Attribute_Separator
    (join "&"%char (attr_spec_text <$> addr_attrs a)).

(** No separator occurs in a place where it would be read as one. *)
Definition well_formed_attr (a : string * list string) : Prop :=
  no_char "@"%char a.1 = true ∧ no_char "&"%char a.1 = true ∧ a.2 ≠ []
  ∧ Forall (λ p, no_char "/"%char p = true ∧ no_char "&"%char p = true) a.2.

Definition well_formed_address (a : Address) : Prop :=
  no_char "#"%char (addr_link a) = true ∧ addr_attrs a ≠ []
  ∧ Forall well_formed_attr (addr_attrs a).

(** [at_path attrs path v]: descending by the first attribute of each name. *)
Inductive at_path : list Attribute → list string → AttributeValue → Prop :=
| at_leaf pre name v post :
    Forall (λ a, attr_name a ≠ name) pre →
    at_path (pre ++ mkAttribute name v :: post) [name] v
| at_node pre name attrs post p path v :
    Forall (λ a, attr_name a ≠ name) pre →
    at_path attrs (p :: path) v →
    at_path (pre ++ mkAttribute name (Object attrs) :: post) (name :: p :: path) v.

(** One blob names the next through a link attribute. *)
Definition link_in (reg : FormatRegistry) (blob : bytes) (fmt : string) (path : list string)
    (link : string) : Prop :=
  ∃ parser d, formats reg !! fmt = Some parser ∧ parser blob = Ok d
              ∧ at_path (data_attributes d) path (Link link).

(** Following the attributes of an address from a blob. *)
Inductive follows (r : AddressResolver) : bytes → list (string * list string) → bytes → Prop :=
| follows_nil b : follows r b [] b
| follows_cons b fmt path rest link b' b'' :
    link_in (format_registry r) b fmt path link →
    HashWeb_resolve link (hashweb r) = Returns (Ok b') →
    follows r b' rest b'' → follows r b ((fmt, path) :: rest) b''.

End resolver.
Arguments AddressResolver : clear implicits.
Arguments AddressResolver_new {Space}.

(** ** Lemmas *)

Lemma first_by_name_spec iter name v :
  iter_first_attrval_by_name iter name = Some v ↔
  ∃ pre post, iter = pre ++ mkAttribute name v :: post ∧ Forall (λ a, attr_name a ≠ name) pre.
Proof.
  unfold iter_first_attrval_by_name. induction iter as [|[n w] iter IH].
  - split; [done|]. by intros ([|] & ? & ? & _).
  - rewrite filter_cons. simpl. case_decide as Hn.
    + subst n. simpl. split.
      * intros [= ->]. by exists [], iter.
      * intros (pre & post & Heq & Hpre). destruct pre as [|[n' w'] pre]; simplify_eq/=; [done|].
        by apply Forall_cons_1 in Hpre as [? _].
    + rewrite IH. split.
      * intros (pre & post & -> & Hpre). exists (mkAttribute n w :: pre), post.
        split; [done|]. by constructor.
      * intros (pre & post & Heq & Hpre). destruct pre as [|a pre]; simplify_eq/=.
        apply Forall_cons_1 in Hpre as [? ?]. eauto.
Qed.

Lemma by_path_cons iter name p path :
  iter_first_attrval_by_path iter (name :: p :: path) =
  match iter_first_attrval_by_name iter name with
  | Some (Object attrs) => iter_first_attrval_by_path attrs (p :: path)
  | _ => None
  end.
Proof. by simpl; case_match. Qed.

Lemma by_path_at_path iter path v :
  iter_first_attrval_by_path iter path = Some v ↔ at_path iter path v.
Proof.
  revert iter; induction path as [|name path IH]; intros iter.
  { split; [done|inversion 1]. }
  destruct path as [|p path].
  - change (iter_first_attrval_by_path iter [name]) with (iter_first_attrval_by_name iter name).
    rewrite first_by_name_spec. split.
    + intros (pre & post & -> & Hpre). by constructor.
    + inversion 1; subst. eauto.
  - rewrite by_path_cons. split.
    + destruct (iter_first_attrval_by_name iter name) as [[]|] eqn:Hn; try done.
      apply first_by_name_spec in Hn as (pre & post & -> & Hpre). intros H%IH. by constructor.
    + inversion 1; subst.
      assert (iter_first_attrval_by_name (pre ++ mkAttribute name (Object attrs) :: post) name
              = Some (Object attrs)) as -> by (apply first_by_name_spec; eauto).
      by apply IH.
Qed.

Lemma resolve_attr_link_text reg data fmt path :
  well_formed_attr (fmt, path) →
  resolve_attr_link reg data (attr_spec_text (fmt, path)) = Returns (
    parsed_data ← resolve_format reg fmt data;
    match ok_or (first_attrval_by_path parsed_data path)
            (AttributeNotFound (join Path_Separator path)) with
    | Ok (Link v) => Ok v
    | Ok _ => Err WrongAttributeType
    | Err e => Err e
    end).
Proof.
  intros (Hat & _ & Hne & Hpath). unfold resolve_attr_link, attr_spec_text, Format_Separator.
  simpl in *. rewrite find_char_app by done. simpl. rewrite split_at_app. simpl.
  unfold Path_Separator. rewrite split_join; [done..|].
  eapply Forall_impl; [|exact Hpath]. by intros ? [? _].
Qed.

Lemma no_char_app c s t : no_char c (s +:+ t) = no_char c s && no_char c t.
Proof. induction s as [|d s IH]; [done|]. rewrite string_app_cons. simpl. by rewrite IH, andb_assoc. Qed.

Lemma no_char_join c d ps :
  c ≠ d → Forall (λ p, no_char c p = true) ps → no_char c (join d ps) = true.
Proof.
  intros Hcd. induction ps as [|p ps IH]; [done|]. intros [Hp Hps]%Forall_cons_1.
  destruct ps as [|q ps]; [done|].
  change (join d (p :: q :: ps)) with (p +:+ String d (join d (q :: ps))).
  rewrite no_char_app, Hp. simpl. rewrite bool_decide_true by done. by apply IH.
Qed.

Lemma attr_spec_no_amp a : well_formed_attr a → no_char "&"%char (attr_spec_text a) = true.
Proof.
  intros (_ & H1 & _ & H2). unfold attr_spec_text. rewrite no_char_app, H1. simpl.
  apply no_char_join; [done|]. eapply Forall_impl; [|exact H2]. by intros ? [_ ?].
Qed.

Section resolver_lemmas.
Context {Space : Type} {HS : HashSpace Space bytes string}.
Implicit Types r : AddressResolver Space.

(** Which links an attribute specifier finds. *)
Lemma resolve_attr_link_ok reg data fmt path link :
  well_formed_attr (fmt, path) →
  resolve_attr_link reg data (attr_spec_text (fmt, path)) = Returns (Ok link)
  ↔ link_in reg data fmt path link.
Proof.
  intros Hwf. rewrite resolve_attr_link_text by done.
  unfold link_in, resolve_format, first_attrval_by_path.
  destruct (formats reg !! fmt) as [parser|]; simpl.
  2: { split; [done|]. by intros (? & ? & ? & _). }
  destruct (parser data) as [d|e] eqn:Hd; simpl.
  2: { split; [done|]. intros (? & ? & ? & ? & _). congruence. }
  split.
  - destruct (iter_first_attrval_by_path _ path) as [[]|] eqn:Hv; simpl; try done.
    intros [= ->]. exists parser, d. split_and!; try done. by apply by_path_at_path.
  - intros (p' & d' & ? & ? & Hat). assert (d' = d) as -> by congruence. apply by_path_at_path in Hat. by rewrite Hat.
Qed.

Lemma resolve_attrs_follows r attrs blob res :
  Forall well_formed_attr attrs →
  resolve_attrs r (attr_spec_text <$> attrs) (Ok blob) = Returns (Ok res)
  ↔ follows r blob attrs res.
Proof.
  revert blob; induction attrs as [|[fmt path] attrs IH]; intros blob Hwf.
  { simpl. split; [intros [= ->]; constructor|by inversion 1]. }
  apply Forall_cons_1 in Hwf as [Hwf Hattrs].
  rewrite fmap_cons. cbn [resolve_attrs]. split.
  - destruct (resolve_attr_link _ _ _) as [[link|e]|] eqn:Hlink; simpl; try done.
    apply resolve_attr_link_ok in Hlink; [|done].
    destruct (HashWeb_resolve link _) as [[b|e]|] eqn:Hb; simpl; try done.
    + intros Hr. econstructor; [done..|]. by apply IH.
    + by destruct attrs.
  - inversion 1; subst. rewrite (proj2 (resolve_attr_link_ok _ _ _ _ _ Hwf)) by done. simpl.
    rewrite H6. simpl. by apply IH.
Qed.

(** The text of an address splits into its parts. *)
Lemma resolve_blob_text r a :
  well_formed_address a →
  resolve_blob r (address_text a) =
  (blob ← HashWeb_resolve (addr_link a) (hashweb r);
   resolve_attrs r (attr_spec_text <$> addr_attrs a) (map_err Address_HashSpaceError blob)).
Proof.
  intros (Hh & Hne & Hattrs). unfold resolve_blob, address_text, HashWebLink_Attribute_Separator.
  rewrite find_char_app by done. simpl. rewrite split_at_app. simpl.
  rewrite split_join; [done|by destruct (addr_attrs a)|].
  apply Forall_fmap. eapply Forall_impl; [|exact Hattrs]. intros x. apply attr_spec_no_amp.
Qed.

End resolver_lemmas.

(** ** Theorems *)

Section theorems.
Context {Space : Type} {HS : HashSpace Space bytes string}.

(** Looking up an attribute path is descending by the first attribute of
    each name, through objects only. *)
Theorem attrval_by_path_spec iter path v :
  iter_first_attrval_by_path iter path = Some v ↔ at_path iter path v.
Proof. apply by_path_at_path. Qed.

(** C29: resolving the text of a well-formed address gives a blob exactly when
    the hash link resolves and the link attributes lead from there to it, each
    read from the blob before under the format the address names. *)
Theorem resolve_blob_spec (r : AddressResolver Space) a res :
  well_formed_address a →
  resolve_blob r (address_text a) = Returns (Ok res)
  ↔ ∃ b, HashWeb_resolve (addr_link a) (hashweb r) = Returns (Ok b)
         ∧ follows r b (addr_attrs a) res.
Proof.
  intros Hwf. rewrite resolve_blob_text by done. destruct Hwf as (_ & Hne & Hattrs).
  destruct (HashWeb_resolve (addr_link a) _) as [[b|e]|]; simpl.
  - rewrite resolve_attrs_follows by done. naive_solver.
  - split; [by destruct (addr_attrs a)|naive_solver].
  - naive_solver.
Qed.

(** An address without an attribute part, the plain link of a blob, makes
    the resolver panic, and so does an attribute specifier without a format
    separator once the blob before it is there. *)
Theorem resolve_blob_panics (r : AddressResolver Space) :
  (∀ address, no_char "#"%char address = true → resolve_blob r address = Panics)
  ∧ (∀ link spec blob,
       no_char "#"%char link = true → no_char "@"%char spec = true →
       no_char "&"%char spec = true →
       HashWeb_resolve link (hashweb r) = Returns (Ok blob) →
       resolve_blob r (link +:+ String "#"%char spec) = Panics).
Proof.
  split.
  - intros address Ha. unfold resolve_blob, HashWebLink_Attribute_Separator.
    rewrite (proj2 (find_char_None _ _) Ha). simpl. rewrite split_at_length. simpl.
    by destruct (HashWeb_resolve address _).
  - intros link spec blob Hl Hs Hamp Hb. unfold resolve_blob, HashWebLink_Attribute_Separator.
    rewrite find_char_app by done. simpl. rewrite split_at_app. simpl. rewrite Hb. simpl.
    rewrite split_no_char by done. simpl. unfold resolve_attr_link, Format_Separator.
    rewrite (proj2 (find_char_None _ _) Hs). simpl. by rewrite split_at_length.
Qed.

End theorems.

(** ** Witnesses: a blob whose attribute links to another *)

Section witnesses.
#[local] Existing Instance External.Sample.multihash.
#[local] Existing Instance External.Sample.multibase.

Definition linked_web :=
  (HashWeb_store [x62] (HashWeb_store [x61] (sample_web "cache")).2).2.

Definition link_of (blob : bytes) : string :=
  match (HashWeb_store blob (sample_web "cache")).1 with Ok l => l | Err _ => "" end.

(** A parser that finds a link to the second blob under [container/next]. *)
Definition sample_parser : FormatParser := λ blob,
  Ok (mkData blob [mkAttribute "container" (Object
        [mkAttribute "size" (Integer 1); mkAttribute "next" (Link (link_of [x62]))])]).

Definition sample_resolver :=
  AddressResolver_new (FormatRegistry_new {["f" := sample_parser]}) linked_web.

Definition sample_address : Address :=
  mkAddress (link_of [x61]) [("f", ["container"; "next"])].

Lemma sample_address_wf : well_formed_address sample_address.
Proof.
  split; [by vm_compute|]. split; [done|]. constructor; [|done].
  split_and!; [done|done|done|]. by repeat constructor.
Qed.

Lemma resolve_blob_spec_witness :
  resolve_blob sample_resolver (address_text sample_address) = Returns (Ok [x62]).
Proof.
  apply (resolve_blob_spec sample_resolver sample_address [x62] sample_address_wf).
  exists [x61]. split; [vm_compute; reflexivity|].
  eapply (follows_cons _ _ _ _ _ (link_of [x62])); [| |constructor].
  - exists sample_parser. eexists. split; [reflexivity|]. split; [reflexivity|].
    apply by_path_at_path. reflexivity.
  - vm_compute. reflexivity.
Defined.

Lemma resolve_blob_panics_witness :
  resolve_blob sample_resolver (link_of [x61]) = Panics
  ∧ resolve_blob sample_resolver (link_of [x61] +:+ String "#"%char "f") = Panics.
Proof.
  split.
  - apply (resolve_blob_panics sample_resolver). vm_compute. reflexivity.
  - eapply (proj2 (resolve_blob_panics sample_resolver) (link_of [x61]) "f" [x61]);
      vm_compute; reflexivity.
Defined.
End witnesses.
