(* ===== verification/Protocol.v ===== *)
(** * The data of the home protocol ([home-protocol/src/lib.rs])

    Identifiers, profiles, relations and their half proofs, events and call
    requests, with their constructors and conversions.  Signing and validating
    them is in [Relation.v]. *)

From S2P Require Import Prelude Errors External.

(** ** Newtypes *)

Record ProfileId : Set := mkProfileId { pid_bytes : bytes }.
Record PublicKey : Set := mkPublicKey { pk_bytes : bytes }.
Record PrivateKey : Set := mkPrivateKey { sk_bytes : bytes }.
Record Signature : Set := mkSignature { sig_bytes : bytes }.
Record ApplicationId : Set := mkApplicationId { app_str : string }.
Record AppMessageFrame : Set := mkAppMessageFrame { frame_bytes : bytes }.

(** [multiaddr::Multiaddr] keeps its address as bytes; what the sources do with
    one (print, parse, iterate) is in [MultiaddrOps] below. *)
Record Multiaddr : Set := mkMultiaddr { multiaddr_bytes : bytes }.

#[global] Instance ProfileId_eq_dec : EqDecision ProfileId.
Proof. solve_decision. Defined.
#[global] Instance PublicKey_eq_dec : EqDecision PublicKey.
Proof. solve_decision. Defined.
#[global] Instance Signature_eq_dec : EqDecision Signature.
Proof. solve_decision. Defined.
#[global] Instance ApplicationId_eq_dec : EqDecision ApplicationId.
Proof. solve_decision. Defined.
#[global] Instance AppMessageFrame_eq_dec : EqDecision AppMessageFrame.
Proof. solve_decision. Defined.
#[global] Instance Multiaddr_eq_dec : EqDecision Multiaddr.
Proof. solve_decision. Defined.

#[global] Program Instance ProfileId_countable : Countable ProfileId :=
  inj_countable' pid_bytes mkProfileId _.
Next Obligation. by intros []. Qed.
#[global] Program Instance ApplicationId_countable : Countable ApplicationId :=
  inj_countable' app_str mkApplicationId _.
Next Obligation. by intros []. Qed.

(** [derive(PartialOrd)] on [ProfileId]. *)
Definition profile_id_ltb (a b : ProfileId) : bool := bytes_ltb (pid_bytes a) (pid_bytes b).

(** [CHANNEL_CAPACITY]. *)
Definition CHANNEL_CAPACITY : nat := 1.

(** ** Relations *)

Record RelationSignablePart : Set := mkSignable
  { sp_relation_type : string; sp_signer_id : ProfileId; sp_peer_id : ProfileId }.

Record RelationHalfProof : Set := mkHalfProof
  { hp_relation_type : string; hp_signer_id : ProfileId; hp_peer_id : ProfileId;
    hp_signature : Signature }.

Record RelationProof : Set := mkRelationProof
  { rp_relation_type : string;
    rp_a_id : ProfileId; rp_a_signature : Signature;
    rp_b_id : ProfileId; rp_b_signature : Signature }.

#[global] Instance RelationHalfProof_eq_dec : EqDecision RelationHalfProof.
Proof. solve_decision. Defined.
#[global] Instance RelationProof_eq_dec : EqDecision RelationProof.
Proof. solve_decision. Defined.

(** ** Profiles *)

Record PersonaFacet : Set := mkPersonaFacet
  { persona_homes : list RelationProof; persona_data : bytes }.
Record HomeFacet : Set := mkHomeFacet
  { home_addrs : list Multiaddr; home_data : bytes }.
Record ApplicationFacet : Set := mkApplicationFacet
  { appfacet_id : ApplicationId; appfacet_data : bytes }.
Record RawFacet : Set := mkRawFacet { raw_data : bytes }.

Inductive ProfileFacet : Set :=
| Home (f : HomeFacet)
| Persona (f : PersonaFacet)
| Application (f : ApplicationFacet)
| Unknown (f : RawFacet).

Record Profile : Set := mkProfile
  { profile_id : ProfileId; profile_public_key : PublicKey; profile_facet : ProfileFacet }.

Record OwnProfile : Set := mkOwnProfile { own_profile : Profile; own_priv_data : bytes }.

Record HomeInvitation : Set := mkHomeInvitation
  { inv_home_id : ProfileId; inv_voucher : string; inv_signature : Signature }.

#[global] Instance ProfileFacet_eq_dec : EqDecision ProfileFacet.
Proof.
  assert (EqDecision HomeFacet) by solve_decision.
  assert (EqDecision PersonaFacet) by solve_decision.
  assert (EqDecision ApplicationFacet) by solve_decision.
  assert (EqDecision RawFacet) by solve_decision.
  solve_decision.
Defined.
#[global] Instance Profile_eq_dec : EqDecision Profile.
Proof. solve_decision. Defined.
#[global] Instance OwnProfile_eq_dec : EqDecision OwnProfile.
Proof. solve_decision. Defined.
#[global] Instance HomeInvitation_eq_dec : EqDecision HomeInvitation.
Proof. solve_decision. Defined.

(** [Profile::new], [Profile::new_home], [OwnProfile::new], [HomeInvitation::new]. *)
Definition Profile_new (id : ProfileId) (pk : PublicKey) (facet : ProfileFacet) : Profile :=
  mkProfile id pk facet.

Definition Profile_new_home (id : ProfileId) (pk : PublicKey) (address : Multiaddr) : Profile :=
  mkProfile id pk (Home (mkHomeFacet [address] [])).

Definition OwnProfile_new (profile : Profile) (private_data : bytes) : OwnProfile :=
  mkOwnProfile profile private_data.

Definition HomeInvitation_new (home_id : ProfileId) (voucher : string) (s : Signature)
  : HomeInvitation := mkHomeInvitation home_id voucher s.

(** ** Events and calls *)

Inductive ProfileEvent : Set :=
| UnknownEvent (data : bytes)
| PairingRequest (half_proof : RelationHalfProof)
| PairingResponse (proof : RelationProof).

#[global] Instance ProfileEvent_eq_dec : EqDecision ProfileEvent.
Proof. solve_decision. Defined.

(** [to_caller] names the sink half of a channel towards the caller. *)
Record CallRequestDetails : Set := mkCallRequest
  { cr_relation : RelationProof; cr_init_payload : AppMessageFrame;
    cr_to_caller : option SinkId }.

(** ** Signers, validators and peer contexts *)

(** [trait Signer]. *)
Record Signer : Type := mkSigner
  { signer_profile_id : ProfileId; signer_public_key : PublicKey;
    signer_sign : bytes → Signature }.

(** [trait Validator: ProfileValidator + SignatureValidator]; its provided
    methods are in [Relation.v]. *)
Record Validator : Type := mkValidator
  { validate_profile : PublicKey → ProfileId → Result ProtoError bool;
    validate_signature : PublicKey → bytes → Signature → Result ProtoError bool }.

Record PeerContext : Type := mkPeerContext
  { my_signer : Signer; peer_pubkey : PublicKey; peer_id : ProfileId }.

Definition PeerContext_new (s : Signer) (pk : PublicKey) (id : ProfileId) : PeerContext :=
  mkPeerContext s pk id.

Definition PeerContext_new_from_profile (s : Signer) (peer : Profile) : PeerContext :=
  PeerContext_new s (profile_public_key peer) (profile_id peer).

Definition PeerContext_validate (ctx : PeerContext) (v : Validator) : Result ProtoError unit :=
  validate_profile v (peer_pubkey ctx) (peer_id ctx) ≫= λ valid,
    if (valid : bool) then Ok tt else Err (proto_from Proto.ProfileValidationFailed).

(** ** Textual forms of identifiers *)
Section text.
Context `{Multibase}.

(** [TryFrom<&str> for ProfileId], [From<&ProfileId> for String] and the same
    for public keys; [Display] prints these strings. *)
Definition ProfileId_try_from (src : string) : Result string ProfileId :=
  '(_, binary) ← mb_decode src; Ok (mkProfileId binary).

Definition ProfileId_to_string (src : ProfileId) : string :=
  mb_encode mb_Base64url (pid_bytes src).

Definition PublicKey_to_string (src : PublicKey) : string :=
  mb_encode mb_Base64url (pk_bytes src).

End text.

(** ** (De)serialization of address lists *)

(** [multiaddr]: parsing and printing. *)
Class MultiaddrOps := {
  multiaddr_to_string : Multiaddr → string;
  to_multiaddr : string → Result string Multiaddr;
}.
Class MultiaddrLaws `{MultiaddrOps} : Prop := {
  to_multiaddr_to_string m : to_multiaddr (multiaddr_to_string m) = Ok m
}.

(** The three calls of a [serde::Serializer] the code makes. *)
Record SeqSerializer (Seq Out E : Type) : Type := mkSeqSerializer
  { serialize_seq : nat → Result E Seq;
    serialize_element : Seq → string → Result E Seq;
    serialize_end : Seq → Result E Out }.
Arguments serialize_seq {Seq Out E}.
Arguments serialize_element {Seq Out E}.
Arguments serialize_end {Seq Out E}.

Section addresses.
Context `{MultiaddrOps} {Seq Out E : Type}.

Fixpoint serialize_elements (s : SeqSerializer Seq Out E) (seq : Seq) (x : list Multiaddr)
  : Result E Seq :=
  match x with
  | [] => Ok seq
  | mr :: x' =>
      match serialize_element s seq (multiaddr_to_string mr) with
      | Ok seq' => serialize_elements s seq' x'
      | Err e => Err e
      end
  end.

Definition serialize_multiaddr_vec (x : list Multiaddr) (s : SeqSerializer Seq Out E)
  : Result E Out :=
  seq ← serialize_seq s (length x);
  seq ← serialize_elements s seq x;
  serialize_end s seq.

(** [mapped] is what [Vec<String>::deserialize] returned, [custom] is
    [D::Error::custom]. *)
Fixpoint push_multiaddrs (custom : string → E) (mapped : list string) (res : list Multiaddr)
  : Result E (list Multiaddr) :=
  match mapped with
  | [] => Ok res
  | str_ma :: rest =>
      match to_multiaddr str_ma with
      | Ok multi => push_multiaddrs custom rest (res ++ [multi])
      | Err e => Err (custom e)
      end
  end.

Definition deserialize_multiaddr_vec (custom : string → E) (mapped : Result E (list string))
  : Result E (list Multiaddr) :=
  mapped ← mapped; push_multiaddrs custom mapped [].

End addresses.

(** A serializer that collects its elements. *)
Definition collecting : SeqSerializer (list string) (list string) string :=
  mkSeqSerializer _ _ _ (λ _, Ok []) (λ seq x, Ok (seq ++ [x])) Ok.

(** ** Lemmas *)

Lemma ProfileId_ext (a b : ProfileId) : pid_bytes a = pid_bytes b → a = b.
Proof. destruct a, b; simpl; congruence. Qed.

Lemma profile_id_ltb_total a b :
  profile_id_ltb a b = false → profile_id_ltb b a = false → a = b.
Proof. intros. by apply ProfileId_ext, bytes_ltb_total. Qed.

Lemma profile_id_ltb_asym a b : profile_id_ltb a b = true → profile_id_ltb b a = false.
Proof. apply bytes_ltb_asym. Qed.

Lemma profile_id_ltb_neq a b : profile_id_ltb a b = true → a ≠ b.
Proof. intros H ->. unfold profile_id_ltb in H. by rewrite bytes_ltb_irrefl in H. Qed.

#[export] Hint Resolve profile_id_ltb_asym profile_id_ltb_neq : mercury.

Lemma serialize_elements_collecting `{MultiaddrOps} x seq :
  serialize_elements collecting seq x = Ok (seq ++ (multiaddr_to_string <$> x)).
Proof.
  revert seq; induction x as [|m x IH]; intros seq; simpl; [by rewrite app_nil_r|].
  rewrite IH. by rewrite <- app_assoc.
Qed.

Lemma push_multiaddrs_printed `{MultiaddrLaws} {E} (custom : string → E) x res :
  push_multiaddrs custom (multiaddr_to_string <$> x) res = Ok (res ++ x).
Proof.
  revert res; induction x as [|m x IH]; intros res; simpl; [by rewrite app_nil_r|].
  rewrite to_multiaddr_to_string, IH. by rewrite <- app_assoc.
Qed.
