(* ===== verification/Crypto.v ===== *)
(** * Keys, signatures and profile ids ([home-protocol/src/crypto.rs])

    The multihash check that ties a profile id to a public key, the ed25519
    signer and validator, and the composite validator built from the two. *)

From S2P Require Import Prelude Errors External Protocol.

(** [.context(kind)?] on a result. *)
Definition with_context {E A} `{ToCause E} (k : Proto.ErrorKind) (r : Result E A)
  : Result ProtoError A := map_err (proto_context k) r.

Section crypto.
Context {MH : Multihash} {ED : Ed25519}.

(** ** [MultiHashProfileValidator] *)

Definition multihash_validate_profile (public_key : PublicKey) (profile_id : ProfileId)
  : Result ProtoError bool :=
  id_hashalgo ← with_context Proto.HashDecodeFailed (mh_decode_alg (pid_bytes profile_id));
  key_hash ← with_context Proto.HashEncodeFailed (mh_encode id_hashalgo (pk_bytes public_key));
  Ok (bool_decide (key_hash = pid_bytes profile_id)).

(** ** [From<&PublicKey> for ProfileId]: panics if hashing fails *)

Definition ProfileId_from_public_key (public_key : PublicKey) : Panicking ProfileId :=
  match mh_encode mh_Keccak256 (pk_bytes public_key) with
  | Ok hash => Returns (mkProfileId hash)
  | Err _ => Panics
  end.

(** ** [Ed25519Signer] *)

Record Ed25519Signer : Set := mkEd25519Signer
  { eds_profile_id : ProfileId; eds_public_key : PublicKey; eds_signer : ed_Seed }.

Definition Ed25519Signer_new (private_key : PrivateKey)
  : Panicking (Result ProtoError Ed25519Signer) :=
  match with_context Proto.SignerCreationFailed (ed_seed_from_slice (sk_bytes private_key)) with
  | Err e => Returns (Err e)
  | Ok seed =>
      match with_context Proto.SignerCreationFailed (ed_public_key seed) with
      | Err e => Returns (Err e)
      | Ok ed_public_key =>
          let public_key := mkPublicKey ed_public_key in
          profile_hash ← ProfileId_from_public_key public_key;
          Returns (Ok (mkEd25519Signer profile_hash public_key seed))
      end
  end.

(** [impl Signer for Ed25519Signer]. *)
Definition Ed25519Signer_signer (s : Ed25519Signer) : Signer :=
  mkSigner (eds_profile_id s) (eds_public_key s)
           (λ data, mkSignature (ed_sign (eds_signer s) data)).

(** ** [Ed25519Validator] *)

Definition ed25519_validate_signature (public_key : PublicKey) (data : bytes)
    (signature : Signature) : Result ProtoError bool :=
  pubkey ← with_context Proto.SignatureValidationFailed
             (ed_public_from_bytes (pk_bytes public_key));
  signature ← with_context Proto.SignatureValidationFailed
             (ed_signature_from_bytes (sig_bytes signature));
  _ ← with_context Proto.SignatureValidationFailed (ed_verify pubkey data signature);
  Ok true.

(** ** [CompositeValidator] *)

(** [CompositeValidator::compose] and the two forwarding implementations. *)
Definition CompositeValidator_compose
    (profile_validator : PublicKey → ProfileId → Result ProtoError bool)
    (signature_validator : PublicKey → bytes → Signature → Result ProtoError bool)
  : Validator := mkValidator profile_validator signature_validator.

(** [CompositeValidator::default]. *)
Definition CompositeValidator_default : Validator :=
  CompositeValidator_compose multihash_validate_profile ed25519_validate_signature.

End crypto.

(** A concrete signer, home and validator for the examples of the library. *)
Module Actors.
#[local] Existing Instance Sample.multihash.
#[local] Existing Instance Sample.ed25519.

Definition signer_of (seed : bytes) : Signer :=
  match Ed25519Signer_new (mkPrivateKey seed) with
  | Returns (Ok s) => Ed25519Signer_signer s
  | _ => mkSigner (mkProfileId []) (mkPublicKey []) (λ _, mkSignature [])
  end.

Definition alice : Signer := signer_of [x61].
Definition bob : Signer := signer_of [x62].
Definition carol : Signer := signer_of [x63].
Definition home : Signer := signer_of [x68].
Definition validator : Validator := CompositeValidator_default.
Definition persona (s : Signer) : Profile :=
  mkProfile (signer_profile_id s) (signer_public_key s) (Persona (mkPersonaFacet [] [])).
End Actors.

(** ** Lemmas *)

Section lemmas.
Context {MH : Multihash} {ED : Ed25519}.

Lemma with_context_ok {E A} `{ToCause E} k (r : Result E A) a :
  with_context k r = Ok a ↔ r = Ok a.
Proof. unfold with_context. destruct r; simpl; split; congruence. Qed.

(** Every failure of the ed25519 validator is an [Err] of one kind: it never
    answers [Ok false]. *)
Lemma ed25519_validate_never_false pk data s :
  ed25519_validate_signature pk data s ≠ Ok false.
Proof.
  unfold ed25519_validate_signature, with_context.
  destruct (ed_public_from_bytes _); simpl; [|done].
  destruct (ed_signature_from_bytes _); simpl; [|done].
  by destruct (ed_verify _ _ _).
Qed.

Lemma Ed25519Signer_new_inv sk s :
  Ed25519Signer_new sk = Returns (Ok s) →
  ed_seed_from_slice (sk_bytes sk) = Ok (eds_signer s)
  ∧ ed_public_key (eds_signer s) = Ok (pk_bytes (eds_public_key s))
  ∧ mh_encode mh_Keccak256 (pk_bytes (eds_public_key s)) = Ok (pid_bytes (eds_profile_id s)).
Proof.
  unfold Ed25519Signer_new, with_context, ProfileId_from_public_key.
  destruct (ed_seed_from_slice _) as [seed|] eqn:Hs; simpl; [|done].
  destruct (ed_public_key seed) as [pk|] eqn:Hp; simpl; [|done].
  destruct (mh_encode _ _) as [h|] eqn:Hh; simpl; [|done].
  by intros [= <-].
Qed.

End lemmas.

(** The sample validator accepts every sample signer. *)
Lemma Actors_validate_signature x seed data :
  validate_signature Actors.validator (signer_public_key (Actors.signer_of (x :: seed))) data
    (signer_sign (Actors.signer_of (x :: seed)) data) = Ok true.
Proof.
  unfold Actors.validator. simpl. unfold ed25519_validate_signature. simpl.
  by rewrite decide_True.
Qed.

#[export] Hint Resolve Actors_validate_signature : mercury.

(** ** Theorems *)

Section theorems.
Context {MH : Multihash} {ED : Ed25519}.

(** A signer made from a private key by [Ed25519Signer::new] is accepted by
    the default composite validator: its profile id validates against its
    public key, and every signature it makes verifies. *)
Theorem own_signer_validates {MHL : MultihashLaws} {EDL : Ed25519Laws} sk s :
  Ed25519Signer_new sk = Returns (Ok s) →
  validate_profile CompositeValidator_default
    (signer_public_key (Ed25519Signer_signer s)) (signer_profile_id (Ed25519Signer_signer s))
    = Ok true
  ∧ ∀ data, validate_signature CompositeValidator_default
              (signer_public_key (Ed25519Signer_signer s)) data
              (signer_sign (Ed25519Signer_signer s) data) = Ok true.
Proof.
  intros (_ & Hpk & Hid)%Ed25519Signer_new_inv. split.
  - simpl. unfold multihash_validate_profile.
    rewrite (mh_decode_encode _ _ _ Hid). simpl. rewrite Hid. simpl.
    by rewrite bool_decide_true.
  - intros data. simpl. unfold ed25519_validate_signature. simpl.
    destruct (ed_verify_sign _ _ data Hpk) as (p & sg & -> & -> & Hv). simpl. by rewrite Hv.
Qed.

(** [validate_profile] accepts exactly the ids that are the hash of the key
    under the algorithm the id itself names; an id that is not a multihash is
    reported as a [HashDecodeFailed] error, not as [Ok false]. *)
Theorem multihash_validate_profile_spec pk id :
  (multihash_validate_profile pk id = Ok true ↔
     ∃ alg, mh_decode_alg (pid_bytes id) = Ok alg
            ∧ mh_encode alg (pk_bytes pk) = Ok (pid_bytes id))
  ∧ (is_err (mh_decode_alg (pid_bytes id)) = true →
     ∃ e, multihash_validate_profile pk id = Err e
          ∧ proto_kind e = Proto.HashDecodeFailed).
Proof.
  unfold multihash_validate_profile, with_context. split.
  - destruct (mh_decode_alg _) as [alg|]; simpl.
    2: { split; [done|]. by intros (? & [=] & _). }
    destruct (mh_encode alg (pk_bytes pk)) as [h|] eqn:Hh; simpl.
    2: { split; [done|]. intros (? & [= <-] & ?). congruence. }
    split.
    + intros [= ->%bool_decide_eq_true]. eauto.
    + intros (? & [= <-] & Hh'). f_equal. apply bool_decide_eq_true. congruence.
  - intros [e He]%is_err_true. rewrite He. simpl. eauto.
Qed.

End theorems.

Section witnesses.
#[local] Existing Instance Sample.multihash.
#[local] Existing Instance Sample.ed25519.
#[local] Existing Instance Sample.multihash_laws.
#[local] Existing Instance Sample.ed25519_laws.

Lemma own_signer_validates_witness :
  ∃ s, Ed25519Signer_new (mkPrivateKey [x61]) = Returns (Ok s)
       ∧ validate_profile CompositeValidator_default
           (signer_public_key (Ed25519Signer_signer s))
           (signer_profile_id (Ed25519Signer_signer s)) = Ok true.
Proof. eexists. split; [reflexivity|]. eapply (own_signer_validates (mkPrivateKey [x61])). reflexivity. Defined.

Lemma multihash_validate_profile_spec_witness :
  ∃ e, multihash_validate_profile (mkPublicKey [x61]) (mkProfileId []) = Err e
       ∧ proto_kind e = Proto.HashDecodeFailed.
Proof. apply (multihash_validate_profile_spec (mkPublicKey [x61]) (mkProfileId [])). reflexivity. Defined.

End witnesses.
