(* ===== verification/Relation.v ===== *)
(** * Signing and validating relations ([home-protocol/src/lib.rs])

    A relation between two profiles starts as a half proof, signed by one of
    them over (type, signer, peer); the peer countersigns the mirrored triple,
    which gives a proof whose two sides are ordered by profile id. *)

From S2P Require Import Prelude Errors External Protocol Crypto.

Section relation.
Context {BC : Bincode}.

(** ** [impl RelationSignablePart] *)

Definition Signable_new (relation_type : string) (signer_id peer_id : ProfileId)
  : RelationSignablePart := mkSignable relation_type signer_id peer_id.

(** [From<&RelationHalfProof>]. *)
Definition Signable_from (src : RelationHalfProof) : RelationSignablePart :=
  mkSignable (hp_relation_type src) (hp_signer_id src) (hp_peer_id src).

Definition serialized (p : RelationSignablePart) : bytes :=
  bincode_serialize (sp_relation_type p) (pid_bytes (sp_signer_id p)) (pid_bytes (sp_peer_id p)).

Definition sign (p : RelationSignablePart) (signer : Signer) : Signature :=
  signer_sign signer (serialized p).

(** ** [RelationHalfProof::new] *)

Definition RelationHalfProof_new (relation_type : string) (peer_id : ProfileId)
    (signer : Signer) : RelationHalfProof :=
  let result := mkHalfProof relation_type (signer_profile_id signer) peer_id (mkSignature []) in
  mkHalfProof (hp_relation_type result) (hp_signer_id result) (hp_peer_id result)
              (sign (Signable_from result) signer).

(** ** [impl RelationProof] *)

Definition RELATION_TYPE_HOSTED_ON_HOME : string := "hosted_on_home".
Definition RELATION_TYPE_ENABLE_CALLS_BETWEEN : string := "enable_call_between".

Definition RelationProof_new (relation_type : string)
    (a_id : ProfileId) (a_signature : Signature)
    (b_id : ProfileId) (b_signature : Signature) : RelationProof :=
  if profile_id_ltb a_id b_id
  then mkRelationProof relation_type a_id a_signature b_id b_signature
  else mkRelationProof relation_type b_id b_signature a_id a_signature.

Definition sign_remaining_half (half_proof : RelationHalfProof) (signer : Signer)
  : Result ProtoError RelationProof :=
  let my_profile_id := signer_profile_id signer in
  if decide (hp_peer_id half_proof ≠ my_profile_id)
  then Err (proto_from Proto.RelationSigningFailed)
  else
    let signable := Signable_new (hp_relation_type half_proof) my_profile_id
                                 (hp_signer_id half_proof) in
    Ok (RelationProof_new (hp_relation_type half_proof)
          (hp_signer_id half_proof) (hp_signature half_proof)
          my_profile_id (sign signable signer)).

Definition accessible_by (proof : RelationProof) (app : ApplicationId) : bool :=
  bool_decide (rp_relation_type proof = app_str app).

Definition proof_peer_id (proof : RelationProof) (my_id : ProfileId)
  : Result ProtoError ProfileId :=
  if decide (rp_a_id proof = my_id) then Ok (rp_b_id proof)
  else if decide (rp_b_id proof = my_id) then Ok (rp_a_id proof)
  else Err (proto_from Proto.PeerIdRetreivalFailed).

Definition proof_peer_signature (proof : RelationProof) (my_id : ProfileId)
  : Result ProtoError Signature :=
  if decide (rp_a_id proof = my_id) then Ok (rp_b_signature proof)
  else if decide (rp_b_id proof = my_id) then Ok (rp_a_signature proof)
  else Err (proto_from Proto.PeerIdRetreivalFailed).

(** ** [trait Validator]: provided methods

    The boolean [validate_signature] returns is dropped: only an [Err] makes
    validation fail. *)

Definition validate_half_proof (v : Validator) (half_proof : RelationHalfProof)
    (signer_pubkey : PublicKey) : Result ProtoError unit :=
  _ ← validate_signature v signer_pubkey
        (serialized (Signable_from half_proof)) (hp_signature half_proof);
  Ok tt.

Definition validate_relation_proof (v : Validator) (proof : RelationProof)
    (id_1 : ProfileId) (public_key_1 : PublicKey)
    (id_2 : ProfileId) (public_key_2 : PublicKey) : Result ProtoError unit :=
  let signable_a := serialized (Signable_new (rp_relation_type proof)
                                  (rp_a_id proof) (rp_b_id proof)) in
  let signable_b := serialized (Signable_new (rp_relation_type proof)
                                  (rp_b_id proof) (rp_a_id proof)) in
  peer_of_id_1 ← proof_peer_id proof id_1;
  _ ← (if decide (peer_of_id_1 ≠ id_2)
       then Err (proto_from Proto.RelationValidationFailed) else Ok tt);
  if decide (peer_of_id_1 = rp_b_id proof) then
    _ ← validate_signature v public_key_1 signable_a (rp_a_signature proof);
    _ ← validate_signature v public_key_2 signable_b (rp_b_signature proof);
    Ok tt
  else
    _ ← validate_signature v public_key_1 signable_b (rp_b_signature proof);
    _ ← validate_signature v public_key_2 signable_a (rp_a_signature proof);
    Ok tt.

(** ** Specification vocabulary *)

(** [v] accepts the signatures of the signer [s]. *)
Definition accepts (v : Validator) (s : Signer) : Prop :=
  ∀ data, validate_signature v (signer_public_key s) data (signer_sign s data) = Ok true.

(** [s] signed the triple (type, own id, peer). *)
Definition signed_by (v : Validator) (pk : PublicKey) (ty : string) (signer peer : ProfileId)
    (sg : Signature) : Prop :=
  ∃ b, validate_signature v pk (serialized (Signable_new ty signer peer)) sg = Ok b.

End relation.

(** ** Lemmas *)

Section lemmas.
Context {BC : Bincode}.

Lemma proof_peer_id_cases p my_id other :
  proof_peer_id p my_id = Ok other ↔
    (rp_a_id p = my_id ∧ rp_b_id p = other)
    ∨ (rp_a_id p ≠ my_id ∧ rp_b_id p = my_id ∧ rp_a_id p = other).
Proof. unfold proof_peer_id. repeat case_decide; naive_solver. Qed.

Lemma proof_peer_id_err p my_id e :
  proof_peer_id p my_id = Err e →
  rp_a_id p ≠ my_id ∧ rp_b_id p ≠ my_id ∧ e = proto_from Proto.PeerIdRetreivalFailed.
Proof. unfold proof_peer_id. repeat case_decide; naive_solver. Qed.

Lemma RelationProof_new_type ty a sa b sb :
  rp_relation_type (RelationProof_new ty a sa b sb) = ty.
Proof. unfold RelationProof_new. by destruct (profile_id_ltb a b). Qed.

Lemma RelationProof_new_fields ty a sa b sb :
  let p := RelationProof_new ty a sa b sb in
  (rp_a_id p = a ∧ rp_a_signature p = sa ∧ rp_b_id p = b ∧ rp_b_signature p = sb)
  ∨ (rp_a_id p = b ∧ rp_a_signature p = sb ∧ rp_b_id p = a ∧ rp_b_signature p = sa).
Proof. unfold RelationProof_new. destruct (profile_id_ltb a b); simpl; tauto. Qed.

Lemma RelationProof_new_peer ty a sa b sb :
  proof_peer_id (RelationProof_new ty a sa b sb) a = Ok b
  ∧ proof_peer_id (RelationProof_new ty a sa b sb) b = Ok a.
Proof.
  rewrite !proof_peer_id_cases.
  destruct (RelationProof_new_fields ty a sa b sb) as [(-> & _ & -> & _)|(-> & _ & -> & _)];
    destruct (decide (a = b)); naive_solver.
Qed.

Lemma validate_half_proof_signed v hp pk :
  validate_half_proof v hp pk = Ok tt ↔
  signed_by v pk (hp_relation_type hp) (hp_signer_id hp) (hp_peer_id hp) (hp_signature hp).
Proof.
  unfold validate_half_proof, signed_by, Signable_from, Signable_new.
  destruct (validate_signature v pk _ _) as [b|e]; simpl; naive_solver.
Qed.

Lemma validate_half_proof_not_err v hp pk :
  is_err (validate_half_proof v hp pk) = false ↔ validate_half_proof v hp pk = Ok tt.
Proof. destruct (validate_half_proof v hp pk) as [[]|e]; done. Qed.

(** Two sequenced signature checks succeed iff both signatures are accepted. *)
Lemma both_signed v pk1 m1 s1 pk2 m2 s2 :
  (_ ← validate_signature v pk1 m1 s1; _ ← validate_signature v pk2 m2 s2; Ok tt)
    = @Ok ProtoError unit tt
  ↔ (∃ b, validate_signature v pk1 m1 s1 = Ok b) ∧ (∃ b, validate_signature v pk2 m2 s2 = Ok b).
Proof.
  destruct (validate_signature v pk1 m1 s1), (validate_signature v pk2 m2 s2);
    simpl; naive_solver.
Qed.

Lemma validate_relation_proof_iff v p id1 pk1 id2 pk2 :
  validate_relation_proof v p id1 pk1 id2 pk2 = Ok tt ↔
    (id1 = rp_a_id p ∧ id2 = rp_b_id p
     ∧ signed_by v pk1 (rp_relation_type p) id1 id2 (rp_a_signature p)
     ∧ signed_by v pk2 (rp_relation_type p) id2 id1 (rp_b_signature p))
    ∨ (id1 = rp_b_id p ∧ id2 = rp_a_id p ∧ id1 ≠ id2
     ∧ signed_by v pk1 (rp_relation_type p) id1 id2 (rp_b_signature p)
     ∧ signed_by v pk2 (rp_relation_type p) id2 id1 (rp_a_signature p)).
Proof.
  unfold validate_relation_proof, signed_by.
  destruct (proof_peer_id p id1) as [other|e] eqn:Hp; simpl.
  2: { apply proof_peer_id_err in Hp. split; [done|]. naive_solver. }
  apply proof_peer_id_cases in Hp.
  destruct (decide (other ≠ id2)) as [Hne|Heq%dec_stable]; simpl; [naive_solver|].
  subst other. destruct (decide (id2 = rp_b_id p)) as [Hb|Hb]; rewrite both_signed.
  - destruct Hp as [[<- <-]|(Ha & Hb' & Hc)]; [|congruence].
    naive_solver.
  - destruct Hp as [[<- <-]|(Ha & <- & <-)]; [done|]. naive_solver.
Qed.

(** Countersigning an accepted half proof gives a proof that validates for the
    two signers, in both orders. *)
Lemma countersigned_validates v hp pk s p :
  validate_half_proof v hp pk = Ok tt → accepts v s →
  hp_signer_id hp ≠ signer_profile_id s → sign_remaining_half hp s = Ok p →
  rp_relation_type p = hp_relation_type hp
  ∧ proof_peer_id p (hp_signer_id hp) = Ok (signer_profile_id s)
  ∧ proof_peer_id p (signer_profile_id s) = Ok (hp_signer_id hp)
  ∧ validate_relation_proof v p (hp_signer_id hp) pk
      (signer_profile_id s) (signer_public_key s) = Ok tt
  ∧ validate_relation_proof v p (signer_profile_id s) (signer_public_key s)
      (hp_signer_id hp) pk = Ok tt.
Proof.
  intros Hhp%validate_half_proof_signed Hacc Hne Hp. unfold sign_remaining_half in Hp.
  case_decide as Hpeer; [done|]. injection Hp as <-. rewrite RelationProof_new_type.
  rewrite Hpeer in Hhp.
  split; [done|]. split_and!; [apply RelationProof_new_peer..| |].
  all: apply validate_relation_proof_iff; rewrite RelationProof_new_type.
  all: edestruct RelationProof_new_fields as [(-> & -> & -> & ->)|(-> & -> & -> & ->)].
  all: assert (signed_by v (signer_public_key s) (hp_relation_type hp) (signer_profile_id s)
         (hp_signer_id hp) (sign (Signable_new (hp_relation_type hp) (signer_profile_id s)
         (hp_signer_id hp)) s)) by (eexists; apply Hacc).
  all: first [left; by split_and! | right; by split_and!].
Qed.

End lemmas.

(** ** Theorems *)

Section theorems.
Context {BC : Bincode}.

(** C4: a relation proof validates for two (id, key) pairs exactly when the two
    ids are its two sides and each side's signature is accepted, under the key
    given for it, over (type, own id, other id). *)
Theorem validate_relation_proof_spec v p id1 pk1 id2 pk2 :
  validate_relation_proof v p id1 pk1 id2 pk2 = Ok tt ↔
    (id1 = rp_a_id p ∧ id2 = rp_b_id p
     ∧ signed_by v pk1 (rp_relation_type p) id1 id2 (rp_a_signature p)
     ∧ signed_by v pk2 (rp_relation_type p) id2 id1 (rp_b_signature p))
    ∨ (id1 = rp_b_id p ∧ id2 = rp_a_id p ∧ id1 ≠ id2
     ∧ signed_by v pk1 (rp_relation_type p) id1 id2 (rp_b_signature p)
     ∧ signed_by v pk2 (rp_relation_type p) id2 id1 (rp_a_signature p)).
Proof. apply validate_relation_proof_iff. Qed.

(** C5: pairing round trip: when one signer makes a half proof for another and
    that one countersigns it, the result validates for the two, in both orders
    of the pair, and names each as the peer of the other. *)
Theorem sign_remaining_half_roundtrip v s1 s2 ty :
  accepts v s1 → accepts v s2 → signer_profile_id s1 ≠ signer_profile_id s2 →
  ∃ p, sign_remaining_half (RelationHalfProof_new ty (signer_profile_id s2) s1) s2 = Ok p
    ∧ rp_relation_type p = ty
    ∧ proof_peer_id p (signer_profile_id s1) = Ok (signer_profile_id s2)
    ∧ proof_peer_id p (signer_profile_id s2) = Ok (signer_profile_id s1)
    ∧ validate_relation_proof v p (signer_profile_id s1) (signer_public_key s1)
                                  (signer_profile_id s2) (signer_public_key s2) = Ok tt
    ∧ validate_relation_proof v p (signer_profile_id s2) (signer_public_key s2)
                                  (signer_profile_id s1) (signer_public_key s1) = Ok tt.
Proof.
  intros H1 H2 Hne. set (hp := RelationHalfProof_new ty (signer_profile_id s2) s1).
  assert (∃ p, sign_remaining_half hp s2 = Ok p) as [p Hp].
  { unfold sign_remaining_half. rewrite decide_False by (simpl; tauto). eauto. }
  exists p. split; [done|].
  apply (countersigned_validates v hp (signer_public_key s1) s2 p); try done.
  apply validate_half_proof_signed. eexists. apply H1.
Qed.

(** Countersigning is refused exactly when the half proof is not addressed
    to the signer, and a countersigned proof is stored with its sides ordered
    by profile id, whichever side started it. *)
Theorem sign_remaining_half_canonical hp s :
  (hp_peer_id hp ≠ signer_profile_id s ↔
     sign_remaining_half hp s = Err (proto_from Proto.RelationSigningFailed))
  ∧ (∀ p, sign_remaining_half hp s = Ok p →
       profile_id_ltb (rp_b_id p) (rp_a_id p) = false
       ∧ ∀ sig, proof_peer_signature p (signer_profile_id s) = Ok sig →
           hp_signer_id hp ≠ signer_profile_id s → sig = hp_signature hp).
Proof.
  unfold sign_remaining_half. split.
  - case_decide; [tauto|]. split; [tauto|done].
  - intros p. case_decide as Hd; [done|]. intros [= <-].
    unfold RelationProof_new, proof_peer_signature.
    destruct (profile_id_ltb (hp_signer_id hp) (signer_profile_id s)) eqn:Hlt; simpl.
    + split; [eauto with mercury|]. intros sig. repeat case_decide; congruence.
    + split; [done|]. intros sig. repeat case_decide; congruence.
Qed.

(** Building a proof from its two signed sides does not depend on the order
    in which the sides are given. *)
Theorem RelationProof_new_comm ty a sa b sb :
  a ≠ b → RelationProof_new ty a sa b sb = RelationProof_new ty b sb a sa.
Proof.
  intros Hne. unfold RelationProof_new.
  destruct (profile_id_ltb a b) eqn:Hab, (profile_id_ltb b a) eqn:Hba; try done.
  - apply profile_id_ltb_asym in Hab. congruence.
  - by destruct Hne; apply profile_id_ltb_total.
Qed.

(** The verdict of a signature validator is lost: with one that answers
    [Ok false] to a signature, the half proof carrying it is accepted. *)
Theorem validate_half_proof_ignores_verdict :
  ∃ v hp pk,
    validate_signature v pk (serialized (Signable_from hp)) (hp_signature hp) = Ok false
    ∧ validate_half_proof v hp pk = Ok tt.
Proof.
  exists (mkValidator (λ _ _, Ok true) (λ _ _ _, Ok false)),
         (mkHalfProof "" (mkProfileId []) (mkProfileId []) (mkSignature [])), (mkPublicKey []).
  done.
Qed.

End theorems.

Section witnesses.
#[local] Existing Instance Sample.bincode.
#[local] Existing Instance Sample.multihash.
#[local] Existing Instance Sample.ed25519.

Lemma sign_remaining_half_roundtrip_witness :
  ∃ p, sign_remaining_half
         (RelationHalfProof_new "friend" (signer_profile_id Actors.bob) Actors.alice) Actors.bob
         = Ok p
    ∧ validate_relation_proof Actors.validator p
        (signer_profile_id Actors.alice) (signer_public_key Actors.alice)
        (signer_profile_id Actors.bob) (signer_public_key Actors.bob) = Ok tt.
Proof.
  destruct (sign_remaining_half_roundtrip Actors.validator Actors.alice Actors.bob "friend")
    as (p & H1 & _ & _ & _ & H2 & _).
  - intros data. apply Actors_validate_signature.
  - intros data. apply Actors_validate_signature.
  - by vm_compute.
  - exists p. split; [exact H1|exact H2].
Defined.

Lemma RelationProof_new_comm_witness :
  RelationProof_new "friend" (mkProfileId [x01]) (mkSignature [x01])
                             (mkProfileId [x02]) (mkSignature [x02])
  = RelationProof_new "friend" (mkProfileId [x02]) (mkSignature [x02])
                               (mkProfileId [x01]) (mkSignature [x01]).
Proof. apply RelationProof_new_comm. done. Defined.

End witnesses.
