(* ===== verification/Capnp.v ===== *)
(** * The wire format ([home-protocol/src/mercury_capnp/mod.rs],
    [home-protocol/protocol/mercury.capnp])

    A struct of the schema is modelled by what the getters of its generated
    reader return: a field that cannot be decoded is an [Err].  A field that was
    never set reads as the default value of its type: empty data and text, a
    struct of defaults, the first member of a union; an unset interface is an
    [Err].  [FillFrom] and [TryFrom] are the two directions of the source. *)

From Stdlib Require Import NArith.
From S2P Require Import Prelude Errors External Protocol.

(** [capnp::Error::failed]. *)
Record CapnpError : Set := failed { capnp_description : string }.
#[export] Instance capnp_to_cause : ToCause CapnpError := fun e => [CauseForeign (capnp_description e)].

Abbreviation Field A := (Result CapnpError A).

Definition null_capability : CapnpError := failed "Message contains null capability pointer.".

(** [len() as u32]. *)
Definition len_u32 (n : nat) : nat := N.to_nat (N.of_nat n mod 2 ^ 32).

(** ** The structs of the schema *)

Record WRelationHalfProof : Set := mkWRelationHalfProof
  { whp_relationType : Field string; whp_signerId : Field bytes; whp_peerId : Field bytes;
    whp_signature : Field bytes }.

Record WRelationProof : Set := mkWRelationProof
  { wrp_relationType : Field string; wrp_aId : Field bytes; wrp_aSignature : Field bytes;
    wrp_bId : Field bytes; wrp_bSignature : Field bytes }.

Inductive WFacet : Set :=
| WPersona (homes : Field (list WRelationProof))
| WHome (addresses : Field (list (Field string)))
| WApplication (id : Field string)
| WFacetNotInSchema (n : N).

Record WProfile : Set := mkWProfile
  { wp_id : Field bytes; wp_publicKey : Field bytes; wp_facet : WFacet }.

Record WOwnProfile : Set := mkWOwnProfile
  { wop_profile : Field WProfile; wop_privateData : Field bytes }.

Record WHomeInvitation : Set := mkWHomeInvitation { winv_data : Field bytes }.

Inductive WProfileEvent : Set :=
| WUnknown (data : Field bytes)
| WPairingRequest (half_proof : Field WRelationHalfProof)
| WPairingResponse (proof : Field WRelationProof)
| WEventNotInSchema (n : N).

(** An [AppMessageListener] capability names the sink its dispatcher sends to. *)
Record AppListener : Set := mkAppListener { listener_sink : SinkId }.

Record WCallRequest : Set := mkWCallRequest
  { wcr_relation : Field WRelationProof; wcr_initPayload : Field bytes;
    wcr_toCaller : Field AppListener }.

(** Structs that were never written to. *)
Definition default_WRelationProof : WRelationProof :=
  mkWRelationProof (Ok "") (Ok []) (Ok []) (Ok []) (Ok []).
Definition default_WRelationHalfProof : WRelationHalfProof :=
  mkWRelationHalfProof (Ok "") (Ok []) (Ok []) (Ok []).
Definition default_WProfile : WProfile := mkWProfile (Ok []) (Ok []) (WPersona (Ok [])).
Definition default_WHomeInvitation : WHomeInvitation := mkWHomeInvitation (Ok []).

(** ** [RelationHalfProof] and [RelationProof] *)

Definition half_proof_try_from (src : WRelationHalfProof) : Field RelationHalfProof :=
  relation_type ← whp_relationType src;
  signer_id ← whp_signerId src;
  peer_id ← whp_peerId src;
  signature ← whp_signature src;
  Ok (mkHalfProof relation_type (mkProfileId signer_id) (mkProfileId peer_id)
                  (mkSignature signature)).

Definition half_proof_fill_from (src : RelationHalfProof) : WRelationHalfProof :=
  mkWRelationHalfProof (Ok (hp_relation_type src)) (Ok (pid_bytes (hp_signer_id src)))
    (Ok (pid_bytes (hp_peer_id src))) (Ok (sig_bytes (hp_signature src))).

Definition relation_proof_try_from (src : WRelationProof) : Field RelationProof :=
  relation_type ← wrp_relationType src;
  a_id ← wrp_aId src;
  a_signature ← wrp_aSignature src;
  b_id ← wrp_bId src;
  b_signature ← wrp_bSignature src;
  Ok (mkRelationProof relation_type (mkProfileId a_id) (mkSignature a_signature)
        (mkProfileId b_id) (mkSignature b_signature)).

Definition relation_proof_fill_from (src : RelationProof) : WRelationProof :=
  mkWRelationProof (Ok (rp_relation_type src))
    (Ok (pid_bytes (rp_a_id src))) (Ok (sig_bytes (rp_a_signature src)))
    (Ok (pid_bytes (rp_b_id src))) (Ok (sig_bytes (rp_b_signature src))).

(** ** [Profile], [OwnProfile], [HomeInvitation] *)

(** Only the first home of a persona is read, its data is not transferred, and
    the other facets are not implemented. *)
Definition profile_try_from (src : WProfile) : Field Profile :=
  profile_id ← mkProfileId <$> wp_id src;
  public_key ← mkPublicKey <$> wp_publicKey src;
  match wp_facet src with
  | WPersona homes =>
      homes ← homes;
      match homes with
      | proof_reader :: _ =>
          home_relation ← relation_proof_try_from proof_reader;
          Ok (Profile_new profile_id public_key (Persona (mkPersonaFacet [home_relation] [])))
      | [] => Ok (Profile_new profile_id public_key (Persona (mkPersonaFacet [] [])))
      end
  | _ => Err (failed "Unimplemented")
  end.

(** A list of more than 2^32 homes would be truncated and then indexed beyond
    its end. *)
Definition profile_fill_from (src : Profile) : Panicking WProfile :=
  match profile_facet src with
  | Persona facet =>
      if decide (len_u32 (length (persona_homes facet)) = length (persona_homes facet)) then
        Returns (mkWProfile (Ok (pid_bytes (profile_id src))) (Ok (pk_bytes (profile_public_key src)))
                   (WPersona (Ok (relation_proof_fill_from <$> persona_homes facet))))
      else Panics
  | _ => Panics
  end.

Definition own_profile_try_from (src : WOwnProfile) : Field OwnProfile :=
  profile ← wop_profile src;
  profile ← profile_try_from profile;
  private_data ← wop_privateData src;
  Ok (OwnProfile_new profile private_data).

Definition own_profile_fill_from (src : OwnProfile) : Panicking WOwnProfile :=
  profile ← profile_fill_from (own_profile src);
  Returns (mkWOwnProfile (Ok profile) (Ok (own_priv_data src))).

Definition todo_bytes : bytes := String.list_byte_of_string "TODO".

Definition invitation_try_from (_src : WHomeInvitation) : Field HomeInvitation :=
  Ok (HomeInvitation_new (mkProfileId todo_bytes) "TODO" (mkSignature todo_bytes)).

Definition invitation_fill_from (_src : HomeInvitation) : WHomeInvitation :=
  default_WHomeInvitation.

(** ** [ProfileEvent] and [CallRequestDetails] *)

Definition event_try_from (src : WProfileEvent) : Field ProfileEvent :=
  match src with
  | WUnknown data => UnknownEvent <$> data
  | WPairingRequest half_proof =>
      half_proof ← half_proof; half_proof ← half_proof_try_from half_proof;
      Ok (PairingRequest half_proof)
  | WPairingResponse proof =>
      proof ← proof; proof ← relation_proof_try_from proof; Ok (PairingResponse proof)
  | WEventNotInSchema n => Err (failed "Enum value or union discriminant was not present in schema")
  end.

(** The data of an unknown event is allocated but not copied. *)
Definition event_fill_from (src : ProfileEvent) : WProfileEvent :=
  match src with
  | PairingRequest half_proof => WPairingRequest (Ok (half_proof_fill_from half_proof))
  | PairingResponse proof => WPairingResponse (Ok (relation_proof_fill_from proof))
  | UnknownEvent data => WUnknown (Ok (replicate (len_u32 (length data)) x00))
  end.

Definition call_request_try_from (src : WCallRequest) : Field CallRequestDetails :=
  relation ← wcr_relation src;
  relation ← relation_proof_try_from relation;
  init_payload ← mkAppMessageFrame <$> wcr_initPayload src;
  Ok (mkCallRequest relation init_payload None).

Definition call_request_fill_from (src : CallRequestDetails) : WCallRequest :=
  mkWCallRequest (Ok (relation_proof_fill_from (cr_relation src)))
    (Ok (frame_bytes (cr_init_payload src))) (Err null_capability).

(** ** What survives the trip *)

Definition sent_facet (f : PersonaFacet) : PersonaFacet :=
  mkPersonaFacet (take 1 (persona_homes f)) [].

Definition sent_profile (p : Profile) : option Profile :=
  match profile_facet p with
  | Persona f => Some (mkProfile (profile_id p) (profile_public_key p) (Persona (sent_facet f)))
  | _ => None
  end.

Definition sent_own_profile (o : OwnProfile) : option OwnProfile :=
  (λ p, mkOwnProfile p (own_priv_data o)) <$> sent_profile (own_profile o).

Definition sent_event (e : ProfileEvent) : ProfileEvent :=
  match e with
  | UnknownEvent data => UnknownEvent (replicate (len_u32 (length data)) x00)
  | _ => e
  end.

(** Lists that fit the 32-bit counters of the format. *)
Definition fits (p : Profile) : Prop :=
  match profile_facet p with
  | Persona f => (N.of_nat (length (persona_homes f)) < 2 ^ 32)%N
  | _ => True
  end.

(** ** Lemmas *)

Lemma len_u32_small n : (N.of_nat n < 2 ^ 32)%N → len_u32 n = n.
Proof. intros Hn. unfold len_u32. rewrite N.mod_small by done. apply Nat2N.id. Qed.

Lemma half_proof_roundtrip hp : half_proof_try_from (half_proof_fill_from hp) = Ok hp.
Proof. by destruct hp as [? [] [] []]. Qed.

Lemma relation_proof_roundtrip rp : relation_proof_try_from (relation_proof_fill_from rp) = Ok rp.
Proof. by destruct rp as [? [] [] [] []]. Qed.

Lemma profile_trip p :
  fits p →
  match sent_profile p with
  | Some p' => ∃ wire, profile_fill_from p = Returns wire ∧ profile_try_from wire = Ok p'
  | None => profile_fill_from p = Panics
  end.
Proof.
  destruct p as [[id] [pk] facet]. unfold fits, sent_profile, profile_fill_from. simpl.
  destruct facet as [f|[homes data]|f|f]; try done. intros Hfits.
  rewrite decide_True by (by apply len_u32_small). eexists. split; [done|].
  unfold profile_try_from. simpl. by destruct homes as [|[? [] [] [] []] homes].
Qed.

Lemma own_profile_trip o :
  fits (own_profile o) →
  match sent_own_profile o with
  | Some o' => ∃ wire, own_profile_fill_from o = Returns wire ∧ own_profile_try_from wire = Ok o'
  | None => own_profile_fill_from o = Panics
  end.
Proof.
  intros Hfits%profile_trip. unfold sent_own_profile, own_profile_fill_from, own_profile_try_from.
  destruct (sent_profile (own_profile o)) as [p'|]; simpl.
  - destruct Hfits as (wire & -> & Hw). simpl. eexists. split; [done|]. simpl. by rewrite Hw.
  - by rewrite Hfits.
Qed.

Lemma event_trip e : event_try_from (event_fill_from e) = Ok (sent_event e).
Proof.
  destruct e as [d|hp|rp]; [done| |].
  - by destruct hp as [? [] [] []].
  - by destruct rp as [? [] [] [] []].
Qed.

#[export] Hint Rewrite half_proof_roundtrip relation_proof_roundtrip event_trip : mercury.

(** ** Theorems *)

(** Proofs, half proofs and pairing events cross the wire unchanged; so
    does a call request, except for its channel to the caller. *)
Theorem wire_roundtrip hp rp cr :
  half_proof_try_from (half_proof_fill_from hp) = Ok hp
  ∧ relation_proof_try_from (relation_proof_fill_from rp) = Ok rp
  ∧ event_try_from (event_fill_from (PairingRequest hp)) = Ok (PairingRequest hp)
  ∧ event_try_from (event_fill_from (PairingResponse rp)) = Ok (PairingResponse rp)
  ∧ call_request_try_from (call_request_fill_from cr)
    = Ok (mkCallRequest (cr_relation cr) (cr_init_payload cr) None).
Proof.
  rewrite !event_trip. split_and!; try done.
  - apply half_proof_roundtrip.
  - apply relation_proof_roundtrip.
  - by destruct cr as [[? [] [] [] []] [] ?].
Qed.

(** A profile crosses the wire unchanged exactly when it is a persona with
    at most one home and no data; further homes and the data are dropped, and
    any other facet panics the sender. *)
Theorem profile_wire p :
  fits p →
  ((∃ wire, profile_fill_from p = Returns wire ∧ profile_try_from wire = Ok p) ↔
     ∃ homes, profile_facet p = Persona (mkPersonaFacet homes []) ∧ length homes ≤ 1)
  ∧ (profile_fill_from p = Panics ↔ ∀ f, profile_facet p ≠ Persona f).
Proof.
  intros Htrip%profile_trip. unfold sent_profile in Htrip. split.
  - destruct (profile_facet p) as [f|[homes data]|f|f] eqn:Hf.
    1,3,4: split; [intros (w & Hw & _); congruence|intros (? & ? & _); congruence].
    destruct Htrip as (wire & Hw & Hp). split.
    + intros (wire' & Hw' & Hp'). rewrite Hw in Hw'. injection Hw' as <-. rewrite Hp in Hp'.
      injection Hp' as Heq. rewrite <- Heq in Hf. simpl in Hf. injection Hf as Hh Hd.
      exists homes. subst data. split; [done|]. rewrite <- Hh, length_take. lia.
    + intros (homes' & Heq & Hlen). injection Heq as -> ->. exists wire. split; [done|].
      rewrite Hp. unfold sent_facet. simpl. rewrite take_ge by done.
      destruct p; simpl in *. by rewrite Hf.
  - destruct (profile_facet p) as [f|f|f|f] eqn:Hf.
    2: { destruct Htrip as (wire & Hw & _). split; [congruence|intros H; by destruct (H f)]. }
    all: by split.
Qed.

(** An invitation always arrives as the same placeholder, and so does the
    absence of one; an absent new home arrives as an empty profile. *)
Theorem absent_arguments_arrive :
  (∀ inv, invitation_try_from (invitation_fill_from inv)
          = invitation_try_from default_WHomeInvitation)
  ∧ is_ok (invitation_try_from default_WHomeInvitation) = true
  ∧ profile_try_from default_WProfile
    = Ok (mkProfile (mkProfileId []) (mkPublicKey []) (Persona (mkPersonaFacet [] []))).
Proof. done. Qed.
