(* ===== verification/Handshake.v ===== *)
(** * The temporary handshake ([home-protocol/src/handshake.rs])

    Before Cap'n Proto takes over a connection each side sends its profile id
    and public key, as JSON behind its length in four little-endian bytes, and
    reads the other's.  A reader is the bytes that will arrive before the end of
    the stream, a writer the bytes written and how many more it takes before the
    connection breaks. *)

From Stdlib Require Import NArith.
From S2P Require Import Prelude Errors External Protocol Crypto.

Record AuthenticationInfo : Set := mkAuthenticationInfo
  { auth_profile_id : ProfileId; auth_public_key : PublicKey }.

Record Writer : Set := mkWriter { written : bytes; room : nat }.

(** [tokio_io::io::write_all] and [read_exact]. *)
Definition write_all (w : Writer) (b : bytes) : Result string Writer :=
  if decide (length b ≤ room w) then Ok (mkWriter (written w ++ b) (room w - length b))
  else Err "broken pipe".

Definition read_exact (r : bytes) (n : nat) : Result string (bytes * bytes) :=
  if decide (n ≤ length r) then Ok (take n r, drop n r) else Err "early eof".

(** [n as u32], [put_u32_le] and [get_u32_le]. *)
Definition as_u32 (n : nat) : N := (N.of_nat n mod 2 ^ 32)%N.

Definition byte_of (n : N) : u8 := default x00 (Byte.of_N (n mod 256)).

Definition put_u32_le (n : N) : bytes :=
  [byte_of n; byte_of (N.shiftr n 8); byte_of (N.shiftr n 16); byte_of (N.shiftr n 24)].

Definition get_u32_le (b : bytes) : N :=
  foldr (λ x acc, (Byte.to_N x + 256 * acc)%N) 0%N b.

Section handshake.
Context {SJ : SerdeJson AuthenticationInfo}.

(** What is sent to the peer. *)
Definition auth_info (signer : Signer) : AuthenticationInfo :=
  mkAuthenticationInfo (signer_profile_id signer) (signer_public_key signer).

Definition temp_handshake_until_tls_is_implemented (reader : bytes) (writer : Writer)
    (signer : Signer) : Result ProtoError (bytes * Writer * PeerContext) :=
  match json_to_vec (auth_info signer) with
  | Err e => Err (proto_context Proto.TlsHandshakeFailed e)
  | Ok out_bytes =>
      let bufsize := as_u32 (length out_bytes) in
      let size_out_bytes := put_u32_le bufsize in
      map_err (proto_context Proto.TlsHandshakeFailed) (
        writer ← write_all writer size_out_bytes;
        writer ← write_all writer out_bytes;
        '(buf, reader) ← read_exact reader 4;
        let size_in_bytes := get_u32_le buf in
        '(buf, reader) ← read_exact reader (N.to_nat size_in_bytes);
        peer_auth ← json_from_slice buf;
        let peer_ctx := PeerContext_new signer (auth_public_key peer_auth)
                          (auth_profile_id peer_auth) in
        Ok (reader, writer, peer_ctx))
  end.

(** The TCP entry point: [set_nodelay] may fail. *)
Definition temp_tcp_handshake_until_tls_is_implemented (set_nodelay : Result string unit)
    (reader : bytes) (writer : Writer) (signer : Signer)
  : Result ProtoError (bytes * Writer * PeerContext) :=
  match set_nodelay with
  | Err e => Err (proto_context Proto.TlsHandshakeFailed e)
  | Ok _ => temp_handshake_until_tls_is_implemented reader writer signer
  end.

(** ** Lemmas *)

Lemma byte_of_to_N n : Byte.to_N (byte_of n) = (n mod 256)%N.
Proof.
  unfold byte_of. destruct (Byte.of_N (n mod 256)) as [b|] eqn:Hb; simpl.
  - by apply Byte.to_of_N in Hb.
  - apply Byte.of_N_None_iff in Hb. pose proof (N.mod_lt n 256). lia.
Qed.

Lemma u32_le_roundtrip n : (n < 2 ^ 32)%N → get_u32_le (put_u32_le n) = n.
Proof.
  intros Hn. unfold get_u32_le, put_u32_le. cbn [foldr]. rewrite !byte_of_to_N.
  rewrite !N.shiftr_div_pow2. change (2 ^ 8)%N with 256%N. change (2 ^ 16)%N with (256 * 256)%N.
  change (2 ^ 24)%N with (256 * 256 * 256)%N. rewrite <- !N.Div0.div_div.
  change (2 ^ 32)%N with 4294967296%N in Hn.
  pose proof (N.div_mod n 256). pose proof (N.div_mod (n / 256) 256).
  pose proof (N.div_mod (n / 256 / 256) 256).
  assert (n / 256 / 256 / 256 < 256)%N by (rewrite !N.Div0.div_div; apply N.Div0.div_lt_upper_bound; lia).
  rewrite (N.mod_small (n / 256 / 256 / 256)) by done. lia.
Qed.

Lemma as_u32_lt n : (as_u32 n < 2 ^ 32)%N.
Proof. unfold as_u32. apply N.mod_lt. done. Qed.

Lemma write_all_written w b w' : write_all w b = Ok w' → written w' = written w ++ b.
Proof. unfold write_all. case_decide; [|done]. by intros [= <-]. Qed.

Lemma write_all_room w b :
  length b ≤ room w → write_all w b = Ok (mkWriter (written w ++ b) (room w - length b)).
Proof. intros Hb. unfold write_all. by rewrite decide_True. Qed.

Lemma read_exact_app b rest : read_exact (b ++ rest) (length b) = Ok (b, rest).
Proof.
  unfold read_exact. rewrite decide_True by (rewrite length_app; lia).
  by rewrite take_app_length, drop_app_length.
Qed.

(** A successful handshake has sent its frame, whatever the peer sent. *)
Lemma handshake_written reader writer signer reader' writer' ctx :
  temp_handshake_until_tls_is_implemented reader writer signer = Ok (reader', writer', ctx) →
  ∃ out, json_to_vec (auth_info signer) = Ok out
    ∧ written writer' = written writer ++ put_u32_le (as_u32 (length out)) ++ out.
Proof.
  unfold temp_handshake_until_tls_is_implemented.
  destruct (json_to_vec (auth_info signer)) as [out|]; [|done].
  destruct (write_all writer _) as [w1|] eqn:H1; simpl; [|done].
  destruct (write_all w1 out) as [w2|] eqn:H2; simpl; [|done].
  destruct (read_exact reader 4) as [[b1 r1]|]; simpl; [|done].
  destruct (read_exact r1 _) as [[b2 r2]|]; simpl; [|done].
  destruct (json_from_slice b2); simpl; [|done]. intros [= <- <- <-].
  exists out. split; [done|]. apply write_all_written in H1, H2. by rewrite H2, H1, <- app_assoc.
Qed.

(** Receiving a well-formed introduction. *)
Lemma handshake_receives {SJL : SerdeJsonLaws AuthenticationInfo} signer writer info out out2 rest :
  json_to_vec info = Ok out → (N.of_nat (length out) < 2 ^ 32)%N →
  json_to_vec (auth_info signer) = Ok out2 → 4 + length out2 ≤ room writer →
  ∃ w' ctx, temp_handshake_until_tls_is_implemented
              (put_u32_le (as_u32 (length out)) ++ out ++ rest) writer signer = Ok (rest, w', ctx)
    ∧ peer_id ctx = auth_profile_id info ∧ peer_pubkey ctx = auth_public_key info
    ∧ my_signer ctx = signer.
Proof.
  intros Hout Hlen Hout2 Hroom. unfold temp_handshake_until_tls_is_implemented. rewrite Hout2.
  rewrite write_all_room by (simpl; lia). cbn [mbind result_bind].
  rewrite write_all_room by (simpl; lia). cbn [mbind result_bind].
  change 4 with (length (put_u32_le (as_u32 (length out)))). rewrite read_exact_app.
  cbn [mbind result_bind]. rewrite u32_le_roundtrip by apply as_u32_lt.
  assert (N.to_nat (as_u32 (length out)) = length out) as ->.
  { unfold as_u32. by rewrite N.mod_small, Nat2N.id. }
  rewrite read_exact_app.
  cbn [mbind result_bind]. rewrite (json_roundtrip _ _ Hout). cbn [mbind result_bind].
  do 2 eexists. split; [reflexivity|]. done.
Qed.

End handshake.

(** ** Theorems *)

Section theorems.
Context {SJ : SerdeJson AuthenticationInfo} {SJL : SerdeJsonLaws AuthenticationInfo}.

(** C37: when two sides have shaken hands, each over what the other wrote, each
    has the other's id and key as its peer, and the bytes that follow the
    handshake are left for the protocol; the introductions must be shorter than
    the 2^32 bytes the length field can count. *)
Theorem handshake_roundtrip s1 s2 w1 w1' r1' c1 reader1 rest w2 out1 :
  temp_handshake_until_tls_is_implemented reader1 w1 s1 = Ok (r1', w1', c1) →
  written w1 = [] → json_to_vec (auth_info s1) = Ok out1 →
  (N.of_nat (length out1) < 2 ^ 32)%N →
  ∀ out2, json_to_vec (auth_info s2) = Ok out2 → 4 + length out2 ≤ room w2 →
  ∃ w2' c2, temp_handshake_until_tls_is_implemented (written w1' ++ rest) w2 s2
              = Ok (rest, w2', c2)
    ∧ peer_id c2 = signer_profile_id s1 ∧ peer_pubkey c2 = signer_public_key s1
    ∧ my_signer c2 = s2.
Proof.
  intros H1 Hw1 Hout1 Hlen out2 Hout2 Hroom.
  destruct (handshake_written _ _ _ _ _ _ H1) as (out & Hout & Hw1').
  rewrite Hout1 in Hout. injection Hout as <-. rename Hout1 into Hout.
  rewrite Hw1, app_nil_l in Hw1'. rewrite Hw1'.
  rewrite <- app_assoc.
  destruct (handshake_receives s2 w2 (auth_info s1) _ _ rest Hout Hlen Hout2 Hroom)
    as (w2' & c2 & Hok & Hid & Hpk & Hs). exists w2', c2. done.
Qed.

(** The handshake proves nothing about the peer: a stream with well-formed
    introduction of any id and key is accepted as coming from them. *)
Theorem handshake_unauthenticated signer writer info out out2 rest :
  json_to_vec info = Ok out → (N.of_nat (length out) < 2 ^ 32)%N →
  json_to_vec (auth_info signer) = Ok out2 → 4 + length out2 ≤ room writer →
  ∃ w' ctx, temp_handshake_until_tls_is_implemented
              (put_u32_le (as_u32 (length out)) ++ out ++ rest) writer signer = Ok (rest, w', ctx)
    ∧ peer_id ctx = auth_profile_id info ∧ peer_pubkey ctx = auth_public_key info.
Proof.
  intros H1 H2 H3 H4. destruct (handshake_receives _ _ _ _ _ rest H1 H2 H3 H4)
    as (w' & ctx & ? & ? & ? & _). eauto.
Qed.

End theorems.

Section witnesses.

(** Introductions as two self-delimiting fields. *)
Definition sample_json : SerdeJson AuthenticationInfo :=
  {| json_to_vec a := Ok (Sample.field (pid_bytes (auth_profile_id a))
                          ++ Sample.field (pk_bytes (auth_public_key a)));
     json_from_slice b :=
       match Sample.parse_unary b with
       | Some (n, b) =>
           match Sample.parse_unary (drop n b) with
           | Some (m, b') => Ok (mkAuthenticationInfo (mkProfileId (take n b)) (mkPublicKey (take m b')))
           | None => Err "expected value"
           end
       | None => Err "expected value"
       end |}.

#[local] Existing Instance sample_json.

Lemma sample_json_laws : SerdeJsonLaws AuthenticationInfo.
Proof.
  split. intros [[id] [pk]] b. simpl. intros [= <-]. unfold Sample.field.
  rewrite <- !app_assoc, Sample.parse_unary_unary, drop_app_length, Sample.parse_unary_unary.
  by rewrite take_app_length, firstn_all.
Qed.

#[local] Existing Instance sample_json_laws.

Definition alice_shake :=
  temp_handshake_until_tls_is_implemented
    (put_u32_le 4 ++ [x01; x00; x62; x00]) (mkWriter [] 100) Actors.alice.
Definition alice_wrote : bytes :=
  match alice_shake with Ok (_, w, _) => written w | Err _ => [] end.

Lemma handshake_roundtrip_witness :
  ∃ w2' c2, temp_handshake_until_tls_is_implemented (alice_wrote ++ [x2a]) (mkWriter [] 100) Actors.bob
              = Ok ([x2a], w2', c2)
    ∧ peer_id c2 = signer_profile_id Actors.alice.
Proof.
  destruct alice_shake as [[[r w] c]|e] eqn:Hs; [|by vm_compute in Hs].
  edestruct (handshake_roundtrip Actors.alice Actors.bob (mkWriter [] 100) w r c
              (put_u32_le 4 ++ [x01; x00; x62; x00]) [x2a] (mkWriter [] 100))
    as (w2' & c2 & H1 & H2 & _).
  - exact Hs.
  - reflexivity.
  - reflexivity.
  - vm_compute. reflexivity.
  - reflexivity.
  - vm_compute. lia.
  - exists w2', c2. split; [|exact H2]. rewrite <- H1. unfold alice_wrote. by rewrite Hs.
Defined.

Lemma handshake_unauthenticated_witness :
  ∃ w' ctx, temp_handshake_until_tls_is_implemented
              (put_u32_le 4 ++ [x01; x00; x62; x00] ++ []) (mkWriter [] 100) Actors.alice
            = Ok ([], w', ctx)
    ∧ peer_id ctx = mkProfileId [x62].
Proof.
  edestruct (handshake_unauthenticated Actors.alice (mkWriter [] 100)
              (mkAuthenticationInfo (mkProfileId [x62]) (mkPublicKey [])) [x01; x00; x62; x00])
    as (w' & ctx & H1 & H2 & _).
  - reflexivity.
  - reflexivity.
  - reflexivity.
  - vm_compute. lia.
  - exists w', ctx. split; [exact H1|exact H2].
Defined.
End witnesses.
