(* ===== verification/Hoare.v ===== *)
(** * Invariants of futures

    A small program logic for the state-passing code: [triple I m Q] says that
    running [m] keeps the invariant [I] of the shared state and that its result
    satisfies [Q].  A method is safe for [I] when its call keeps [I] and the
    future it returns keeps [I] in every later state in which [I] holds,
    however other code ran in between. *)

From S2P Require Import Prelude.

Section hoare.
Context {W : Type}.

Definition triple {A} (I : W → Prop) (m : IO W A) (Q : A → Prop) : Prop :=
  ∀ w, I w → I (m w).2 ∧ Q (m w).1.

(** A future that keeps [I] and, if it succeeds, gives a value in [P]. *)
Definition fut_triple {E A} (I : W → Prop) (f : Future W E A) (P : A → Prop) : Prop :=
  triple I f (λ r, ∀ a, r = Ok a → P a).

(** A method returning such a future. *)
Definition call_triple {E A} (I : W → Prop) (m : IO W (Future W E A)) (P : A → Prop) : Prop :=
  triple I m (λ f, fut_triple I f P).

Context (I : W → Prop).

Lemma triple_weaken {A} (m : IO W A) (P Q : A → Prop) :
  triple I m P → (∀ a, P a → Q a) → triple I m Q.
Proof. intros Hm HPQ w Hw. destruct (Hm w Hw). auto. Qed.

Lemma triple_ret {A} (a : A) (Q : A → Prop) : Q a → triple I (io_ret a) Q.
Proof. by intros HQ w Hw. Qed.

Lemma fut_ok {E A} (a : A) (P : A → Prop) : P a → fut_triple I (future_ok (E:=E) a) P.
Proof. intros HP w Hw. split; [done|]. by intros ? [= <-]. Qed.

Lemma fut_err {E A} (e : E) (P : A → Prop) : fut_triple I (future_err e) P.
Proof. by intros w Hw. Qed.

Lemma fut_result {E A} (r : Result E A) (P : A → Prop) :
  (∀ a, r = Ok a → P a) → fut_triple I (future_result r) P.
Proof. by intros HP w Hw. Qed.

Lemma fut_map_err {E F A} (g : E → F) (f : Future W E A) P :
  fut_triple I f P → fut_triple I (future_map_err g f) P.
Proof.
  intros Hf w Hw. unfold future_map_err. specialize (Hf w Hw).
  destruct (f w) as [[a|e] w']; simpl in *; naive_solver.
Qed.

Lemma fut_map {E A B} (g : A → B) (f : Future W E A) (P : A → Prop) (Q : B → Prop) :
  fut_triple I f P → (∀ a, P a → Q (g a)) → fut_triple I (future_map g f) Q.
Proof.
  intros Hf HPQ w Hw. unfold future_map. specialize (Hf w Hw).
  destruct (f w) as [[a|e] w']; simpl in *; naive_solver.
Qed.

Lemma fut_and_then {E A B} (f : Future W E A) (k : A → IO W (Future W E B))
    (P : A → Prop) (Q : B → Prop) :
  fut_triple I f P → (∀ a, P a → call_triple I (k a) Q) → fut_triple I (and_then f k) Q.
Proof.
  intros Hf Hk w Hw. unfold and_then. specialize (Hf w Hw).
  destruct (f w) as [[a|e] w1]; simpl in *; [|naive_solver].
  destruct Hf as [Hw1 Ha]. specialize (Hk a (Ha a eq_refl) w1 Hw1).
  destruct (k a w1) as [g w2]; simpl in *. destruct Hk as [Hw2 Hg]. apply (Hg w2 Hw2).
Qed.

Lemma fut_then {E F A B} (f : Future W E A) (k : Result E A → IO W (Future W F B))
    (P : A → Prop) (Q : B → Prop) :
  fut_triple I f P → (∀ r, (∀ a, r = Ok a → P a) → call_triple I (k r) Q) →
  fut_triple I (future_then f k) Q.
Proof.
  intros Hf Hk w Hw. unfold future_then. specialize (Hf w Hw).
  destruct (f w) as [r w1]; simpl in *. destruct Hf as [Hw1 Ha].
  specialize (Hk r Ha w1 Hw1). destruct (k r w1) as [g w2]; simpl in *.
  destruct Hk as [Hw2 Hg]. apply (Hg w2 Hw2).
Qed.

(** A method whose call changes nothing. *)
Lemma call_pure {E A} (f : Future W E A) P :
  fut_triple I f P → call_triple I (λ w, (f, w)) P.
Proof. by intros Hf w Hw. Qed.

Lemma call_io_ret {E A} (f : Future W E A) P :
  fut_triple I f P → call_triple I (io_ret f) P.
Proof. by intros Hf w Hw. Qed.

(** Calling a method and continuing its future. *)
Lemma call_and_then {E A B} (m : IO W (Future W E A)) (k : A → IO W (Future W E B))
    (P : A → Prop) (Q : B → Prop) :
  call_triple I m P → (∀ a, P a → call_triple I (k a) Q) →
  call_triple I (λ w, let '(f, w) := m w in (and_then f k, w)) Q.
Proof.
  intros Hm Hk w Hw. destruct (Hm w Hw) as [H1 H2]. destruct (m w) as [f w1]. simpl in *.
  split; [done|]. by eapply fut_and_then.
Qed.

Lemma call_map_err {E F A} (g : E → F) (m : IO W (Future W E A)) P :
  call_triple I m P → call_triple I (λ w, let '(f, w) := m w in (future_map_err g f, w)) P.
Proof.
  intros Hm w Hw. destruct (Hm w Hw) as [H1 H2]. destruct (m w) as [f w1]. simpl in *.
  split; [done|]. by apply fut_map_err.
Qed.

End hoare.

#[export] Hint Resolve triple_ret fut_ok fut_err fut_result fut_map_err call_pure call_io_ret
  : mercury.

(** Results whose value does not matter. *)
Definition anything {A} (_ : A) : Prop := True.
#[export] Hint Unfold anything : mercury.
#[export] Hint Extern 0 (anything _) => exact I : mercury.

(** Descending through the combinators; what is left are the primitive steps
    and the side conditions on values. *)
Ltac fut_step :=
  match goal with
  | |- fut_triple _ (future_ok _) _ => apply fut_ok
  | |- fut_triple _ (future_err _) _ => apply fut_err
  | |- fut_triple _ (future_result _) _ => apply fut_result
  | |- fut_triple _ (future_map_err _ _) _ => apply fut_map_err
  | |- fut_triple _ (and_then _ _) _ => eapply fut_and_then; [|intros ??]
  | |- fut_triple _ (future_then _ _) _ => eapply fut_then; [|intros ??]
  | |- fut_triple _ (future_map _ _) _ => eapply fut_map; [|intros ??]
  | |- call_triple _ (io_ret _) _ => apply call_io_ret
  end.
