(* ===== verification/Reactor.v ===== *)
(** * Programs that run on the reactor, among spawned tasks

    The main program of a test or a binary hands futures to [reactor.run]; while
    it waits, and between any two of its steps, the reactor may poll the tasks
    that have been spawned, in any order.  A program is a tree: a step that can
    be taken when the state allows it, a panic, or the end.  [ends] says that
    all runs of a program end well, whatever the order of polling: no run gets
    stuck, panics or goes on for ever. *)

From S2P Require Import Prelude.
From stdpp Require Import relations.

#[warnings="-register-all"]
Inductive Prog (W A : Type) : Type :=
| Done (a : A)
| Failed
| Await (ready : W → option (Prog W A * W)).
Arguments Done {W A} a.
Arguments Failed {W A}.
Arguments Await {W A} ready.

#[export] Instance Prog_ret {W} : MRet (Prog W) := λ _ a, Done a.
#[export] Instance Prog_bind {W} : MBind (Prog W) := λ A B f,
  fix bind m := match m with
                | Done a => f a
                | Failed => Failed
                | Await ready => Await (λ w, match ready w with
                                             | Some (m, w) => Some (bind m, w)
                                             | None => None
                                             end)
                end.

Section programs.
Context {W : Type}.

(** A step of the program that is always possible. *)
Definition perform {A} (m : W → Panicking (A * W)) : Prog W A := Await (λ w, Some
  match m w with Returns (a, w') => (Done a, w') | Panics => (Failed, w) end).

(** [reactor.run(fut).unwrap()] on a future that is completed at its first poll. *)
Definition run_future {E A} (m : IO W (Future W E A)) : Prog W A :=
  perform (λ w, match await m w with (Ok a, w') => Returns (a, w') | (Err _, _) => Panics end).

(** And on one that is ready when [poll] says so. *)
Definition run_until {E A} (poll : W → option (Result E A * W)) : Prog W A := Await (λ w,
  match poll w with
  | Some (Ok a, w') => Some (Done a, w')
  | Some (Err _, w') => Some (Failed, w')
  | None => None
  end).

(** ** The tasks *)

(** Polling the task that [c] names: [None] when there is nothing to do. *)
Context {Choice : Type} (poll_task : Choice → W → option W).

Definition task_step (w w' : W) : Prop := ∃ c, poll_task c w = Some w'.

Inductive ends {A} (post : A → W → Prop) : Prog W A → W → Prop :=
| ends_done a w : post a w → ends post (Done a) w
| ends_await ready w :
    (ready w = None → ∃ w', task_step w w') →
    (∀ m w', ready w = Some (m, w') → ends post m w') →
    (∀ w', task_step w w' → ends post (Await ready) w') →
    ends post (Await ready) w.

(** One run: the schedule says in each turn whether the program goes on or a
    task is polled. *)
Fixpoint run_schedule {A} (schedule : list (option Choice)) (m : Prog W A) (w : W) : Prog W A * W :=
  match schedule with
  | [] => (m, w)
  | None :: schedule =>
      match m with
      | Await ready => match ready w with
                       | Some (m, w) => run_schedule schedule m w
                       | None => run_schedule schedule m w
                       end
      | _ => (m, w)
      end
  | Some c :: schedule =>
      match m with
      | Await _ => run_schedule schedule m (default w (poll_task c w))
      | _ => (m, w)
      end
  end.

(** ** What ending well means for the runs *)

(** No schedule leads to a panic, and what a schedule leads to can be completed. *)
Lemma ends_schedule {A} (post : A → W → Prop) m w schedule :
  ends post m w → ends post (run_schedule schedule m w).1 (run_schedule schedule m w).2.
Proof.
  revert m w; induction schedule as [|[c|] schedule IH]; intros m w Hm; simpl; [done|..].
  - inversion Hm as [|ready w0 H1 H2 H3]; subst; [by constructor|].
    destruct (poll_task c w) as [w'|] eqn:Hc; simpl; apply IH; [|done]. apply H3. by exists c.
  - inversion Hm as [|ready w0 H1 H2 H3]; subst; [by constructor|].
    destruct (ready w) as [[m' w']|] eqn:Hr; apply IH; [|done]. by apply H2.
Qed.

Lemma ends_not_failed {A} (post : A → W → Prop) w : ¬ ends post Failed w.
Proof. inversion 1. Qed.

Lemma ends_completes {A} (post : A → W → Prop) m w :
  ends post m w → ∃ schedule a w', run_schedule schedule m w = (Done a, w') ∧ post a w'.
Proof.
  induction 1 as [a w Hp|ready w H1 H2 IH2 H3 IH3].
  - by exists [], a, w.
  - destruct (ready w) as [[m' w']|] eqn:Hr.
    + destruct (IH2 m' w' eq_refl) as (s & a & w'' & Hs & Hp). exists (None :: s), a, w''.
      simpl. by rewrite Hr.
    + destruct (H1 eq_refl) as (w' & c & Hc). destruct (IH3 w') as (s & a & w'' & Hs & Hp); [by exists c|].
      exists (Some c :: s), a, w''. simpl. by rewrite Hc.
Qed.

(** Every run is finite: the turns in which something happens are well-founded. *)
Definition turn {A} (x y : Prog W A * W) : Prop :=
  match x.1 with
  | Await ready => ready x.2 = Some y ∨ (y.1 = Await ready ∧ task_step x.2 y.2)
  | _ => False
  end.

Lemma ends_finite {A} (post : A → W → Prop) m w : ends post m w → Acc (flip turn) (m, w).
Proof.
  induction 1 as [a w Hp|ready w H1 H2 IH2 H3 IH3]; constructor; intros [m' w']; unfold flip, turn; simpl.
  - done.
  - intros [Hr|[-> Ht]]; eauto.
Qed.

(** A program passes: whatever the schedule, nothing panics and the end can
    still be reached, and it is reached, since no run goes on for ever. *)
Definition passes {A} (m : Prog W A) (w : W) : Prop :=
  Acc (flip turn) (m, w)
  ∧ ∀ schedule, let '(m', w') := run_schedule schedule m w in
      m' ≠ Failed ∧ ∃ more a, (run_schedule more m' w').1 = Done a.

Lemma ends_passes {A} (post : A → W → Prop) m w : ends post m w → passes m w.
Proof.
  intros Hm. split; [by eapply ends_finite|]. intros schedule.
  pose proof (ends_schedule post m w schedule Hm) as Hs.
  destruct (run_schedule schedule m w) as [m' w']. simpl in Hs. split.
  - intros ->. by apply ends_not_failed in Hs.
  - destruct (ends_completes post m' w' Hs) as (more & a & w2 & Hr & _). exists more, a. by rewrite Hr.
Qed.

(** ** Rules *)

Lemma ends_weaken {A} (post post' : A → W → Prop) m w :
  ends post m w → (∀ a w', post a w' → post' a w') → ends post' m w.
Proof. induction 1; intros Hp; constructor; eauto. Qed.

Lemma ends_bind {A B} (post : B → W → Prop) (m : Prog W A) (f : A → Prog W B) w :
  ends (λ a w', ends post (f a) w') m w → ends post (m ≫= f) w.
Proof.
  remember (λ a w', ends post (f a) w') as post' eqn:Hpost.
  induction 1 as [a w Hp|ready w H1 H2 IH2 H3 IH3]; subst; simpl; [done|].
  constructor.
  - intros Hr. apply H1. by destruct (ready w) as [[??]|].
  - intros m' w' Hr. destruct (ready w) as [[m w0]|] eqn:E; [|done]. simplify_eq. by apply IH2.
  - intros w' Ht. by apply IH3.
Qed.

(** A program that waits, while the tasks keep an invariant and use up a
    measure, and are not done before what it waits for is there. *)
Lemma ends_wait {A} (post : A → W → Prop) ready (I : W → Prop) (measure : W → nat) w :
  (∀ w w', I w → task_step w w' → I w' ∧ measure w' < measure w) →
  (∀ w, I w → (¬ ∃ w', task_step w w') → ready w ≠ None) →
  (∀ w m w', I w → ready w = Some (m, w') → ends post m w') →
  (∀ w, I w → (∃ w', task_step w w') ∨ ¬ (∃ w', task_step w w')) →
  I w → ends post (Await ready) w.
Proof.
  intros Hstep Hprog Hnext Hdec. remember (measure w) as n eqn:Hn.
  revert w Hn; induction n as [n IH] using lt_wf_ind; intros w -> Hw. constructor.
  - intros Hr. destruct (Hdec w Hw) as [?|Hno]; [done|]. by destruct (Hprog w Hw Hno).
  - intros m w' Hr. by apply (Hnext w).
  - intros w' Ht. destruct (Hstep w w' Hw Ht) as [Hw' Hlt]. by eapply IH.
Qed.

Lemma ends_perform {A} (post : A → W → Prop) m (I : W → Prop) (measure : W → nat) w :
  (∀ w w', I w → task_step w w' → I w' ∧ measure w' < measure w) →
  (∀ w, I w → ∃ a w', m w = Returns (a, w') ∧ post a w') →
  I w → ends post (perform m) w.
Proof.
  intros Hstep Hm. remember (measure w) as n eqn:Hn.
  revert w Hn; induction n as [n IH] using lt_wf_ind; intros w -> Hw. constructor.
  - done.
  - intros m' w' [= Hr]. destruct (Hm w Hw) as (a & w1 & Hmw & Hp). rewrite Hmw in Hr.
    simplify_eq. by constructor.
  - intros w' Ht. destruct (Hstep w w' Hw Ht) as [Hw' Hlt]. by eapply IH.
Qed.

End programs.

(** ** Where schedules lead *)

Section schedules.
Context {W : Type} (R : relation W).

(** Whatever the order of the steps, there is an end to them, and then it holds. *)
Definition inevitably (Q : W → Prop) (w : W) : Prop :=
  Acc (flip R) w ∧ ∀ w', rtc R w w' → (¬ ∃ w'', R w' w'') → Q w'.

Lemma inevitably_mono (Q Q' : W → Prop) w : (∀ w', Q w' → Q' w') → inevitably Q w → inevitably Q' w.
Proof. intros HQ [Hacc H]. split; [done|]. eauto. Qed.

(** Steps keep an invariant and use up a measure, or lead to where it is
    inevitable. *)
Lemma inevitably_phase (I Q : W → Prop) (measure : W → nat) w :
  (∀ w w', I w → R w w' → (I w' ∧ measure w' < measure w) ∨ inevitably Q w') →
  (∀ w, I w → (¬ ∃ w', R w w') → Q w) →
  I w → inevitably Q w.
Proof.
  intros Hstep Hrest. remember (measure w) as n eqn:Hn.
  revert w Hn; induction n as [n IH] using lt_wf_ind; intros w -> Hw.
  assert (∀ w', R w w' → inevitably Q w') as Hnext.
  { intros w' Hs. destruct (Hstep w w' Hw Hs) as [[Hw' Hlt]|?]; [by eapply IH|done]. }
  split.
  - constructor. intros w' Hs. by apply Hnext.
  - intros w' Hs Hno. destruct Hs as [w|w w1 w' Hs Hs']; [by apply Hrest|].
    by apply (proj2 (Hnext w1 Hs)).
Qed.
End schedules.

(** A program may wait for what is inevitable. *)
Lemma ends_inevitably {W A Choice} (poll_task : Choice → W → option W) (post : A → W → Prop) ready Q w :
  (∀ w, (∃ w', task_step poll_task w w') ∨ ¬ ∃ w', task_step poll_task w w') →
  inevitably (task_step poll_task) Q w → (∀ w', Q w' → ready w' ≠ None) →
  (∀ w' m w'', rtc (task_step poll_task) w w' → ready w' = Some (m, w'') → ends poll_task post m w'') →
  ends poll_task post (Await ready) w.
Proof.
  intros Hdec [Hacc HQ] Hready. induction Hacc as [w _ IH]. intros Hnext. constructor.
  - intros Hr. destruct (Hdec w) as [?|Hno]; [done|]. by destruct (Hready w); [apply HQ; [apply rtc_refl|]|].
  - intros m w' Hr. by apply (Hnext w); [apply rtc_refl|].
  - intros w' Hs. apply IH; [done|..].
    + intros w'' Hs'. apply HQ. by eapply rtc_l.
    + intros w1 m w2 Hs'. apply Hnext. by eapply rtc_l.
Qed.
