(* ===== verification/HomeServer.v ===== *)
(** * The home node ([home-node/src/server.rs])

    The state of a home server, shared by its connections and sessions, and
    every operation of the [Home], [ProfileRepo] and [HomeSession] services it
    implements.  Properties are in [HomeServerProps.v].

    Reference counting is modelled by a heap of live sessions: the [sessions]
    map of the server holds weak references, which name a session that may be
    gone.  A task spawned on the reactor is kept until the reactor runs it. *)

From S2P Require Import Prelude Errors External Storage Protocol Crypto Relation.

Abbreviation SessionId := nat (only parsing).

(** [struct Call]: the request with the sending half of the answer channel. *)
Record Call : Set := Call_new { call_request : CallRequestDetails; call_sender : OneshotId }.

(** What travels on the channels handed to clients. *)
Inductive ChanMsg : Set :=
| EventMsg (r : Result string ProfileEvent)
| CallMsg (r : Result string Call)
| FrameMsg (r : Result string AppMessageFrame).

(** [enum ServerSink]. *)
Inductive ServerSink (T : Type) : Type :=
| Buffer (msgs : list (Result string T))
| Sender (sink : SinkId).
Arguments Buffer {T} msgs.
Arguments Sender {T} sink.

Record HomeSessionServer : Type := mkSession
  { session_context : PeerContext;
    session_events : ServerSink ProfileEvent;
    session_apps : gmap ApplicationId (ServerSink Call) }.

(** A future spawned on the reactor: [send] or [send_all] on a sink. *)
Inductive Task : Set :=
| SendOne (sink : SinkId) (msg : ChanMsg)
| SendAll (sink : SinkId) (msgs : list ChanMsg).

Record HomeServer (Dht Db Chans : Type) : Type := mkHomeServer
  { server_validator : Validator;
    public_profile_dht : Dht;
    hosted_profile_db : Db;
    sessions : gmap ProfileId SessionId;
    session_heap : gmap SessionId HomeSessionServer;
    next_session : SessionId;
    spawned : list Task;
    chans : Chans }.
Arguments mkHomeServer {Dht Db Chans}.
Arguments server_validator {Dht Db Chans}.
Arguments public_profile_dht {Dht Db Chans}.
Arguments hosted_profile_db {Dht Db Chans}.
Arguments sessions {Dht Db Chans}.
Arguments session_heap {Dht Db Chans}.
Arguments next_session {Dht Db Chans}.
Arguments spawned {Dht Db Chans}.
Arguments chans {Dht Db Chans}.

(** The state of a timer when it is polled. *)
Inductive TimerState : Set :=
| TimerRunning
| TimerFired
| TimerFailed (description : string).

Section server.
Context {BC : Bincode} {Dht Db Chans : Type}
        {DHT : KeyValueStore Dht ProfileId Profile}
        {DB : KeyValueStore Db ProfileId OwnProfile}
        {CH : Channels ChanMsg Chans}.

Abbreviation W := (HomeServer Dht Db Chans).

Definition HomeServer_new (validator : Validator) (public_dht : Dht) (private_db : Db)
    (c : Chans) : W :=
  mkHomeServer validator public_dht private_db ∅ ∅ 0 [] c.

(** ** Updates of one field *)

Definition set_dht (d : Dht) (w : W) : W :=
  mkHomeServer (server_validator w) d (hosted_profile_db w) (sessions w) (session_heap w)
    (next_session w) (spawned w) (chans w).
Definition set_db (d : Db) (w : W) : W :=
  mkHomeServer (server_validator w) (public_profile_dht w) d (sessions w) (session_heap w)
    (next_session w) (spawned w) (chans w).
Definition set_sessions (m : gmap ProfileId SessionId) (w : W) : W :=
  mkHomeServer (server_validator w) (public_profile_dht w) (hosted_profile_db w) m
    (session_heap w) (next_session w) (spawned w) (chans w).
Definition set_heap (h : gmap SessionId HomeSessionServer) (w : W) : W :=
  mkHomeServer (server_validator w) (public_profile_dht w) (hosted_profile_db w) (sessions w)
    h (next_session w) (spawned w) (chans w).
Definition set_next (n : SessionId) (w : W) : W :=
  mkHomeServer (server_validator w) (public_profile_dht w) (hosted_profile_db w) (sessions w)
    (session_heap w) n (spawned w) (chans w).
Definition set_spawned (ts : list Task) (w : W) : W :=
  mkHomeServer (server_validator w) (public_profile_dht w) (hosted_profile_db w) (sessions w)
    (session_heap w) (next_session w) ts (chans w).
Definition set_chans (c : Chans) (w : W) : W :=
  mkHomeServer (server_validator w) (public_profile_dht w) (hosted_profile_db w) (sessions w)
    (session_heap w) (next_session w) (spawned w) c.

(** [handle.spawn]. *)
Definition spawn (t : Task) (w : W) : W := set_spawned (spawned w ++ [t]) w.

(** The store operations of the two databases, as futures. *)
Definition dht_set (k : ProfileId) (p : Profile) : Future W Errors.Storage.StorageError unit :=
  λ w, let '(r, d) := kv_set k p (public_profile_dht w) in (r, set_dht d w).
Definition db_set (k : ProfileId) (p : OwnProfile) : Future W Errors.Storage.StorageError unit :=
  λ w, let '(r, d) := kv_set k p (hosted_profile_db w) in (r, set_db d w).

(** ** [impl HomeSessionServer] *)

Definition HomeSessionServer_new (context : PeerContext) : HomeSessionServer :=
  mkSession context (Buffer []) ∅.

(** Writing a session back to the heap. *)
Definition put_session (sid : SessionId) (s : HomeSessionServer) (w : W) : W :=
  set_heap (<[sid := s]> (session_heap w)) w.

(** The session methods take the session a reference names; holding the
    reference keeps it alive. *)
Definition session_push_event (sid : SessionId) (event : ProfileEvent)
  : IO W (Future W ProtoError unit) := λ w,
  match session_heap w !! sid with
  | None => (future_ok tt, w)
  | Some s =>
      match session_events s with
      | Buffer bufvec =>
          (future_ok tt,
           put_session sid (mkSession (session_context s) (Buffer (bufvec ++ [Ok event]))
                              (session_apps s)) w)
      | Sender sender =>
          (λ w, let '(r, c) := mpsc_send sender (EventMsg (Ok event)) (chans w) in
                (map_err (proto_context Proto.FailedToSend) r, set_chans c w), w)
      end
  end.

Definition session_push_call (sid : SessionId) (app : ApplicationId) (call : Call)
  : IO W (Future W ProtoError unit) := λ w,
  match session_heap w !! sid with
  | None => (future_ok tt, w)
  | Some s =>
      let sink := default (Buffer []) (session_apps s !! app) in
      match sink with
      | Buffer bufvec =>
          (future_ok tt,
           put_session sid (mkSession (session_context s) (session_events s)
              (<[app := Buffer (bufvec ++ [Ok call])]> (session_apps s))) w)
      | Sender sender =>
          (λ w, let '(r, c) := mpsc_send sender (CallMsg (Ok call)) (chans w) in
                (map_err (λ _, proto_from Proto.FailedToSend) r, set_chans c w), w)
      end
  end.

(** The calls waiting in the buffers of a session. *)
Definition buffered_calls (s : HomeSessionServer) : list Call :=
  map_to_list (session_apps s) ≫= λ '(_, sink),
    match sink with
    | Buffer msgs => omap (λ r, ok r) msgs
    | Sender _ => []
    end.

(** The last strong reference to a session goes away: [Drop::drop] runs, then
    the fields are dropped, and with a buffered call its answer channel. *)
Definition drop_session (sid : SessionId) (w : W) : W :=
  match session_heap w !! sid with
  | None => w
  | Some s =>
      let peer_id := peer_id (session_context s) in
      let w := set_sessions (delete peer_id (sessions w)) w in
      let w := set_heap (delete sid (session_heap w)) w in
      set_chans (foldl (λ c call, oneshot_drop (call_sender call) c) (chans w)
                   (buffered_calls s)) w
  end.

(** ** [impl HomeConnectionServer] *)

Record HomeConnectionServer : Type := mkConnection { context : PeerContext }.

Definition HomeConnectionServer_new (ctx : PeerContext) (server : W)
  : Result ProtoError HomeConnectionServer :=
  _ ← map_err (proto_context Proto.ContextValidationFailed)
        (PeerContext_validate ctx (server_validator server));
  Ok (mkConnection ctx).

Definition get_live_session (to_profile : ProfileId)
  : IO W (Future W ProtoError (option SessionId)) := λ w,
  (future_map_err (proto_context Proto.FailedToGetSession)
     (and_then (future_result (kv_get to_profile (hosted_profile_db w)))
        (λ _profile_data w,
           let session_rc :=
             sid ← sessions w !! to_profile;
             (* weak.upgrade() *)
             _ ← session_heap w !! sid;
             Some sid in
           (future_ok session_rc, w))),
   w).

Definition push_event (to_profile : ProfileId) (event : ProfileEvent)
  : IO W (Future W ProtoError unit) := λ w,
  let '(session_fut, w) := get_live_session to_profile w in
  (and_then session_fut (λ session_rc_opt w,
     match session_rc_opt with
     | Some sid => session_push_event sid event w
     | None => (future_ok tt, w)
     end), w).

(** When the callee is not online, the call is dropped, and with it the sending
    half of its answer channel. *)
Definition push_call (to_profile : ProfileId) (to_app : ApplicationId) (call : Call)
  : IO W (Future W ProtoError unit) := λ w,
  let '(session_fut, w) := get_live_session to_profile w in
  (and_then session_fut (λ session_rc_opt w,
     match session_rc_opt with
     | Some sid => session_push_call sid to_app call w
     | None => (future_ok tt, set_chans (oneshot_drop (call_sender call) (chans w)) w)
     end), w).

Implicit Types conn : HomeConnectionServer.

(** [ProfileRepo::load]. *)
Definition load conn (id : ProfileId) : IO W (Future W ProtoError Profile) := λ w,
  (future_map_err (proto_context Proto.DhtLookupFailed)
     (future_result (kv_get id (public_profile_dht w))), w).

(** ** [impl Home for HomeConnectionServer] *)

Definition claim conn (profile : ProfileId) : IO W (Future W ProtoError OwnProfile) := λ w,
  if decide (profile ≠ peer_id (context conn))
  then (future_err (proto_from Proto.FailedToClaimProfile), w)
  else (future_map_err (proto_context Proto.FailedToClaimProfile)
          (future_result (kv_get profile (hosted_profile_db w))), w).

(** [profile_facet.homes.push(home_proof)] on a persona. *)
Definition push_home (own_prof : OwnProfile) (home_proof : RelationProof) : option OwnProfile :=
  let p := own_profile own_prof in
  match profile_facet p with
  | Persona f =>
      Some (mkOwnProfile
              (mkProfile (profile_id p) (profile_public_key p)
                 (Persona (mkPersonaFacet (persona_homes f ++ [home_proof]) (persona_data f))))
              (own_priv_data own_prof))
  | _ => None
  end.

Definition register conn (own_prof : OwnProfile) (half_proof : RelationHalfProof)
    (_invite : option HomeInvitation)
  : IO W (Future W (OwnProfile * ProtoError) OwnProfile) := λ w,
  let ctx := context conn in
  let reject (k : Proto.ErrorKind) := (future_err (own_prof, proto_from k), w) in
  if decide (profile_id (own_profile own_prof) ≠ peer_id ctx) then reject Proto.ProfileMismatch
  else if decide (profile_public_key (own_profile own_prof) ≠ peer_pubkey ctx)
  then reject Proto.PublicKeyMismatch
  else if decide (hp_signer_id half_proof ≠ peer_id ctx) then reject Proto.SignerMismatch
  else if decide (hp_peer_id half_proof ≠ signer_profile_id (my_signer ctx))
  then reject Proto.HomeIdMismatch
  else if decide (hp_relation_type half_proof ≠ RELATION_TYPE_HOSTED_ON_HOME)
  then reject Proto.RelationTypeMismatch
  else if is_err (validate_half_proof (server_validator w) half_proof (peer_pubkey ctx))
  then reject Proto.InvalidSignature
  else
    let error_mapper (_e : Errors.Storage.StorageError) :=
      (own_prof, proto_from Proto.StorageFailed) in
    match sign_remaining_half half_proof (my_signer ctx) with
    | Err e => (future_err (own_prof, e), w)
    | Ok home_proof =>
        match push_home own_prof home_proof with
        | None => reject Proto.PersonaExpected
        | Some own_prof_modified =>
            let pub_prof_modified := own_profile own_prof_modified in
            let get_res := kv_get (profile_id (own_profile own_prof)) (hosted_profile_db w) in
            let reg_fut :=
              future_then (future_result get_res) (λ get_res, io_ret (future_result
                match get_res with
                | Ok _stored_prof => Err (own_prof, proto_from Proto.AlreadyRegistered)
                | Err _e => Ok tt
                end)) in
            let reg_fut := and_then reg_fut (λ _, io_ret (future_map_err error_mapper
              (dht_set (profile_id pub_prof_modified) pub_prof_modified))) in
            let reg_fut := and_then reg_fut (λ _, io_ret (future_map_err error_mapper
              (future_map (λ _, own_prof_modified)
                 (db_set (profile_id (own_profile own_prof_modified)) own_prof_modified)))) in
            (reg_fut, w)
        end
    end.

(** A session is created when the future is polled; the server keeps the entry
    it has for the profile, if any. *)
Definition login conn (proof_of_home : RelationProof) : IO W (Future W ProtoError SessionId) := λ w,
  let ctx := context conn in
  if decide (rp_relation_type proof_of_home ≠ RELATION_TYPE_HOSTED_ON_HOME)
  then (future_err (proto_from Proto.RelationTypeMismatch), w)
  else
    match proof_peer_id proof_of_home (signer_profile_id (my_signer ctx)) with
    | Err e => (future_err (proto_context Proto.ProfileMismatch e), w)
    | Ok profile_id =>
        (future_map_err (proto_context Proto.FailedToLoadProfile)
           (and_then (future_result (kv_get profile_id (hosted_profile_db w)))
              (λ _own_profile w,
                 let sid := next_session w in
                 let w := set_heap (<[sid := HomeSessionServer_new ctx]> (session_heap w)) w in
                 let w := set_next (S sid) w in
                 let w := match sessions w !! profile_id with
                          | Some _ => w
                          | None => set_sessions (<[profile_id := sid]> (sessions w)) w
                          end in
                 (future_ok sid, w))), w)
    end.

Definition pair_request conn (half_proof : RelationHalfProof)
  : IO W (Future W ProtoError unit) := λ w,
  let ctx := context conn in
  if decide (hp_signer_id half_proof ≠ peer_id ctx)
  then (future_err (proto_from Proto.ProfileMismatch), w)
  else if is_err (validate_half_proof (server_validator w) half_proof (peer_pubkey ctx))
  then (future_err (proto_from Proto.PublicKeyMismatch), w)
  else push_event (hp_peer_id half_proof) (PairingRequest half_proof) w.

(** The check common to [pair_response] and [call], run when the profile of the
    peer has been loaded. *)
Definition validate_with_peer conn (relation : RelationProof) (profile_data : OwnProfile)
  : IO W (Future W ProtoError unit) := λ w,
  (future_result (map_err (proto_context Proto.InvalidRelationProof)
     (validate_relation_proof (server_validator w) relation
        (peer_id (context conn)) (peer_pubkey (context conn))
        (profile_id (own_profile profile_data))
        (profile_public_key (own_profile profile_data)))), w).

Definition pair_response conn (relation : RelationProof) : IO W (Future W ProtoError unit) := λ w,
  match proof_peer_id relation (peer_id (context conn)) with
  | Err err => (future_err (proto_context Proto.ProfileMismatch err), w)
  | Ok to_profile =>
      let fut := future_map_err (proto_context Proto.PeerNotHostedHere)
                   (future_result (kv_get to_profile (hosted_profile_db w))) in
      let fut := and_then fut (validate_with_peer conn relation) in
      (and_then fut (λ _, push_event to_profile (PairingResponse relation)), w)
  end.

(** [call] up to the point where the callee has it: the future gives the answer
    channel to wait on.  [timeout_new] is what [Timeout::new] returned. *)
Definition call conn (app : ApplicationId) (call_req : CallRequestDetails)
    (timeout_new : Result string unit) : IO W (Future W ProtoError OneshotId) := λ w,
  match proof_peer_id (cr_relation call_req) (peer_id (context conn)) with
  | Err e => (future_err (proto_context Proto.ProfileMismatch e), w)
  | Ok to_profile =>
      let '(chan, c) := oneshot_channel (chans w) in
      let w := set_chans c w in
      let call := Call_new call_req chan in
      match timeout_new with
      | Err err => (future_err (proto_context Proto.TimeoutFailed err), w)
      | Ok _ =>
          let fut := future_map_err (proto_context Proto.PeerNotHostedHere)
                       (future_result (kv_get to_profile (hosted_profile_db w))) in
          let fut := and_then fut (validate_with_peer conn (cr_relation call_req)) in
          let fut := and_then fut (λ _ w,
                       let '(push, w) := push_call to_profile app call w in
                       (future_map_err (proto_context Proto.CallFailed) push, w)) in
          (and_then fut (λ _void, io_ret (future_ok chan)), w)
      end
  end.

(** Polling [recv.select(timeout_fut)]: [None] while neither is ready. *)
Definition poll_answer (chan : OneshotId) (timer : TimerState) (w : W)
  : option (Result ProtoError (option SinkId)) :=
  match oneshot_poll chan (chans w) with
  | Sent answer => Some (Ok answer)
  | Canceled => Some (Err (proto_context Proto.FailedToReadResponse "oneshot canceled"))
  | NotReady =>
      match timer with
      | TimerFired => Some (Ok None)
      | TimerFailed e => Some (Err (proto_context Proto.TimeoutFailed e))
      | TimerRunning => None
      end
  end.

(** [IncomingCall::answer]: a failure to send is ignored. *)
Definition answer (c : Call) (to_callee : option SinkId) : IO W CallRequestDetails := λ w,
  let '(_, cs) := oneshot_send (call_sender c) to_callee (chans w) in
  (call_request c, set_chans cs w).

(** ** [impl HomeSession for HomeSessionServer] *)

Definition update (ctx : PeerContext) (own_prof : OwnProfile)
  : IO W (Future W ProtoError unit) := λ w,
  if decide (profile_id (own_profile own_prof) ≠ peer_id ctx)
  then (future_err (proto_from Proto.ProfileMismatch), w)
  else if decide (profile_public_key (own_profile own_prof) ≠ peer_pubkey ctx)
  then (future_err (proto_from Proto.PublicKeyMismatch), w)
  else
    let upd_fut := future_result (kv_get (profile_id (own_profile own_prof))
                                    (hosted_profile_db w)) in
    let upd_fut := and_then upd_fut (λ _own_prof_orig, io_ret
      (dht_set (profile_id (own_profile own_prof)) (own_profile own_prof))) in
    let upd_fut := and_then upd_fut (λ _, io_ret
      (db_set (profile_id (own_profile own_prof)) own_prof)) in
    (future_map_err (λ _, proto_from Proto.ProfileUpdateFailed) upd_fut, w).

Definition unregister (ctx : PeerContext) (_newhome : option Profile)
  : IO W (Future W ProtoError unit) := λ w,
  let profile_id := peer_id ctx in
  let w := set_sessions (delete profile_id (sessions w)) w in
  let '(local_res, db) := kv_clear_local profile_id (hosted_profile_db w) in
  let w := set_db db w in
  let '(dht_res, dht) := kv_clear_local profile_id (public_profile_dht w) in
  let w := set_dht dht w in
  (future_map_err (proto_context Proto.UnregisterFailed)
     (and_then (future_result dht_res) (λ _, io_ret (future_result local_res))), w).

Definition checkin_warning : string :=
  "WARNING: Repeated call of HomeSession::checkin_app() detected, this channel is dropped, using the new one".
Definition events_warning : string :=
  "WARNING: Repeated call of HomeSession::events() detected, this channel is dropped, using the new one".

Definition checkin_app (sid : SessionId) (app : ApplicationId) : IO W (option SinkId) := λ w,
  match session_heap w !! sid with
  | None => (None, w)
  | Some s =>
      let '(sender, c) := mpsc_channel CHANNEL_CAPACITY (chans w) in
      let w := set_chans c w in
      let old := session_apps s !! app in
      let w := put_session sid (mkSession (session_context s) (session_events s)
                                  (<[app := Sender sender]> (session_apps s))) w in
      (Some sender,
       match old with
       | Some (Sender old_sender) => spawn (SendOne old_sender (CallMsg (Err checkin_warning))) w
       | Some (Buffer call_vec) => spawn (SendAll sender (CallMsg <$> call_vec)) w
       | None => w
       end)
  end.

Definition events (sid : SessionId) : IO W (option SinkId) := λ w,
  match session_heap w !! sid with
  | None => (None, w)
  | Some s =>
      let '(sender, c) := mpsc_channel CHANNEL_CAPACITY (chans w) in
      let w := set_chans c w in
      let w := put_session sid (mkSession (session_context s) (Sender sender)
                                  (session_apps s)) w in
      (Some sender,
       match session_events s with
       | Sender old_sender => spawn (SendOne old_sender (EventMsg (Err events_warning))) w
       | Buffer msg_vec => spawn (SendAll sender (EventMsg <$> msg_vec)) w
       end)
  end.

Definition ping (txt : string) : IO W (Future W ProtoError string) := io_ret (future_ok txt).

(** ** The reactor *)

(** One send of a task; the result is what is left of the task. *)
Definition run_task (t : Task) (w : W) : option Task * W :=
  match t with
  | SendOne sink msg => (None, set_chans (mpsc_send sink msg (chans w)).2 w)
  | SendAll sink [] => (None, w)
  | SendAll sink (msg :: msgs) =>
      let '(r, c) := mpsc_send sink msg (chans w) in
      (match r with Ok _ => Some (SendAll sink msgs) | Err _ => None end, set_chans c w)
  end.

(** Running a task to its end. *)
Fixpoint finish_task (fuel : nat) (t : Task) (w : W) : W :=
  match fuel with
  | O => w
  | S fuel => match run_task t w with
              | (None, w) => w
              | (Some t, w) => finish_task fuel t w
              end
  end.

(** One send is enough for [SendOne], one more than its messages for [SendAll]. *)
Definition task_fuel (t : Task) : nat :=
  match t with SendOne _ _ => 1 | SendAll _ msgs => S (length msgs) end.

(** Running everything that is spawned, in the order it was spawned. *)
Definition run_spawned (w : W) : W :=
  foldl (λ w t, finish_task (task_fuel t) t w) (set_spawned [] w) (spawned w).

End server.
