(* ===== verification/Rpc.v ===== *)
(** * The remote home ([home-protocol/src/mercury_capnp/client_proxy.rs],
    [server_dispatcher.rs])

    A client reaches a home through a proxy that turns the methods of the
    [Home], [ProfileRepo] and [HomeSession] traits into requests; on the home
    node a dispatcher turns the requests back into calls of its own
    implementation of these traits.  The generated stubs and the RPC runtime
    between them are the record [HomeStub]; [connect] is the runtime that
    delivers every request and answer, and turns a crash of the server into a
    disconnection.  [Sess] is the type of session objects on the home node; a
    capability refers to one of them. *)

From S2P Require Import Prelude Errors External Protocol HomeServer Capnp.

(** ** The traits of [home-protocol/src/lib.rs] *)

Record Home (W Sess : Type) : Type := mkHome
  { home_load : ProfileId → IO W (Future W ProtoError Profile);
    home_claim : ProfileId → IO W (Future W ProtoError OwnProfile);
    home_register : OwnProfile → RelationHalfProof → option HomeInvitation →
                    IO W (Future W (OwnProfile * ProtoError) OwnProfile);
    home_login : RelationProof → IO W (Future W ProtoError Sess);
    home_pair_request : RelationHalfProof → IO W (Future W ProtoError unit);
    home_pair_response : RelationProof → IO W (Future W ProtoError unit);
    home_call : ApplicationId → CallRequestDetails →
                IO W (Future W ProtoError (option SinkId)) }.
Arguments mkHome {W Sess}.
Arguments home_load {W Sess}. Arguments home_claim {W Sess}.
Arguments home_register {W Sess}. Arguments home_login {W Sess}.
Arguments home_pair_request {W Sess}. Arguments home_pair_response {W Sess}.
Arguments home_call {W Sess}.

(** The methods of a session that answer; its streams, [events] and
    [checkin_app], are below and in [ClientSession] of [Connect.v]. *)
Record HomeSession (W : Type) : Type := mkHomeSession
  { session_update : OwnProfile → IO W (Future W ProtoError unit);
    session_unregister : option Profile → IO W (Future W ProtoError unit);
    session_ping : string → IO W (Future W ProtoError string) }.
Arguments mkHomeSession {W}.
Arguments session_update {W}. Arguments session_unregister {W}. Arguments session_ping {W}.

(** What the channels of a process offer: [mpsc::channel], [Sink::send],
    [oneshot::channel], polling and sending, and spawning a task that reads a
    channel and passes what it receives to a remote listener. *)
Class ChanEnv (W : Type) := {
  env_channel : nat → IO W SinkId;
  env_send : SinkId → ChanMsg → IO W (Result string unit);
  env_oneshot : IO W OneshotId;
  env_oneshot_poll : OneshotId → W → OneshotState (option SinkId);
  env_spawn_forward : SinkId → AppListener → W → W;
}.

Section rpc.
Context {W Sess : Type} {ENV : ChanEnv W}.

(** [{:?}] of an error. *)
Context (debug : ProtoError → string) (debug_reg : OwnProfile * ProtoError → string).

(** [pry!]: an error ends the method with a failed promise. *)
Definition pry {A B} (r : Field A) (k : A → IO W (Future W CapnpError B))
  : IO W (Future W CapnpError B) :=
  match r with Ok a => k a | Err e => io_ret (future_err e) end.

(** ** Application messages ([mercury_capnp/mod.rs]) *)

(** [AppMessageDispatcherCapnProto::receive] and [error]. *)
Definition app_receive (sender : SinkId) (message : Field bytes)
  : IO W (Future W CapnpError unit) :=
  pry message (λ message, io_ret (λ w,
    let '(r, w) := env_send sender (FrameMsg (Ok (mkAppMessageFrame message))) w in
    (map_err (λ e, failed ("Failed to send event: " +:+ e)) r, w))).

Definition app_error (sender : SinkId) (error : Field string) : IO W (Future W CapnpError unit) :=
  pry error (λ error, io_ret (λ w,
    let '(r, w) := env_send sender (FrameMsg (Err error)) w in
    (map_err (λ e, failed ("Failed to send event: " +:+ e)) r, w))).

(** [fwd_appmsg]: a channel of which the messages are passed to the listener. *)
Definition fwd_appmsg (to_callee : AppListener) : IO W SinkId := λ w,
  let '(send, w) := env_channel 1 w in (send, env_spawn_forward send to_callee w).

(** The body of its loop for one message. *)
Definition fwd_message (to_callee : AppListener) (message : Result string AppMessageFrame)
  : IO W (Future W CapnpError unit) :=
  match message with
  | Ok msg => app_receive (listener_sink to_callee) (Ok (frame_bytes msg))
  | Err err => app_error (listener_sink to_callee) (Ok err)
  end.

(** ** The generated interface *)

Record RegisterParams : Set := mkRegisterParams
  { rgp_ownProfile : Field WOwnProfile; rgp_halfProof : Field WRelationHalfProof;
    rgp_invite : Field WHomeInvitation }.

Record CallParams : Set := mkCallParams
  { clp_relation : Field WRelationProof; clp_app : Field string;
    clp_initPayload : Field bytes; clp_toCaller : Field AppListener }.

(** The methods of the schema; [Res A] is what a method answers with. *)
Record HomeMethods (Res : Type → Type) : Type := mkHomeMethods
  { m_load : Field bytes → IO W (Future W CapnpError (Res (Field WProfile)));
    m_claim : Field bytes → IO W (Future W CapnpError (Res (Field WOwnProfile)));
    m_register : RegisterParams → IO W (Future W CapnpError (Res (Field WOwnProfile)));
    m_login : Field WRelationProof → IO W (Future W CapnpError (Res (Field Sess)));
    m_pair_request : Field WRelationHalfProof → IO W (Future W CapnpError (Res unit));
    m_pair_response : Field WRelationProof → IO W (Future W CapnpError (Res unit));
    m_call : CallParams → IO W (Future W CapnpError (Res (Field AppListener))) }.
Arguments mkHomeMethods {Res}.
Arguments m_load {Res}. Arguments m_claim {Res}. Arguments m_register {Res}.
Arguments m_login {Res}. Arguments m_pair_request {Res}. Arguments m_pair_response {Res}.
Arguments m_call {Res}.

Record SessionMethods : Type := mkSessionMethods
  { m_update : Field WOwnProfile → IO W (Future W CapnpError unit);
    m_unregister : Field WProfile → IO W (Future W CapnpError unit);
    m_ping : Field string → IO W (Future W CapnpError (Field string)) }.

(** What a client holds. *)
Definition HomeStub : Type := HomeMethods (λ A, A).

(** A server that panics while it writes its answer is gone for the client. *)
Definition disconnected {A} (f : Future W CapnpError (Panicking A)) : Future W CapnpError A := λ w,
  let '(r, w) := f w in
  (match r with
   | Ok (Returns a) => Ok a
   | Ok Panics => Err (failed "Peer disconnected.")
   | Err e => Err e
   end, w).

Definition deliver {A} (m : IO W (Future W CapnpError (Panicking A)))
  : IO W (Future W CapnpError A) := λ w, let '(f, w) := m w in (disconnected f, w).

Definition connect (server : HomeMethods Panicking) : HomeStub :=
  mkHomeMethods (Res := λ A, A)
    (λ p, deliver (m_load server p)) (λ p, deliver (m_claim server p))
    (λ p, deliver (m_register server p)) (λ p, deliver (m_login server p))
    (λ p, deliver (m_pair_request server p)) (λ p, deliver (m_pair_response server p))
    (λ p, deliver (m_call server p)).

(** [.map_err(..)] and [.map(..)] on what the home returned. *)
Definition answer_with {E A B} (text : string) (show : E → string) (fill : A → B)
    (m : IO W (Future W E A)) : IO W (Future W CapnpError B) := λ w,
  let '(fut, w) := m w in
  (future_map fill (future_map_err (λ e, failed (text +:+ show e)) fut), w).

(** ** Calls

    The answer to a call is a channel towards the callee, or none. *)

Definition callee_listener (to_callee_opt : option SinkId) : Field AppListener :=
  match to_callee_opt with
  | Some to_callee => Ok (mkAppListener to_callee)
  | None => Err null_capability
  end.

(** What either end makes of such an answer of the other. *)
Definition checkin_answer (resp : Field AppListener) : IO W (option SinkId) := λ w,
  match resp with
  | Ok to_callee_capnp => let '(s, w) := fwd_appmsg to_callee_capnp w in (Some s, w)
  | Err _ => (None, w)
  end.

(** [HomeDispatcherCapnProto::call] for a home the calls of which answer with
    an [A].  The channel to the caller is set up before the relation is
    decoded. *)
Definition dispatch_call_with {A B} (fill : A → B)
    (call : ApplicationId → CallRequestDetails → IO W (Future W ProtoError A)) (params : CallParams)
  : IO W (Future W CapnpError B) :=
  pry (clp_relation params) (λ rel_capnp,
  pry (clp_app params) (λ app_capnp,
  pry (clp_initPayload params) (λ init_payload_capnp, λ w,
    let '(to_caller, w) :=
      match clp_toCaller params with
      | Ok to_caller_capnp => let '(s, w) := fwd_appmsg to_caller_capnp w in (Some s, w)
      | Err _ => (None, w)
      end in
    pry (relation_proof_try_from rel_capnp) (λ relation,
      let call_req := mkCallRequest relation (mkAppMessageFrame init_payload_capnp) to_caller in
      answer_with "Failed to call profile: " debug fill
        (call (mkApplicationId app_capnp) call_req)) w))).

(** ** [HomeDispatcherCapnProto] *)

Section dispatcher.
Context (home : Home W Sess).

Definition dispatch_load (profileId : Field bytes) :=
  pry profileId (λ profile_id_capnp,
    answer_with "Failed to load profile id: " debug
      (λ profile, wire ← profile_fill_from profile; Returns (Ok wire : Field WProfile))
      (home_load home (mkProfileId profile_id_capnp))).

Definition dispatch_claim (profileId : Field bytes) :=
  pry profileId (λ profile_id_capnp,
    answer_with "Failed to claim profile: " debug
      (λ own, wire ← own_profile_fill_from own; Returns (Ok wire : Field WOwnProfile))
      (home_claim home (mkProfileId profile_id_capnp))).

Definition dispatch_register (params : RegisterParams) :=
  pry (rgp_ownProfile params) (λ own_prof_capnp,
  pry (own_profile_try_from own_prof_capnp) (λ own_prof,
  pry (rgp_halfProof params) (λ half_proof_capnp,
  pry (half_proof_try_from half_proof_capnp) (λ half_proof,
    let invite_opt := ok (inv_capnp ← rgp_invite params; invitation_try_from inv_capnp) in
    answer_with "Failed to register profile: " debug_reg
      (λ own, wire ← own_profile_fill_from own; Returns (Ok wire : Field WOwnProfile))
      (home_register home own_prof half_proof invite_opt))))).

Definition dispatch_login (proofOfHome : Field WRelationProof) :=
  pry proofOfHome (λ proof_of_home_capnp,
  pry (relation_proof_try_from proof_of_home_capnp) (λ proof_of_home,
    answer_with "Failed to login: " debug (λ session, Returns (Ok session : Field Sess))
      (home_login home proof_of_home))).

Definition dispatch_pair_request (halfProof : Field WRelationHalfProof) :=
  pry halfProof (λ half_proof_capnp,
  pry (half_proof_try_from half_proof_capnp) (λ half_proof,
    answer_with "Failed to request pairing " debug Returns (home_pair_request home half_proof))).

Definition dispatch_pair_response (relation : Field WRelationProof) :=
  pry relation (λ proof_capnp,
  pry (relation_proof_try_from proof_capnp) (λ proof,
    answer_with "Failed to send pairing response: " debug Returns
      (home_pair_response home proof))).

Definition dispatch_call (params : CallParams)
  : IO W (Future W CapnpError (Panicking (Field AppListener))) :=
  dispatch_call_with (λ to_callee_opt, Returns (callee_listener to_callee_opt)) (home_call home) params.

Definition HomeDispatcher : HomeMethods Panicking :=
  mkHomeMethods dispatch_load dispatch_claim dispatch_register dispatch_login
    dispatch_pair_request dispatch_pair_response dispatch_call.

End dispatcher.

(** ** [HomeSessionDispatcherCapnProto] *)

Definition dispatch_update (session : HomeSession W) (ownProfile : Field WOwnProfile) :=
  pry ownProfile (λ own_profile_capnp,
  pry (own_profile_try_from own_profile_capnp) (λ own_profile,
    answer_with "Failed to update profile: " debug (λ u : unit, u)
      (session_update session own_profile))).

Definition dispatch_unregister (session : HomeSession W) (newHome : Field WProfile) :=
  let new_home_opt := ok (new_home_capnp ← newHome; profile_try_from new_home_capnp) in
  answer_with "Failed to unregister profile: " debug (λ u : unit, u)
    (session_unregister session new_home_opt).

Definition dispatch_ping (session : HomeSession W) (txt : Field string) :=
  pry txt (λ txt, answer_with "Failed ping: " debug (λ pong, Ok pong : Field string)
                    (session_ping session txt)).

Definition SessionDispatcher (session : HomeSession W) : SessionMethods :=
  mkSessionMethods (dispatch_update session) (dispatch_unregister session)
    (dispatch_ping session).

(** ** [HomeClientCapnProto] *)

Section client.
Context (stub : HomeStub).

(** The end of most methods: the answer is decoded, every error wrapped. *)
Definition decode_answer {A B} (k : Proto.ErrorKind) (decode : A → Field B)
    (m : IO W (Future W CapnpError A)) : IO W (Future W ProtoError B) := λ w,
  let '(fut, w) := m w in
  (future_map_err (proto_context k) (and_then fut (λ a, io_ret (future_result (decode a)))), w).

Definition client_load (id : ProfileId) : IO W (Future W ProtoError Profile) :=
  decode_answer Proto.FailedToLoadProfile (λ r, r ≫= profile_try_from)
    (m_load stub (Ok (pid_bytes id))).

Definition client_claim (id : ProfileId) : IO W (Future W ProtoError OwnProfile) :=
  decode_answer Proto.FailedToClaimProfile (λ r, r ≫= own_profile_try_from)
    (m_claim stub (Ok (pid_bytes id))).

(** Filling a request in can panic; nothing has been sent by then. *)
Definition client_register (own : OwnProfile) (half_proof : RelationHalfProof)
    (invite : option HomeInvitation)
  : Panicking (IO W (Future W (OwnProfile * ProtoError) OwnProfile)) :=
  own_capnp ← own_profile_fill_from own;
  let params := mkRegisterParams (Ok own_capnp) (Ok (half_proof_fill_from half_proof))
    (Ok match invite with
        | Some inv => invitation_fill_from inv
        | None => default_WHomeInvitation
        end) in
  Returns (λ w, let '(fut, w) := m_register stub params w in
    (future_map_err (λ e, (own, proto_context Proto.RegisterFailed e))
       (and_then fut (λ r, io_ret (future_result (r ≫= own_profile_try_from)))), w)).

Definition client_login (proof_of_home : RelationProof) : IO W (Future W ProtoError Sess) :=
  decode_answer Proto.FailedToCreateSession (λ r, r)
    (m_login stub (Ok (relation_proof_fill_from proof_of_home))).

Definition client_pair_request (half_proof : RelationHalfProof) : IO W (Future W ProtoError unit) :=
  decode_answer Proto.PairRequestFailed Ok
    (m_pair_request stub (Ok (half_proof_fill_from half_proof))).

Definition client_pair_response (relation_proof : RelationProof) : IO W (Future W ProtoError unit) :=
  decode_answer Proto.PairResponseFailed Ok
    (m_pair_response stub (Ok (relation_proof_fill_from relation_proof))).

Definition call_params (app : ApplicationId) (call_req : CallRequestDetails) : CallParams :=
  mkCallParams (Ok (relation_proof_fill_from (cr_relation call_req)))
    (Ok (app_str app)) (Ok (frame_bytes (cr_init_payload call_req)))
    (callee_listener (cr_to_caller call_req)).

Definition client_call (app : ApplicationId) (call_req : CallRequestDetails)
  : IO W (Future W ProtoError (option SinkId)) := λ w,
  let '(fut, w) := m_call stub (call_params app call_req) w in
  (future_map_err (proto_context Proto.CallFailed)
     (and_then fut (λ res w, let '(to_callee, w) := checkin_answer res w in (future_ok to_callee, w))), w).

End client.

(** ** [HomeSessionClientCapnProto] *)

Section session_client.
Context (stub : SessionMethods).

Definition client_update (own : OwnProfile) : Panicking (IO W (Future W ProtoError unit)) :=
  own_capnp ← own_profile_fill_from own;
  Returns (decode_answer Proto.ProfileUpdateFailed Ok (m_update stub (Ok own_capnp))).

Definition client_unregister (newhome : option Profile)
  : Panicking (IO W (Future W ProtoError unit)) :=
  new_home ← match newhome with
             | Some p => profile_fill_from p
             | None => Returns default_WProfile
             end;
  Returns (decode_answer Proto.UnregisterFailed Ok (m_unregister stub (Ok new_home))).

Definition client_ping (txt : string) : IO W (Future W ProtoError string) :=
  decode_answer Proto.PingFailed (λ r, r) (m_ping stub (Ok txt)).

End session_client.

(** ** Event streams

    [events] of the proxy makes a channel, hands a listener for it to the home
    and returns its receiving end; the dispatcher passes every item of the
    session's stream on to that listener. *)

(** [ProfileEventDispatcherCapnProto::receive] and [error]. *)
Definition event_receive (sender : SinkId) (event : Field WProfileEvent)
  : IO W (Future W CapnpError unit) :=
  pry event (λ event_capnp,
  pry (event_try_from event_capnp) (λ event, io_ret (λ w,
    let '(r, w) := env_send sender (EventMsg (Ok event)) w in
    (map_err (λ e, failed ("Failed to delegate event: " +:+ e)) r, w)))).

Definition event_error (sender : SinkId) (error : Field string) : IO W (Future W CapnpError unit) :=
  pry error (λ error, io_ret (λ w,
    let '(r, w) := env_send sender (EventMsg (Err error)) w in
    (map_err (λ e, failed ("Failed to delegate event error: " +:+ e)) r, w))).

(** One round of the dispatcher's [for_each] towards the listener at [callback]. *)
Definition events_item (callback : SinkId) (item : Result string ProfileEvent)
  : IO W (Future W CapnpError unit) :=
  match item with
  | Ok event => event_receive callback (Ok (event_fill_from event))
  | Err err => event_error callback (Ok err)
  end.

Definition dispatch_events (callback : SinkId) (items : list (Result string ProfileEvent))
  : Future W CapnpError unit := for_each (events_item callback) items.

(** ** Incoming calls *)

Definition CALL_TIMEOUT_SECS : nat := 30.

(** [CallDispatcherCapnProto::receive] up to the point where the application has
    the call; the answer is waited for on the oneshot it returns. *)
Definition call_receive (sender : SinkId) (timeout_new : Result CapnpError unit)
    (call : Field WCallRequest) : IO W (Future W CapnpError OneshotId) :=
  pry call (λ call_capnp,
  pry (call_request_try_from call_capnp) (λ call w,
    let '(to_caller, w) :=
      match wcr_toCaller call_capnp with
      | Ok to_caller_capnp => let '(s, w) := fwd_appmsg to_caller_capnp w in (Some s, w)
      | Err _ => (None, w)
      end in
    let call := mkCallRequest (cr_relation call) (cr_init_payload call) to_caller in
    let '(one, w) := env_oneshot w in
    pry timeout_new (λ _, io_ret (λ w,
      let '(r, w) := env_send sender (CallMsg (Ok (Call_new call one))) w in
      ((λ _, one) <$> map_err (λ e, failed ("Failed to dispatch call: " +:+ e)) r, w))) w)).

(** Polling [answer_fut.select(timeout_fut)]: what the listener answers with. *)
Definition call_poll_answer (one : OneshotId) (timer : TimerState) (w : W)
  : option (Result CapnpError (Field AppListener)) :=
  match env_oneshot_poll one w with
  | Sent (Some to_callee) => Some (Ok (Ok (mkAppListener to_callee)))
  | Sent None => Some (Ok (Err null_capability))
  | Canceled => Some (Err (failed "Failed to get answer from callee: Canceled"))
  | NotReady =>
      match timer with
      | TimerFired => Some (Ok (Err null_capability))
      | TimerFailed e => Some (Err (failed ("Call timed out without answer: " +:+ e)))
      | TimerRunning => None
      end
  end.

(** What the dispatcher of the home passes to the listener for an incoming call. *)
Definition checkin_item (details : CallRequestDetails) : WCallRequest :=
  let request := call_request_fill_from details in
  match cr_to_caller details with
  | Some to_caller =>
      mkWCallRequest (wcr_relation request) (wcr_initPayload request)
        (Ok (mkAppListener to_caller))
  | None => request
  end.

End rpc.
Arguments m_load {W Sess Res}. Arguments m_claim {W Sess Res}. Arguments m_register {W Sess Res}.
Arguments m_login {W Sess Res}. Arguments m_pair_request {W Sess Res}.
Arguments m_pair_response {W Sess Res}. Arguments m_call {W Sess Res}.
Arguments m_update {W}. Arguments m_unregister {W}. Arguments m_ping {W}.

(** ** What a remote call amounts to *)

(** The outcome [r] of a method of the home as its client sees it: a value is
    what survives the trip, and everything else an error of the kind [k]. *)
Definition remote {E A B} (k : Proto.ErrorKind) (trip : A → option B) (r : Result E A)
    (r' : Result ProtoError B) : Prop :=
  match r with
  | Ok a => match trip a with
            | Some b => r' = Ok b
            | None => ∃ e, r' = Err e ∧ proto_kind e = k
            end
  | Err _ => ∃ e, r' = Err e ∧ proto_kind e = k
  end.

(** One method seen through the proxy and directly: same effects, and the
    outcome is the remote view of the direct one. *)
Definition transparent {W E A B} (k : Proto.ErrorKind) (trip : A → option B)
    (m' : IO W (Future W ProtoError B)) (m : IO W (Future W E A)) : Prop :=
  ∀ w, (await m' w).2 = (await m w).2 ∧ remote k trip (await m w).1 (await m' w).1.

(** The invitation every home sees. *)
Definition placeholder : HomeInvitation :=
  HomeInvitation_new (mkProfileId todo_bytes) "TODO" (mkSignature todo_bytes).

(** ** Lemmas *)

Section lemmas.
Context {W : Type}.

(** The whole path of a request: dispatcher, runtime, proxy. *)
Lemma remote_call {E A B C} k text (show : E → string) (fill : A → Panicking B)
    (decode : B → Field C) (m : IO W (Future W E A)) w :
  await (decode_answer k decode (deliver (answer_with text show fill m))) w =
  let '(r, w') := await m w in
  (match r with
   | Err e => Err (proto_context k (failed (text +:+ show e)))
   | Ok a => match fill a with
             | Returns b => map_err (proto_context k) (decode b)
             | Panics => Err (proto_context k (failed "Peer disconnected."))
             end
   end, w').
Proof.
  unfold await, decode_answer, deliver, answer_with, disconnected, future_map_err, future_map,
    and_then, future_result, io_ret. destruct (m w) as [fut w1].
  destruct (fut w1) as [[a|e] w2]; simpl; [|done]. by destruct (fill a).
Qed.

(** A path that decodes what was filled in is transparent. *)
Lemma remote_transparent {E A B C} k text (show : E → string) (fill : A → Panicking B)
    (decode : B → Field C) (trip : A → option C) (m : IO W (Future W E A)) :
  (∀ w a, (await m w).1 = Ok a →
        match trip a with
        | Some c => ∃ b, fill a = Returns b ∧ decode b = Ok c
        | None => fill a = Panics
        end) →
  transparent k trip (decode_answer k decode (deliver (answer_with text show fill m))) m.
Proof.
  intros Htrip w. rewrite remote_call. specialize (Htrip w).
  destruct (await m w) as [[a|e] w']; simpl in *; [|eauto].
  split; [done|]. specialize (Htrip a eq_refl). destruct (trip a) as [c|].
  - destruct Htrip as (b & -> & ->). done.
  - rewrite Htrip. eauto.
Qed.

(** The same for the sessions, of which no answer has to be written. *)
Lemma remote_session_call {E A C} k text (show : E → string) (fill : A → C)
    {D} (decode : C → Field D) (trip : A → option D) (m : IO W (Future W E A)) :
  (∀ a, ∃ d, decode (fill a) = Ok d ∧ trip a = Some d) →
  transparent k trip (decode_answer k decode (answer_with text show fill m)) m.
Proof.
  intros Htrip w. unfold await, decode_answer, answer_with, future_map_err, future_map,
    and_then, future_result, io_ret. destruct (m w) as [fut w1].
  destruct (fut w1) as [[a|e] w2]; simpl; [|eauto]. split; [done|].
  destruct (Htrip a) as (d & -> & ->). done.
Qed.

End lemmas.

(** ** Theorems *)

Section theorems.
Context {W Sess : Type} {ENV : ChanEnv W}
        (debug : ProtoError → string) (debug_reg : OwnProfile * ProtoError → string)
        (home : Home W Sess).
Implicit Types w : W.
Abbreviation stub := (connect (HomeDispatcher debug debug_reg home)).

(** The profiles a method answers with fit the counters of the wire format. *)
Definition answers_fit {E A} (prof : A → Profile) (m : IO W (Future W E A)) : Prop :=
  ∀ w a, (await m w).1 = Ok a → fits (prof a).

(** Registering through the proxy, step by step. *)
Lemma client_register_await own own' hp inv :
  fits (own_profile own) → sent_own_profile own = Some own' →
  ∃ m, client_register stub own hp inv = Returns m ∧ ∀ w, await m w =
    let '(r, w') := await (home_register home own' hp (Some placeholder)) w in
    (match r with
     | Err e => Err (own, proto_context Proto.RegisterFailed
                            (failed ("Failed to register profile: " +:+ debug_reg e)))
     | Ok a => match own_profile_fill_from a with
               | Returns b => map_err (λ e, (own, proto_context Proto.RegisterFailed e))
                                (own_profile_try_from b)
               | Panics => Err (own, proto_context Proto.RegisterFailed (failed "Peer disconnected."))
               end
     end, w').
Proof.
  intros Hfits Hown. pose proof (own_profile_trip own Hfits) as Ht. rewrite Hown in Ht.
  destruct Ht as (wire & Hwire & Hdec). unfold client_register. rewrite Hwire.
  eexists. split; [reflexivity|]. intros w. unfold await. cbn [m_register connect]. unfold deliver.
  assert (m_register (HomeDispatcher debug debug_reg home)
            (mkRegisterParams (Ok wire) (Ok (half_proof_fill_from hp))
               (Ok match inv with Some inv => invitation_fill_from inv
                                | None => default_WHomeInvitation end))
          = answer_with "Failed to register profile: " debug_reg
              (λ own, wire ← own_profile_fill_from own; Returns (Ok wire : Field WOwnProfile))
              (home_register home own' hp (Some placeholder))) as Hm.
  { cbn [m_register HomeDispatcher]. unfold dispatch_register. cbn [rgp_ownProfile pry].
    rewrite Hdec. cbn [pry rgp_halfProof]. rewrite half_proof_roundtrip. cbn [pry].
    by destruct inv. }
  rewrite Hm. unfold answer_with, disconnected, future_map_err, future_map,
    and_then, future_result, io_ret.
  destruct (home_register _ _ _ _ w) as [fut w1]. destruct (fut w1) as [[a|e] w2]; [|done].
  simpl. by destruct (own_profile_fill_from a).
Qed.

(** C15: the proxy of a remote home is transparent: loading, claiming, logging
    in, pairing requests and responses have on the home the effect of the direct
    method call with the same arguments, and report its outcome, up to the
    parts of a profile that are not transferred and to the error kind, which is
    always the proxy's own. *)
Theorem remote_home_transparent id proof hp rp :
  answers_fit (λ p, p) (home_load home id) → answers_fit own_profile (home_claim home id) →
  transparent Proto.FailedToLoadProfile sent_profile (client_load stub id) (home_load home id)
  ∧ transparent Proto.FailedToClaimProfile sent_own_profile
      (client_claim stub id) (home_claim home id)
  ∧ transparent Proto.FailedToCreateSession Some (client_login stub proof) (home_login home proof)
  ∧ transparent Proto.PairRequestFailed Some
      (client_pair_request stub hp) (home_pair_request home hp)
  ∧ transparent Proto.PairResponseFailed Some
      (client_pair_response stub rp) (home_pair_response home rp).
Proof.
  intros Hload Hclaim. split_and!.
  - destruct id as [id]. apply remote_transparent. intros w p Hp.
    pose proof (profile_trip p (Hload w p Hp)) as Ht.
    destruct (sent_profile p); [|by rewrite Ht].
    destruct Ht as (wire & -> & Hw). eexists. split; [done|]. exact Hw.
  - destruct id as [id]. apply remote_transparent. intros w o Ho.
    pose proof (own_profile_trip o (Hclaim w o Ho)) as Ht.
    destruct (sent_own_profile o); [|by rewrite Ht].
    destruct Ht as (wire & -> & Hw). eexists. split; [done|]. exact Hw.
  - destruct proof as [? [] [] [] []]. apply remote_transparent. eauto.
  - destruct hp as [? [] [] []]. apply remote_transparent. eauto.
  - destruct rp as [? [] [] [] []]. apply remote_transparent. eauto.
Qed.

(** Registering through the proxy: the home registers the part of the
    profile that was transferred, and sees an invitation whether or not there
    was one; when it succeeds, the client gets back the transferred part of what
    the home answered, so of a persona that already had a home the proof of the
    new home is lost; when it fails the client gets its own profile back. *)
Theorem remote_register own own' hp inv w :
  fits (own_profile own) → sent_own_profile own = Some own' →
  answers_fit own_profile (home_register home own' hp (Some placeholder)) →
  ∃ m, client_register stub own hp inv = Returns m
    ∧ (await m w).2 = (await (home_register home own' hp (Some placeholder)) w).2
    ∧ match (await (home_register home own' hp (Some placeholder)) w).1 with
      | Ok res => match sent_own_profile res with
                  | Some res' => (await m w).1 = Ok res'
                  | None => ∃ e, (await m w).1 = Err (own, e) ∧ proto_kind e = Proto.RegisterFailed
                  end
      | Err _ => ∃ e, (await m w).1 = Err (own, e) ∧ proto_kind e = Proto.RegisterFailed
      end
    ∧ ∀ res data h1 h2 hs,
        (await (home_register home own' hp (Some placeholder)) w).1 = Ok res →
        profile_facet (own_profile res) = Persona (mkPersonaFacet (h1 :: h2 :: hs) data) →
        ∃ res', (await m w).1 = Ok res'
          ∧ profile_facet (own_profile res') = Persona (mkPersonaFacet [h1] []).
Proof.
  intros Hfits Hown Hans. destruct (client_register_await own own' hp inv Hfits Hown) as (m & -> & Hm).
  exists m. split; [done|]. specialize (Hm w). rename Hm into Heq.
  specialize (Hans w).
  destruct (await (home_register home own' hp (Some placeholder)) w) as [[a|e] w'];
    rewrite Heq; simpl in *; [|split_and!; eauto; by intros].
  pose proof (own_profile_trip a (Hans a eq_refl)) as Ha. split; [done|]. split.
  - destruct (sent_own_profile a) as [a'|]; [by destruct Ha as (b & -> & ->)|].
    rewrite Ha. eauto.
  - intros res data h1 h2 hs [= <-] Hf. unfold sent_own_profile, sent_profile in Ha.
    rewrite Hf in Ha. destruct Ha as (b & -> & ->). simpl. eauto.
Qed.

(** The proxy of a session: an update arrives with the transferred part of
    the profile; a deregistration without a new home arrives as one with an
    empty profile; a ping is echoed by an echoing session. *)
Theorem remote_session_transparent (session : HomeSession W) own own' newhome p' txt :
  fits (own_profile own) → sent_own_profile own = Some own' →
  fits newhome → sent_profile newhome = Some p' →
  (∃ m, client_update (SessionDispatcher debug session) own = Returns m
     ∧ transparent Proto.ProfileUpdateFailed Some m (session_update session own'))
  ∧ (∃ m, client_unregister (SessionDispatcher debug session) (Some newhome) = Returns m
     ∧ transparent Proto.UnregisterFailed Some m (session_unregister session (Some p')))
  ∧ (∃ m, client_unregister (SessionDispatcher debug session) None = Returns m
     ∧ transparent Proto.UnregisterFailed Some m (session_unregister session
         (Some (mkProfile (mkProfileId []) (mkPublicKey []) (Persona (mkPersonaFacet [] []))))))
  ∧ transparent Proto.PingFailed Some (client_ping (SessionDispatcher debug session) txt)
      (session_ping session txt).
Proof.
  intros Hfits Hown Hfits2 Hnew. split_and!.
  - pose proof (own_profile_trip own Hfits) as Ht. rewrite Hown in Ht.
    destruct Ht as (wire & Hwire & Hdec). unfold client_update. rewrite Hwire.
    eexists. split; [reflexivity|]. cbn [m_update SessionDispatcher]. unfold dispatch_update.
    cbn [pry]. rewrite Hdec. apply remote_session_call. eauto.
  - pose proof (profile_trip newhome Hfits2) as Ht. rewrite Hnew in Ht.
    destruct Ht as (wire & Hwire & Hdec). unfold client_unregister. rewrite Hwire.
    eexists. split; [reflexivity|]. cbn [m_unregister SessionDispatcher].
    unfold dispatch_unregister. cbn [mbind result_bind]. rewrite Hdec.
    apply remote_session_call. eauto.
  - eexists. split; [reflexivity|]. apply remote_session_call. eauto.
  - apply remote_session_call. eauto.
Qed.

End theorems.

(** ** Streams *)

Section streams.
Context {W : Type} {ENV : ChanEnv W} {received : SinkId → W → list ChanMsg} {open : W → Prop}.

(** The process's channels accept everything and keep what they got in order. *)
Context (send_received : ∀ s m w, open w → ∃ w',
  env_send s m w = (Ok tt, w') ∧ open w' ∧ received s w' = received s w ++ [m]).

Definition sent_item (item : Result string ProfileEvent) : ChanMsg := EventMsg (sent_event <$> item).

Lemma events_item_sends sink item w :
  open w → ∃ w', await (events_item sink item) w = (Ok tt, w') ∧ open w'
    ∧ received sink w' = received sink w ++ [sent_item item].
Proof.
  intros Ho. destruct (send_received sink (sent_item item) w Ho) as (w' & Hs & Ho' & Hr).
  exists w'. split; [|done]. unfold await, events_item, sent_item in *.
  destruct item as [ev|e]; simpl in *.
  - unfold event_receive. cbn [pry]. rewrite event_trip. simpl. by rewrite Hs.
  - unfold event_error. simpl. by rewrite Hs.
Qed.

(** The event stream of a session reaches the remote client complete and
    in order, pairing events and warnings as they were, and of an unknown event
    only the length of its data. *)
Theorem remote_events_in_order sink items w :
  open w → ∃ w', dispatch_events sink items w = (Ok tt, w')
    ∧ received sink w' = received sink w ++ (sent_item <$> items).
Proof.
  unfold dispatch_events. revert w; induction items as [|item items IH]; intros w Ho; simpl.
  { exists w. by rewrite app_nil_r. }
  destruct (events_item_sends sink item w Ho) as (w1 & Hi & Ho1 & Hr1).
  destruct (IH w1 Ho1) as (w2 & Hw2 & Hr2). exists w2. unfold and_then. rewrite Hi.
  unfold io_ret. split; [done|]. rewrite Hr2, Hr1. by rewrite <- app_assoc.
Qed.

End streams.

(** ** Witnesses: a process with a home that answers from a table *)

Section witnesses.

(** The channels of a process and the forwarding tasks it runs. *)
Record Process : Type := mkProcess
  { proc_chans : Sample.chans ChanMsg; proc_forwards : list (SinkId * AppListener) }.

#[local] Existing Instance Sample.channels.

#[local] Instance process_env : ChanEnv Process :=
  {| env_channel n p := let '(s, c) := mpsc_channel n (proc_chans p) in
                        (s, mkProcess c (proc_forwards p));
     env_send s m p := let '(r, c) := mpsc_send s m (proc_chans p) in
                       (r, mkProcess c (proc_forwards p));
     env_oneshot p := let '(o, c) := oneshot_channel (proc_chans p) in
                      (o, mkProcess c (proc_forwards p));
     env_oneshot_poll o p := oneshot_poll o (proc_chans p);
     env_spawn_forward s l p := mkProcess (proc_chans p) (proc_forwards p ++ [(s, l)]) |}.

Definition proof_of (x : u8) : RelationProof :=
  mkRelationProof "hosted_on_home" (mkProfileId [x]) (mkSignature []) (mkProfileId [x00]) (mkSignature []).

Definition sample_own (homes : list RelationProof) : OwnProfile :=
  mkOwnProfile (mkProfile (mkProfileId [x01]) (mkPublicKey [x01])
                  (Persona (mkPersonaFacet homes []))) [x09].

(** It registers a persona by adding a home to it, and logs in nobody. *)
Definition sample_home : Home Process unit :=
  mkHome (λ id, io_ret (future_ok (own_profile (sample_own []))))
    (λ id, io_ret (future_err (proto_from Proto.FailedToClaimProfile)))
    (λ own hp inv, io_ret (future_ok
       (match profile_facet (own_profile own) with
        | Persona f => sample_own (persona_homes f ++ [proof_of x02])
        | _ => own
        end)))
    (λ proof, io_ret (future_err (proto_from Proto.LoginFailed)))
    (λ hp, io_ret (future_ok tt)) (λ rp, io_ret (future_ok tt))
    (λ app req, io_ret (future_ok None)).

Definition sample_session : HomeSession Process :=
  mkHomeSession (λ own, io_ret (future_ok tt)) (λ p, io_ret (future_ok tt))
    (λ txt, io_ret (future_ok txt)).

Definition sample_process : Process := mkProcess Sample.chans_empty [].
Definition sample_half : RelationHalfProof :=
  mkHalfProof "hosted_on_home" (mkProfileId [x01]) (mkProfileId [x00]) (mkSignature []).

Lemma remote_home_transparent_witness :
  transparent Proto.FailedToLoadProfile sent_profile
    (client_load (connect (HomeDispatcher (λ _, "") (λ _, "") sample_home)) (mkProfileId [x01]))
    (home_load sample_home (mkProfileId [x01])).
Proof.
  apply (remote_home_transparent (λ _, "") (λ _, "") sample_home (mkProfileId [x01])
           (proof_of x01) sample_half (proof_of x01)).
  - intros w p [= <-]. reflexivity.
  - intros w p [=].
Defined.

(** The second home is lost on the way back. *)
Lemma remote_register_witness :
  ∃ m, client_register (connect (HomeDispatcher (λ _, "") (λ _, "") sample_home))
         (sample_own [proof_of x01]) sample_half None = Returns m
    ∧ ∃ res', (await m sample_process).1 = Ok res'
        ∧ profile_facet (own_profile res') = Persona (mkPersonaFacet [proof_of x01] []).
Proof.
  destruct (remote_register (λ _, "") (λ _, "") sample_home (sample_own [proof_of x01])
              (sample_own [proof_of x01]) sample_half None sample_process)
    as (m & H1 & _ & _ & H2).
  - reflexivity.
  - reflexivity.
  - intros w p [= <-]. reflexivity.
  - exists m. split; [exact H1|].
    apply (H2 (sample_own [proof_of x01; proof_of x02]) [] (proof_of x01) (proof_of x02) []);
      reflexivity.
Defined.

Lemma remote_session_transparent_witness :
  transparent Proto.PingFailed Some
    (client_ping (SessionDispatcher (λ _, "") sample_session) "hello")
    (session_ping sample_session "hello").
Proof.
  eapply (remote_session_transparent (λ _, "") sample_session (sample_own []) (sample_own [])
            (own_profile (sample_own [])) (own_profile (sample_own [])) "hello"); reflexivity.
Defined.

Lemma remote_events_in_order_witness :
  ∃ w', dispatch_events 0 [Ok (UnknownEvent [x01; x02]); Err "warning"] sample_process = (Ok tt, w')
    ∧ mpsc_received 0 (proc_chans w')
      = [EventMsg (Ok (UnknownEvent [x00; x00])); EventMsg (Err "warning")].
Proof.
  destruct (remote_events_in_order (ENV:=process_env)
              (received:=λ s p, mpsc_received s (proc_chans p))
              (open:=λ p, Sample.closed (proc_chans p) = ∅)) with
    (sink:=0) (items:=[Ok (UnknownEvent [x01; x02]); Err "warning"]) (w:=sample_process)
    as (w' & H1 & H2).
  - intros s m w Hw. eexists. split; [|split].
    + simpl. rewrite decide_False by (rewrite Hw; set_solver). reflexivity.
    + exact Hw.
    + simpl. unfold Sample.received. simpl. by rewrite lookup_insert_eq.
  - reflexivity.
  - exists w'. split; [exact H1|exact H2].
Defined.
End witnesses.

(** In [Capnp.v]: a persona without homes crosses the wire unchanged. *)
Lemma profile_wire_witness :
  ∃ wire, profile_fill_from (own_profile (sample_own [])) = Returns wire
          ∧ profile_try_from wire = Ok (own_profile (sample_own [])).
Proof.
  apply (profile_wire (own_profile (sample_own []))); [reflexivity|].
  exists []. split; [reflexivity|]. simpl. lia.
Defined.
