(* ===== verification/RpcStreams.v ===== *)
(** * Streams and calls through the remote home
    ([home-protocol/src/mercury_capnp/client_proxy.rs], [server_dispatcher.rs])

    The rest of [Rpc.v]: how a proxy subscribes to events and incoming calls,
    how the dispatcher of the home offers incoming calls to the listener of the
    proxy and answers them with what comes back, and how both ends are set up on
    a connection.  The RPC runtime is a parameter. *)

From S2P Require Import Prelude Errors External Protocol Handshake HomeServer Capnp Rpc.

Section streams.
Context {W : Type} {ENV : ChanEnv W}.

(** [format!("{}", e)] of an RPC error. *)
Context (show : CapnpError → string).

(** ** [HomeSessionClientCapnProto::events] and [checkin_app]

    The stream that is returned, and the future that is spawned: it sends an
    error into the stream when the request fails. *)

Definition or_send (text : string) (wrap : string → ChanMsg) (send : SinkId)
    (promise : Future W CapnpError unit) : Future W unit unit := λ w,
  match promise w with
  | (Ok _, w) => (Ok tt, w)
  | (Err e, w) =>
      let '(r, w) := env_send send (wrap (text +:+ show e)) w in (map_err (λ _, tt) r, w)
  end.

Definition client_events (m_events : SinkId → IO W (Future W CapnpError unit))
  : IO W (SinkId * Future W unit unit) := λ w,
  let '(send, w) := env_channel 1 w in
  let '(promise, w) := m_events send w in
  ((send, or_send "Events delegation failed: " (λ e, EventMsg (Err e)) send promise), w).

Definition client_checkin_app (app : ApplicationId)
    (m_checkin_app : string → SinkId → IO W (Future W CapnpError unit))
  : IO W (SinkId * Future W unit unit) := λ w,
  let '(send, w) := env_channel 1 w in
  let '(promise, w) := m_checkin_app (app_str app) send w in
  ((send, or_send "Call delegation failed: " (λ e, CallMsg (Err e)) send promise), w).

(** [CallDispatcherCapnProto::error]. *)
Definition call_error (sender : SinkId) (error : Field string) : IO W (Future W CapnpError unit) :=
  pry error (λ error, io_ret (λ w,
    let '(r, w) := env_send sender (CallMsg (Err error)) w in
    (map_err (λ e, failed ("Failed to dispatch call error: " +:+ e)) r, w))).

(** ** [IncomingCallCapnProto]: a call with the sending half of its answer *)

Context (env_oneshot_send : OneshotId → option SinkId → W → W).

Definition IncomingCall_new (request : CallRequestDetails) (sender : OneshotId) : Call :=
  Call_new request sender.
Definition request_details (c : Call) : CallRequestDetails := call_request c.
Definition IncomingCall_answer (c : Call) (to_callee : option SinkId) : IO W CallRequestDetails := λ w,
  (call_request c, env_oneshot_send (call_sender c) to_callee w).

(** ** [HomeSessionDispatcherCapnProto::checkin_app]

    The listener of the client as the dispatcher calls it, and the [answer]
    method of the calls of the home. *)

Context (listener_receive : WCallRequest → IO W (Future W CapnpError (Field AppListener)))
        (listener_error : string → IO W (Future W CapnpError unit))
        (answer : Call → option SinkId → IO W CallRequestDetails).

Definition offer_call (incoming_call : Call) : IO W (Future W CapnpError unit) := λ w,
  let '(promise, w) := listener_receive (checkin_item (request_details incoming_call)) w in
  (and_then promise (λ resp w,
     let '(answered, w) := checkin_answer resp w in
     let '(_, w) := answer incoming_call answered w in
     (future_ok tt, w)), w).

Definition calls_item (item : Result string Call) : IO W (Future W CapnpError unit) :=
  match item with
  | Ok incoming_call => offer_call incoming_call
  | Err err => listener_error err
  end.

(** The loop over the calls the session has yielded. *)
Definition dispatch_calls (items : list (Result string Call)) : Future W CapnpError unit :=
  for_each calls_item items.

(** The method: checking in with the session, then the loop; [next_items] is what
    its stream yields while the rest of the world goes on. *)
Definition dispatch_checkin_app (session_checkin_app : ApplicationId → IO W SinkId)
    (next_items : SinkId → IO W (list (Result string Call))) (app : Field string)
  : IO W (Future W CapnpError unit) :=
  pry app (λ app_id w,
    let '(calls, w) := session_checkin_app (mkApplicationId app_id) w in
    (λ w, let '(items, w) := next_items calls w in dispatch_calls items w, w)).

(** ** Setting up the ends of a connection

    [serve_rpc] and [bootstrap] are the RPC system of either side, spawned on
    the reactor. *)

Definition HomeDispatcher_dispatch {Sess} (serve_rpc : HomeMethods Panicking → bytes → Writer → W → W)
    (debug : ProtoError → string) (debug_reg : OwnProfile * ProtoError → string) (home : Home W Sess)
    (reader : bytes) (writer : Writer) : W → W :=
  serve_rpc (HomeDispatcher debug debug_reg home) reader writer.

(** [dispatch_tcp] and [new_tcp] unwrap the result of [set_nodelay]. *)
Definition HomeDispatcher_dispatch_tcp {Sess} (serve_rpc : HomeMethods Panicking → bytes → Writer → W → W)
    debug debug_reg (home : Home W Sess) (set_nodelay : Result string unit) (reader : bytes)
    (writer : Writer) : Panicking (W → W) :=
  match set_nodelay with
  | Ok _ => Returns (HomeDispatcher_dispatch serve_rpc debug debug_reg home reader writer)
  | Err _ => Panics
  end.

Definition HomeClient_new {Stub} (bootstrap : bytes → Writer → IO W Stub) (reader : bytes)
    (writer : Writer) : IO W Stub := bootstrap reader writer.
Definition HomeClient_new_tcp {Stub} (bootstrap : bytes → Writer → IO W Stub)
    (set_nodelay : Result string unit) (reader : bytes) (writer : Writer) : Panicking (IO W Stub) :=
  match set_nodelay with
  | Ok _ => Returns (HomeClient_new bootstrap reader writer)
  | Err _ => Panics
  end.

(** ** Theorems *)

(** What the home answers a call with when the listener has responded. *)
Definition answered_with (resp : Field AppListener) (w : W) : option SinkId := (checkin_answer resp w).1.

(** C26: calls are offered to the application one at a time, in order: a call is
    answered with what the listener responds to it, a channel towards the callee
    if it accepts, before the next one is offered.  When the listener fails on a
    call, as it does when the application drops the call, that call stays
    unanswered and the whole loop ends: none of the later calls is offered. *)
Theorem calls_offered_in_order before incoming_call after w w1 :
  dispatch_calls before w = (Ok tt, w1) →
  let '(promise, w2) := listener_receive (checkin_item (call_request incoming_call)) w1 in
  match promise w2 with
  | (Ok resp, w3) =>
      dispatch_calls (before ++ Ok incoming_call :: after) w
      = dispatch_calls after
          (answer incoming_call (answered_with resp w3) (checkin_answer resp w3).2).2
      ∧ (answered_with resp w3 = None ↔ is_err resp = true)
  | (Err e, w3) => dispatch_calls (before ++ Ok incoming_call :: after) w = (Err e, w3)
  end.
Proof.
  intros Hb. unfold dispatch_calls in *.
  assert (∀ ys, for_each calls_item (before ++ ys) w = for_each calls_item ys w1) as Happ.
  { intros ys. by rewrite for_each_app, Hb. }
  rewrite Happ. cbn [for_each].
  assert (∀ k : unit → IO W (Future W CapnpError unit),
    and_then (await (calls_item (Ok incoming_call))) k w1
    = let '(promise, w2) := listener_receive (checkin_item (call_request incoming_call)) w1 in
      match promise w2 with
      | (Ok resp, w3) =>
          let '(g, w4) := k tt (answer incoming_call (answered_with resp w3)
                                  (checkin_answer resp w3).2).2 in g w4
      | (Err e, w3) => (Err e, w3)
      end) as Hstep.
  { intros k. unfold and_then at 1, await. cbn [calls_item]. unfold offer_call, request_details.
    destruct (listener_receive _ w1) as [promise w2]. unfold and_then, answered_with.
    destruct (promise w2) as [[resp|e] w3]; [|done].
    destruct (checkin_answer resp w3) as [a w4]. cbn [fst snd].
    by destruct (answer incoming_call a w4). }
  rewrite Hstep. destruct (listener_receive _ w1) as [promise w2].
  destruct (promise w2) as [[resp|e] w3]; [|done]. split; [done|].
  unfold answered_with, checkin_answer. destruct resp as [l|e]; [|done].
  by destruct (fwd_appmsg l w3).
Qed.

End streams.
