(* ===== verification/Process.v ===== *)
(** * A process with a home node and the proxies of its clients

    The home node of [HomeServer.v], the dispatchers and proxies of [Rpc.v] and
    [RpcStreams.v], and everything they spawn, on one reactor: what the tests of
    the repository run in their second mode, where client and home talk over
    sockets in memory.  The loops that carry messages between the two ends are
    tasks that the reactor polls in any order; [poll_task] is one such poll.
    Timers do not fire. *)

From S2P Require Import Prelude Errors External Storage Protocol HomeServer Capnp Rpc RpcStreams Reactor.

(** A spawned loop with the position it has reached in its stream:
    [fwd_appmsg], the loop of the dispatcher's [events], and that of its
    [checkin_app] before and while a call waits for the callee. *)
Inductive Loop : Set :=
| FwdFrames (stream : SinkId) (pos : nat) (to_callee : AppListener)
| FwdEvents (stream : SinkId) (pos : nat) (callback : SinkId)
| OfferCalls (stream : SinkId) (pos : nat) (listener : SinkId)
| AwaitCallee (stream : SinkId) (pos : nat) (listener : SinkId) (incoming_call : Call) (one : OneshotId)
| Ended.

Record HomeProcess (Dht Db Chans : Type) : Type := mkHomeProcess
  { node : HomeServer Dht Db Chans; loops : list Loop }.
Arguments mkHomeProcess {Dht Db Chans}.
Arguments node {Dht Db Chans}. Arguments loops {Dht Db Chans}.

(** What the reactor can poll. *)
Inductive Choice : Set := PollLoop (i : nat) | PollSpawned (i : nat).

Section process.
Context {BC : Bincode} {Dht Db Chans : Type}
        {DHT : KeyValueStore Dht ProfileId Profile}
        {DB : KeyValueStore Db ProfileId OwnProfile}
        {CH : Channels ChanMsg Chans}.
Abbreviation P := (HomeProcess Dht Db Chans).
Abbreviation W := (HomeServer Dht Db Chans).

Definition set_node (w : W) (p : P) : P := mkHomeProcess w (loops p).
Definition set_loops (ls : list Loop) (p : P) : P := mkHomeProcess (node p) ls.
Definition add_loop (l : Loop) (p : P) : P := set_loops (loops p ++ [l]) p.

(** Code of the home node. *)
Definition at_node {A} (m : IO W A) : IO P A := λ p,
  let '(a, w) := m (node p) in (a, set_node w p).
Definition at_node_fut {E A} (m : IO W (Future W E A)) : IO P (Future P E A) := λ p,
  let '(fut, w) := m (node p) in (at_node fut, set_node w p).

(** Code that uses the channels. *)
Definition with_chans {A} (f : Chans → A * Chans) : IO P A := λ p,
  let '(a, c) := f (chans (node p)) in (a, set_node (set_chans c (node p)) p).

#[export] Instance process_env : ChanEnv P :=
  {| env_channel n := with_chans (mpsc_channel n);
     env_send s m := with_chans (mpsc_send s m);
     env_oneshot := with_chans oneshot_channel;
     env_oneshot_poll o p := oneshot_poll o (chans (node p));
     env_spawn_forward s l := add_loop (FwdFrames s 0 l) |}.

(** ** The objects of the home, as the dispatchers call them *)

(** A call that has not been answered when it is polled times out; the calls of
    this file are polled when they are answered, in [poll_call]. *)
Definition server_call (conn : HomeConnectionServer) (app : ApplicationId) (req : CallRequestDetails)
  : IO P (Future P ProtoError OneshotId) := at_node_fut (call conn app req (Ok tt)).
Definition finish_call (chan : OneshotId) (timer : TimerState) : Future P ProtoError (option SinkId) :=
  λ p, (default (Ok None) (poll_answer chan timer (node p)), p).

Definition server_home (conn : HomeConnectionServer) : Home P SessionId :=
  mkHome (λ id, at_node_fut (load conn id)) (λ id, at_node_fut (claim conn id))
    (λ own hp inv, at_node_fut (register conn own hp inv)) (λ proof, at_node_fut (login conn proof))
    (λ hp, at_node_fut (pair_request conn hp)) (λ rp, at_node_fut (pair_response conn rp))
    (λ app req p, let '(fut, p) := server_call conn app req p in
       (and_then fut (λ chan, io_ret (finish_call chan TimerFired)), p)).

Definition server_session (ctx : PeerContext) : HomeSession P :=
  mkHomeSession (λ own, at_node_fut (update ctx own)) (λ p, at_node_fut (unregister ctx p))
    (λ txt, at_node_fut (ping txt)).

(** ** The client's end *)

Context (debug : ProtoError → string) (debug_reg : OwnProfile * ProtoError → string)
        (show : CapnpError → string).

(** The stub of a client whose connection the home serves as [conn]. *)
Definition stub (conn : HomeConnectionServer) : HomeStub (W:=P) (Sess:=SessionId) :=
  connect (HomeDispatcher debug debug_reg (server_home conn)).
Definition session_stub (ctx : PeerContext) : SessionMethods (W:=P) :=
  SessionDispatcher debug (server_session ctx).

(** [HomeClientCapnProto::call] in two parts: until the callee's session has the
    call, and the rest, which is ready when the call is. *)
Definition start_call (conn : HomeConnectionServer) (app : ApplicationId) (req : CallRequestDetails)
  : IO P (Future P ProtoError OneshotId) := λ p,
  let '(fut, p) := dispatch_call_with debug (λ chan, chan) (server_call conn) (call_params app req) p in
  (future_map_err (proto_context Proto.CallFailed) fut, p).

(** What the client makes of the outcome of a call at the home. *)
Definition call_outcome (r : Result ProtoError (option SinkId)) : Future P ProtoError (option SinkId) :=
  match r with
  | Ok to_callee => λ p, let '(to_callee, p) := checkin_answer (callee_listener to_callee) p in
                         (Ok to_callee, p)
  | Err e => future_err (proto_context Proto.CallFailed (failed ("Failed to call profile: " +:+ debug e)))
  end.

Definition poll_call (chan : OneshotId) (timer : TimerState) (p : P)
  : option (Result ProtoError (option SinkId) * P) :=
  (λ r, call_outcome r p) <$> poll_answer chan timer (node p).

(** [HomeSessionClientCapnProto::events] and [checkin_app] with the methods of
    the dispatcher they call: the promise of the call is the loop. *)
Definition remote_events (sid : SessionId) : IO P SinkId := λ p,
  let '(send, p) := env_channel 1 p in
  let '(events, p) := at_node (events sid) p in
  (send, match events with Some events => add_loop (FwdEvents events 0 send) p | None => p end).

Definition remote_checkin_app (sid : SessionId) (app : ApplicationId) : IO P SinkId := λ p,
  let '(send, p) := env_channel 1 p in
  let '(calls, p) := at_node (checkin_app sid (mkApplicationId (app_str app))) p in
  (send, match calls with Some calls => add_loop (OfferCalls calls 0 send) p | None => p end).

(** [IncomingCallCapnProto::answer]. *)
Definition remote_answer : Call → option SinkId → IO P CallRequestDetails :=
  IncomingCall_answer (λ o v p, (with_chans (oneshot_send o v) p).2).

(** ** The loops *)

Definition received (s : SinkId) (p : P) : list ChanMsg := mpsc_received s (chans (node p)).

(** A loop whose body failed rejects the promise of the client, which puts the
    error into its own stream. *)
Definition loop_failed (text : string) (wrap : string → ChanMsg) (send : SinkId) (e : CapnpError) (p : P)
  : Loop * P := (Ended, (or_send show text wrap send (future_err e) p).2).
Definition events_failed := loop_failed "Events delegation failed: " (λ e, EventMsg (Err e)).
Definition calls_failed := loop_failed "Call delegation failed: " (λ e, CallMsg (Err e)).

Definition loop_step (l : Loop) (p : P) : option (Loop * P) :=
  match l with
  | FwdFrames stream pos to_callee =>
      match received stream p !! pos with
      | Some (FrameMsg message) =>
          let '(r, p) := await (fwd_message to_callee message) p in
          Some (match r with Ok _ => FwdFrames stream (S pos) to_callee | Err _ => Ended end, p)
      | _ => None
      end
  | FwdEvents stream pos callback =>
      match received stream p !! pos with
      | Some (EventMsg item) =>
          let '(r, p) := await (events_item callback item) p in
          Some match r with
               | Ok _ => (FwdEvents stream (S pos) callback, p)
               | Err e => events_failed callback e p
               end
      | _ => None
      end
  | OfferCalls stream pos listener =>
      match received stream p !! pos with
      | Some (CallMsg (Ok incoming_call)) =>
          let '(r, p) := await (call_receive listener (Ok tt)
                                  (Ok (checkin_item (request_details incoming_call)))) p in
          Some match r with
               | Ok one => (AwaitCallee stream pos listener incoming_call one, p)
               | Err e => calls_failed listener e p
               end
      | Some (CallMsg (Err err)) =>
          let '(r, p) := await (call_error listener (Ok err)) p in
          Some match r with
               | Ok _ => (OfferCalls stream (S pos) listener, p)
               | Err e => calls_failed listener e p
               end
      | _ => None
      end
  | AwaitCallee stream pos listener incoming_call one =>
      match call_poll_answer one TimerRunning p with
      | Some (Ok resp) =>
          let '(answered, p) := checkin_answer resp p in
          let '(_, p) := at_node (answer incoming_call answered) p in
          Some (OfferCalls stream (S pos) listener, p)
      | Some (Err e) => Some (calls_failed listener e p)
      | None => None
      end
  | Ended => None
  end.

Definition set_loop (i : nat) (l : Loop) (p : P) : P := set_loops (<[i := l]> (loops p)) p.

(** Taking a task off the list and doing one send of it. *)
Definition poll_spawned (i : nat) (w : W) : option W :=
  t ← spawned w !! i;
  let '(rest, w) := run_task t (set_spawned (delete i (spawned w)) w) in
  Some match rest with Some t => spawn t w | None => w end.

Definition poll_task (c : Choice) (p : P) : option P :=
  match c with
  | PollLoop i => l ← loops p !! i; '(l, p) ← loop_step l p; Some (set_loop i l p)
  | PollSpawned i => w ← poll_spawned i (node p); Some (set_node w p)
  end.

End process.
