(* ===== verification/ProcessProps.v ===== *)
(** * What the loops of a process deliver

    A process is wired when its loops carry messages along chains: no two loops
    write to the same channel, and what a loop writes to is read at most by a
    loop that was there before it.  Polled in any order, the loops of a wired
    process come to rest, and then everything has arrived where it was sent to. *)

From S2P Require Import Prelude Errors External Storage Protocol HomeServer Capnp Rpc RpcStreams.
From S2P Require Import Reactor Process.
From stdpp Require Import relations.

Definition loop_source (l : Loop) : option SinkId :=
  match l with
  | FwdFrames s _ _ | FwdEvents s _ _ | OfferCalls s _ _ | AwaitCallee s _ _ _ _ => Some s
  | Ended => None
  end.
Definition loop_target (l : Loop) : option SinkId :=
  match l with
  | FwdFrames _ _ t => Some (listener_sink t)
  | FwdEvents _ _ t | OfferCalls _ _ t | AwaitCallee _ _ t _ _ => Some t
  | Ended => None
  end.
Inductive Kind : Set := Frames | Events | Calls | Over.
Definition kind (l : Loop) : Kind :=
  match l with
  | FwdFrames _ _ _ => Frames
  | FwdEvents _ _ _ => Events
  | OfferCalls _ _ _ | AwaitCallee _ _ _ _ _ => Calls
  | Ended => Over
  end.

(** What does not change while a loop runs. *)
Definition shape (l : Loop) : Kind * option SinkId * option SinkId :=
  (kind l, loop_source l, loop_target l).

(** What comes out of a loop for what goes in. *)
Definition carried_by (k : Kind) (msg : ChanMsg) : ChanMsg :=
  match k, msg with
  | Events, EventMsg item => sent_item item
  | _, _ => msg
  end.
Definition carried (l : Loop) : ChanMsg → ChanMsg := carried_by (kind l).
Definition accepts_msg (l : Loop) (msg : ChanMsg) : Prop :=
  match l, msg with
  | FwdFrames _ _ _, FrameMsg _ | FwdEvents _ _ _, EventMsg _ => True
  | _, _ => False
  end.

(** Every channel is read by one loop, written by one loop, and of two loops
    through which frames pass one after the other, the second is the older one. *)
Definition chained (shapes : list (Kind * option SinkId * option SinkId)) : Prop :=
  ∀ i j f s t f' s' t' c, shapes !! i = Some (f, s, t) → shapes !! j = Some (f', s', t') →
    (s = Some c → s' = Some c → i = j) ∧ (t = Some c → t' = Some c → i = j)
    ∧ (s = Some c → t' = Some c → i < j ∧ f = Frames ∧ f' = Frames).

Definition idle_task (t : Task) : Prop := ∃ sink, t = SendAll sink [].

Section wired.
Context {BC : Bincode} {Dht Db Chans : Type}
        {DHT : KeyValueStore Dht ProfileId Profile}
        {DB : KeyValueStore Db ProfileId OwnProfile}
        {CH : Channels ChanMsg Chans} {CHL : ChannelsLaws ChanMsg Chans}
        {open : SinkId → Chans → Prop} {KO : KeepsOpen (Msg:=ChanMsg) open}
        {live : OneshotId → Chans → Prop} {KL : KeepsLive (Msg:=ChanMsg) live}.
Context (show : CapnpError → string).
Abbreviation P := (HomeProcess Dht Db Chans).
Abbreviation W := (HomeServer Dht Db Chans).
Abbreviation step := (task_step (poll_task (Dht:=Dht) (Db:=Db) show)).
Implicit Types (p : P) (l : Loop).

(** A forwarding loop has delivered what it has passed; a loop over calls has
    nothing to do. *)
Definition loop_ok p l : Prop :=
  match l with
  | FwdFrames s n _ | FwdEvents s n _ =>
      n ≤ length (received s p) ∧ Forall (accepts_msg l) (received s p)
      ∧ ∀ t, loop_target l = Some t → received t p = carried l <$> take n (received s p)
  | OfferCalls s n _ => n = length (received s p)
  | AwaitCallee _ _ _ _ one =>
      live one (chans (node p)) ∧ oneshot_poll one (chans (node p)) = NotReady
  | Ended => True
  end.

Definition loop_open p l : Prop :=
  ∀ s, loop_source l = Some s ∨ loop_target l = Some s → open s (chans (node p)).

(** With the exception of one loop, perhaps, which is in the middle of a call. *)
Record wired_but (b : option nat) p : Prop := mkWired
  { wb_ok i l : loops p !! i = Some l → b ≠ Some i → loop_ok p l;
    wb_open i l : loops p !! i = Some l → loop_open p l;
    wb_chained : chained (shape <$> loops p);
    wb_spawned : Forall idle_task (spawned (node p)) }.
Definition wired p : Prop := wired_but None p.

Lemma wired_ok p : wired p → ∀ i l, loops p !! i = Some l → loop_ok p l.
Proof. intros H i l Hi. by apply (wb_ok _ _ H i). Qed.
Lemma wired_open p : wired p → ∀ i l, loops p !! i = Some l → loop_open p l.
Proof. apply wb_open. Qed.
Lemma wired_chained p : wired p → chained (shape <$> loops p).
Proof. apply wb_chained. Qed.
Lemma wired_spawned p : wired p → Forall idle_task (spawned (node p)).
Proof. apply wb_spawned. Qed.

(** How far a loop is behind. *)
Definition pending p l : nat :=
  match l with
  | FwdFrames s n _ | FwdEvents s n _ => length (received s p) - n
  | _ => 0
  end.

(** A message counts once for every channel it may still pass. *)
Fixpoint weigh p (i : nat) (ls : list Loop) : nat :=
  match ls with [] => 0 | l :: ls => pending p l * S i + weigh p (S i) ls end.
Definition measure p : nat := length (spawned (node p)) + weigh p 0 (loops p).

Definition drained p : Prop :=
  spawned (node p) = [] ∧ ∀ i l, loops p !! i = Some l → pending p l = 0.

(** ** One step of a loop *)

Lemma pending_accepts p s n (l : Loop) :
  n ≤ length (received s p) → Forall (accepts_msg l) (received s p) →
  length (received s p) - n = 0 ∧ received s p !! n = None
  ∨ ∃ msg, received s p !! n = Some msg ∧ accepts_msg l msg.
Proof.
  intros Hn Ha. destruct (received s p !! n) as [msg|] eqn:Hm.
  - right. exists msg. split; [done|]. by eapply Forall_lookup_1.
  - left. apply lookup_ge_None in Hm. split; [lia|done].
Qed.

(** What a loop does when it is behind: it sends one message on. *)
Definition advances p l l' p' : Prop :=
  ∃ s t msg c, loop_source l = Some s ∧ loop_target l = Some t
    ∧ received s p !! (length (received s p) - pending p l) = Some msg ∧ accepts_msg l msg
    ∧ mpsc_send t (carried l msg) (chans (node p)) = (Ok tt, c)
    ∧ p' = set_node (set_chans c (node p)) p
    ∧ shape l' = shape l ∧ carried l' = carried l ∧ accepts_msg l' = accepts_msg l
    ∧ match l with
      | FwdFrames _ n _ => l' = FwdFrames s (S n) (mkAppListener t)
      | FwdEvents _ n _ => l' = FwdEvents s (S n) t
      | _ => False
      end.

Lemma send_open t msg p :
  open t (chans (node p)) →
  ∃ c, mpsc_send t msg (chans (node p)) = (Ok tt, c) ∧ env_send t msg p
       = (Ok tt, set_node (set_chans c (node p)) p).
Proof.
  intros Ho. pose proof (keep_send (open:=open) t msg _ Ho) as Hok. simpl. unfold with_chans.
  destruct (mpsc_send t msg (chans (node p))) as [r c]. simpl in Hok. subst r. by exists c.
Qed.

Lemma loop_step_ok p l :
  loop_ok p l → loop_open p l →
  (pending p l = 0 ∧ loop_step show l p = None)
  ∨ (pending p l ≠ 0 ∧ ∃ l' p', loop_step show l p = Some (l', p') ∧ advances p l l' p').
Proof.
  intros Hok Hop. destruct l as [s n [t]|s n t|s n t|s n t c one|]; simpl in *.
  - destruct Hok as (Hn & Ha & _). destruct (pending_accepts p s n _ Hn Ha) as [[-> ->]|(msg & Hm & Hacc)];
      [by left|right]. pose proof (lookup_lt_Some _ _ _ Hm). split; [lia|].
    rewrite Hm. destruct msg as [| |r]; try done.
    destruct (send_open t (FrameMsg r) p) as (c & Hs & He); [apply Hop; by right|].
    assert (await (fwd_message (mkAppListener t) r) p = (Ok tt, set_node (set_chans c (node p)) p)) as ->.
    { destruct r as [[b]|e]; unfold await, fwd_message, app_receive, app_error; cbn [pry io_ret listener_sink frame_bytes];
        unfold io_ret; cbv beta iota; rewrite He; done. }
    eexists _, _. split; [done|]. exists s, t, (FrameMsg r), c. simpl.
    replace (length (received s p) - (length (received s p) - n)) with n by lia. done.
  - destruct Hok as (Hn & Ha & _). destruct (pending_accepts p s n _ Hn Ha) as [[-> ->]|(msg & Hm & Hacc)];
      [by left|right]. pose proof (lookup_lt_Some _ _ _ Hm). split; [lia|].
    rewrite Hm. destruct msg as [item| |]; try done.
    destruct (send_open t (sent_item item) p) as (c & Hs & He); [apply Hop; by right|].
    assert (await (events_item t item) p = (Ok tt, set_node (set_chans c (node p)) p)) as ->.
    { unfold await, events_item, sent_item in *. destruct item as [ev|e]; simpl in *.
      - unfold event_receive. cbn [pry]. rewrite event_trip. cbn [pry]. unfold io_ret. simpl in *. by rewrite He.
      - unfold event_error. cbn [pry]. unfold io_ret. simpl in *. by rewrite He. }
    eexists _, _. split; [done|]. exists s, t, (EventMsg item), c. simpl.
    replace (length (received s p) - (length (received s p) - n)) with n by lia. done.
  - left. split; [done|]. rewrite Hok. by rewrite (proj2 (lookup_ge_None _ _) (le_n _)).
  - left. split; [done|]. unfold call_poll_answer. simpl. by rewrite (proj2 Hok).
  - by left.
Qed.

(** ** The measure *)

(** The share of the [j]-th entry in a weight. *)
Definition share (o : option nat) (i len : nat) : nat :=
  match o with Some j => if decide (j < len) then S (i + j) else 0 | None => 0 end.
Definition shift (o : option nat) : option nat :=
  match o with Some (S j) => Some j | _ => None end.
Definition here (o : option nat) : nat := match o with Some 0 => 1 | _ => 0 end.

Lemma share_cons o i len : share o i (S len) = here o * S i + share (shift o) (S i) len.
Proof. destruct o as [[|j]|]; simpl; repeat case_decide; lia. Qed.

(** The [less]-th loop is one message less behind, the [more]-th one more. *)
Lemma weigh_moved p p' ls ls' less more i :
  length ls' = length ls →
  (∀ k l l', ls !! k = Some l → ls' !! k = Some l' →
     pending p' l' + (if decide (less = Some k) then 1 else 0)
     ≤ pending p l + (if decide (more = Some k) then 1 else 0)) →
  weigh p' i ls' + share less i (length ls) ≤ weigh p i ls + share more i (length ls).
Proof.
  revert ls' less more i; induction ls as [|l ls IH]; intros [|l' ls'] less more i Hlen Hk; try done.
  { simpl. destruct less, more; simpl; repeat case_decide; lia. }
  simpl length. rewrite !share_cons. simpl. simpl in Hlen.
  specialize (IH ls' (shift less) (shift more) (S i) ltac:(lia)).
  assert (pending p' l' + here less ≤ pending p l + here more) as H0.
  { specialize (Hk 0 l l' eq_refl eq_refl). destruct less as [[|?]|], more as [[|?]|]; simpl;
      repeat case_decide; simplify_eq; lia. }
  assert (weigh p' (S i) ls' + share (shift less) (S i) (length ls)
          ≤ weigh p (S i) ls + share (shift more) (S i) (length ls)) as H1.
  { apply IH. intros k k1 k2 H1 H2. specialize (Hk (S k) k1 k2 H1 H2).
    destruct less as [[|?]|], more as [[|?]|]; simpl; repeat case_decide; simplify_eq; lia. }
  nia.
Qed.

(** ** What polling tasks changes *)

Definition is_target p (s : SinkId) : Prop := ∃ i l, loops p !! i = Some l ∧ loop_target l = Some s.

(** Only what has been sent, and how far the loops are. *)
Record progress p p' : Prop := mkProgress
  { pg_spawned : spawned (node p) = [] → spawned (node p') = [];
    pg_calls i l : loops p !! i = Some l → kind l = Calls →
      loops p' !! i = Some l ∧ ∀ t, loop_target l = Some t → received t p' = received t p;
    pg_node : ∃ ts c, node p' = set_spawned ts (set_chans c (node p));
    pg_shape : shape <$> loops p' = shape <$> loops p;
    pg_open s : open s (chans (node p)) → open s (chans (node p'));
    pg_live o : live o (chans (node p)) → live o (chans (node p'));
    pg_poll o : oneshot_poll o (chans (node p')) = oneshot_poll o (chans (node p));
    pg_received s : ¬ is_target p s → received s p' = received s p }.

Lemma progress_refl p : progress p p.
Proof. split; try done. exists (spawned (node p)), (chans (node p)). by destruct p as [[] ?]. Qed.

Lemma shape_lookup p i l : loops p !! i = Some l → (shape <$> loops p) !! i = Some (shape l).
Proof. intros H. by rewrite list_lookup_fmap, H. Qed.

Lemma is_target_shape p p' s : shape <$> loops p' = shape <$> loops p → is_target p' s → is_target p s.
Proof.
  intros Hs (i & l & Hl & Ht). apply shape_lookup in Hl. rewrite Hs, list_lookup_fmap in Hl.
  destruct (loops p !! i) as [l0|] eqn:E; [|done]. exists i, l0. split; [done|].
  injection Hl as Hl. unfold shape in Hl. congruence.
Qed.

Lemma progress_trans p1 p2 p3 : progress p1 p2 → progress p2 p3 → progress p1 p3.
Proof.
  intros [Z1 K1 (ts1 & c1 & H1) S1 O1 L1 Q1 R1] [Z2 K2 (ts2 & c2 & H2) S2 O2 L2 Q2 R2]. split; try auto.
  - intros i l Hi Hk. destruct (K1 i l Hi Hk) as [Hi' Hr1]. destruct (K2 i l Hi' Hk) as [Hi'' Hr2].
    split; [done|]. intros t Ht. by rewrite Hr2, Hr1.
  - exists ts2, c2. by rewrite H2, H1.
  - by rewrite S2.
  - intros o. by rewrite Q2.
  - intros s Hs. rewrite R2; [by apply R1|]. intros Ht. apply Hs. by eapply is_target_shape.
Qed.

(** Sending on a channel, as a step of the process. *)
Lemma send_progress p t msg c ls :
  mpsc_send t msg (chans (node p)) = (Ok tt, c) → is_target p t →
  shape <$> ls = shape <$> loops p →
  (∀ i l, loops p !! i = Some l → kind l = Calls → ls !! i = Some l ∧ loop_target l ≠ Some t) →
  progress p (set_loops ls (set_node (set_chans c (node p)) p)).
Proof.
  intros Hs Ht Hsh Hcalls. split; simpl; try done.
  - intros i l Hi Hk. destruct (Hcalls i l Hi Hk) as [Hi' Hne]. split; [done|]. intros t' Ht'.
    unfold received. simpl. apply (mpsc_send_ok _ _ _ _ Hs). congruence.
  - exists (spawned (node p)), c. by destruct p as [[] ?].
  - intros s Hs'. pose proof (keep_after_send (open:=open) s t msg _ Hs') as H. by rewrite Hs in H.
  - intros o Ho. pose proof (live_after_send (live:=live) o t msg _ Ho) as H. by rewrite Hs in H.
  - intros o. pose proof (mpsc_send_oneshot t msg (chans (node p)) o) as H. by rewrite Hs in H.
  - intros s Hs'. unfold received. simpl. apply (mpsc_send_ok _ _ _ _ Hs). by intros ->.
Qed.

Lemma loop_open_keeps p p' l :
  loop_open p l → (∀ s, open s (chans (node p)) → open s (chans (node p'))) → loop_open p' l.
Proof. intros Hl Ho s Hs. by apply Ho, Hl. Qed.

(** Other loops, when a message arrives at [t]. *)
Lemma loop_ok_keeps p p' l t (msgs : list ChanMsg) :
  loop_ok p l → (∀ s, s ≠ t → received s p' = received s p) →
  received t p' = received t p ++ msgs →
  (∀ o, live o (chans (node p)) → live o (chans (node p'))
        ∧ oneshot_poll o (chans (node p')) = oneshot_poll o (chans (node p))) →
  loop_target l ≠ Some t →
  (loop_source l = Some t → Forall (accepts_msg l) msgs) →
  loop_ok p' l.
Proof.
  intros Hok Hother Ht Hpoll Htgt Hsrc.
  assert (∀ s n, loop_source l = Some s → is_Some (loop_target l) → 
    (∃ more, received s p' = received s p ++ more ∧ Forall (accepts_msg l) more)
    ∧ (n ≤ length (received s p) → take n (received s p') = take n (received s p))) as Hsource.
  { intros s n Hs _. destruct (decide (s = t)) as [->|Hne].
    - rewrite Ht. split; [eauto|]. intros. by rewrite take_app_le.
    - rewrite Hother by done. split; [|done]. exists []. by rewrite app_nil_r. }
  destruct l as [s n [u]|s n u|s n u|s n u c one|]; simpl in *.
  - destruct Hok as (Hn & Ha & Hr). destruct (Hsource s n eq_refl) as [(more & Hm & Hf) Htk]; [done|].
    rewrite Hm at 1 2. rewrite length_app. split; [lia|]. split; [by apply Forall_app|].
    intros v [= <-]. rewrite Htk by done. rewrite Hother by congruence. by apply Hr.
  - destruct Hok as (Hn & Ha & Hr). destruct (Hsource s n eq_refl) as [(more & Hm & Hf) Htk]; [done|].
    rewrite Hm at 1 2. rewrite length_app. split; [lia|]. split; [by apply Forall_app|].
    intros v [= <-]. rewrite Htk by done. rewrite Hother by congruence. by apply Hr.
  - destruct (Hsource s n eq_refl) as [(more & Hm & Hf) _]; [done|]. subst n. rewrite Hm, length_app.
    destruct more as [|m more]; [simpl; lia|]. by inversion Hf.
  - destruct Hok as [Hl Hnr]. destruct (Hpoll _ Hl) as [? ->]. done.
  - done.
Qed.

(** The loop that has moved. *)
Lemma advanced_ok p l l' p' :
  loop_ok p l → advances p l l' p' → loop_source l ≠ loop_target l →
  loop_ok p' l' ∧ pending p l = S (pending p' l').
Proof.
  intros Hok (s & t & msg & c & Hs & Ht & Hm & Hacc & Hsend & -> & _ & _ & _ & Hl') Hne.
  apply mpsc_send_ok in Hsend as [Hrt Hrs].
  assert (received s (set_node (set_chans c (node p)) p) = received s p) as Hsame.
  { apply Hrs. intros ->. by rewrite Hs, Ht in Hne. }
  assert (received t (set_node (set_chans c (node p)) p) = received t p ++ [carried l msg]) as Htgt by done.
  set (p' := set_node _ p) in *.
  destruct l as [s0 n [u]|s0 n u|s0 n u|s0 n u c0 one|]; try done; simpl in Hs, Ht; simplify_eq.
  all: destruct Hok as (Hn & Ha & Hr); simpl in Hm;
    replace (length (received s p) - (length (received s p) - n)) with n in Hm by lia;
    pose proof (lookup_lt_Some _ _ _ Hm) as Hlt;
    split; [|cbn [pending]; rewrite Hsame; lia];
    cbn [loop_ok]; rewrite Hsame; split; [lia|]; split; [done|];
    intros v [= <-]; cbn [listener_sink]; rewrite Htgt;
    rewrite (take_S_r _ _ _ Hm), fmap_app; f_equal; by apply Hr.
Qed.

(** How the other loops are connected to one of which the target is [t]. *)
Lemma other_loops b p i l t k l0 :
  wired_but b p → loops p !! i = Some l → loop_target l = Some t → k ≠ i → loops p !! k = Some l0 →
  loop_target l0 ≠ Some t
  ∧ (loop_source l0 = Some t → k < i ∧ kind l0 = Frames ∧ kind l = Frames).
Proof.
  intros Hw Hi Ht Hk Hl0. pose proof (shape_lookup _ _ _ Hl0) as H0.
  pose proof (shape_lookup _ _ _ Hi) as H1. unfold shape in H0, H1.
  destruct (wb_chained _ _ Hw k i _ _ _ _ _ _ t H0 H1) as (_ & Htt & Hst). split.
  - intros Htl. by apply Hk, Htt.
  - intros Hsl. by apply Hst.
Qed.

Lemma not_own_target b p i l : wired_but b p → loops p !! i = Some l → loop_source l ≠ loop_target l ∨ l = Ended.
Proof.
  intros Hw Hi. destruct (loop_target l) as [t|] eqn:Ht; [|destruct l; simpl in Ht; try done; by right].
  left. intros Hs. pose proof (shape_lookup _ _ _ Hi) as H1. unfold shape in H1. rewrite Hs, Ht in H1.
  destruct (wb_chained _ _ Hw i i _ _ _ _ _ _ t H1 H1) as (_ & _ & H). destruct (H eq_refl eq_refl). lia.
Qed.

(** The loop, if any, that reads a channel. *)
Definition reader p (t : SinkId) : option nat :=
  fst <$> list_find (λ l0, loop_source l0 = Some t) (loops p).

Lemma reader_lookup b p t k l0 :
  wired_but b p → loops p !! k = Some l0 → loop_source l0 = Some t → reader p t = Some k.
Proof.
  intros Hw Hl0 Hs. unfold reader.
  destruct (list_find (λ l0, loop_source l0 = Some t) (loops p)) as [[k' l1]|] eqn:Hf.
  - apply list_find_Some in Hf as (Hl1 & Hs1 & _). simpl. f_equal.
    pose proof (shape_lookup _ _ _ Hl0) as H0. pose proof (shape_lookup _ _ _ Hl1) as H1.
    destruct (wb_chained _ _ Hw k' k _ _ _ _ _ _ t H1 H0) as [H _]. by apply H.
  - apply list_find_None in Hf. by eapply Forall_lookup_1 in Hf; [|exact Hl0].
Qed.

Lemma reader_share b p i l t :
  wired_but b p → loops p !! i = Some l → loop_target l = Some t → loop_source l ≠ Some t →
  share (reader p t) 0 (length (loops p)) < share (Some i) 0 (length (loops p)).
Proof.
  intros Hw Hi Ht Hs. simpl. rewrite decide_True by (by eapply lookup_lt_Some). unfold reader.
  destruct (list_find (λ l0, loop_source l0 = Some t) (loops p)) as [[k l0]|] eqn:Hf; simpl; [|lia].
  apply list_find_Some in Hf as (Hl0 & Hs0 & _).
  rewrite decide_True by (by eapply lookup_lt_Some).
  destruct (decide (k = i)) as [->|Hki]; [by rewrite Hi in Hl0; simplify_eq|].
  destruct (other_loops b p i l t k l0 Hw Hi Ht Hki Hl0) as [_ H]. destruct (H Hs0) as [Hlt _]. lia.
Qed.

(** One message more at [t], and loop [i] one message further. *)
Lemma moved_weighs_less b p p' i l l' t (msg : ChanMsg) :
  wired_but b p → loops p !! i = Some l → loop_target l = Some t → loop_source l ≠ Some t →
  loops p' = <[i := l']> (loops p) → pending p l = S (pending p' l') →
  received t p' = received t p ++ [msg] → (∀ s, s ≠ t → received s p' = received s p) →
  weigh p' 0 (loops p') < weigh p 0 (loops p).
Proof.
  intros Hw Hi Ht Hs Hl' Hpend Hrt Hrs.
  assert (weigh p' 0 (loops p') + share (Some i) 0 (length (loops p))
          ≤ weigh p 0 (loops p) + share (reader p t) 0 (length (loops p))) as H.
  2: { pose proof (reader_share b p i l t Hw Hi Ht Hs). lia. }
  apply weigh_moved; [by rewrite Hl', length_insert|]. intros k l0 l1 Hl0 Hl1. rewrite Hl' in Hl1.
  destruct (decide (k = i)) as [->|Hki].
  { rewrite list_lookup_insert_eq in Hl1 by (by eapply lookup_lt_Some).
    rewrite Hi in Hl0. simplify_eq. rewrite decide_True by done. lia. }
  rewrite list_lookup_insert_ne in Hl1 by congruence. rewrite Hl0 in Hl1. injection Hl1 as <-.
  rewrite decide_False by congruence. rewrite Nat.add_0_r.
  destruct (decide (loop_source l0 = Some t)) as [Hsrc|Hsrc].
  - rewrite decide_True by (by eapply (reader_lookup b)).
    destruct l0; simpl in Hsrc; simplify_eq; simpl; rewrite ?Hrt, ?length_app; simpl; lia.
  - assert (∀ s', loop_source l0 = Some s' → received s' p' = received s' p) as Hsame.
    { intros s' Hs'. apply Hrs. intros ->. done. }
    destruct l0; simpl in *; try rewrite Hsame by done; lia.
Qed.

Lemma wired_loop_step b p i l l' p1 :
  wired_but b p → b ≠ Some i → loops p !! i = Some l → advances p l l' p1 →
  wired_but b (set_loop i l' p1) ∧ progress p (set_loop i l' p1)
  ∧ weigh (set_loop i l' p1) 0 (loops (set_loop i l' p1)) < weigh p 0 (loops p).
Proof.
  intros Hw Hb Hi Hadv. destruct (not_own_target b p i l Hw Hi) as [Hne| ->];
    [|by destruct Hadv as (? & ? & ? & ? & ? & _)].
  destruct (advanced_ok p l l' p1 (wb_ok _ _ Hw i l Hi Hb) Hadv Hne) as [Hok' Hpend].
  destruct Hadv as (s & t & msg & c & Hs & Ht & Hm & Hacc & Hsend & -> & Hsh & _ & _ & Hl').
  set (p' := set_loop i l' (set_node (set_chans c (node p)) p)).
  assert (shape <$> loops p' = shape <$> loops p) as Hshape.
  { simpl. rewrite list_fmap_insert, Hsh. apply list_insert_id. by apply shape_lookup. }
  assert (progress p p') as Hprog.
  { apply (send_progress p t _ c (<[i:=l']> (loops p)) Hsend); [by exists i, l|done|].
    intros k l0 Hk Hkind. assert (k ≠ i) as Hki.
    { intros ->. assert (l0 = l) as -> by congruence. by destruct l. }
    rewrite list_lookup_insert_ne by done. split; [done|]. by apply (other_loops b p i l t k l0 Hw Hi Ht Hki). }
  apply mpsc_send_ok in Hsend as [Hrt Hrs].
  split; [|split; [done|]].
  2: { apply (moved_weighs_less b p p' i l l' t (carried l msg)); try done. congruence. }
  split; [..|rewrite Hshape; apply (wb_chained _ _ Hw)|apply (wb_spawned _ _ Hw)].
  - intros k l0 Hk Hbk. simpl in Hk. destruct (decide (k = i)) as [->|Hki].
    { rewrite list_lookup_insert_eq in Hk by (by eapply lookup_lt_Some). injection Hk as <-. apply Hok'. }
    rewrite list_lookup_insert_ne in Hk by done.
    destruct (other_loops b p i l t k l0 Hw Hi Ht Hki Hk) as [H1 H2].
    apply (loop_ok_keeps p p' l0 t [carried l msg]); [by eapply wb_ok|exact Hrs|exact Hrt| |done|].
    { intros o Ho. split; [by apply Hprog|]. apply Hprog. }
    intros Hsrc. destruct (H2 Hsrc) as (_ & Hf0 & Hf). constructor; [|done].
    destruct l; try done; destruct l0; try done; destruct msg; done.
  - intros k l0 Hk. simpl in Hk. apply (loop_open_keeps p p'); [|apply Hprog].
    destruct (decide (k = i)) as [->|Hki].
    + rewrite list_lookup_insert_eq in Hk by (by eapply lookup_lt_Some). injection Hk as <-.
      intros u Hu. apply (wb_open _ _ Hw i l Hi). unfold shape in Hsh. by injection Hsh as _ <- <-.
    + rewrite list_lookup_insert_ne in Hk by done. by eapply wb_open.
Qed.

(** ** All steps *)

Lemma weigh_ext p p' i ls :
  (∀ s, received s p' = received s p) → weigh p' i ls = weigh p i ls.
Proof.
  intros Hr. revert i; induction ls as [|l ls IH]; intros i; [done|]. cbn [weigh]. rewrite IH.
  f_equal. f_equal. by destruct l; simpl; rewrite ?Hr.
Qed.

Lemma loop_ok_ext p p' l :
  (∀ s, loop_source l = Some s ∨ loop_target l = Some s → received s p' = received s p) →
  (∀ s n t c o, l = AwaitCallee s n t c o → live o (chans (node p)) →
     live o (chans (node p')) ∧ oneshot_poll o (chans (node p')) = oneshot_poll o (chans (node p))) →
  loop_ok p l → loop_ok p' l.
Proof.
  intros Hr Hp. destruct l as [s n t|s n t|s n t|s n t c o|]; simpl; try done.
  1, 2: intros (Hn & Ha & Ht); rewrite (Hr s) by auto; (split; [done|]); (split; [done|]);
    intros u Hu; rewrite Hr by auto; by apply Ht.
  - by rewrite (Hr s) by auto.
  - intros [Hl Hnr]. destruct (Hp _ _ _ _ _ eq_refl Hl) as [? ->]. done.
Qed.

(** Changes that leave the channels of the loops alone. *)
Lemma wired_ext b p p' :
  wired_but b p → loops p' = loops p → Forall idle_task (spawned (node p')) →
  (∀ s, open s (chans (node p)) → open s (chans (node p'))) →
  (∀ i l s, loops p !! i = Some l → loop_source l = Some s ∨ loop_target l = Some s →
     received s p' = received s p) →
  (∀ i s n t c o, loops p !! i = Some (AwaitCallee s n t c o) → b ≠ Some i → live o (chans (node p)) →
     live o (chans (node p')) ∧ oneshot_poll o (chans (node p')) = oneshot_poll o (chans (node p))) →
  wired_but b p'.
Proof.
  intros [Hok Hop Hch _] Hl Hs Ho Hr Hp. split; rewrite ?Hl; try done.
  - intros i l Hi Hb. apply (loop_ok_ext p); [intros s; by apply (Hr i)| |by apply (Hok i)].
    intros s n t c o -> Hlive. by eapply Hp.
  - intros i l Hi. eapply loop_open_keeps; [by eapply Hop|done].
Qed.

(** Changes of the home node that leave its channels alone. *)
Lemma wired_same_chans b p w :
  wired_but b p → chans w = chans (node p) → Forall idle_task (spawned w) → wired_but b (set_node w p).
Proof.
  intros Hw Hc Hs. apply (wired_ext b p); try done; unfold received; simpl; rewrite Hc; try done.
Qed.

Lemma wired_spawned_step b p i w :
  wired_but b p → poll_spawned i (node p) = Some w →
  wired_but b (set_node w p) ∧ progress p (set_node w p) ∧ measure (set_node w p) < measure p.
Proof.
  intros Hw Hp. unfold poll_spawned in Hp.
  destruct (spawned (node p) !! i) as [t|] eqn:Hi; [|done]. simpl in Hp.
  pose proof (wb_spawned _ _ Hw) as Hs. destruct (Forall_lookup_1 _ _ _ _ Hs Hi) as [s ->].
  simpl in Hp. injection Hp as <-. split; [|split].
  - apply wired_same_chans; [done..|]. simpl. by apply Forall_delete.
  - split; try done; [|by exists (delete i (spawned (node p))), (chans (node p))].
    intros Hnil. by rewrite Hnil in Hi.
  - unfold measure. simpl. rewrite (weigh_ext p) by done.
    rewrite length_delete by (by eexists). pose proof (lookup_lt_Some _ _ _ Hi). lia.
Qed.

(** One step, with an exception in the middle of a call: another loop or a task
    goes on, or the exception does. *)
Lemma wired_but_step b p p' :
  wired_but b p → step p p' →
  (wired_but b p' ∧ progress p p' ∧ measure p' < measure p)
  ∨ ∃ i l l' p1, b = Some i ∧ loops p !! i = Some l ∧ loop_step show l p = Some (l', p1) ∧ p' = set_loop i l' p1.
Proof.
  intros Hw [[i|i] Hc]; simpl in Hc.
  - destruct (loops p !! i) as [l|] eqn:Hi; [|done]. simpl in Hc.
    destruct (loop_step show l p) as [[l' p1]|] eqn:Hl; [|done]. simpl in Hc. injection Hc as <-.
    destruct (decide (b = Some i)) as [->|Hb]; [right; by exists i, l, l', p1|left].
    destruct (loop_step_ok p l (wb_ok _ _ Hw i l Hi Hb) (wb_open _ _ Hw i l Hi))
      as [[_ Hn]|(_ & l2 & p2 & Hl2 & Hadv)]; [congruence|].
    rewrite Hl in Hl2. injection Hl2 as <- <-.
    destruct (wired_loop_step b p i l l' p1 Hw Hb Hi Hadv) as (H1 & H2 & H3). split; [done|]. split; [done|].
    unfold measure. destruct Hadv as (s & t & msg & c & _ & _ & _ & _ & _ & -> & _). simpl in *. lia.
  - destruct (poll_spawned i (node p)) as [w|] eqn:Hp; [|done]. simpl in Hc. injection Hc as <-.
    left. by eapply wired_spawned_step.
Qed.

Lemma wired_step p p' : wired p → step p p' → wired p' ∧ progress p p' ∧ measure p' < measure p.
Proof.
  intros Hw Hs. by destruct (wired_but_step None p p' Hw Hs) as [?|(? & ? & ? & ? & ? & _)].
Qed.

(** A wired process is at rest or can go on. *)
Lemma wired_progresses p : wired p → (drained p ∧ ¬ ∃ p', step p p') ∨ ∃ p', step p p'.
Proof.
  intros Hw. destruct (spawned (node p)) as [|t ts] eqn:Hs.
  2: { right. assert (poll_spawned 0 (node p) = Some (set_spawned ts (node p))) as H.
       { unfold poll_spawned. rewrite Hs. simpl. pose proof (wired_spawned _ Hw) as Hf.
         rewrite Hs in Hf. inversion_clear Hf as [|?? [s ->]]. done. }
       eexists. exists (PollSpawned 0). simpl. by rewrite H. }
  destruct (decide (Exists (λ l, pending p l ≠ 0) (loops p))) as [Hex|Hno].
  - right. apply list.Exists_exists in Hex as (l & Hin & Hp). apply list_elem_of_lookup_1 in Hin as [i Hi].
    destruct (loop_step_ok p l (wired_ok _ Hw i l Hi) (wired_open _ Hw i l Hi))
      as [[? _]|(_ & l' & p1 & Hl & _)]; [done|].
    eexists. exists (PollLoop i). simpl. rewrite Hi. simpl. by rewrite Hl.
  - left. apply not_Exists_Forall in Hno; [|intros l; apply _].
    assert (∀ i l, loops p !! i = Some l → pending p l = 0) as Hz.
    { intros i l Hi. pose proof (Forall_lookup_1 _ _ _ _ Hno Hi) as H. simpl in H. lia. }
    split; [done|]. intros (p' & [i|i] & Hc); simpl in Hc.
    + destruct (loops p !! i) as [l|] eqn:Hi; [|done]. simpl in Hc.
      destruct (loop_step_ok p l (wired_ok _ Hw i l Hi) (wired_open _ Hw i l Hi))
        as [[_ Hn]|[Hne _]]; [by rewrite Hn in Hc|]. by apply Hne, (Hz i).
    + unfold poll_spawned in Hc. by rewrite Hs in Hc.
Qed.

(** There is something to do, or not. *)
Lemma step_decided p : (∃ p', step p p') ∨ ¬ ∃ p', step p p'.
Proof.
  destruct (decide (Exists (λ i, is_Some (poll_task show (PollLoop i) p)) (seq 0 (length (loops p))))) as [He|Hl].
  { left. apply list.Exists_exists in He as (i & _ & p' & Hp). by exists p', (PollLoop i). }
  destruct (decide (Exists (λ i, is_Some (poll_task show (PollSpawned i) p)) (seq 0 (length (spawned (node p))))))
    as [He|Hs].
  { left. apply list.Exists_exists in He as (i & _ & p' & Hp). by exists p', (PollSpawned i). }
  right. intros (p' & [i|i] & Hc).
  - destruct (loops p !! i) as [l|] eqn:Hi; [|by simpl in Hc; rewrite Hi in Hc].
    apply Hl, list.Exists_exists. exists i. split; [|by exists p'].
    apply elem_of_seq. apply lookup_lt_Some in Hi. lia.
  - destruct (spawned (node p) !! i) as [t|] eqn:Hi.
    2: { simpl in Hc. unfold poll_spawned in Hc. by rewrite Hi in Hc. }
    apply Hs, list.Exists_exists. exists i. split; [|by exists p'].
    apply elem_of_seq. apply lookup_lt_Some in Hi. lia.
Qed.

(** ** Programs on a wired process *)

Definition later p p' : Prop := wired p' ∧ progress p p'.

Lemma later_step p p1 p2 : later p p1 → step p1 p2 → later p p2 ∧ measure p2 < measure p1.
Proof.
  intros [Hw Hp] Hs. destruct (wired_step _ _ Hw Hs) as (H1 & H2 & H3).
  split; [|done]. split; [done|]. by eapply progress_trans.
Qed.

Lemma wired_await {A} (post : A → P → Prop) ready p :
  wired p →
  (∀ p', later p p' → drained p' → ready p' ≠ None) →
  (∀ p' m p'', later p p' → ready p' = Some (m, p'') → ends (poll_task show) post m p'') →
  ends (poll_task show) post (Await ready) p.
Proof.
  intros Hw Hr Hn. apply (ends_wait _ _ _ (later p) measure); try done.
  - apply later_step.
  - intros p' Hl Hno. apply Hr; [done|]. by destruct (wired_progresses p' (proj1 Hl)) as [[? _]|?].
  - intros p' [Hw' _]. destruct (wired_progresses p' Hw') as [[_ ?]|?]; [by right|by left].
  - split; [done|apply progress_refl].
Qed.

Lemma wired_perform {A} (post : A → P → Prop) m p :
  wired p → (∀ p', later p p' → ∃ a p'', m p' = Returns (a, p'') ∧ post a p'') →
  ends (poll_task show) post (perform m) p.
Proof.
  intros Hw Hm. apply (ends_perform _ _ _ (later p) measure); [apply later_step|done|].
  split; [done|apply progress_refl].
Qed.

(** When the loops have come to rest, everything has arrived. *)
Lemma drained_delivered p i l s t :
  wired p → drained p → loops p !! i = Some l → pending p l = 0 →
  (kind l = Frames ∨ ∃ n, l = FwdEvents s n t) →
  loop_source l = Some s → loop_target l = Some t → received t p = carried l <$> received s p.
Proof.
  intros Hw _ Hi Hp Hk Hs Ht. pose proof (wired_ok _ Hw i l Hi) as Hok.
  destruct l as [s0 n [u]|s0 n u|s0 n u|s0 n u c0 one|]; simpl in *; simplify_eq;
    try (by destruct Hk as [[=]|[? [=]]]); destruct Hok as (Hn & _ & Hr);
    rewrite (Hr t eq_refl); f_equal; apply take_ge; lia.
Qed.

(** ** What a channel will have *)

(** When everything has been passed on, [t] will have received [ms]. *)
Inductive due p : SinkId → list ChanMsg → Prop :=
| due_here t ms : ¬ is_target p t → received t p = ms → due p t ms
| due_loop i k s t ms :
    (shape <$> loops p) !! i = Some (k, Some s, Some t) → k = Frames ∨ k = Events →
    due p s ms → due p t (carried_by k <$> ms).

Lemma due_later p p' t ms : later p p' → due p t ms → due p' t ms.
Proof.
  intros [_ Hp]. induction 1 as [t ms Ht Hr|i k s t ms Hi Hk _ IH].
  - apply due_here; [|by rewrite (pg_received _ _ Hp)]. intros H. by eapply Ht, is_target_shape, H; apply Hp.
  - apply (due_loop _ i k s); [by rewrite (pg_shape _ _ Hp)|done..].
Qed.

(** A forwarding loop, found by its shape. *)
Lemma wired_forwards p i k s t :
  wired p → (shape <$> loops p) !! i = Some (k, Some s, Some t) → k = Frames ∨ k = Events →
  ∃ n l, loops p !! i = Some l ∧ kind l = k ∧ pending p l = length (received s p) - n
    ∧ n ≤ length (received s p) ∧ received t p = carried_by k <$> take n (received s p).
Proof.
  intros Hw Hi Hk. rewrite list_lookup_fmap in Hi. destruct (loops p !! i) as [l|] eqn:Hl; [|done].
  injection Hi as Hkind Hs Ht. pose proof (wired_ok _ Hw i l Hl) as Hok.
  destruct l as [s0 n u|s0 n u|s0 n u|s0 n u c one|]; simpl in *; simplify_eq; try (by destruct Hk).
  all: destruct Hok as (Hn & _ & Hr); exists n; eexists; (split; [done|]); (split; [done|]);
    (split; [done|]); (split; [done|]); by apply Hr.
Qed.

Lemma due_prefix p t ms : wired p → due p t ms → received t p `prefix_of` ms.
Proof.
  intros Hw. induction 1 as [t ms _ <-|i k s t ms Hi Hk _ IH]; [done|].
  destruct (wired_forwards p i k s t Hw Hi Hk) as (n & l & _ & _ & _ & _ & ->).
  destruct IH as [more ->]. rewrite fmap_app. rewrite <- (take_drop n (received s p)) at 2.
  rewrite fmap_app, <- app_assoc. by eexists.
Qed.

Lemma due_drained p t ms : wired p → drained p → due p t ms → received t p = ms.
Proof.
  intros Hw [_ Hd]. induction 1 as [t ms _ <-|i k s t ms Hi Hk _ IH]; [done|].
  destruct (wired_forwards p i k s t Hw Hi Hk) as (n & l & Hl & _ & Hp & Hn & ->).
  specialize (Hd i l Hl). rewrite take_ge by lia. by rewrite IH.
Qed.

(** Waiting for the first message. *)
Definition next_message (t : SinkId) : Prog P ChanMsg :=
  Await (λ p, match received t p with m :: _ => Some (Done m, p) | [] => None end).

Lemma next_message_due (post : ChanMsg → P → Prop) p t m ms :
  wired p → due p t (m :: ms) → (∀ p', later p p' → post m p') →
  ends (poll_task show) post (next_message t) p.
Proof.
  intros Hw Hdue Hpost. apply wired_await; [done|intros p' Hl Hd|intros p' m' p'' Hl Hr].
  - rewrite (due_drained p' t (m :: ms)); [done|apply Hl|done|by eapply due_later].
  - pose proof (due_prefix p' t (m :: ms) (proj1 Hl) (due_later _ _ _ _ Hl Hdue)) as [more Hm].
    destruct (received t p') as [|m1 ms1]; [done|]. simplify_eq/=. constructor. by apply Hpost.
Qed.

(** ** Programs on a process at rest *)

Lemma drained_stuck p p' : wired p → drained p → ¬ step p p'.
Proof.
  intros Hw [Hsp Hd] [[i|i] Hc]; simpl in Hc.
  - destruct (loops p !! i) as [l|] eqn:Hi; [|done]. simpl in Hc.
    destruct (loop_step_ok p l (wired_ok _ Hw i l Hi) (wired_open _ Hw i l Hi))
      as [[_ Hn]|[Hne _]]; [by rewrite Hn in Hc|]. by apply Hne, (Hd i).
  - unfold poll_spawned in Hc. by rewrite Hsp in Hc.
Qed.

Lemma ends_at_rest {A} (post : A → P → Prop) ready p m p' :
  wired p → drained p → ready p = Some (m, p') → ends (poll_task show) post m p' →
  ends (poll_task show) post (Await ready) p.
Proof.
  intros Hw Hd Hr Hm. constructor.
  - by rewrite Hr.
  - intros m' p'' Hr'. by simplify_eq.
  - intros p'' Hs. by apply drained_stuck in Hs.
Qed.

Lemma perform_at_rest {A} (post : A → P → Prop) m p a p' :
  wired p → drained p → m p = Returns (a, p') → post a p' → ends (poll_task show) post (perform m) p.
Proof.
  intros Hw Hd Hm Hp. eapply ends_at_rest; [done..| |by constructor]. by rewrite Hm.
Qed.

(** Only one loop has something to do. *)
Definition drained_but (i : nat) p : Prop :=
  spawned (node p) = [] ∧ ∀ k l, loops p !! k = Some l → k ≠ i → pending p l = 0.

Lemma ends_one_step {A} (post : A → P → Prop) ready p i l l' p1 :
  wired_but (Some i) p → drained_but i p → loops p !! i = Some l →
  loop_step show l p = Some (l', p1) → ready p = None →
  ends (poll_task show) post (Await ready) (set_loop i l' p1) →
  ends (poll_task show) post (Await ready) p.
Proof.
  intros Hw [Hsp Hd] Hi Hl Hr Hends. constructor.
  - intros _. eexists. exists (PollLoop i). simpl. rewrite Hi. simpl. by rewrite Hl.
  - by rewrite Hr.
  - intros p' [[k|k] Hc]; simpl in Hc.
    + destruct (decide (k = i)) as [->|Hki].
      { rewrite Hi in Hc. simpl in Hc. rewrite Hl in Hc. simpl in Hc. by simplify_eq. }
      destruct (loops p !! k) as [l0|] eqn:Hk; [|done]. simpl in Hc.
      destruct (loop_step_ok p l0) as [[_ Hn]|[Hne _]].
      * apply (wb_ok _ _ Hw k l0 Hk). congruence.
      * by apply (wb_open _ _ Hw k).
      * by rewrite Hn in Hc.
      * by destruct Hne; apply (Hd k).
    + unfold poll_spawned in Hc. by rewrite Hsp in Hc.
Qed.

(** The excepted loop is back in order. *)
Lemma wired_back i l l' p :
  wired_but (Some i) p → loops p !! i = Some l → shape l' = shape l → loop_ok p l' →
  wired (set_loop i l' p).
Proof.
  intros Hw Hi Hsh Hok.
  assert (shape <$> loops (set_loop i l' p) = shape <$> loops p) as Hshape.
  { simpl. rewrite list_fmap_insert, Hsh. apply list_insert_id. by apply shape_lookup. }
  split; [..|rewrite Hshape; apply Hw|apply Hw].
  - intros k l0 Hk _. simpl in Hk. destruct (decide (k = i)) as [->|Hki].
    { rewrite list_lookup_insert_eq in Hk by (by eapply lookup_lt_Some). injection Hk as <-. done. }
    rewrite list_lookup_insert_ne in Hk by done. apply (wb_ok _ _ Hw k l0 Hk). congruence.
  - intros k l0 Hk. simpl in Hk. destruct (decide (k = i)) as [->|Hki].
    { rewrite list_lookup_insert_eq in Hk by (by eapply lookup_lt_Some). injection Hk as <-.
      intros u Hu. apply (wb_open _ _ Hw i l Hi). unfold shape in Hsh. by injection Hsh as _ <- <-. }
    rewrite list_lookup_insert_ne in Hk by done. by apply (wb_open _ _ Hw k l0 Hk).
Qed.

Lemma wired_except b p : wired p → wired_but b p.
Proof. intros [H1 H2 H3 H4]. split; try done. intros i l Hi _. by apply (H1 i). Qed.

(** ** Building a wired process *)

Lemma lookup_snoc_cases {A} (ls : list A) x i y :
  (ls ++ [x]) !! i = Some y → ls !! i = Some y ∨ i = length ls ∧ y = x.
Proof.
  destruct (decide (i < length ls)).
  - rewrite lookup_app_l by lia. by left.
  - rewrite lookup_app_r by lia. intros H. right. pose proof (lookup_lt_Some _ _ _ H). simpl in *.
    assert (i - length ls = 0) as Hz by lia. rewrite Hz in H. injection H as <-. split; [lia|done].
Qed.

(** A channel that no loop uses. *)
Record spare (s : SinkId) p : Prop := mkSpare
  { spare_open : open s (chans (node p));
    spare_empty : received s p = [];
    spare_unused i l : loops p !! i = Some l → loop_source l ≠ Some s ∧ loop_target l ≠ Some s }.

Lemma spare_not_target s p : spare s p → ¬ is_target p s.
Proof. intros Hs (i & l & Hl & Ht). by apply (spare_unused _ _ Hs i l Hl) in Ht. Qed.

Lemma new_channel b p n s c :
  wired_but b p → mpsc_channel n (chans (node p)) = (s, c) →
  let p' := set_node (set_chans c (node p)) p in
  wired_but b p' ∧ spare s p'
  ∧ (∀ t, open t (chans (node p)) → t ≠ s ∧ open t c ∧ received t p' = received t p)
  ∧ (∀ o, live o (chans (node p)) → live o c ∧ oneshot_poll o c = oneshot_poll o (chans (node p))).
Proof.
  intros Hw Hc p'. pose proof (mpsc_channel_new _ _ _ _ Hc) as [He Hother].
  assert (∀ t, open t (chans (node p)) → t ≠ s ∧ open t c ∧ received t p' = received t p) as Hopen.
  { intros t Ht. pose proof (keep_after_channel (open:=open) t n _ Ht) as [H1 H2].
    rewrite Hc in H1, H2. simpl in *. split; [congruence|]. split; [done|]. apply Hother. congruence. }
  assert (∀ o, live o (chans (node p)) → live o c ∧ oneshot_poll o c = oneshot_poll o (chans (node p))) as Hlive.
  { intros o Ho. pose proof (live_after_channel (live:=live) o n _ Ho) as H. by rewrite Hc in H. }
  split; [|split; [split|done]].
  - apply (wired_ext b p); try done; [apply Hw|by apply Hopen| |by intros; apply Hlive].
    intros i l t Hl Ht. apply Hopen. by apply (wb_open _ _ Hw i l Hl).
  - pose proof (open_new (open:=open) n (chans (node p))) as H. by rewrite Hc in H.
  - done.
  - intros i l Hl. change (loops p') with (loops p) in Hl.
    split; intros Ht; destruct (Hopen s); try done; apply (wb_open _ _ Hw i l Hl); auto.
Qed.

(** A new loop reads a spare channel and writes to one nobody else writes to. *)
Lemma wired_add b p l s t :
  wired_but b p → loop_source l = Some s → loop_target l = Some t → s ≠ t →
  (∀ i l', loops p !! i = Some l' → loop_source l' ≠ Some s ∧ loop_target l' ≠ Some s) →
  open s (chans (node p)) → open t (chans (node p)) → ¬ is_target p t →
  (∀ i l', loops p !! i = Some l' → loop_source l' = Some t → kind l' = Frames ∧ kind l = Frames) →
  loop_ok p l → wired_but b (add_loop l p).
Proof.
  intros Hw Hs Ht Hne Hfree Hos Hot Hnt Hfr Hok. split; simpl.
  - intros i l' Hi Hb. destruct (lookup_snoc_cases _ _ _ _ Hi) as [Hi'|[-> ->]]; [by apply (wb_ok _ _ Hw i)|done].
  - intros i l' Hi. destruct (lookup_snoc_cases _ _ _ _ Hi) as [Hi'|[-> ->]]; [by apply (wb_open _ _ Hw i)|].
    intros u [Hu|Hu]; simplify_eq/=; congruence.
  - intros i j f s1 t1 f' s2 t2 c Hi Hj. rewrite fmap_app in Hi, Hj. simpl in Hi, Hj.
    destruct (lookup_snoc_cases _ _ _ _ Hi) as [Hi'|[-> Ei]], (lookup_snoc_cases _ _ _ _ Hj) as [Hj'|[-> Ej]].
    + by apply (wb_chained _ _ Hw i j f s1 t1 f' s2 t2 c).
    + rewrite list_lookup_fmap in Hi'. destruct (loops p !! i) as [l'|] eqn:Hl; [|done]. simplify_eq/=.
      unfold shape in *. simplify_eq. destruct (Hfree i l' Hl) as [H1 H2]. rewrite length_fmap.
      split; [congruence|]. split; [|intros Hc1 Hc2].
      * intros Hc1 Hc2. exfalso. apply Hnt. exists i, l'. split; [done|congruence].
      * split; [by eapply lookup_lt_Some|]. apply (Hfr i l' Hl). congruence.
    + rewrite list_lookup_fmap in Hj'. destruct (loops p !! j) as [l'|] eqn:Hl; [|done]. simplify_eq/=.
      unfold shape in *. simplify_eq. destruct (Hfree j l' Hl) as [H1 H2].
      split; [congruence|]. split; [|congruence].
      intros Hc1 Hc2. exfalso. apply Hnt. exists j, l'. split; [done|congruence].
    + simplify_eq/=. unfold shape in *. simplify_eq. split; [done|]. split; [done|congruence].
  - apply Hw.
Qed.

(** Sending into a channel that no other loop writes to. *)
Lemma wired_send b p s msg :
  wired_but b p → open s (chans (node p)) →
  (∀ i l, loops p !! i = Some l → b ≠ Some i → loop_target l ≠ Some s) →
  (∀ i l, loops p !! i = Some l → loop_source l = Some s → b ≠ Some i → accepts_msg l msg) →
  ∃ c, mpsc_send s msg (chans (node p)) = (Ok tt, c)
    ∧ wired_but b (set_node (set_chans c (node p)) p)
    ∧ mpsc_received s c = received s p ++ [msg]
    ∧ (∀ t, t ≠ s → mpsc_received t c = received t p)
    ∧ (∀ t, open t (chans (node p)) → open t c)
    ∧ (∀ o, live o (chans (node p)) → live o c)
    ∧ ∀ o, oneshot_poll o c = oneshot_poll o (chans (node p)).
Proof.
  intros Hw Ho Hnt Hacc. pose proof (keep_send (open:=open) s msg _ Ho) as Hok.
  destruct (mpsc_send s msg (chans (node p))) as [r c] eqn:Hs. simpl in Hok. subst r. exists c.
  pose proof (mpsc_send_ok _ _ _ _ Hs) as [Hr Hother].
  assert (∀ t, open t (chans (node p)) → open t c) as Hopen.
  { intros t Ht. pose proof (keep_after_send (open:=open) t s msg _ Ht) as H. by rewrite Hs in H. }
  assert (∀ o, live o (chans (node p)) → live o c) as Hlive.
  { intros o Hl. pose proof (live_after_send (live:=live) o s msg _ Hl) as H. by rewrite Hs in H. }
  assert (∀ o, oneshot_poll o c = oneshot_poll o (chans (node p))) as Hpoll.
  { intros o. pose proof (mpsc_send_oneshot s msg (chans (node p)) o) as H. by rewrite Hs in H. }
  split; [done|]. split; [|done]. split.
  - intros i l Hi Hb. apply (loop_ok_keeps p _ l s [msg]); try done.
    + by apply (wb_ok _ _ Hw i).
    + intros o Hl. split; [by apply Hlive|apply Hpoll].
    + by apply (Hnt i).
    + intros Hsrc. constructor; [|done]. by apply (Hacc i).
  - intros i l Hi. eapply loop_open_keeps; [by eapply Hw|done].
  - apply Hw.
  - apply Hw.
Qed.

(** Changes after which all channels but [ts] have received what they had, and
    all oneshots but [os] are as they were. *)
Record keeps (ts : list SinkId) (os : list OneshotId) p p' : Prop := mkKeeps
  { kp_open t : open t (chans (node p)) → open t (chans (node p'));
    kp_received t : open t (chans (node p)) → t ∉ ts → received t p' = received t p;
    kp_live o : live o (chans (node p)) → live o (chans (node p'));
    kp_poll o : live o (chans (node p)) → o ∉ os →
      oneshot_poll o (chans (node p')) = oneshot_poll o (chans (node p)) }.

Lemma keeps_trans ts os ts' os' p1 p2 p3 :
  keeps ts os p1 p2 → keeps ts' os' p2 p3 → keeps (ts ++ ts') (os ++ os') p1 p3.
Proof.
  intros [O1 R1 L1 Q1] [O2 R2 L2 Q2]. split; [auto| |auto|].
  - intros t Ht Hn. rewrite not_elem_of_app in Hn. rewrite R2, R1; [done| | |apply O1|]; tauto.
  - intros o Ho Hn. rewrite not_elem_of_app in Hn. rewrite Q2, Q1; [done| | |apply L1|]; tauto.
Qed.

(** [fwd_appmsg]: a new channel and the loop that reads it. *)
Lemma fwd_appmsg_wired b p t :
  wired_but b p → open t (chans (node p)) → received t p = [] → ¬ is_target p t →
  (∀ i l, loops p !! i = Some l → loop_source l = Some t → kind l = Frames) →
  ∃ s p', fwd_appmsg (mkAppListener t) p = (s, p') ∧ wired_but b p' ∧ keeps [] [] p p'
    ∧ loops p' = loops p ++ [FwdFrames s 0 (mkAppListener t)]
    ∧ (∃ c, node p' = set_chans c (node p))
    ∧ open s (chans (node p')) ∧ received s p' = [] ∧ ¬ is_target p' s
    ∧ (∀ u, open u (chans (node p)) → u ≠ s)
    ∧ (∀ i l, loops p' !! i = Some l → loop_source l = Some s → kind l = Frames).
Proof.
  intros Hw Ho He Hnt Hsrc. unfold fwd_appmsg. cbn [env_channel process_env]. unfold with_chans.
  destruct (mpsc_channel 1 (chans (node p))) as [s c] eqn:Hc.
  destruct (new_channel b p 1 s c Hw Hc) as (Hw1 & Hs & Hold & Hlive).
  set (p1 := set_node (set_chans c (node p)) p) in *. set (l := FwdFrames s 0 (mkAppListener t)).
  destruct (Hold t Ho) as (Hne & Hot & Hrt).
  exists s, (add_loop l p1). split; [done|]. split; [|split; [|split; [done|split; [by exists c|]]]].
  - apply (wired_add b p1 l s t Hw1); try done; [apply (spare_unused _ _ Hs)|apply (spare_open _ _ Hs)| |].
    + intros i l' Hl' Hs'. split; [by apply (Hsrc i)|done].
    + destruct Hs as [_ Hr _]. subst l. simpl. rewrite Hr. split; [lia|]. split; [done|]. intros u [= <-].
      cbn [listener_sink]. by rewrite Hrt.
  - split; try (intros; by apply Hold); intros; by apply Hlive.
  - split; [apply (spare_open _ _ Hs)|]. split; [apply (spare_empty _ _ Hs)|]. split; [|split].
    + intros (i & l' & Hl & Ht). destruct (lookup_snoc_cases _ _ _ _ Hl) as [Hl'|[_ ->]].
      * by apply (spare_unused _ _ Hs i l' Hl') in Ht.
      * injection Ht. congruence.
    + intros u Hu ->. by destruct (Hold s Hu).
    + intros i l' Hl Hs'. destruct (lookup_snoc_cases _ _ _ _ Hl) as [Hl'|[_ ->]]; [|done].
      by apply (spare_unused _ _ Hs i l' Hl') in Hs'.
Qed.

(** [oneshot::channel] and its send. *)
Lemma oneshot_wired b p o c :
  wired_but b p → oneshot_channel (chans (node p)) = (o, c) →
  let p' := set_node (set_chans c (node p)) p in
  wired_but b p' ∧ keeps [] [] p p' ∧ live o c ∧ oneshot_poll o c = NotReady
  ∧ ∀ o', live o' (chans (node p)) → o ≠ o'.
Proof.
  intros Hw Hc p'. pose proof (oneshot_channel_new _ _ _ Hc) as [Hnr Hr].
  assert (∀ o', live o' (chans (node p)) → o ≠ o' ∧ live o' c ∧ oneshot_poll o' c = oneshot_poll o' (chans (node p))) as Hl.
  { intros o' Ho. pose proof (live_after_oneshot (live:=live) o' _ Ho) as H. by rewrite Hc in H. }
  assert (∀ s, open s (chans (node p)) → open s c) as Hop.
  { intros s Hs. pose proof (keep_after_oneshot (open:=open) s _ Hs) as H. by rewrite Hc in H. }
  split; [|split; [|split; [|split; [done|intros; by apply Hl]]]].
  - apply (wired_ext b p); try done; [apply Hw|intros; apply Hr|]. intros; split; by apply Hl.
  - split; try done; intros; try (by apply Hl); apply Hr.
  - pose proof (live_new (live:=live) (chans (node p))) as H. by rewrite Hc in H.
Qed.

Lemma answer_wired b p o v :
  wired_but b p → live o (chans (node p)) → oneshot_poll o (chans (node p)) = NotReady →
  (∀ i s n t c, loops p !! i = Some (AwaitCallee s n t c o) → b = Some i) →
  ∃ c, oneshot_send o v (chans (node p)) = (Ok tt, c)
    ∧ let p' := set_node (set_chans c (node p)) p in
      wired_but b p' ∧ keeps [] [o] p p' ∧ oneshot_poll o c = Sent v.
Proof.
  intros Hw Ho Hnr Hb. pose proof (live_answer (live:=live) o v _ Ho Hnr) as Hok.
  destruct (oneshot_send o v (chans (node p))) as [r c] eqn:Hs. simpl in Hok. subst r. exists c.
  split; [done|]. intros p'.
  assert (∀ s, received s p' = received s p) as Hr.
  { intros s. pose proof (oneshot_send_received o v (chans (node p)) s) as H. by rewrite Hs in H. }
  assert (∀ s, open s (chans (node p)) → open s c) as Hop.
  { intros s Hs'. pose proof (keep_after_answer (open:=open) s o v _ Hs') as H. by rewrite Hs in H. }
  assert (∀ o', live o' (chans (node p)) → live o' c
            ∧ (o' ≠ o → oneshot_poll o' c = oneshot_poll o' (chans (node p)))) as Hl.
  { intros o' Ho'. pose proof (live_after_answer (live:=live) o' o v _ Ho') as H. by rewrite Hs in H. }
  split; [|split; [|by eapply oneshot_send_ok]].
  - apply (wired_ext b p); try done; [apply Hw|].
    intros i s n t c' o' Hi Hne Ho'. destruct (Hl o' Ho') as [? Hp]. split; [done|]. apply Hp.
    intros ->. by apply Hne, (Hb i s n t c').
  - split; try done; intros; [by apply Hl|]. apply Hl; [done|]. set_solver.
Qed.

(** ** Theorems *)

Definition carries (l : Loop) : bool :=
  match l with FwdFrames _ _ _ | FwdEvents _ _ _ => true | _ => false end.

Lemma wired_steps p p' : wired p → rtc step p p' → later p p'.
Proof.
  intros Hw Hs. assert (later p p) as Hl by (split; [done|apply progress_refl]).
  revert Hl. generalize p at 1 3 as p0. induction Hs as [p|p p1 p2 Hs _ IH]; intros p0 Hl; [done|].
  apply IH; [|by eapply later_step]. by apply (wired_step p p1).
Qed.

(** The reactor cannot poll for ever. *)
Lemma wired_acc p : wired p → Acc (flip step) p.
Proof.
  intros Hw. remember (measure p) as n eqn:Hn. revert p Hw Hn.
  induction n as [n IH] using lt_wf_ind. intros p Hw ->. constructor. intros p' Hs.
  destruct (wired_step p p' Hw Hs) as (Hw' & _ & Hlt). by eapply IH.
Qed.

(** C12: in a wired process the loops that pass events and frames on between the
    two ends of a connection cannot run for ever, whatever the order in which
    the reactor polls them; when there is nothing left to poll, every channel a
    loop writes to has exactly what was sent into the channel it reads, complete
    and in order, which for chains of loops means from end to end; and nothing
    else has changed: neither the databases and sessions of the home, nor what
    other channels have received, nor the calls that wait for an answer. *)
Theorem forwarding_delivers p :
  wired p →
  Acc (flip step) p
  ∧ ∀ p', rtc step p p' → (¬ ∃ p'', step p' p'') →
      spawned (node p') = []
      ∧ (∀ t ms, due p t ms → received t p' = ms)
      ∧ (∀ i l s t, loops p' !! i = Some l → carries l = true →
           loop_source l = Some s → loop_target l = Some t →
           received t p' = carried l <$> received s p')
      ∧ shape <$> loops p' = shape <$> loops p
      ∧ (∃ c, node p' = set_spawned [] (set_chans c (node p)))
      ∧ (∀ s, ¬ is_target p s → received s p' = received s p)
      ∧ ∀ o, oneshot_poll o (chans (node p')) = oneshot_poll o (chans (node p)).
Proof.
  intros Hw. split.
  - by apply wired_acc.
  - intros p' Hs Hno. destruct (wired_steps p p' Hw Hs) as [Hw' Hp].
    destruct (wired_progresses p' Hw') as [[[Hsp Hd] _]|?]; [|done]. split; [done|].
    split; [intros t ms Hdue; apply due_drained; try done; by eapply due_later|].
    split; [|split; [apply Hp|split; [|split; apply Hp]]].
    + intros i l s t Hi Hc Hls Hlt. apply (drained_delivered p' i l s t); try done; [by apply (Hd i)|].
      destruct l; simpl in *; simplify_eq; eauto.
    + destruct (pg_node _ _ Hp) as (ts & c & Hnode). exists c. rewrite Hnode in Hsp |- *.
      simpl in Hsp. by subst ts.
Qed.

End wired.
