(* ===== verification/HomeInvariants.v ===== *)
(** * The home node as a reactive system, and its invariants

    Any number of validated connections send requests, in any order; the
    futures the requests return are polled, or dropped, later and in any order;
    spawned tasks run one send at a time; sessions are dropped; calls are
    answered.  The invariants hold in every state such an execution reaches. *)

From S2P Require Import Prelude Errors External Storage Protocol Crypto Relation Hoare HomeServer.

(** ** Requests and responses *)

Inductive Request : Set :=
| ReqLoad (id : ProfileId)
| ReqClaim (profile : ProfileId)
| ReqRegister (own_prof : OwnProfile) (half_proof : RelationHalfProof)
    (invite : option HomeInvitation)
| ReqLogin (proof_of_home : RelationProof)
| ReqPairRequest (half_proof : RelationHalfProof)
| ReqPairResponse (relation : RelationProof)
| ReqCall (app : ApplicationId) (call_req : CallRequestDetails) (timeout_new : Result string unit).

Inductive SessionRequest : Set :=
| ReqUpdate (own_prof : OwnProfile)
| ReqUnregister (newhome : option Profile)
| ReqCheckinApp (app : ApplicationId)
| ReqEvents
| ReqPing (txt : string).

Inductive Response : Set :=
| RespProfile (r : Result ProtoError Profile)
| RespOwnProfile (r : Result ProtoError OwnProfile)
| RespRegister (r : Result (OwnProfile * ProtoError) OwnProfile)
| RespSession (r : Result ProtoError SessionId)
| RespUnit (r : Result ProtoError unit)
| RespCall (r : Result ProtoError OneshotId)
| RespStream (s : option SinkId)
| RespText (r : Result ProtoError string).

Section system.
Context {BC : Bincode} {Dht Db Chans : Type}
        {DHT : KeyValueStore Dht ProfileId Profile}
        {DB : KeyValueStore Db ProfileId OwnProfile}
        {CH : Channels ChanMsg Chans}.

Abbreviation W := (HomeServer Dht Db Chans).

(** A method call, with its response as the result of polling. *)
Definition respond {E A} (f : Result E A → Response) (m : IO W (Future W E A))
  : IO W (IO W Response) := λ w,
  let '(fut, w) := m w in (λ w, let '(r, w) := fut w in (f r, w), w).

Definition serve (conn : HomeConnectionServer) (req : Request) : IO W (IO W Response) :=
  match req with
  | ReqLoad id => respond RespProfile (load conn id)
  | ReqClaim profile => respond RespOwnProfile (claim conn profile)
  | ReqRegister own_prof half_proof invite =>
      respond RespRegister (register conn own_prof half_proof invite)
  | ReqLogin proof => respond RespSession (login conn proof)
  | ReqPairRequest half_proof => respond RespUnit (pair_request conn half_proof)
  | ReqPairResponse relation => respond RespUnit (pair_response conn relation)
  | ReqCall app call_req timeout_new => respond RespCall (call conn app call_req timeout_new)
  end.

Definition serve_session (sid : SessionId) (ctx : PeerContext) (req : SessionRequest)
  : IO W (IO W Response) :=
  match req with
  | ReqUpdate own_prof => respond RespUnit (update ctx own_prof)
  | ReqUnregister newhome => respond RespUnit (unregister ctx newhome)
  | ReqCheckinApp app => λ w, let '(s, w) := checkin_app sid app w in (io_ret (RespStream s), w)
  | ReqEvents => λ w, let '(s, w) := events sid w in (io_ret (RespStream s), w)
  | ReqPing txt => respond RespText (ping txt)
  end.

(** ** The system *)

Record System : Type := mkSystem
  { world : W;
    connections : list HomeConnectionServer;
    pending : list (IO W Response);
    responses : list Response }.

(** What the other ends of the channels do: consuming, closing, answering, and
    sending frames on their own channels; they put no event or call anywhere. *)
Definition peers_step (c c' : Chans) : Prop :=
  ∀ s m, m ∈ mpsc_received s c' → m ∈ mpsc_received s c ∨ ∃ f, m = FrameMsg f.

Inductive step : System → System → Prop :=
| step_connect w conns ps rs ctx conn :
    HomeConnectionServer_new ctx w = Ok conn →
    step (mkSystem w conns ps rs) (mkSystem w (conn :: conns) ps rs)
| step_request w w' conns ps rs conn req fut :
    conn ∈ conns → serve conn req w = (fut, w') →
    step (mkSystem w conns ps rs) (mkSystem w' conns (ps ++ [fut]) rs)
| step_session w w' conns ps rs sid s req fut :
    session_heap w !! sid = Some s → serve_session sid (session_context s) req w = (fut, w') →
    step (mkSystem w conns ps rs) (mkSystem w' conns (ps ++ [fut]) rs)
| step_poll w w' conns ps1 ps2 rs fut r :
    fut w = (r, w') →
    step (mkSystem w conns (ps1 ++ fut :: ps2) rs) (mkSystem w' conns (ps1 ++ ps2) (rs ++ [r]))
| step_cancel w conns ps1 ps2 rs fut :
    step (mkSystem w conns (ps1 ++ fut :: ps2) rs) (mkSystem w conns (ps1 ++ ps2) rs)
| step_task w w' conns ps rs ts1 t ts2 rest :
    spawned w = ts1 ++ t :: ts2 → run_task t w = (rest, w') →
    step (mkSystem w conns ps rs)
      (mkSystem (set_spawned (ts1 ++ option_list rest ++ ts2) w') conns ps rs)
| step_drop w conns ps rs sid :
    step (mkSystem w conns ps rs) (mkSystem (drop_session sid w) conns ps rs)
| step_answer w conns ps rs c to_callee :
    step (mkSystem w conns ps rs) (mkSystem (answer c to_callee w).2 conns ps rs)
| step_peers w conns ps rs c' :
    peers_step (chans w) c' →
    step (mkSystem w conns ps rs) (mkSystem (set_chans c' w) conns ps rs).

(** A server just created over given databases. *)
Definition initial (v : Validator) (dht : Dht) (db : Db) (c : Chans) : System :=
  mkSystem (HomeServer_new v dht db c) [] [] [].

Definition reachable (s0 s : System) : Prop := rtc step s0 s.

(** ** What the home vouches for *)

Definition certified (v : Validator) (pk : PublicKey) (id : ProfileId) : Prop :=
  validate_profile v pk id = Ok true.

(** Both sides of a relation signed it, with keys that belong to their ids. *)
Definition authentic_relation (v : Validator) (rp : RelationProof) : Prop :=
  ∃ id1 pk1 id2 pk2, certified v pk1 id1 ∧ certified v pk2 id2
    ∧ validate_relation_proof v rp id1 pk1 id2 pk2 = Ok tt.

Definition authentic_event (v : Validator) (ev : ProfileEvent) : Prop :=
  match ev with
  | UnknownEvent _ => False
  | PairingRequest hp =>
      ∃ pk, certified v pk (hp_signer_id hp) ∧ validate_half_proof v hp pk = Ok tt
  | PairingResponse rp => authentic_relation v rp
  end.

Definition authentic_call (v : Validator) (c : Call) : Prop :=
  authentic_relation v (cr_relation (call_request c)).

Definition authentic_msg (v : Validator) (m : ChanMsg) : Prop :=
  match m with
  | EventMsg (Ok ev) => authentic_event v ev
  | CallMsg (Ok c) => authentic_call v c
  | _ => True
  end.

Definition task_msgs (t : Task) : list ChanMsg :=
  match t with SendOne _ m => [m] | SendAll _ ms => ms end.

(** ** The invariant, by component of the state *)

Definition store_inv {S V} `{KeyValueStore S ProfileId V} (v : Validator) (prof : V → Profile)
    (s : S) : Prop :=
  ∀ k x, kv_get k s = Ok x →
    profile_id (prof x) = k ∧ certified v (profile_public_key (prof x)) k.

Record session_inv (v : Validator) (s : HomeSessionServer) : Prop := {
  si_context : certified v (peer_pubkey (session_context s)) (peer_id (session_context s));
  si_events msgs ev : session_events s = Buffer msgs → Ok ev ∈ msgs → authentic_event v ev;
  si_calls app msgs c :
    session_apps s !! app = Some (Buffer msgs) → Ok c ∈ msgs → authentic_call v c;
}.

Definition heap_inv (v : Validator) (next : SessionId)
    (heap : gmap SessionId HomeSessionServer) : Prop :=
  ∀ sid s, heap !! sid = Some s → sid < next ∧ session_inv v s.

Definition sessions_inv (next : SessionId) (m : gmap ProfileId SessionId) : Prop :=
  ∀ p sid, m !! p = Some sid → sid < next.

Definition tasks_inv (v : Validator) (ts : list Task) : Prop :=
  ∀ t m, t ∈ ts → m ∈ task_msgs t → authentic_msg v m.

Definition chans_inv (v : Validator) (c : Chans) : Prop :=
  ∀ s m, m ∈ mpsc_received s c → authentic_msg v m.

Record Inv (v : Validator) (w : W) : Prop := {
  inv_validator : server_validator w = v;
  inv_dht : store_inv v id (public_profile_dht w);
  inv_db : store_inv v own_profile (hosted_profile_db w);
  inv_heap : heap_inv v (next_session w) (session_heap w);
  inv_sessions : sessions_inv (next_session w) (sessions w);
  inv_tasks : tasks_inv v (spawned w);
  inv_chans : chans_inv v (chans w);
}.

Definition valid_connection (v : Validator) (conn : HomeConnectionServer) : Prop :=
  certified v (peer_pubkey (context conn)) (peer_id (context conn)).

Record SystemInv (v : Validator) (s : System) : Prop := {
  sys_world : Inv v (world s);
  sys_connections : Forall (valid_connection v) (connections s);
  sys_pending : Forall (λ fut, triple (Inv v) fut anything) (pending s);
}.

End system.

(** ** Each component of the invariant under the primitive updates *)

Section store_lemmas.
Context {S V : Type} {KV : KeyValueStore S ProfileId V}
        {KVL : KeyValueStoreLaws S ProfileId V any_key} (v : Validator) (prof : V → Profile).

Lemma store_inv_set s k x :
  store_inv v prof s → profile_id (prof x) = k → certified v (profile_public_key (prof x)) k →
  store_inv v prof (kv_set k x s).2.
Proof.
  intros Hinv Hid Hcert k' x' Hget. destruct (kv_set k x s) as [r s'] eqn:Hs. simpl in Hget.
  destruct (decide (k' = k)) as [->|Hne].
  - destruct r as [[]|e].
    + rewrite (kv_set_ok _ _ _ _ I Hs) in Hget. by injection Hget as <-.
    + destruct (kv_set_err _ _ _ _ _ _ I Hs Hget) as [->|Hold]; [done|by apply Hinv].
  - rewrite (kv_set_other _ _ _ _ _ k' I I Hs Hne) in Hget. by apply Hinv.
Qed.

Lemma store_inv_clear s k : store_inv v prof s → store_inv v prof (kv_clear_local k s).2.
Proof.
  intros Hinv k' x' Hget. destruct (kv_clear_local k s) as [r s'] eqn:Hs. simpl in Hget.
  destruct (decide (k' = k)) as [->|Hne].
  - destruct r as [[]|e].
    + pose proof (kv_clear_ok _ _ _ I Hs) as He. by rewrite Hget in He.
    + rewrite (kv_clear_err _ _ _ _ I Hs) in Hget. by apply Hinv.
  - rewrite (kv_clear_other _ _ _ _ k' I I Hs Hne) in Hget. by apply Hinv.
Qed.

End store_lemmas.

Section component_lemmas.
Context {BC : Bincode} (v : Validator).

Lemma heap_inv_insert next heap sid s :
  heap_inv v next heap → sid < next → session_inv v s → heap_inv v next (<[sid := s]> heap).
Proof.
  intros Hinv Hlt Hs sid' s'. destruct (decide (sid' = sid)) as [->|Hne].
  - rewrite lookup_insert_eq. by intros [= <-].
  - rewrite lookup_insert_ne by done. apply Hinv.
Qed.

Lemma heap_inv_delete next heap sid : heap_inv v next heap → heap_inv v next (delete sid heap).
Proof.
  intros Hinv sid' s'. rewrite lookup_delete_Some. intros [_ H]. by apply Hinv.
Qed.

Lemma heap_inv_mono next next' heap :
  next ≤ next' → heap_inv v next heap → heap_inv v next' heap.
Proof. intros Hle Hinv sid s Hs. destruct (Hinv sid s Hs). split; [lia|done]. Qed.

Lemma sessions_inv_insert next m p sid :
  sessions_inv next m → sid < next → sessions_inv next (<[p := sid]> m).
Proof.
  intros Hinv Hlt p' sid'. destruct (decide (p' = p)) as [->|Hne].
  - rewrite lookup_insert_eq. by intros [= <-].
  - rewrite lookup_insert_ne by done. apply Hinv.
Qed.

Lemma sessions_inv_delete next m p : sessions_inv next m → sessions_inv next (delete p m).
Proof. intros Hinv p' sid'. rewrite lookup_delete_Some. intros [_ H]. by eapply Hinv. Qed.

Lemma sessions_inv_mono next next' m :
  next ≤ next' → sessions_inv next m → sessions_inv next' m.
Proof. intros Hle Hinv p sid Hs. specialize (Hinv p sid Hs). lia. Qed.

Lemma tasks_inv_app ts1 ts2 :
  tasks_inv v (ts1 ++ ts2) ↔ tasks_inv v ts1 ∧ tasks_inv v ts2.
Proof.
  unfold tasks_inv. setoid_rewrite elem_of_app. naive_solver.
Qed.

Lemma tasks_inv_one t : (∀ m, m ∈ task_msgs t → authentic_msg v m) → tasks_inv v [t].
Proof. intros Ht t' m ->%list_elem_of_singleton. apply Ht. Qed.

Lemma session_inv_new ctx :
  certified v (peer_pubkey ctx) (peer_id ctx) → session_inv v (HomeSessionServer_new ctx).
Proof.
  intros Hc. split; simpl; [done| |].
  - intros msgs ev [= <-] Hin. by apply elem_of_nil in Hin.
  - intros app msgs c. by rewrite lookup_empty.
Qed.

Lemma session_inv_push_event s evs ev :
  session_inv v s → session_events s = Buffer evs → authentic_event v ev →
  session_inv v (mkSession (session_context s) (Buffer (evs ++ [Ok ev])) (session_apps s)).
Proof.
  intros [H1 H2 H3] Hs Hev. split; simpl; [done| |done].
  intros msgs ev' [= <-] [Hin|Hin%list_elem_of_singleton]%elem_of_app; [by eapply H2|].
  by injection Hin as ->.
Qed.

Lemma session_inv_push_call s app calls c :
  session_inv v s → default (Buffer []) (session_apps s !! app) = Buffer calls →
  authentic_call v c →
  session_inv v (mkSession (session_context s) (session_events s)
                   (<[app := Buffer (calls ++ [Ok c])]> (session_apps s))).
Proof.
  intros [H1 H2 H3] Hs Hc. split; simpl; [done|done|].
  intros app' msgs c'. destruct (decide (app' = app)) as [->|Hne].
  - rewrite lookup_insert_eq. intros [= <-] [Hin|Hin%list_elem_of_singleton]%elem_of_app.
    + destruct (session_apps s !! app) as [sink|] eqn:Happ; simpl in Hs.
      * subst sink. by eapply H3.
      * injection Hs as <-. by apply elem_of_nil in Hin.
    + by injection Hin as ->.
  - rewrite lookup_insert_ne by done. apply H3.
Qed.

Lemma session_inv_events s sink :
  session_inv v s →
  session_inv v (mkSession (session_context s) (Sender sink) (session_apps s)).
Proof. intros [H1 H2 H3]. by split. Qed.

Lemma session_inv_checkin s app sink :
  session_inv v s →
  session_inv v (mkSession (session_context s) (session_events s)
                   (<[app := Sender sink]> (session_apps s))).
Proof.
  intros [H1 H2 H3]. split; simpl; [done|done|].
  intros app' msgs c. destruct (decide (app' = app)) as [->|Hne].
  - by rewrite lookup_insert_eq.
  - rewrite lookup_insert_ne by done. apply H3.
Qed.

Context {Chans : Type} {CH : Channels ChanMsg Chans} {CHL : ChannelsLaws ChanMsg Chans}.

Lemma chans_inv_send s m (c : Chans) :
  chans_inv v c → authentic_msg v m → chans_inv v (mpsc_send s m c).2.
Proof.
  intros Hinv Hm s' m' Hin. destruct (mpsc_send s m c) as [[[]|e] c'] eqn:Hs; simpl in Hin.
  - destruct (mpsc_send_ok _ _ _ _ Hs) as [H1 H2]. destruct (decide (s' = s)) as [->|Hne].
    + rewrite H1 in Hin. apply elem_of_app in Hin as [Hin|Hin%list_elem_of_singleton];
        [by eapply Hinv|by subst].
    + rewrite H2 in Hin by done. by eapply Hinv.
  - rewrite (mpsc_send_err _ _ _ _ _ Hs) in Hin. by eapply Hinv.
Qed.

Lemma chans_inv_channel n (c : Chans) : chans_inv v c → chans_inv v (mpsc_channel n c).2.
Proof.
  intros Hinv s m Hin. destruct (mpsc_channel n c) as [s0 c'] eqn:Hs; simpl in Hin.
  destruct (mpsc_channel_new _ _ _ _ Hs) as [H1 H2]. destruct (decide (s = s0)) as [->|Hne].
  - rewrite H1 in Hin. by apply elem_of_nil in Hin.
  - rewrite H2 in Hin by done. by eapply Hinv.
Qed.

(** Operations on oneshots leave the other channels alone. *)
Lemma chans_inv_same (c c' : Chans) :
  (∀ s, mpsc_received s c' = mpsc_received s c) → chans_inv v c → chans_inv v c'.
Proof. intros Heq Hinv s m. rewrite Heq. apply Hinv. Qed.

Lemma chans_inv_drops calls (c : Chans) :
  chans_inv v c → chans_inv v (foldl (λ c call, oneshot_drop (call_sender call) c) c calls).
Proof.
  revert c; induction calls as [|call calls IH]; intros c Hinv; simpl; [done|].
  apply IH. eapply chans_inv_same; [|exact Hinv]. intros s. apply oneshot_drop_received.
Qed.

End component_lemmas.

#[export] Hint Resolve store_inv_set store_inv_clear heap_inv_insert heap_inv_delete
  sessions_inv_insert sessions_inv_delete session_inv_new session_inv_push_event
  session_inv_push_call session_inv_events session_inv_checkin chans_inv_send
  chans_inv_channel chans_inv_drops : mercury.

(** ** The operations keep the invariant *)

Section operations.
Context {BC : Bincode} {Dht Db Chans : Type}
        {DHT : KeyValueStore Dht ProfileId Profile}
        {DB : KeyValueStore Db ProfileId OwnProfile}
        {CH : Channels ChanMsg Chans}
        {DHTL : KeyValueStoreLaws Dht ProfileId Profile any_key}
        {DBL : KeyValueStoreLaws Db ProfileId OwnProfile any_key}
        {CHL : ChannelsLaws ChanMsg Chans}.
Context (v : Validator).
Abbreviation W := (HomeServer Dht Db Chans).
Implicit Types (w : W) (conn : HomeConnectionServer).

Lemma Inv_set_dht w d : Inv v w → store_inv v id d → Inv v (set_dht d w).
Proof. by intros []; split. Qed.
Lemma Inv_set_db w d : Inv v w → store_inv v own_profile d → Inv v (set_db d w).
Proof. by intros []; split. Qed.
Lemma Inv_set_sessions w m : Inv v w → sessions_inv (next_session w) m → Inv v (set_sessions m w).
Proof. by intros []; split. Qed.
Lemma Inv_set_heap w h : Inv v w → heap_inv v (next_session w) h → Inv v (set_heap h w).
Proof. by intros []; split. Qed.
Lemma Inv_set_spawned w ts : Inv v w → tasks_inv v ts → Inv v (set_spawned ts w).
Proof. by intros []; split. Qed.
Lemma Inv_set_chans w c : Inv v w → chans_inv v c → Inv v (set_chans c w).
Proof. by intros []; split. Qed.

Hint Resolve Inv_set_dht Inv_set_db Inv_set_sessions Inv_set_heap Inv_set_spawned Inv_set_chans
  inv_dht inv_db inv_heap inv_sessions inv_tasks inv_chans : mercury.

Lemma Inv_put_session w sid s :
  Inv v w → sid < next_session w → session_inv v s → Inv v (put_session sid s w).
Proof. intros. apply Inv_set_heap; eauto with mercury. Qed.

Lemma Inv_send w sink m :
  Inv v w → authentic_msg v m → Inv v (set_chans (mpsc_send sink m (chans w)).2 w).
Proof. eauto with mercury. Qed.

Lemma fut_dht_set k p :
  profile_id p = k → certified v (profile_public_key p) k →
  fut_triple (Inv v) (dht_set k p) anything.
Proof.
  intros Hid Hc w Hw. unfold dht_set.
  pose proof (store_inv_set v id _ k p (inv_dht _ _ Hw) Hid Hc).
  destruct (kv_set k p (public_profile_dht w)); simpl in *. split; eauto with mercury.
Qed.

Lemma fut_db_set k p :
  profile_id (own_profile p) = k → certified v (profile_public_key (own_profile p)) k →
  fut_triple (Inv v) (db_set k p) anything.
Proof.
  intros Hid Hc w Hw. unfold db_set.
  pose proof (store_inv_set v own_profile _ k p (inv_db _ _ Hw) Hid Hc).
  destruct (kv_set k p (hosted_profile_db w)); simpl in *. split; eauto with mercury.
Qed.

(** A push through a sink, once the future is polled. *)
Lemma fut_send {E} (f : string → E) sink m :
  authentic_msg v m →
  fut_triple (Inv v) (λ w : W, let '(r, c) := mpsc_send sink m (chans w) in
                               (map_err f r, set_chans c w)) anything.
Proof.
  intros Hm w Hw. pose proof (Inv_send w sink m Hw Hm) as H.
  destruct (mpsc_send sink m (chans w)); simpl in *. split; eauto with mercury.
Qed.

Lemma call_session_push_event sid ev :
  authentic_event v ev → call_triple (Inv v) (session_push_event sid ev) anything.
Proof.
  intros Hev w Hw. unfold session_push_event.
  destruct (session_heap w !! sid) as [s|] eqn:Hs; [|split; [done|by apply fut_ok]].
  destruct (inv_heap _ _ Hw sid s Hs) as [Hlt Hsi].
  destruct (session_events s) as [evs|sink] eqn:He; simpl.
  - split; [|by apply fut_ok]. apply Inv_put_session; eauto with mercury.
  - split; [done|]. by apply fut_send.
Qed.

Lemma call_session_push_call sid app c :
  authentic_call v c → call_triple (Inv v) (session_push_call sid app c) anything.
Proof.
  intros Hc w Hw. unfold session_push_call.
  destruct (session_heap w !! sid) as [s|] eqn:Hs; [|split; [done|by apply fut_ok]].
  destruct (inv_heap _ _ Hw sid s Hs) as [Hlt Hsi].
  destruct (default (Buffer []) (session_apps s !! app)) as [calls|sink] eqn:Happ; simpl.
  - split; [|by apply fut_ok]. apply Inv_put_session; eauto with mercury.
  - split; [done|]. by apply fut_send.
Qed.

Lemma fut_get_live_session p w : fut_triple (Inv v) (get_live_session p w).1 anything.
Proof.
  apply fut_map_err, (fut_and_then _ _ _ anything); [by apply fut_result|].
  intros a _ w' Hw'. split; [done|by apply fut_ok].
Qed.

Lemma call_push_event p ev :
  authentic_event v ev → call_triple (Inv v) (push_event p ev) anything.
Proof.
  intros Hev w Hw. unfold push_event. split; [done|]. simpl.
  eapply fut_and_then; [apply (fut_get_live_session p w)|].
  intros [sid|] _; [by apply call_session_push_event|]. by apply call_pure, fut_ok.
Qed.

Lemma call_push_call p app c :
  authentic_call v c → call_triple (Inv v) (push_call p app c) anything.
Proof.
  intros Hc w Hw. unfold push_call. split; [done|]. simpl.
  eapply fut_and_then; [apply (fut_get_live_session p w)|].
  intros [sid|] _; [by apply call_session_push_call|]. intros w' Hw'. simpl.
  split; [|by apply fut_ok]. apply Inv_set_chans; [done|].
  apply (chans_inv_drops v [c]). eauto with mercury.
Qed.

Lemma call_validate_with_peer conn rp prof :
  valid_connection v conn → certified v (profile_public_key (own_profile prof))
                                       (profile_id (own_profile prof)) →
  call_triple (Inv v) (validate_with_peer conn rp prof) (λ _, authentic_relation v rp).
Proof.
  intros Hconn Hprof w Hw. unfold validate_with_peer. split; [done|].
  apply fut_result. intros [] Hok%map_err_ok. rewrite (inv_validator _ _ Hw) in Hok.
  unfold authentic_relation. eauto 10.
Qed.

Lemma push_home_profile own_prof proof modified :
  push_home own_prof proof = Some modified →
  profile_id (own_profile modified) = profile_id (own_profile own_prof)
  ∧ profile_public_key (own_profile modified) = profile_public_key (own_profile own_prof).
Proof. unfold push_home. destruct (profile_facet _); by intros [= <-]. Qed.

Lemma validate_half_proof_err_ok vl hp pk :
  is_err (validate_half_proof vl hp pk) = false → validate_half_proof vl hp pk = Ok tt.
Proof. by destruct (validate_half_proof vl hp pk) as [[]|]. Qed.

(** Loading a stored profile gives one of the certified ones. *)
Lemma stored_profile w k own :
  Inv v w → kv_get k (hosted_profile_db w) = Ok own →
  certified v (profile_public_key (own_profile own)) (profile_id (own_profile own)).
Proof. intros Hw Hget. by destruct (inv_db _ _ Hw _ _ Hget) as [-> ?]. Qed.

Lemma call_load conn id : call_triple (Inv v) (load conn id) anything.
Proof. intros w Hw. split; [done|]. by apply fut_map_err, fut_result. Qed.

Lemma call_claim conn id : call_triple (Inv v) (claim conn id) anything.
Proof.
  intros w Hw. unfold claim. case_decide; (split; [done|]); [apply fut_err|].
  by apply fut_map_err, fut_result.
Qed.

Lemma call_register conn own hp inv :
  valid_connection v conn → call_triple (Inv v) (register conn own hp inv) anything.
Proof.
  intros Hconn w Hw. unfold register.
  destruct (decide (profile_id _ ≠ _)) as [|Hid0%dec_stable]; [split; [done|apply fut_err]|].
  destruct (decide (profile_public_key _ ≠ _)) as [|Hpk0%dec_stable];
    [split; [done|apply fut_err]|].
  repeat (case_decide; [split; [done|apply fut_err]|]).
  destruct (is_err _); [split; [done|apply fut_err]|].
  destruct (sign_remaining_half _ _) as [proof|e]; [|split; [done|apply fut_err]].
  destruct (push_home own proof) as [modified|] eqn:Hm; [|split; [done|apply fut_err]].
  apply push_home_profile in Hm as [Hid Hpk].
  assert (certified v (profile_public_key (own_profile modified))
                      (profile_id (own_profile modified))) as Hc.
  { by rewrite Hid, Hpk, Hid0, Hpk0. }
  split; [done|]. simpl.
  eapply (fut_and_then _ _ _ anything); [eapply (fut_and_then _ _ _ anything)|].
  - eapply (fut_then _ _ _ anything); [by apply fut_result|]. intros r _.
    by apply call_io_ret, fut_result.
  - intros _ _. by apply call_io_ret, fut_map_err, fut_dht_set.
  - intros _ _. apply call_io_ret, fut_map_err. eapply fut_map; [by apply fut_db_set|done].
Qed.

Lemma call_login conn proof :
  valid_connection v conn → call_triple (Inv v) (login conn proof) anything.
Proof.
  intros Hconn w Hw. unfold login. case_decide; [split; [done|apply fut_err]|].
  destruct (proof_peer_id _ _) as [p|e]; [|split; [done|apply fut_err]].
  split; [done|]. simpl. apply fut_map_err, (fut_and_then _ _ _ anything); [by apply fut_result|].
  clear w Hw. intros _ _ w Hw. simpl. split; [|by apply fut_ok].
  assert (Inv v (set_next (S (next_session w))
    (set_heap (<[next_session w := HomeSessionServer_new (context conn)]> (session_heap w)) w)))
    as Hw'.
  { destruct Hw as [H1 H2 H3 H4 H5 H6 H7]. split; simpl; try done.
    - apply heap_inv_insert; [|lia|by apply session_inv_new].
      eapply heap_inv_mono; [|exact H4]. lia.
    - eapply sessions_inv_mono; [|exact H5]. lia. }
  destruct (sessions w !! p); [done|]. apply Inv_set_sessions; [done|].
  apply sessions_inv_insert; [apply (inv_sessions _ _ Hw')|simpl; lia].
Qed.

Lemma call_pair_request conn hp :
  valid_connection v conn → call_triple (Inv v) (pair_request conn hp) anything.
Proof.
  intros Hconn w Hw. unfold pair_request. case_decide as Hs; [split; [done|apply fut_err]|]. destruct (is_err _) eqn:He; [split; [done|apply fut_err]|].
  apply call_push_event; [|done]. simpl. exists (peer_pubkey (context conn)).
  rewrite Hs, <- (inv_validator _ _ Hw). split; [|by apply validate_half_proof_err_ok].
  by rewrite (inv_validator _ _ Hw).
Qed.

Lemma call_pair_response conn rp :
  valid_connection v conn →
  call_triple (Inv v) (pair_response conn rp) (λ _, authentic_relation v rp).
Proof.
  intros Hconn w Hw. unfold pair_response.
  destruct (proof_peer_id _ _) as [p|e]; [|split; [done|apply fut_err]].
  split; [done|]. simpl. eapply fut_and_then; [eapply fut_and_then|].
  - apply fut_map_err, fut_result. intros own Hown. exact (stored_profile _ _ _ Hw Hown).
  - intros own Hown. by apply call_validate_with_peer.
  - intros [] Hrp w1 Hw1. destruct (call_push_event p (PairingResponse rp) Hrp w1 Hw1) as [H1 H2].
    split; [done|]. intros w2 Hw2. by destruct (H2 w2 Hw2).
Qed.

Lemma call_call conn app req timeout :
  valid_connection v conn → call_triple (Inv v) (call conn app req timeout) anything.
Proof.
  intros Hconn w Hw. unfold call.
  destruct (proof_peer_id _ _) as [p|e]; [|split; [done|apply fut_err]].
  destruct (oneshot_channel (chans w)) as [chan c] eqn:Hch.
  assert (Inv v (set_chans c w)) as Hw'.
  { apply Inv_set_chans; [done|]. eapply chans_inv_same; [|exact (inv_chans _ _ Hw)].
    by eapply oneshot_channel_new. }
  destruct timeout as [[]|e]; (split; [done|]); [|apply fut_err]. cbn [fst].
  eapply (fut_and_then _ _ _ anything); [eapply fut_and_then; [eapply fut_and_then|]|].
  - apply fut_map_err, fut_result. intros own Hown. exact (stored_profile _ _ _ Hw Hown).
  - intros own Hown. by apply call_validate_with_peer.
  - intros [] Hrp w2 Hw2. destruct (push_call p app (Call_new req chan) w2) as [push w3] eqn:Hpush.
    destruct (call_push_call p app (Call_new req chan) Hrp w2 Hw2) as [Hw3 Hf].
    rewrite Hpush in Hw3, Hf. split; [done|]. apply fut_map_err; exact Hf.
  - intros _ _. by apply call_io_ret, fut_ok.
Qed.

Lemma call_update ctx own :
  certified v (peer_pubkey ctx) (peer_id ctx) → call_triple (Inv v) (update ctx own) anything.
Proof.
  intros Hctx w Hw. unfold update.
  case_decide as Hid; [split; [done|apply fut_err]|].
  case_decide as Hpk; [split; [done|apply fut_err]|].
  rewrite <- Hid, <- Hpk in Hctx. split; [done|]. simpl. apply fut_map_err.
  eapply (fut_and_then _ _ _ anything); [eapply (fut_and_then _ _ _ anything)|].
  - by apply fut_result.
  - intros _ _. by apply call_io_ret, fut_dht_set.
  - intros _ _. by apply call_io_ret, fut_db_set.
Qed.

Lemma call_unregister ctx newhome : call_triple (Inv v) (unregister ctx newhome) anything.
Proof.
  intros w Hw. unfold unregister. simpl.
  pose proof (store_inv_clear v own_profile _ (peer_id ctx) (inv_db _ _ Hw)) as Hdb.
  destruct (kv_clear_local _ (hosted_profile_db w)) as [r1 db]. simpl in *.
  pose proof (store_inv_clear v id _ (peer_id ctx) (inv_dht _ _ Hw)) as Hdht.
  destruct (kv_clear_local _ (public_profile_dht w)) as [r2 dht]. simpl in *.
  split.
  - apply Inv_set_dht; [apply Inv_set_db|]; eauto with mercury.
  - apply fut_map_err, (fut_and_then _ _ _ anything); [by apply fut_result|].
    intros _ _. by apply call_io_ret, fut_result.
Qed.

Lemma Inv_spawn w t : Inv v w → (∀ m, m ∈ task_msgs t → authentic_msg v m) → Inv v (spawn t w).
Proof.
  intros Hw Ht. apply Inv_set_spawned; [done|]. apply tasks_inv_app.
  split; [apply (inv_tasks _ _ Hw)|by apply tasks_inv_one].
Qed.

Lemma Inv_new_channel w n : Inv v w → Inv v (set_chans (mpsc_channel n (chans w)).2 w).
Proof. eauto with mercury. Qed.

Lemma triple_checkin_app sid app : triple (Inv v) (checkin_app sid app) anything.
Proof.
  intros w Hw. split; [|done]. unfold checkin_app.
  destruct (session_heap w !! sid) as [s|] eqn:Hs; [|done].
  destruct (inv_heap _ _ Hw sid s Hs) as [Hlt Hsi].
  pose proof (Inv_new_channel w CHANNEL_CAPACITY Hw) as Hw'.
  destruct (mpsc_channel _ (chans w)) as [sender c]. simpl in *.
  assert (Inv v (put_session sid (mkSession (session_context s) (session_events s)
            (<[app := Sender sender]> (session_apps s))) (set_chans c w))) as Hw2.
  { apply Inv_put_session; eauto with mercury. }
  destruct (session_apps s !! app) as [[calls|old]|] eqn:Happ; [| |done].
  - apply Inv_spawn; [done|]. simpl. intros m (r & -> & Hr)%list_elem_of_fmap.
    destruct r as [call|]; [|done]. by eapply (si_calls _ _ Hsi).
  - apply Inv_spawn; [done|]. by intros m ->%list_elem_of_singleton.
Qed.

Lemma triple_events sid : triple (Inv v) (events sid) anything.
Proof.
  intros w Hw. split; [|done]. unfold events.
  destruct (session_heap w !! sid) as [s|] eqn:Hs; [|done].
  destruct (inv_heap _ _ Hw sid s Hs) as [Hlt Hsi].
  pose proof (Inv_new_channel w CHANNEL_CAPACITY Hw) as Hw'.
  destruct (mpsc_channel _ (chans w)) as [sender c]. simpl in *.
  assert (Inv v (put_session sid (mkSession (session_context s) (Sender sender)
            (session_apps s)) (set_chans c w))) as Hw2.
  { apply Inv_put_session; eauto with mercury. }
  destruct (session_events s) as [evs|old] eqn:He.
  - apply Inv_spawn; [done|]. simpl. intros m (r & -> & Hr)%list_elem_of_fmap.
    destruct r as [ev|]; [|done]. by eapply (si_events _ _ Hsi).
  - apply Inv_spawn; [done|]. by intros m ->%list_elem_of_singleton.
Qed.

Lemma Inv_drop_session w sid : Inv v w → Inv v (drop_session sid w).
Proof.
  intros Hw. unfold drop_session. destruct (session_heap w !! sid) as [s|]; [|done].
  apply Inv_set_chans; [apply Inv_set_heap; [apply Inv_set_sessions|]|];
    simpl; eauto with mercury.
Qed.

Lemma Inv_answer w c to_callee : Inv v w → Inv v (answer c to_callee w).2.
Proof.
  intros Hw. unfold answer.
  pose proof (oneshot_send_received (call_sender c) to_callee (chans w)) as Hr.
  destruct (oneshot_send _ _ _) as [r cs]. simpl in *.
  apply Inv_set_chans; [done|]. by eapply chans_inv_same; [|apply (inv_chans _ _ Hw)].
Qed.

(** One send of a task keeps the invariant, and what is left of it is still
    made of authentic messages. *)
Lemma Inv_run_task w t :
  Inv v w → (∀ m, m ∈ task_msgs t → authentic_msg v m) →
  Inv v (run_task t w).2 ∧ spawned (run_task t w).2 = spawned w
  ∧ tasks_inv v (option_list (run_task t w).1).
Proof.
  intros Hw Ht. destruct t as [sink m|sink [|m ms]]; simpl.
  - split_and!; [apply Inv_send; [done|apply Ht; by left]|done|].
    by intros t m' ?%elem_of_nil.
  - split_and!; [done|done|]. by intros t m' ?%elem_of_nil.
  - pose proof (Inv_send w sink m Hw (Ht m ltac:(by left))) as Hw'.
    destruct (mpsc_send sink m (chans w)) as [[]c]; simpl in *; split_and!; try done.
    + apply tasks_inv_one. simpl. intros m' Hm'. apply Ht. by right.
    + by intros t m' ?%elem_of_nil.
Qed.

Lemma call_respond {E A} (f : Result E A → Response) (m : IO W (Future W E A)) P w :
  call_triple (Inv v) m P → Inv v w →
  Inv v (respond f m w).2 ∧ triple (Inv v) (respond f m w).1 anything.
Proof.
  intros Hm Hw. destruct (Hm w Hw) as [Hw' Hf]. unfold respond.
  destruct (m w) as [fut w']; simpl in *. split; [done|]. intros w2 Hw2. simpl.
  destruct (Hf w2 Hw2) as [Hw3 _]. destruct (fut w2); simpl in *. by split.
Qed.

Lemma serve_keeps conn req w :
  valid_connection v conn → Inv v w →
  Inv v (serve conn req w).2 ∧ triple (Inv v) (serve conn req w).1 anything.
Proof.
  intros Hconn Hw. destruct req; cbn [serve]; eapply call_respond; try done.
  - apply call_load.
  - apply call_claim.
  - by apply call_register.
  - by apply call_login.
  - by apply call_pair_request.
  - by apply call_pair_response.
  - by apply call_call.
Qed.

Lemma serve_session_keeps sid s req w :
  session_heap w !! sid = Some s → Inv v w →
  Inv v (serve_session sid (session_context s) req w).2
  ∧ triple (Inv v) (serve_session sid (session_context s) req w).1 anything.
Proof.
  intros Hs Hw. destruct (inv_heap _ _ Hw sid s Hs) as [_ [Hctx _ _]].
  destruct req; cbn [serve_session].
  - eapply call_respond; [by apply call_update|done].
  - eapply call_respond; [apply call_unregister|done].
  - destruct (triple_checkin_app sid app w Hw) as [Hw' _].
    destruct (checkin_app sid app w); simpl in *. split; [done|]. by apply triple_ret.
  - destruct (triple_events sid w Hw) as [Hw' _].
    destruct (events sid w); simpl in *. split; [done|]. by apply triple_ret.
  - eapply (call_respond _ _ anything); [|done]. by apply call_io_ret, fut_ok.
Qed.

End operations.

(** ** Reachable states *)

Section reachable.
Context {BC : Bincode} {Dht Db Chans : Type}
        {DHT : KeyValueStore Dht ProfileId Profile}
        {DB : KeyValueStore Db ProfileId OwnProfile}
        {CH : Channels ChanMsg Chans}
        {DHTL : KeyValueStoreLaws Dht ProfileId Profile any_key}
        {DBL : KeyValueStoreLaws Db ProfileId OwnProfile any_key}
        {CHL : ChannelsLaws ChanMsg Chans}.
Context (v : Validator).
Implicit Types s : System (Dht:=Dht) (Db:=Db) (Chans:=Chans).

Lemma new_connection_valid ctx conn (w : HomeServer Dht Db Chans) :
  HomeConnectionServer_new ctx w = Ok conn →
  context conn = ctx ∧ certified (server_validator w) (peer_pubkey ctx) (peer_id ctx).
Proof.
  unfold HomeConnectionServer_new, PeerContext_validate, certified.
  destruct (validate_profile _ _ _) as [[]|]; by intros [= <-].
Qed.

Lemma tasks_inv_replace ts1 t ts2 rest :
  tasks_inv v (ts1 ++ t :: ts2) → tasks_inv v (option_list rest) →
  tasks_inv v (ts1 ++ option_list rest ++ ts2).
Proof.
  rewrite !tasks_inv_app. change (t :: ts2) with ([t] ++ ts2). rewrite tasks_inv_app. tauto.
Qed.

Lemma step_keeps s s' : SystemInv v s → step s s' → SystemInv v s'.
Proof.
  intros [Hw Hc Hp] Hstep. destruct Hstep; simpl in *.
  - split; simpl; [done| |done]. constructor; [|done].
    apply new_connection_valid in H as [Hctx Hv]. unfold valid_connection.
    by rewrite Hctx, <- (inv_validator _ _ Hw).
  - assert (valid_connection v conn) as Hconn.
    { rewrite Forall_forall in Hc. by apply Hc, list_elem_of_In. }
    destruct (serve_keeps v conn req w Hconn Hw) as [Hw' Hf].
    rewrite H0 in Hw', Hf. split; simpl; [done|done|].
    apply Forall_app; split; [done|]. by constructor.
  - destruct (serve_session_keeps v sid s req w H Hw) as [Hw' Hf].
    rewrite H0 in Hw', Hf. split; simpl; [done|done|].
    apply Forall_app; split; [done|]. by constructor.
  - apply Forall_app in Hp as [Hp1 [Hf Hp2]%Forall_cons_1].
    destruct (Hf w Hw) as [Hw' _]. rewrite H in Hw'.
    split; simpl; [done|done|]. by apply Forall_app.
  - apply Forall_app in Hp as [Hp1 [Hf Hp2]%Forall_cons_1].
    split; simpl; [done|done|]. by apply Forall_app.
  - pose proof (inv_tasks _ _ Hw) as Hts. rewrite H in Hts.
    destruct (Inv_run_task v w t Hw) as (Hw' & Hsp & Hrest).
    { intros m Hm. apply (Hts t); [|done]. apply elem_of_app. right. by left. }
    rewrite H0 in Hw', Hrest. simpl in *.
    split; simpl; [|done|done]. apply Inv_set_spawned; [done|]. by eapply tasks_inv_replace.
  - split; simpl; [by apply Inv_drop_session|done|done].
  - split; simpl; [by apply Inv_answer|done|done].
  - split; simpl; [|done|done]. apply Inv_set_chans; [done|].
    intros snk m Hm. destruct (H snk m Hm) as [Hold|[f ->]]; [|done].
    by eapply (inv_chans _ _ Hw).
Qed.

Lemma initial_inv dht db c :
  store_inv v id dht → store_inv v own_profile db → chans_inv v c →
  SystemInv v (initial v dht db c).
Proof.
  intros Hdht Hdb Hc. split; simpl; [|constructor|constructor].
  split; simpl; try done.
  - intros t m Ht. by apply elem_of_nil in Ht.
Qed.

Lemma reachable_inv dht db c s :
  store_inv v id dht → store_inv v own_profile db → chans_inv v c →
  reachable (initial v dht db c) s → SystemInv v s.
Proof.
  intros Hdht Hdb Hc Hr. pose proof (initial_inv dht db c Hdht Hdb Hc) as Hinv.
  revert Hinv. generalize (initial v dht db c) as s0, Hr. clear Hr. intros s0 Hr.
  induction Hr as [|s0 s1 s2 Hstep Hr IH]; intros Hinv; [done|].
  apply IH. by eapply step_keeps.
Qed.

End reachable.

(** ** Clients keep to their own entries

    [others_kept k r p] is the invariant that the databases answer [r] and [p]
    for the profile [k]. *)

Section isolation.
Context {BC : Bincode} {Dht Db Chans : Type}
        {DHT : KeyValueStore Dht ProfileId Profile}
        {DB : KeyValueStore Db ProfileId OwnProfile}
        {CH : Channels ChanMsg Chans}
        {DHTL : KeyValueStoreLaws Dht ProfileId Profile any_key}
        {DBL : KeyValueStoreLaws Db ProfileId OwnProfile any_key}.
Context (k : ProfileId) (own : Result Errors.Storage.StorageError OwnProfile)
        (pub : Result Errors.Storage.StorageError Profile).
Abbreviation W := (HomeServer Dht Db Chans).
Implicit Types (w : W) (conn : HomeConnectionServer).

Definition others_kept w : Prop :=
  kv_get k (hosted_profile_db w) = own ∧ kv_get k (public_profile_dht w) = pub.

Lemma kept_dht_set k' p : k ≠ k' → fut_triple others_kept (dht_set k' p) anything.
Proof.
  intros Hne w [H1 H2]. unfold dht_set. destruct (kv_set k' p _) as [r d] eqn:Hs.
  split; [|done]. split; simpl; [done|].
  by rewrite (kv_set_other _ _ _ _ _ k I I Hs Hne).
Qed.

Lemma kept_db_set k' p : k ≠ k' → fut_triple others_kept (db_set k' p) anything.
Proof.
  intros Hne w [H1 H2]. unfold db_set. destruct (kv_set k' p _) as [r d] eqn:Hs.
  split; [|done]. split; simpl; [|done].
  by rewrite (kv_set_other _ _ _ _ _ k I I Hs Hne).
Qed.

(** A future that sends, or has nothing to do. *)
Lemma kept_send {E} (f : string → E) sink m :
  fut_triple others_kept (λ w : W, let '(r, c) := mpsc_send sink m (chans w) in
                                  (map_err f r, set_chans c w)) anything.
Proof. intros w Hw. by destruct (mpsc_send sink m (chans w)). Qed.

Lemma kept_session_push_event sid ev :
  call_triple others_kept (session_push_event sid ev) anything.
Proof.
  intros w Hw. unfold session_push_event. repeat case_match; simpl; (split; [done|]);
    by first [apply fut_ok|apply kept_send].
Qed.

Lemma kept_session_push_call sid app c :
  call_triple others_kept (session_push_call sid app c) anything.
Proof.
  intros w Hw. unfold session_push_call. repeat case_match; simpl; (split; [done|]);
    by first [apply fut_ok|apply kept_send].
Qed.

Lemma kept_get_live_session p w : fut_triple others_kept (get_live_session p w).1 anything.
Proof.
  apply fut_map_err, (fut_and_then _ _ _ anything); [by apply fut_result|].
  intros a _ w' Hw'. split; [done|by apply fut_ok].
Qed.

Lemma kept_push_event p ev : call_triple others_kept (push_event p ev) anything.
Proof.
  intros w Hw. split; [done|]. eapply fut_and_then; [apply (kept_get_live_session p w)|].
  intros [sid|] _; [apply kept_session_push_event|]. by apply call_pure, fut_ok.
Qed.

Lemma kept_push_call p app c : call_triple others_kept (push_call p app c) anything.
Proof.
  intros w Hw. split; [done|]. eapply fut_and_then; [apply (kept_get_live_session p w)|].
  intros [sid|] _; [apply kept_session_push_call|]. intros w' Hw'. split; [done|by apply fut_ok].
Qed.

Lemma kept_validate_with_peer conn rp prof :
  call_triple others_kept (validate_with_peer conn rp prof) anything.
Proof. intros w Hw. split; [done|by apply fut_result]. Qed.

Lemma kept_register conn op hp inv :
  k ≠ peer_id (context conn) → call_triple others_kept (register conn op hp inv) anything.
Proof.
  intros Hne w Hw. unfold register.
  case_decide as Hid; [split; [done|apply fut_err]|].
  repeat (case_decide; [split; [done|apply fut_err]|]).
  destruct (is_err _); [split; [done|apply fut_err]|].
  destruct (sign_remaining_half _ _) as [proof|e]; [|split; [done|apply fut_err]].
  destruct (push_home op proof) as [modified|] eqn:Hm; [|split; [done|apply fut_err]].
  apply push_home_profile in Hm as [Hid' _]. rewrite <- Hid, <- Hid' in Hne.
  split; [done|]. simpl.
  eapply (fut_and_then _ _ _ anything); [eapply (fut_and_then _ _ _ anything)|].
  - eapply (fut_then _ _ _ anything); [by apply fut_result|]. intros r _.
    by apply call_io_ret, fut_result.
  - intros _ _. by apply call_io_ret, fut_map_err, kept_dht_set.
  - intros _ _. apply call_io_ret, fut_map_err. eapply fut_map; [by apply kept_db_set|done].
Qed.

Lemma kept_login conn proof : call_triple others_kept (login conn proof) anything.
Proof.
  intros w Hw. unfold login. case_decide; [split; [done|apply fut_err]|].
  destruct (proof_peer_id _ _) as [p|e]; [|split; [done|apply fut_err]].
  split; [done|]. apply fut_map_err, (fut_and_then _ _ _ anything); [by apply fut_result|].
  intros _ _ w' Hw'. simpl. split; [by case_match|by apply fut_ok].
Qed.

Lemma kept_pair_response conn rp : call_triple others_kept (pair_response conn rp) anything.
Proof.
  intros w Hw. unfold pair_response.
  destruct (proof_peer_id _ _) as [p|e]; [|split; [done|apply fut_err]].
  split; [done|]. eapply (fut_and_then _ _ _ anything); [eapply (fut_and_then _ _ _ anything)|].
  - by apply fut_map_err, fut_result.
  - intros own' _. apply kept_validate_with_peer.
  - intros [] _. apply kept_push_event.
Qed.

Lemma kept_call conn app req timeout : call_triple others_kept (call conn app req timeout) anything.
Proof.
  intros w Hw. unfold call.
  destruct (proof_peer_id _ _) as [p|e]; [|split; [done|apply fut_err]].
  destruct (oneshot_channel (chans w)) as [chan c].
  destruct timeout as [[]|e]; (split; [done|]); [|apply fut_err]. cbn [fst].
  eapply (fut_and_then _ _ _ anything);
    [eapply (fut_and_then _ _ _ anything); [eapply (fut_and_then _ _ _ anything)|]|].
  - by apply fut_map_err, fut_result.
  - intros own' _. apply kept_validate_with_peer.
  - intros [] _ w2 Hw2.
    destruct (kept_push_call p app (Call_new req chan) w2 Hw2) as [Hw3 Hf].
    destruct (push_call _ _ _ w2). split; [done|]. apply fut_map_err; exact Hf.
  - intros _ _. by apply call_io_ret, fut_ok.
Qed.

Lemma kept_update ctx op : k ≠ peer_id ctx → call_triple others_kept (update ctx op) anything.
Proof.
  intros Hne w Hw. unfold update.
  case_decide as Hid; [split; [done|apply fut_err]|]. rewrite <- Hid in Hne.
  case_decide; [split; [done|apply fut_err]|].
  split; [done|]. apply fut_map_err.
  eapply (fut_and_then _ _ _ anything); [eapply (fut_and_then _ _ _ anything)|].
  - by apply fut_result.
  - intros _ _. by apply call_io_ret, kept_dht_set.
  - intros _ _. by apply call_io_ret, kept_db_set.
Qed.

Lemma kept_unregister ctx newhome :
  k ≠ peer_id ctx → call_triple others_kept (unregister ctx newhome) anything.
Proof.
  intros Hne w [H1 H2]. unfold unregister. simpl.
  destruct (kv_clear_local _ (hosted_profile_db w)) as [r1 db] eqn:Hdb. simpl.
  destruct (kv_clear_local _ (public_profile_dht w)) as [r2 dht] eqn:Hdht. simpl. split.
  - split; simpl.
    + by rewrite (kv_clear_other _ _ _ _ k I I Hdb Hne).
    + by rewrite (kv_clear_other _ _ _ _ k I I Hdht Hne).
  - apply fut_map_err, (fut_and_then _ _ _ anything); [by apply fut_result|].
    intros _ _. by apply call_io_ret, fut_result.
Qed.

Lemma kept_respond {E A} (f : Result E A → Response) (m : IO W (Future W E A)) P :
  call_triple others_kept m P →
  triple others_kept (respond f m) (λ fut, triple others_kept fut anything).
Proof.
  intros Hm w Hw. destruct (Hm w Hw) as [Hw' Hf]. unfold respond.
  destruct (m w) as [fut w']; simpl in *. split; [done|]. intros w2 Hw2. simpl.
  destruct (Hf w2 Hw2) as [Hw3 _]. destruct (fut w2); simpl in *. by split.
Qed.

End isolation.

(** ** Theorems *)

Section theorems.
Context {BC : Bincode} {Dht Db Chans : Type}
        {DHT : KeyValueStore Dht ProfileId Profile}
        {DB : KeyValueStore Db ProfileId OwnProfile}
        {CH : Channels ChanMsg Chans}
        {DHTL : KeyValueStoreLaws Dht ProfileId Profile any_key}
        {DBL : KeyValueStoreLaws Db ProfileId OwnProfile any_key}
        {CHL : ChannelsLaws ChanMsg Chans}.

(** C2: in every state a home server reaches, however requests, polls, tasks
    and disconnects interleave, a profile is stored only under its own id, and
    only with a public key that belongs to that id. *)
Theorem hosted_profiles_certified v (dht : Dht) (db : Db) (c : Chans) s k :
  store_inv v id dht → store_inv v own_profile db → chans_inv v c →
  reachable (initial v dht db c) s →
  (∀ own, kv_get k (hosted_profile_db (world s)) = Ok own →
     profile_id (own_profile own) = k
     ∧ validate_profile v (profile_public_key (own_profile own)) k = Ok true)
  ∧ (∀ p, kv_get k (public_profile_dht (world s)) = Ok p →
     profile_id p = k ∧ validate_profile v (profile_public_key p) k = Ok true).
Proof.
  intros Hdht Hdb Hc Hr. destruct (reachable_inv v _ _ _ _ Hdht Hdb Hc Hr) as [Hw _ _].
  split; intros x Hx; [by apply (inv_db _ _ Hw)|by apply (inv_dht _ _ Hw)].
Qed.

(** C3: in every reachable state each event and call that waits in a session,
    is on its way in a spawned task, or was handed to a client's channel, was
    authenticated by the home: a pairing request is signed by the profile it
    names as its sender, and a pairing response or a call comes with a relation
    proof signed by both of its sides. *)
Theorem delivered_messages_authentic v (dht : Dht) (db : Db) (c : Chans) s :
  store_inv v id dht → store_inv v own_profile db → chans_inv v c →
  reachable (initial v dht db c) s →
  (∀ sid sess evs ev, session_heap (world s) !! sid = Some sess →
     session_events sess = Buffer evs → Ok ev ∈ evs → authentic_event v ev)
  ∧ (∀ sid sess app calls cl, session_heap (world s) !! sid = Some sess →
     session_apps sess !! app = Some (Buffer calls) → Ok cl ∈ calls → authentic_call v cl)
  ∧ (∀ t m, t ∈ spawned (world s) → m ∈ task_msgs t → authentic_msg v m)
  ∧ (∀ sink m, m ∈ mpsc_received sink (chans (world s)) → authentic_msg v m).
Proof.
  intros Hdht Hdb Hc Hr. destruct (reachable_inv v _ _ _ _ Hdht Hdb Hc Hr) as [Hw _ _].
  split_and!.
  - intros sid sess evs ev Hs He Hin. destruct (inv_heap _ _ Hw sid sess Hs) as [_ Hsi].
    by eapply (si_events _ _ Hsi).
  - intros sid sess app calls cl Hs Ha Hin. destruct (inv_heap _ _ Hw sid sess Hs) as [_ Hsi].
    by eapply (si_calls _ _ Hsi).
  - apply (inv_tasks _ _ Hw).
  - apply (inv_chans _ _ Hw).
Qed.

(** C19: isolation: no request of one client, on its connection or on one of its
    sessions, changes what either database holds for another profile, neither
    when it is made nor when its future is polled, whatever happens between. *)
Theorem client_isolation conn sid ctx req sreq k own pub :
  k ≠ peer_id (context conn) → k ≠ peer_id ctx →
  triple (others_kept k own pub (Dht:=Dht) (Db:=Db) (Chans:=Chans)) (serve conn req)
    (λ fut, triple (others_kept k own pub) fut anything)
  ∧ triple (others_kept k own pub (Dht:=Dht) (Db:=Db) (Chans:=Chans)) (serve_session sid ctx sreq)
    (λ fut, triple (others_kept k own pub) fut anything).
Proof.
  intros Hconn Hctx. split.
  - destruct req; cbn [serve]; eapply (kept_respond _ _ _ _ _ anything).
    + intros w Hw. split; [done|]. by apply fut_map_err, fut_result.
    + intros w Hw. unfold claim. case_decide; (split; [done|]); [apply fut_err|].
      by apply fut_map_err, fut_result.
    + by apply kept_register.
    + apply kept_login.
    + intros w Hw. unfold pair_request. case_decide; [split; [done|apply fut_err]|].
      destruct (is_err _); [split; [done|apply fut_err]|]. by apply kept_push_event.
    + apply kept_pair_response.
    + apply kept_call.
  - destruct sreq; cbn [serve_session].
    + by eapply kept_respond, kept_update.
    + by eapply kept_respond, kept_unregister.
    + intros w Hw. unfold checkin_app. repeat case_match; simplify_eq/=; done.
    + intros w Hw. unfold events. repeat case_match; simplify_eq/=; done.
    + eapply (kept_respond _ _ _ _ _ anything). by apply call_io_ret, fut_ok.
Qed.

End theorems.
