(* ===== verification/HomeServerProps.v ===== *)
(** * Functional behaviour of the home node

    What registration, login, event delivery, calls and deregistration do,
    branch by branch, and what happens when the two phases of an operation
    interleave with others. *)

From S2P Require Import Prelude Errors External Storage Protocol Crypto Relation Hoare.
From S2P Require Import HomeServer HomeInvariants.

Section specs.
Context {BC : Bincode} {Dht Db Chans : Type}
        {DHT : KeyValueStore Dht ProfileId Profile}
        {DB : KeyValueStore Db ProfileId OwnProfile}
        {CH : Channels ChanMsg Chans}.
Abbreviation W := (HomeServer Dht Db Chans).
Implicit Types (w : W) (conn : HomeConnectionServer).

(** What a registration has to be for the home to accept it. *)
Record registrable (w : W) conn (own : OwnProfile) (hp : RelationHalfProof) : Prop := {
  rg_id : profile_id (own_profile own) = peer_id (context conn);
  rg_key : profile_public_key (own_profile own) = peer_pubkey (context conn);
  rg_signer : hp_signer_id hp = peer_id (context conn);
  rg_home : hp_peer_id hp = signer_profile_id (my_signer (context conn));
  rg_type : hp_relation_type hp = RELATION_TYPE_HOSTED_ON_HOME;
  rg_signed : validate_half_proof (server_validator w) hp (peer_pubkey (context conn)) = Ok tt;
  rg_persona : ∃ f, profile_facet (own_profile own) = Persona f;
}.

(** The channels of the state accept every message. *)
Class OpenChannels (open : Chans → Prop) : Prop := {
  open_send s m c : open c → ∃ c', mpsc_send s m c = (Ok tt, c') ∧ open c';
  open_channel n c : open c → open (mpsc_channel n c).2;
}.

(** A proof the home and a profile could have made, with any signatures. *)
Definition home_proof_of (conn : HomeConnectionServer) (p : ProfileId) (s1 s2 : Signature)
  : RelationProof :=
  mkRelationProof RELATION_TYPE_HOSTED_ON_HOME p s1
    (signer_profile_id (my_signer (context conn))) s2.

(** Events pushed one after the other into a session. *)
Fixpoint push_all (sid : SessionId) (evs : list ProfileEvent) (w : W) : W :=
  match evs with
  | [] => w
  | ev :: evs => push_all sid evs (await (session_push_event sid ev) w).2
  end.

(** ** Lemmas *)

Lemma push_home_persona own proof f :
  profile_facet (own_profile own) = Persona f →
  ∃ own', push_home own proof = Some own'
    ∧ profile_id (own_profile own') = profile_id (own_profile own)
    ∧ profile_public_key (own_profile own') = profile_public_key (own_profile own)
    ∧ own_priv_data own' = own_priv_data own
    ∧ profile_facet (own_profile own')
      = Persona (mkPersonaFacet (persona_homes f ++ [proof]) (persona_data f)).
Proof. intros Hf. unfold push_home. rewrite Hf. eauto 10. Qed.

Lemma register_registrable conn own hp inv w :
  registrable w conn own hp →
  ∃ proof own',
    sign_remaining_half hp (my_signer (context conn)) = Ok proof
    ∧ push_home own proof = Some own'
    ∧ await (register conn own hp inv) w =
      match kv_get (profile_id (own_profile own)) (hosted_profile_db w) with
      | Ok _ => (Err (own, proto_from Proto.AlreadyRegistered), w)
      | Err _ =>
          match dht_set (profile_id (own_profile own)) (own_profile own') w with
          | (Err _, w1) => (Err (own, proto_from Proto.StorageFailed), w1)
          | (Ok _, w1) =>
              match db_set (profile_id (own_profile own)) own' w1 with
              | (Err _, w2) => (Err (own, proto_from Proto.StorageFailed), w2)
              | (Ok _, w2) => (Ok own', w2)
              end
          end
      end.
Proof.
  intros [Hid Hkey Hsigner Hhome Htype Hsigned [f Hf]].
  destruct (sign_remaining_half hp (my_signer (context conn))) as [proof|e] eqn:Hp.
  2: { unfold sign_remaining_half in Hp. by rewrite decide_False in Hp by tauto. }
  destruct (push_home_persona own proof f Hf) as (own' & Hown' & Hid' & _).
  exists proof, own'. split_and!; [done|done|].
  unfold await, register. rewrite !decide_False by tauto. rewrite Hsigned. cbn [is_err is_ok negb].
  rewrite Hp, Hown', Hid'. cbv beta iota.
  unfold and_then, future_then, future_result, io_ret, future_map_err, future_map.
  destruct (kv_get _ (hosted_profile_db w)); [done|].
  destruct (dht_set _ _ w) as [[[]|] w1]; [|done]. simpl.
  by destruct (db_set _ _ w1) as [[[]|] w2].
Qed.

(** Any outcome of [register] other than these of the last three steps is a
    rejection that has touched nothing. *)
Lemma register_cases conn own hp inv w :
  registrable w conn own hp
  ∨ ∃ k, k ≠ Proto.StorageFailed ∧ k ≠ Proto.AlreadyRegistered
     ∧ await (register conn own hp inv) w = (Err (own, proto_from k), w).
Proof.
  unfold await, register.
  repeat (case_decide; [right; eexists; split_and!; [| |reflexivity]; done|]).
  destruct (validate_half_proof _ _ _) as [[]|e] eqn:Hv; cbn [is_err is_ok negb];
    [|right; eexists; split_and!; [| |reflexivity]; done].
  destruct (sign_remaining_half _ _) as [proof|e] eqn:Hp.
  2: { unfold sign_remaining_half in Hp. case_decide; [done|]. done. }
  destruct (profile_facet (own_profile own)) as [| f | |] eqn:Hf; unfold push_home; rewrite Hf.
  2: { left. split; try done. by exists f. }
  all: right; eexists; split_and!; [| |reflexivity]; done.
Qed.

Lemma login_hosted conn proof p own w :
  rp_relation_type proof = RELATION_TYPE_HOSTED_ON_HOME →
  proof_peer_id proof (signer_profile_id (my_signer (context conn))) = Ok p →
  kv_get p (hosted_profile_db w) = Ok own →
  ∃ w', await (login conn proof) w = (Ok (next_session w), w')
    ∧ session_heap w' = <[next_session w := HomeSessionServer_new (context conn)]> (session_heap w)
    ∧ sessions w' = match sessions w !! p with
                    | Some _ => sessions w
                    | None => <[p := next_session w]> (sessions w)
                    end
    ∧ hosted_profile_db w' = hosted_profile_db w
    ∧ chans w' = chans w ∧ spawned w' = spawned w.
Proof.
  intros Ht Hp Hget. unfold await, login. rewrite decide_False by tauto. rewrite Hp.
  unfold future_map_err, and_then, future_result. rewrite Hget. simpl.
  destruct (sessions w !! p) eqn:Hs; eexists; split_and!; reflexivity.
Qed.

(** Pushing an event to a profile that has a live registered session. *)
Lemma push_event_live p ev sid s own w :
  kv_get p (hosted_profile_db w) = Ok own →
  sessions w !! p = Some sid → session_heap w !! sid = Some s →
  await (push_event p ev) w = await (session_push_event sid ev) w.
Proof.
  intros Hget Hs Hh. unfold await at 1, push_event, get_live_session, and_then, future_map_err,
    future_result, future_ok. rewrite Hget. simpl. rewrite Hs. simpl. rewrite Hh. simpl.
  by unfold await.
Qed.

Lemma push_event_offline p ev own w :
  kv_get p (hosted_profile_db w) = Ok own →
  (∀ sid, sessions w !! p = Some sid → session_heap w !! sid = None) →
  await (push_event p ev) w = (Ok tt, w).
Proof.
  intros Hget Hs. unfold await, push_event, get_live_session, and_then, future_map_err,
    future_result, future_ok. rewrite Hget. simpl.
  destruct (sessions w !! p) as [sid|] eqn:Hp; simpl; [|done]. by rewrite Hs.
Qed.

Lemma session_push_buffered sid s evs ev w :
  session_heap w !! sid = Some s → session_events s = Buffer evs →
  await (session_push_event sid ev) w =
  (Ok tt, put_session sid (mkSession (session_context s) (Buffer (evs ++ [Ok ev]))
                             (session_apps s)) w).
Proof. intros Hs He. unfold await, session_push_event. by rewrite Hs, He. Qed.

Lemma session_push_sender sid s sink ev w :
  session_heap w !! sid = Some s → session_events s = Sender sink →
  await (session_push_event sid ev) w =
  (let '(r, c) := mpsc_send sink (EventMsg (Ok ev)) (chans w) in
   (map_err (proto_context Proto.FailedToSend) r, set_chans c w)).
Proof. intros Hs He. unfold await, session_push_event. by rewrite Hs, He. Qed.

Lemma push_all_buffered sid s evs pushed w :
  session_heap w !! sid = Some s → session_events s = Buffer evs →
  ∃ s', session_heap (push_all sid pushed w) !! sid = Some s'
    ∧ session_events s' = Buffer (evs ++ (Ok <$> pushed))
    ∧ chans (push_all sid pushed w) = chans w
    ∧ spawned (push_all sid pushed w) = spawned w.
Proof.
  revert s evs w; induction pushed as [|ev pushed IH]; intros s evs w Hs He; simpl.
  { exists s. by rewrite app_nil_r. }
  rewrite (session_push_buffered _ _ _ _ _ Hs He). simpl.
  set (s1 := mkSession (session_context s) (Buffer (evs ++ [Ok ev])) (session_apps s)).
  destruct (IH s1 (evs ++ [Ok ev]) (put_session sid s1 w)) as (s' & H1 & H2 & H3 & H4);
    [simpl; apply lookup_insert_eq|done|].
  exists s'. split_and!; [done| |done|done]. rewrite H2. by rewrite <- app_assoc.
Qed.

Lemma push_call_offline p app cl own w :
  kv_get p (hosted_profile_db w) = Ok own →
  (∀ sid, sessions w !! p = Some sid → session_heap w !! sid = None) →
  await (push_call p app cl) w = (Ok tt, set_chans (oneshot_drop (call_sender cl) (chans w)) w).
Proof.
  intros Hget Hs. unfold await, push_call, get_live_session, and_then, future_map_err,
    future_result, future_ok. rewrite Hget. simpl.
  destruct (sessions w !! p) as [sid|] eqn:Hp; simpl; [|done]. by rewrite Hs.
Qed.

Lemma push_call_live p app cl sid s own w :
  kv_get p (hosted_profile_db w) = Ok own →
  sessions w !! p = Some sid → session_heap w !! sid = Some s →
  await (push_call p app cl) w = await (session_push_call sid app cl) w.
Proof.
  intros Hget Hs Hh. unfold await at 1, push_call, get_live_session, and_then, future_map_err,
    future_result, future_ok. rewrite Hget. simpl. rewrite Hs. simpl. rewrite Hh. simpl.
  by unfold await.
Qed.

Lemma session_push_call_buffered sid s app calls cl w :
  session_heap w !! sid = Some s →
  default (Buffer []) (session_apps s !! app) = Buffer calls →
  await (session_push_call sid app cl) w =
  (Ok tt, put_session sid (mkSession (session_context s) (session_events s)
            (<[app := Buffer (calls ++ [Ok cl])]> (session_apps s))) w).
Proof. intros Hs He. unfold await, session_push_call. by rewrite Hs, He. Qed.

Context {CHL : ChannelsLaws ChanMsg Chans}.

(** A task that sends a list, on channels that accept everything. *)
Lemma send_all_open {open : Chans → Prop} {OP : OpenChannels open} sink msgs w :
  open (chans w) →
  mpsc_received sink (chans (finish_task (S (length msgs)) (SendAll sink msgs) w))
    = mpsc_received sink (chans w) ++ msgs
  ∧ open (chans (finish_task (S (length msgs)) (SendAll sink msgs) w)).
Proof.
  revert w; induction msgs as [|m msgs IH]; intros w Ho; simpl.
  { by rewrite app_nil_r. }
  destruct (open_send sink m (chans w) Ho) as (c' & Hsend & Ho'). rewrite Hsend. simpl.
  destruct (IH (set_chans c' w)) as [Hr Hopen]; [done|]. simpl in Hr, Hopen.
  rewrite Hr. split; [|done]. destruct (mpsc_send_ok _ _ _ _ Hsend) as [-> _].
  by rewrite <- app_assoc.
Qed.

Lemma run_spawned_one t w :
  spawned w = [t] → run_spawned w = finish_task (task_fuel t) t (set_spawned [] w).
Proof. intros Ht. unfold run_spawned. by rewrite Ht. Qed.

Lemma finish_task_heap n t w : session_heap (finish_task n t w) = session_heap w.
Proof.
  revert t w; induction n as [|n IH]; intros t w; [done|].
  destruct t as [sink m|sink [|m ms]]; simpl; try done.
  destruct (mpsc_send sink m (chans w)) as [[[]|] c]; [|done]. by rewrite IH.
Qed.

End specs.

(** ** Theorems *)

Section theorems.
Context {BC : Bincode} {Dht Db Chans : Type}
        {DHT : KeyValueStore Dht ProfileId Profile}
        {DB : KeyValueStore Db ProfileId OwnProfile}
        {CH : Channels ChanMsg Chans}
        {DHTL : KeyValueStoreLaws Dht ProfileId Profile any_key}
        {DBL : KeyValueStoreLaws Db ProfileId OwnProfile any_key}
        {CHL : ChannelsLaws ChanMsg Chans}.
Implicit Types (w : HomeServer Dht Db Chans) (conn : HomeConnectionServer).

(** C10: a successful registration was a proper one (ids, key, half proof,
    persona, not hosted yet); it returns the profile with one more home, whose
    proof names the client and the home as peers and validates for them, and it
    stores that profile locally and its public part in the DHT. *)
Theorem register_ok conn own hp inv w own' w' :
  accepts (server_validator w) (my_signer (context conn)) →
  peer_id (context conn) ≠ signer_profile_id (my_signer (context conn)) →
  await (register conn own hp inv) w = (Ok own', w') →
  registrable w conn own hp
  ∧ is_err (kv_get (peer_id (context conn)) (hosted_profile_db w)) = true
  ∧ (∃ f proof, profile_facet (own_profile own) = Persona f
      ∧ profile_facet (own_profile own')
        = Persona (mkPersonaFacet (persona_homes f ++ [proof]) (persona_data f))
      ∧ proof_peer_id proof (signer_profile_id (my_signer (context conn)))
        = Ok (peer_id (context conn))
      ∧ validate_relation_proof (server_validator w) proof
          (peer_id (context conn)) (peer_pubkey (context conn))
          (signer_profile_id (my_signer (context conn)))
          (signer_public_key (my_signer (context conn))) = Ok tt)
  ∧ kv_get (peer_id (context conn)) (hosted_profile_db w') = Ok own'
  ∧ kv_get (peer_id (context conn)) (public_profile_dht w') = Ok (own_profile own').
Proof.
  intros Hacc Hne Hreg.
  destruct (register_cases conn own hp inv w) as [Hr|(k & _ & _ & Hk)]; [|by rewrite Hk in Hreg].
  destruct (register_registrable conn own hp inv w Hr) as (proof & own1 & Hp & Hown1 & Heq).
  rewrite Heq in Hreg. destruct Hr as [Hid Hkey Hsigner Hhome Htype Hsigned [f Hf]].
  rewrite Hid in Hreg. destruct (kv_get _ (hosted_profile_db w)) eqn:Hget; [done|].
  unfold dht_set, db_set in Hreg.
  destruct (kv_set _ _ (public_profile_dht w)) as [[[]|] d1] eqn:Hd1; [|done]. simpl in Hreg.
  destruct (kv_set _ _ (hosted_profile_db w)) as [[[]|] d2] eqn:Hd2; [|done].
  injection Hreg as -> <-. simpl.
  destruct (push_home_persona own proof f Hf) as (own2 & Ho & _ & _ & _ & Hfacet).
  rewrite Ho in Hown1. injection Hown1 as ->.
  destruct (countersigned_validates _ hp _ _ proof Hsigned Hacc) as (_ & _ & Hpeer & Hval & _);
    [by rewrite Hsigner|done|].
  rewrite Hsigner in Hpeer, Hval.
  split; [by split; try done; exists f|]. split; [done|]. split; [by exists f, proof|].
  split; [by eapply kv_set_ok|by eapply kv_set_ok].
Qed.

(** C33: a failed registration gives the profile back as it was sent.  Unless a
    database failed to store it, the registration has changed nothing; and it
    is refused as already registered exactly when it was a proper one for a
    profile hosted here. *)
Theorem register_err conn own hp inv w own_r e w' :
  await (register conn own hp inv) w = (Err (own_r, e), w') →
  own_r = own
  ∧ (proto_kind e ≠ Proto.StorageFailed → w' = w)
  ∧ (proto_kind e = Proto.AlreadyRegistered ↔
       registrable w conn own hp
       ∧ is_ok (kv_get (peer_id (context conn)) (hosted_profile_db w)) = true).
Proof.
  intros Hreg. destruct (register_cases conn own hp inv w) as [Hr|(k & Hk1 & Hk2 & Hk)].
  - destruct (register_registrable conn own hp inv w Hr) as (proof & own1 & _ & _ & Heq).
    rewrite Heq in Hreg. rewrite (rg_id _ _ _ _ Hr) in Hreg.
    destruct (kv_get _ (hosted_profile_db w)) as [stored|]; [by simplify_eq/=|].
    destruct (dht_set _ _ w) as [[[]|] w1]; [|simplify_eq/=; split_and!; naive_solver].
    destruct (db_set _ _ w1) as [[[]|] w2]; simplify_eq/=; split_and!; naive_solver.
  - rewrite Hk in Hreg. simplify_eq/=. split_and!; [done|done|]. split; [done|].
    intros [Hr Hok]. exfalso.
    destruct (register_registrable conn own_r hp inv w' Hr) as (proof & own1 & _ & _ & Heq).
    rewrite Hk, (rg_id _ _ _ _ Hr) in Heq.
    destruct (kv_get _ (hosted_profile_db w')); [by simplify_eq/=|done].
Qed.

(** Registration is not atomic: of two registrations of one profile that
    are both requested before either is polled, both succeed on databases that
    work, and the second overwrites the first. *)
Theorem register_race conn own1 own2 hp1 hp2 inv w f1 w1 f2 w2 :
  registrable w conn own1 hp1 → registrable w conn own2 hp2 →
  is_err (kv_get (peer_id (context conn)) (hosted_profile_db w)) = true →
  (∀ k p (d : Dht), (kv_set k p d).1 = Ok tt) → (∀ k p (d : Db), (kv_set k p d).1 = Ok tt) →
  register conn own1 hp1 inv w = (f1, w1) → register conn own2 hp2 inv w1 = (f2, w2) →
  ∃ own1' own2' w3 w4,
    f1 w2 = (Ok own1', w3) ∧ f2 w3 = (Ok own2', w4)
    ∧ kv_get (peer_id (context conn)) (hosted_profile_db w3) = Ok own1'
    ∧ kv_get (peer_id (context conn)) (hosted_profile_db w4) = Ok own2'.
Proof.
  intros Hr1 Hr2 [e He]%is_err_true Hdht Hdb Hf1 Hf2.
  assert (∀ own hp f w0 w0', registrable w conn own hp → register conn own hp inv w = (f, w0') →
    w0' = w ∧ ∃ own', (f w0).1 = Ok own'
      ∧ kv_get (peer_id (context conn)) (hosted_profile_db (f w0).2) = Ok own') as Hone.
  { intros own hp f w0 w0' Hr Hf.
    destruct (register_registrable conn own hp inv w Hr) as (proof & own' & Hp & Hown' & _).
    destruct Hr as [Hid Hkey Hsigner Hhome Htype Hsigned [fa Hfa]].
    unfold register in Hf. rewrite !decide_False in Hf by tauto.
    rewrite Hsigned in Hf. cbn [is_err is_ok negb] in Hf.
    rewrite Hp, Hown', Hid, He in Hf.
    destruct (push_home_persona own proof fa Hfa) as (own2' & Ho & Hid2 & _).
    rewrite Ho in Hown'. injection Hown' as ->. rewrite Hid2, Hid in Hf.
    injection Hf as <- <-. split; [done|]. exists own'.
    unfold and_then, future_then, future_result, io_ret, future_map_err, future_map,
      dht_set, db_set.
    pose proof (Hdht (peer_id (context conn)) (own_profile own') (public_profile_dht w0)) as H1.
    destruct (kv_set _ _ (public_profile_dht w0)) as [r1 d1]; simpl in H1; subst r1. simpl.
    pose proof (Hdb (peer_id (context conn)) own' (hosted_profile_db w0)) as H2.
    destruct (kv_set _ _ (hosted_profile_db w0)) as [r2 d2] eqn:Hs2; simpl in H2; subst r2.
    split; [done|]. by eapply kv_set_ok. }
  destruct (Hone own1 hp1 f1 w2 w1 Hr1 Hf1) as (-> & own1' & Ho1 & Hg1).
  destruct (f1 w2) as [r1 w3]; simpl in Ho1, Hg1; subst r1.
  destruct (Hone own2 hp2 f2 w3 w2 Hr2 Hf2) as (-> & own2' & Ho2 & Hg2).
  destruct (f2 w3) as [r2 w4] eqn:Hw4; simpl in Ho2, Hg2; subst r2. eauto 10.
Qed.

(** Logging in again does not replace the session registered before: the
    profile's events keep going to the old one, and when the new session is
    dropped the profile is taken offline while the old session still lives. *)
Theorem relogin_keeps_old_session conn proof p own sid s evs w :
  rp_relation_type proof = RELATION_TYPE_HOSTED_ON_HOME →
  proof_peer_id proof (signer_profile_id (my_signer (context conn))) = Ok p →
  p = peer_id (context conn) →
  kv_get p (hosted_profile_db w) = Ok own →
  sessions w !! p = Some sid → session_heap w !! sid = Some s → sid < next_session w →
  session_events s = Buffer evs →
  ∃ sid2 w2, await (login conn proof) w = (Ok sid2, w2) ∧ sid2 ≠ sid
    ∧ (∀ ev, ∃ w3 s3, await (push_event p ev) w2 = (Ok tt, w3)
         ∧ session_heap w3 !! sid = Some s3 ∧ session_events s3 = Buffer (evs ++ [Ok ev])
         ∧ session_heap w3 !! sid2 = Some (HomeSessionServer_new (context conn)))
    ∧ (∀ ev, session_heap (drop_session sid2 w2) !! sid = Some s
         ∧ await (push_event p ev) (drop_session sid2 w2) = (Ok tt, drop_session sid2 w2)).
Proof.
  intros Ht Hp -> Hget Hs Hh Hlt He.
  destruct (login_hosted conn proof _ own w Ht Hp Hget) as (w2 & Hlogin & Hheap & Hsess & Hdb & _).
  rewrite Hs in Hsess. exists (next_session w), w2.
  assert (next_session w ≠ sid) as Hne by lia.
  assert (session_heap w2 !! sid = Some s) as Hh2 by (by rewrite Hheap, lookup_insert_ne).
  split_and!; [done|done| |].
  - intros ev. do 2 eexists.
    rewrite (push_event_live _ ev sid s own) by (by rewrite ?Hdb, ?Hsess).
    rewrite (session_push_buffered _ _ _ _ _ Hh2 He). split; [done|]. simpl.
    rewrite lookup_insert_eq, lookup_insert_ne by done. rewrite Hheap, lookup_insert_eq. done.
  - intros ev. unfold drop_session. rewrite Hheap, lookup_insert_eq. simpl.
    rewrite lookup_delete_ne, Hh2 by done. split; [done|].
    apply (push_event_offline _ ev own); simpl; [by rewrite Hdb|].
    intros sid'. by rewrite lookup_delete_eq.
Qed.

(** A session can be taken over: a client that logs in with an unsigned
    proof naming another hosted profile, of which no session is registered, gets
    the events sent to that profile in its own session. *)
Theorem login_hijack conn p s1 s2 own w ev :
  p ≠ signer_profile_id (my_signer (context conn)) →
  kv_get p (hosted_profile_db w) = Ok own → sessions w !! p = None →
  ∃ sid w2 w3 s, await (login conn (home_proof_of conn p s1 s2)) w = (Ok sid, w2)
    ∧ await (push_event p ev) w2 = (Ok tt, w3)
    ∧ session_heap w3 !! sid = Some s ∧ session_context s = context conn
    ∧ session_events s = Buffer [Ok ev].
Proof.
  intros Hne Hget Hs.
  destruct (login_hosted conn (home_proof_of conn p s1 s2) p own w)
    as (w2 & Hlogin & Hheap & Hsess & Hdb & _); [done| |done|].
  { apply proof_peer_id_cases. by right. }
  rewrite Hs in Hsess.
  assert (session_heap w2 !! next_session w = Some (HomeSessionServer_new (context conn))) as Hh2
    by (by rewrite Hheap, lookup_insert_eq).
  do 4 eexists. split; [done|].
  rewrite (push_event_live _ ev (next_session w) (HomeSessionServer_new (context conn)) own);
    [|by rewrite Hdb|by rewrite Hsess, lookup_insert_eq|done].
  rewrite (session_push_buffered _ _ [] _ _ Hh2) by done. split; [done|]. simpl.
  by rewrite lookup_insert_eq.
Qed.

End theorems.

Section delivery.
Context {BC : Bincode} {Dht Db Chans : Type}
        {DHT : KeyValueStore Dht ProfileId Profile}
        {DB : KeyValueStore Db ProfileId OwnProfile}
        {CH : Channels ChanMsg Chans}
        {DHTL : KeyValueStoreLaws Dht ProfileId Profile any_key}
        {DBL : KeyValueStoreLaws Db ProfileId OwnProfile any_key}
        {CHL : ChannelsLaws ChanMsg Chans}.
Context {open : Chans → Prop} {OP : OpenChannels open}.
Implicit Types (w : HomeServer Dht Db Chans) (conn : HomeConnectionServer).

(** Subscribing to a session that has buffered events. *)
Lemma events_buffered sid s evs w :
  session_heap w !! sid = Some s → session_events s = Buffer evs → open (chans w) →
  ∃ sink w2, events sid w = (Some sink, w2)
    ∧ session_heap w2 !! sid = Some (mkSession (session_context s) (Sender sink) (session_apps s))
    ∧ spawned w2 = spawned w ++ [SendAll sink (EventMsg <$> evs)]
    ∧ mpsc_received sink (chans w2) = [] ∧ open (chans w2).
Proof.
  intros Hs He Ho. unfold events. rewrite Hs.
  pose proof (open_channel CHANNEL_CAPACITY (chans w) Ho) as Ho'.
  destruct (mpsc_channel _ (chans w)) as [sink c] eqn:Hc. rewrite He. simpl in Ho'.
  do 2 eexists. split; [reflexivity|]. simpl. rewrite lookup_insert_eq.
  apply mpsc_channel_new in Hc as [Hr _]. done.
Qed.

(** C25: store and forward: the events pushed while a profile does not listen
    are delivered, all of them and in order, to the stream it opens, before the
    events pushed after the buffer was flushed. *)
Theorem events_store_and_forward sid s evs pushed late w :
  session_heap w !! sid = Some s → session_events s = Buffer evs →
  open (chans w) → spawned w = [] →
  ∃ sink w2, events sid (push_all sid pushed w) = (Some sink, w2)
    ∧ mpsc_received sink (chans (run_spawned w2)) = EventMsg <$> (evs ++ (Ok <$> pushed))
    ∧ mpsc_received sink (chans (await (session_push_event sid late) (run_spawned w2)).2)
      = (EventMsg <$> (evs ++ (Ok <$> pushed))) ++ [EventMsg (Ok late)].
Proof.
  intros Hs He Ho Hsp.
  destruct (push_all_buffered sid s evs pushed w Hs He) as (s' & Hs' & He' & Hc & Hsp').
  rewrite <- Hc in Ho.
  destruct (events_buffered sid s' _ _ Hs' He' Ho) as (sink & w2 & Hev & Hh & Hsp2 & Hr & Ho2).
  rewrite Hsp', Hsp in Hsp2. exists sink, w2. split; [done|].
  rewrite (run_spawned_one _ _ Hsp2). cbn [task_fuel].
  destruct (send_all_open (OP:=OP) sink (EventMsg <$> (evs ++ (Ok <$> pushed)))
              (set_spawned [] w2) Ho2) as [Hrec Ho3].
  change (chans (set_spawned [] w2)) with (chans w2) in Hrec. rewrite Hr in Hrec.
  split; [exact Hrec|]. set (w3 := finish_task _ _ _) in *.
  assert (session_heap w3 = session_heap w2) as Hheap.
  { subst w3. by rewrite finish_task_heap. }
  rewrite <- Hheap in Hh. rewrite (session_push_sender _ _ _ _ _ Hh eq_refl).
  destruct (open_send sink (EventMsg (Ok late)) (chans w3) Ho3) as (c' & Hsend & _).
  rewrite Hsend. simpl. apply mpsc_send_ok in Hsend as [-> _]. by rewrite Hrec.
Qed.

(** The order is lost when an event is pushed between the subscription and
    the flush of the buffer: it overtakes every event that was waiting. *)
Theorem events_overtaken sid s evs late w :
  session_heap w !! sid = Some s → session_events s = Buffer evs →
  open (chans w) → spawned w = [] →
  ∃ sink w2, events sid w = (Some sink, w2)
    ∧ mpsc_received sink (chans (run_spawned (await (session_push_event sid late) w2).2))
      = EventMsg (Ok late) :: (EventMsg <$> evs).
Proof.
  intros Hs He Ho Hsp.
  destruct (events_buffered sid s _ _ Hs He Ho) as (sink & w2 & Hev & Hh & Hsp2 & Hr & Ho2).
  exists sink, w2. split; [done|]. rewrite Hsp in Hsp2.
  rewrite (session_push_sender _ _ _ _ _ Hh eq_refl).
  destruct (open_send sink (EventMsg (Ok late)) (chans w2) Ho2) as (c' & Hsend & Ho3).
  rewrite Hsend. apply mpsc_send_ok in Hsend as [Hrec _]. rewrite Hr in Hrec.
  rewrite (run_spawned_one (SendAll sink (EventMsg <$> evs))) by done.
  destruct (send_all_open (OP:=OP) sink (EventMsg <$> evs)
              (set_spawned [] (set_chans c' w2)) Ho3) as [Hrec' _].
  change (chans (set_spawned [] (set_chans c' w2))) with c' in Hrec'.
  rewrite Hrec in Hrec'. exact Hrec'.
Qed.

(** The call of a valid relation reaches the callee's session, or nobody. *)
Lemma call_valid conn app req p own w :
  proof_peer_id (cr_relation req) (peer_id (context conn)) = Ok p →
  kv_get p (hosted_profile_db w) = Ok own →
  validate_relation_proof (server_validator w) (cr_relation req)
    (peer_id (context conn)) (peer_pubkey (context conn))
    (profile_id (own_profile own)) (profile_public_key (own_profile own)) = Ok tt →
  ∃ chan c, oneshot_channel (chans w) = (chan, c)
    ∧ await (call conn app req (Ok tt)) w =
      match await (push_call p app (Call_new req chan)) (set_chans c w) with
      | (Ok _, w') => (Ok chan, w')
      | (Err e, w') => (Err (proto_context Proto.CallFailed e), w')
      end.
Proof.
  intros Hp Hget Hval. unfold await at 1, call. rewrite Hp.
  destruct (oneshot_channel (chans w)) as [chan c]. exists chan, c. split; [done|].
  unfold and_then, validate_with_peer, future_result, future_map_err, io_ret, future_ok.
  change (hosted_profile_db (set_chans c w)) with (hosted_profile_db w). rewrite Hget.
  cbn [map_err]. change (server_validator (set_chans c w)) with (server_validator w).
  rewrite Hval. cbn [map_err]. unfold await.
  destruct (push_call p app (Call_new req chan) (set_chans c w)) as [push w2].
  by destruct (push w2) as [[[]|e] w3].
Qed.

(** C24: a valid call to a hosted callee.  With the callee offline the caller is
    told, at once and whatever the timer says, that no response can be read;
    with a live session whose application has not checked in, the call waits in
    its buffer, the caller gets the answer given to it, and no sink when the
    time is up first. *)
Theorem call_outcome conn app req p own w :
  proof_peer_id (cr_relation req) (peer_id (context conn)) = Ok p →
  kv_get p (hosted_profile_db w) = Ok own →
  validate_relation_proof (server_validator w) (cr_relation req)
    (peer_id (context conn)) (peer_pubkey (context conn))
    (profile_id (own_profile own)) (profile_public_key (own_profile own)) = Ok tt →
  ((∀ sid, sessions w !! p = Some sid → session_heap w !! sid = None) →
     ∃ chan w' e, await (call conn app req (Ok tt)) w = (Ok chan, w')
       ∧ proto_kind e = Proto.FailedToReadResponse
       ∧ ∀ timer, poll_answer chan timer w' = Some (Err e))
  ∧ (∀ sid s calls, sessions w !! p = Some sid → session_heap w !! sid = Some s →
     default (Buffer []) (session_apps s !! app) = Buffer calls →
     ∃ chan w' s', await (call conn app req (Ok tt)) w = (Ok chan, w')
       ∧ session_heap w' !! sid = Some s'
       ∧ session_apps s' !! app = Some (Buffer (calls ++ [Ok (Call_new req chan)]))
       ∧ poll_answer chan TimerRunning w' = None
       ∧ poll_answer chan TimerFired w' = Some (Ok None)
       ∧ ∀ to_callee cs timer, oneshot_send chan to_callee (chans w') = (Ok tt, cs) →
           poll_answer chan timer (answer (Call_new req chan) to_callee w').2
           = Some (Ok to_callee)).
Proof.
  intros Hp Hget Hval. destruct (call_valid conn app req p own w Hp Hget Hval) as (chan & c & Hc & ->).
  apply oneshot_channel_new in Hc as [Hready _]. split.
  - intros Hoff. rewrite (push_call_offline _ _ _ own) by done.
    do 3 eexists. split; [reflexivity|]. split; [|intros timer; unfold poll_answer; simpl;
      rewrite oneshot_drop_cancels by done; reflexivity]. done.
  - intros sid s calls Hs Hh Happ. rewrite (push_call_live _ _ _ sid s own) by done.
    rewrite (session_push_call_buffered _ s _ calls) by done.
    do 3 eexists. split; [reflexivity|]. simpl. rewrite lookup_insert_eq.
    split; [reflexivity|]. simpl. rewrite lookup_insert_eq. split; [done|].
    unfold poll_answer. simpl. rewrite Hready. split_and!; try done.
    intros to_callee cs timer Hsend. unfold answer. simpl. rewrite Hsend. simpl.
    by rewrite (oneshot_send_ok _ _ _ _ Hsend).
Qed.

End delivery.

Section lifecycle.
Context {BC : Bincode} {Dht Db Chans : Type}
        {DHT : KeyValueStore Dht ProfileId Profile}
        {DB : KeyValueStore Db ProfileId OwnProfile}
        {CH : Channels ChanMsg Chans}
        {DHTL : KeyValueStoreLaws Dht ProfileId Profile any_key}
        {DBL : KeyValueStoreLaws Db ProfileId OwnProfile any_key}.
Implicit Types (w : HomeServer Dht Db Chans).

(** Deregistration takes effect when it is requested, before its future is
    polled: the profile is offline for everybody at once, and when its local
    entry could be removed no event or call is accepted for it any more, even if
    the DHT fails and the client is told that deregistration failed.  When the
    client is told it succeeded, neither database has the profile.  The session
    that asked stays alive. *)
Theorem unregister_spec ctx newhome w f w' :
  unregister ctx newhome w = (f, w') →
  sessions w' !! peer_id ctx = None
  ∧ session_heap w' = session_heap w
  ∧ ((kv_clear_local (peer_id ctx) (hosted_profile_db w)).1 = Ok tt →
       is_err (kv_get (peer_id ctx) (hosted_profile_db w')) = true
       ∧ ∀ ev, ∃ e, await (push_event (peer_id ctx) ev) w' = (Err e, w')
                ∧ proto_kind e = Proto.FailedToGetSession)
  ∧ (∀ w2, (f w2).2 = w2)
  ∧ (∀ w2, (f w2).1 = Ok tt →
       is_err (kv_get (peer_id ctx) (hosted_profile_db w')) = true
       ∧ is_err (kv_get (peer_id ctx) (public_profile_dht w')) = true).
Proof.
  unfold unregister. simpl.
  destruct (kv_clear_local _ (hosted_profile_db w)) as [r1 db] eqn:Hdb. simpl.
  destruct (kv_clear_local _ (public_profile_dht w)) as [r2 dht] eqn:Hdht. simpl.
  intros [= <- <-]. simpl. split; [apply lookup_delete_eq|]. split; [done|]. split_and!.
  - intros ->. pose proof (kv_clear_ok _ _ _ I Hdb) as He. split; [done|]. intros ev.
    destruct (is_err_true _ He) as [e He']. eexists.
    unfold await, push_event, get_live_session, and_then, future_map_err, future_result.
    simpl. rewrite He'. simpl. done.
  - intros w2. unfold future_map_err, and_then, future_result. by destruct r2.
  - intros w2. unfold future_map_err, and_then, future_result, io_ret. destruct r2 as [[]|]; [|done].
    destruct r1 as [[]|]; [|done]. intros _. split; [by eapply kv_clear_ok|by eapply kv_clear_ok].
Qed.

(** An update is refused for a profile with another id or key than the
    session's, and for one that is not hosted; whenever it reports success both
    databases hold the new profile, of which the home has checked nothing but
    id and key. *)
Theorem update_spec ctx own w r w' :
  await (update ctx own) w = (r, w') →
  (r = Ok tt → profile_id (own_profile own) = peer_id ctx
     ∧ profile_public_key (own_profile own) = peer_pubkey ctx
     ∧ is_ok (kv_get (peer_id ctx) (hosted_profile_db w)) = true
     ∧ kv_get (peer_id ctx) (hosted_profile_db w') = Ok own
     ∧ kv_get (peer_id ctx) (public_profile_dht w') = Ok (own_profile own))
  ∧ (∀ e, r = Err e → proto_kind e ≠ Proto.ProfileUpdateFailed → w' = w
       ∧ (profile_id (own_profile own) ≠ peer_id ctx
          ∨ profile_public_key (own_profile own) ≠ peer_pubkey ctx)).
Proof.
  unfold await, update.
  case_decide as Hid; [intros [= <- <-]; split; [done|naive_solver]|].
  case_decide as Hpk; [intros [= <- <-]; split; [done|naive_solver]|].
  unfold future_map_err, and_then, future_result, io_ret, dht_set, db_set. rewrite Hid.
  destruct (kv_get _ (hosted_profile_db w)) as [old|];
    [|intros [= <- <-]; split; [done|naive_solver]].
  destruct (kv_set _ _ (public_profile_dht w)) as [[[]|] d1] eqn:H1;
    [|intros [= <- <-]; split; [done|naive_solver]]. simpl.
  destruct (kv_set _ _ (hosted_profile_db w)) as [[[]|] d2] eqn:H2; intros [= <- <-];
    (split; [|naive_solver]); [|done].
  intros _. simpl. split_and!; try done; by eapply kv_set_ok.
Qed.

End lifecycle.

(** ** A home with two hosted profiles *)

Module Demo.
#[local] Existing Instance Sample.bincode.
#[local] Existing Instance Sample.multihash.
#[local] Existing Instance Sample.ed25519.
#[export] Existing Instance Sample.channels.
#[export] Existing Instance Sample.channels_laws.

Abbreviation Store V := (InMemoryStore ProfileId V).
Abbreviation DemoChans := (Sample.chans ChanMsg).
Abbreviation World := (HomeServer (Store Profile) (Store OwnProfile) DemoChans).

Definition ctx_of (s : Signer) : PeerContext :=
  mkPeerContext Actors.home (signer_public_key s) (signer_profile_id s).
Definition conn_of (s : Signer) : HomeConnectionServer := mkConnection (ctx_of s).
Definition own_of (s : Signer) : OwnProfile := mkOwnProfile (Actors.persona s) [].
Definition half_of (s : Signer) : RelationHalfProof :=
  RelationHalfProof_new RELATION_TYPE_HOSTED_ON_HOME (signer_profile_id Actors.home) s.

Definition empty_world : World :=
  HomeServer_new Actors.validator InMemoryStore_new InMemoryStore_new Sample.chans_empty.

Definition registered (s : Signer) (w : World) : World :=
  (await (register (conn_of s) (own_of s) (half_of s) None) w).2.

Definition world : World := registered Actors.bob (registered Actors.alice empty_world).

(** The proof the home handed out at registration. *)
Definition home_proof (s : Signer) : RelationProof :=
  match sign_remaining_half (half_of s) Actors.home with
  | Ok p => p
  | Err _ => mkRelationProof "" (mkProfileId []) (mkSignature []) (mkProfileId []) (mkSignature [])
  end.

Definition logged_in : World := (await (login (conn_of Actors.alice) (home_proof Actors.alice)) world).2.

(** A relation of bob and alice. *)
Definition friends : RelationProof :=
  match sign_remaining_half
          (RelationHalfProof_new RELATION_TYPE_ENABLE_CALLS_BETWEEN
             (signer_profile_id Actors.bob) Actors.alice) Actors.bob with
  | Ok p => p
  | Err _ => home_proof Actors.alice
  end.

Definition chat : ApplicationId := mkApplicationId "chat".
Definition bob_calls : CallRequestDetails := mkCallRequest friends (mkAppMessageFrame [x01]) None.
Definition stored (s : Signer) (w : World) : Result Errors.Storage.StorageError OwnProfile :=
  kv_get (signer_profile_id s) (hosted_profile_db w).

(** Nothing is closed. *)
Definition all_open (c : DemoChans) : Prop := Sample.closed c = ∅.

#[export] Instance demo_open : OpenChannels all_open.
Proof.
  split; unfold all_open; simpl; intros.
  - rewrite H, decide_False by set_solver. eauto.
  - rewrite H. set_solver.
Qed.

Lemma demo_accepts_home : accepts Actors.validator Actors.home.
Proof. intros data. apply Actors_validate_signature. Qed.
End Demo.

(** ** Witnesses *)

Section witnesses.
#[local] Existing Instance Sample.bincode.
#[local] Existing Instance Sample.multihash.
#[local] Existing Instance Sample.ed25519.
Import Demo.

Lemma demo_registrable s :
  s ∈ [Actors.alice; Actors.bob] → registrable empty_world (conn_of s) (own_of s) (half_of s).
Proof.
  intros Hs. assert (validate_half_proof Actors.validator (half_of s) (signer_public_key s) = Ok tt).
  { rewrite !elem_of_cons in Hs. destruct Hs as [->|[->|Hs%elem_of_nil]]; [by vm_compute..|done]. }
  split; try done. by eexists.
Qed.

Lemma register_ok_witness :
  ∃ own', kv_get (signer_profile_id Actors.alice)
            (hosted_profile_db (registered Actors.alice empty_world)) = Ok own'.
Proof.
  eexists. eapply (register_ok (conn_of Actors.alice) (own_of Actors.alice)
                     (half_of Actors.alice) None empty_world).
  - exact demo_accepts_home.
  - by vm_compute.
  - apply fst_eq. vm_compute. reflexivity.
Defined.

Lemma register_err_witness :
  ∃ e, (await (register (conn_of Actors.alice) (own_of Actors.alice) (half_of Actors.alice) None)
          (registered Actors.alice empty_world)).1 = Err (own_of Actors.alice, e)
    ∧ proto_kind e = Proto.AlreadyRegistered.
Proof.
  eexists. split; [vm_compute; reflexivity|].
  eapply (register_err (conn_of Actors.alice) (own_of Actors.alice) (half_of Actors.alice) None
            (registered Actors.alice empty_world) (own_of Actors.alice)).
  - apply fst_eq. vm_compute. reflexivity.
  - split; [|vm_compute; reflexivity].
    pose proof (demo_registrable Actors.alice ltac:(left)) as [H1 H2 H3 H4 H5 H6 H7].
    split; try done.
Defined.

Lemma register_race_witness :
  ∃ own2' w4,
    (register (conn_of Actors.alice) (own_of Actors.alice) (half_of Actors.alice) None
       empty_world).1
      ((register (conn_of Actors.alice) (own_of Actors.alice) (half_of Actors.alice) None
          empty_world).1 empty_world).2 = (Ok own2', w4).
Proof.
  pose proof (demo_registrable Actors.alice ltac:(left)) as Hr.
  destruct (register_race (conn_of Actors.alice) (own_of Actors.alice) (own_of Actors.alice)
              (half_of Actors.alice) (half_of Actors.alice) None empty_world
              (register (conn_of Actors.alice) (own_of Actors.alice) (half_of Actors.alice) None
                 empty_world).1 empty_world
              (register (conn_of Actors.alice) (own_of Actors.alice) (half_of Actors.alice) None
                 empty_world).1 empty_world Hr Hr)
    as (own1' & own2' & w3 & w4 & H1 & H2 & _).
  - reflexivity.
  - done.
  - done.
  - reflexivity.
  - reflexivity.
  - exists own2', w4. rewrite H1. exact H2.
Defined.

Lemma relogin_keeps_old_session_witness :
  ∃ sid2 w2, await (login (conn_of Actors.alice) (home_proof Actors.alice)) logged_in = (Ok sid2, w2)
    ∧ await (push_event (signer_profile_id Actors.alice) (PairingResponse friends))
        (drop_session sid2 w2) = (Ok tt, drop_session sid2 w2).
Proof.
  destruct (relogin_keeps_old_session (conn_of Actors.alice) (home_proof Actors.alice)
              (signer_profile_id Actors.alice)
              match stored Actors.alice logged_in with Ok o => o | Err _ => own_of Actors.alice end
              0 (HomeSessionServer_new (ctx_of Actors.alice)) [] logged_in)
    as (sid2 & w2 & H1 & _ & _ & H2).
  - by vm_compute.
  - vm_compute. reflexivity.
  - reflexivity.
  - vm_compute. reflexivity.
  - vm_compute. reflexivity.
  - reflexivity.
  - vm_compute. lia.
  - reflexivity.
  - exists sid2, w2. split; [exact H1|]. apply H2.
Defined.

(** Bob takes the place of alice. *)
Lemma login_hijack_witness :
  ∃ sid w2 w3 s,
    await (login (conn_of Actors.bob)
             (home_proof_of (conn_of Actors.bob) (signer_profile_id Actors.alice)
                (mkSignature []) (mkSignature []))) world = (Ok sid, w2)
    ∧ await (push_event (signer_profile_id Actors.alice) (PairingResponse friends)) w2 = (Ok tt, w3)
    ∧ session_heap w3 !! sid = Some s ∧ session_context s = ctx_of Actors.bob
    ∧ session_events s = Buffer [Ok (PairingResponse friends)].
Proof.
  eapply (login_hijack (conn_of Actors.bob) (signer_profile_id Actors.alice)).
  - by vm_compute.
  - vm_compute. reflexivity.
  - reflexivity.
Defined.

Lemma events_store_and_forward_witness :
  ∃ sink w2, events 0 (push_all 0 [PairingResponse friends] logged_in) = (Some sink, w2)
    ∧ mpsc_received sink (chans (run_spawned w2)) = [EventMsg (Ok (PairingResponse friends))].
Proof.
  destruct (events_store_and_forward (OP:=demo_open) 0 (HomeSessionServer_new (ctx_of Actors.alice)) []
              [PairingResponse friends] (PairingResponse friends) logged_in)
    as (sink & w2 & H1 & H2 & _).
  - reflexivity.
  - reflexivity.
  - reflexivity.
  - reflexivity.
  - exists sink, w2. split; [exact H1|exact H2].
Defined.

Lemma events_overtaken_witness :
  ∃ sink w2, events 0 (push_all 0 [PairingResponse friends] logged_in) = (Some sink, w2)
    ∧ mpsc_received sink (chans (run_spawned
         (await (session_push_event 0 (UnknownEvent [])) w2).2))
      = [EventMsg (Ok (UnknownEvent [])); EventMsg (Ok (PairingResponse friends))].
Proof.
  eapply (events_overtaken (OP:=demo_open) 0
            (mkSession (ctx_of Actors.alice) (Buffer [Ok (PairingResponse friends)]) ∅)
            [Ok (PairingResponse friends)] (UnknownEvent [])
            (push_all 0 [PairingResponse friends] logged_in)); reflexivity.
Defined.

Lemma call_outcome_witness :
  ∃ chan w' s', await (call (conn_of Actors.bob) chat bob_calls (Ok tt)) logged_in = (Ok chan, w')
    ∧ session_heap w' !! 0 = Some s'
    ∧ session_apps s' !! chat = Some (Buffer [Ok (Call_new bob_calls chan)])
    ∧ poll_answer chan TimerRunning w' = None.
Proof.
  destruct (call_outcome (conn_of Actors.bob) chat bob_calls (signer_profile_id Actors.alice)
              match stored Actors.alice logged_in with Ok o => o | Err _ => own_of Actors.alice end
              logged_in) as [_ H].
  - vm_compute. reflexivity.
  - vm_compute. reflexivity.
  - vm_compute. reflexivity.
  - destruct (H 0 (HomeSessionServer_new (ctx_of Actors.alice)) [])
      as (chan & w' & s' & H1 & H2 & H3 & H4 & _).
    + vm_compute. reflexivity.
    + reflexivity.
    + reflexivity.
    + exists chan, w', s'. split; [exact H1|]. split; [exact H2|]. split; [exact H3|exact H4].
Defined.

Lemma unregister_spec_witness :
  is_err (kv_get (signer_profile_id Actors.alice)
            (hosted_profile_db (unregister (ctx_of Actors.alice) None logged_in).2)) = true.
Proof.
  apply (unregister_spec (ctx_of Actors.alice) None logged_in
           (unregister (ctx_of Actors.alice) None logged_in).1).
  - reflexivity.
  - vm_compute. reflexivity.
Defined.

Lemma update_spec_witness :
  kv_get (signer_profile_id Actors.alice)
    (hosted_profile_db (await (update (ctx_of Actors.alice) (own_of Actors.alice)) logged_in).2)
  = Ok (own_of Actors.alice).
Proof.
  eapply (update_spec (ctx_of Actors.alice) (own_of Actors.alice) logged_in).
  - apply fst_eq. vm_compute. reflexivity.
  - reflexivity.
Defined.

(** A request that is polled right after it was made. *)
Definition now (m : IO World (IO World Response)) (w : World) : Response * World :=
  let '(fut, w) := m w in fut w.

Lemma reach_serve s0 w conns rs conn req :
  conn ∈ conns → reachable s0 (mkSystem w conns [] rs) →
  reachable s0 (mkSystem (now (serve conn req) w).2 conns [] (rs ++ [(now (serve conn req) w).1])).
Proof.
  intros Hin Hr. unfold now. destruct (serve conn req w) as [fut w1] eqn:Hs.
  destruct (fut w1) as [r w2] eqn:Hf.
  eapply rtc_r; [eapply rtc_r; [exact Hr|by eapply step_request]|].
  by apply (step_poll w1 w2 conns [] [] rs fut r).
Qed.

Lemma reach_session s0 w conns rs sid sess req :
  session_heap w !! sid = Some sess → reachable s0 (mkSystem w conns [] rs) →
  let m := serve_session sid (session_context sess) req in
  reachable s0 (mkSystem (now m w).2 conns [] (rs ++ [(now m w).1])).
Proof.
  intros Hin Hr m. unfold now. destruct (m w) as [fut w1] eqn:Hs.
  destruct (fut w1) as [r w2] eqn:Hf.
  eapply rtc_r; [eapply rtc_r; [exact Hr|by eapply step_session]|].
  by apply (step_poll w1 w2 conns [] [] rs fut r).
Qed.

(** Alice and Bob connect; Alice registers, logs in and listens to her events;
    then Bob sends her a pairing request. *)
Definition bobs_request : RelationHalfProof :=
  RelationHalfProof_new RELATION_TYPE_ENABLE_CALLS_BETWEEN (signer_profile_id Actors.alice) Actors.bob.
Definition demo_request : Request := ReqRegister (own_of Actors.alice) (half_of Actors.alice) None.
Definition demo_conns := [conn_of Actors.bob; conn_of Actors.alice].
Definition demo1 := now (serve (conn_of Actors.alice) demo_request) empty_world.
Definition demo2 := now (serve (conn_of Actors.alice) (ReqLogin (home_proof Actors.alice))) demo1.2.
Definition demo3 := now (serve_session 0 (ctx_of Actors.alice) ReqEvents) demo2.2.
Definition demo4 := now (serve (conn_of Actors.bob) (ReqPairRequest bobs_request)) demo3.2.
Definition demo_system : System :=
  mkSystem demo4.2 demo_conns [] ((([] ++ [demo1.1]) ++ [demo2.1]) ++ [demo3.1] ++ [demo4.1]).

Lemma demo_reachable :
  reachable (initial Actors.validator InMemoryStore_new InMemoryStore_new Sample.chans_empty)
    demo_system.
Proof.
  unfold demo_system. rewrite app_assoc.
  apply reach_serve; [left|].
  apply (reach_session _ _ _ _ 0 (HomeSessionServer_new (ctx_of Actors.alice)) ReqEvents).
  { vm_compute. reflexivity. }
  apply reach_serve; [right; left|]. apply reach_serve; [right; left|].
  eapply rtc_l; [apply (step_connect empty_world [] [] [] (ctx_of Actors.alice)); vm_compute; reflexivity|].
  eapply rtc_l; [|apply rtc_refl].
  apply (step_connect empty_world _ [] [] (ctx_of Actors.bob)). vm_compute. reflexivity.
Qed.

Lemma empty_store_inv {V} v (prof : V → Profile) : store_inv v prof (@InMemoryStore_new ProfileId V _ _).
Proof.
  intros k x. unfold kv_get, InMemoryStore_kv, InMemoryStore_get, InMemoryStore_new.
  simpl. by rewrite lookup_empty.
Qed.

Lemma empty_chans_inv v : chans_inv v (@Sample.chans_empty ChanMsg).
Proof.
  intros s m Hm. unfold mpsc_received in Hm. simpl in Hm. unfold Sample.received in Hm.
  simpl in Hm. rewrite lookup_empty in Hm. by apply elem_of_nil in Hm.
Qed.

Lemma hosted_profiles_certified_witness :
  ∃ own, stored Actors.alice demo4.2 = Ok own
    ∧ validate_profile Actors.validator (profile_public_key (own_profile own))
        (signer_profile_id Actors.alice) = Ok true.
Proof.
  eexists. split; [vm_compute; reflexivity|].
  eapply (hosted_profiles_certified Actors.validator InMemoryStore_new InMemoryStore_new
            Sample.chans_empty demo_system (signer_profile_id Actors.alice)).
  - apply empty_store_inv.
  - apply empty_store_inv.
  - apply empty_chans_inv.
  - apply demo_reachable.
  - vm_compute. reflexivity.
Defined.

Lemma delivered_messages_authentic_witness :
  ∃ m, mpsc_received 0 (chans demo4.2) = [m] ∧ authentic_msg Actors.validator m.
Proof.
  eexists. split; [vm_compute; reflexivity|].
  destruct (delivered_messages_authentic Actors.validator InMemoryStore_new InMemoryStore_new
              Sample.chans_empty demo_system (empty_store_inv _ _) (empty_store_inv _ _)
              (empty_chans_inv _) demo_reachable) as (_ & _ & _ & H).
  apply (H 0). vm_compute. left.
Defined.

(** Bob's registration leaves alice's entry as it is. *)
Lemma client_isolation_witness :
  stored Actors.alice
    (serve (conn_of Actors.bob) (ReqRegister (own_of Actors.bob) (half_of Actors.bob) None)
       demo4.2).2
  = stored Actors.alice demo4.2.
Proof.
  destruct (client_isolation (Dht:=Store Profile) (Db:=Store OwnProfile) (Chans:=DemoChans)
              (conn_of Actors.bob) 0 (ctx_of Actors.bob)
              (ReqRegister (own_of Actors.bob) (half_of Actors.bob) None) ReqEvents
              (signer_profile_id Actors.alice) (stored Actors.alice demo4.2)
              (kv_get (signer_profile_id Actors.alice) (public_profile_dht demo4.2)))
    as [H _]; [by vm_compute|by vm_compute|].
  destruct (H demo4.2 (conj eq_refl eq_refl)) as [[Hk _] _]. exact Hk.
Defined.
End witnesses.
