(* ===== verification/Connect.v ===== *)
(** * The client side ([connect/src/profile.rs], [simple_profile_repo.rs])

    [MyProfileImpl] is what an application of a user holds for one of the
    user's profiles: it finds homes of profiles, joins and leaves homes, pairs
    with peers and calls them.  [MyHomeSessionImpl] wraps a session with a home
    and passes its events on to any number of listeners.

    The state of a profile wrapper ([MyProfileImpl]) is kept apart from what it
    shares with the others of its process ([profile_repo], [listener_chans]) and
    from the rest of the world ([env]: the network and the homes), which only the
    methods of a home can change.  Properties are in [ConnectProps.v]. *)

From S2P Require Import Prelude Errors External FutureUtil Storage Protocol Relation Rpc.

(** A session with a home, with its streams of events and incoming calls. *)
Record ClientSession (Env : Type) : Type := mkClientSession
  { cs_session : HomeSession Env;
    cs_events : IO Env SinkId;
    cs_checkin_app : ApplicationId → IO Env SinkId }.
Arguments mkClientSession {Env}.
Arguments cs_session {Env}.
Arguments cs_events {Env}.
Arguments cs_checkin_app {Env}.

Abbreviation ClientHome Env := (Home Env (ClientSession Env)).

(** [trait HomeConnector]. *)
Class HomeConnector (Env : Type) := {
  home_connect : Profile → Signer → IO Env (Future Env ConnError (ClientHome Env))
}.

(** ** State *)

(** [Rc<MyHomeSession>]. *)
Abbreviation MySessionId := nat (only parsing).

Record MyHomeSessionImpl (Env : Type) : Type := mkMyHomeSession
  { session : ClientSession Env; event_listeners : list SinkId }.
Arguments mkMyHomeSession {Env}.
Arguments session {Env}.
Arguments event_listeners {Env}.

(** The loops spawned on the reactor: [ForwardEvents] passes the events of the
    home on [stream] to the listeners of a session, [StoreRelations] reads a
    listener's channel. *)
Inductive ClientTask : Set :=
| ForwardEvents (my_session : MySessionId) (stream : SinkId)
| StoreRelations (events : SinkId).

(** [relations] is [None] once the list is dropped; weak references to it then
    no longer upgrade.  So for the sessions missing from [my_sessions]. *)
Record MyProfileImpl (Env : Type) : Type := mkMyProfile
  { mp_own_profile : OwnProfile;
    mp_signer : Signer;
    session_cache : gmap ProfileId MySessionId;
    relations : option (list RelationProof);
    my_sessions : gmap MySessionId (MyHomeSessionImpl Env);
    next_my_session : MySessionId;
    client_tasks : list ClientTask }.
Arguments mkMyProfile {Env}.
Arguments mp_own_profile {Env}. Arguments mp_signer {Env}. Arguments session_cache {Env}.
Arguments relations {Env}. Arguments my_sessions {Env}. Arguments next_my_session {Env}.
Arguments client_tasks {Env}.

(** [SimpleProfileRepo]: a key-value store behind a [RefCell]. *)
Record SimpleProfileRepo (Store : Type) : Type := mkSimpleProfileRepo { profiles : Store }.
Arguments mkSimpleProfileRepo {Store}.
Arguments profiles {Store}.

Record Client (Env Store Chans : Type) : Type := mkClient
  { me : MyProfileImpl Env;
    profile_repo : SimpleProfileRepo Store;
    listener_chans : Chans;
    env : Env }.
Arguments mkClient {Env Store Chans}.
Arguments me {Env Store Chans}. Arguments profile_repo {Env Store Chans}.
Arguments listener_chans {Env Store Chans}. Arguments env {Env Store Chans}.

Section client.
Context {BC : Bincode} {Env Store Chans : Type}
        {KV : KeyValueStore Store ProfileId Profile}
        {CH : Channels ProfileEvent Chans}
        {HC : HomeConnector Env}
        {SO : SelectOk (Client Env Store Chans)}
        {HV : HashValues ProfileId}.

Abbreviation W := (Client Env Store Chans).

(** ** Updates of one field *)

Definition set_me (m : MyProfileImpl Env) (w : W) : W :=
  mkClient m (profile_repo w) (listener_chans w) (env w).
Definition set_repo (r : SimpleProfileRepo Store) (w : W) : W :=
  mkClient (me w) r (listener_chans w) (env w).
Definition set_listener_chans (c : Chans) (w : W) : W :=
  mkClient (me w) (profile_repo w) c (env w).
Definition set_env (e : Env) (w : W) : W :=
  mkClient (me w) (profile_repo w) (listener_chans w) e.

Definition set_own_profile (p : OwnProfile) (m : MyProfileImpl Env) : MyProfileImpl Env :=
  mkMyProfile p (mp_signer m) (session_cache m) (relations m) (my_sessions m)
    (next_my_session m) (client_tasks m).
Definition set_cache (c : gmap ProfileId MySessionId) (m : MyProfileImpl Env) : MyProfileImpl Env :=
  mkMyProfile (mp_own_profile m) (mp_signer m) c (relations m) (my_sessions m)
    (next_my_session m) (client_tasks m).
Definition set_relations (r : option (list RelationProof)) (m : MyProfileImpl Env)
  : MyProfileImpl Env :=
  mkMyProfile (mp_own_profile m) (mp_signer m) (session_cache m) r (my_sessions m)
    (next_my_session m) (client_tasks m).
Definition set_my_sessions (h : gmap MySessionId (MyHomeSessionImpl Env)) (n : MySessionId)
    (m : MyProfileImpl Env) : MyProfileImpl Env :=
  mkMyProfile (mp_own_profile m) (mp_signer m) (session_cache m) (relations m) h n
    (client_tasks m).

(** [handle.spawn]. *)
Definition spawn_client (t : ClientTask) (w : W) : W :=
  let m := me w in
  set_me (mkMyProfile (mp_own_profile m) (mp_signer m) (session_cache m) (relations m)
            (my_sessions m) (next_my_session m) (client_tasks m ++ [t])) w.

Definition put_my_session (ms : MySessionId) (s : MyHomeSessionImpl Env) (w : W) : W :=
  set_me (set_my_sessions (<[ms := s]> (my_sessions (me w))) (next_my_session (me w)) (me w)) w.

(** Methods of a home, run on the rest of the world. *)
Definition lift_future {E A} (f : Future Env E A) : Future W E A := λ w,
  let '(r, e) := f (env w) in (r, set_env e w).
Definition lift {E A} (m : IO Env (Future Env E A)) : IO W (Future W E A) := λ w,
  let '(f, e) := m (env w) in (lift_future f, set_env e w).

(** ** [SimpleProfileRepo] *)

Definition repo_insert (profile : Profile) : IO W (Future W Errors.Storage.StorageError unit) := λ w,
  let '(r, s) := kv_set (profile_id profile) profile (profiles (profile_repo w)) in
  (future_result r, set_repo (mkSimpleProfileRepo s) w).

Definition repo_load (id : ProfileId) : IO W (Future W ProtoError Profile) := λ w,
  (future_result (map_err (proto_context Proto.ProfileLookupFailed)
     (kv_get id (profiles (profile_repo w)))), w).

(** Loading a profile with the error of most callers. *)
Definition load_profile (k : Conn.ErrorKind) (id : ProfileId) : IO W (Future W ConnError Profile) :=
  λ w, let '(fut, w) := repo_load id w in (future_map_err (conn_context k) fut, w).

(** ** [MyHomeSessionImpl] *)

Definition add_listener (ms : MySessionId) (listener : SinkId) (w : W) : W :=
  match my_sessions (me w) !! ms with
  | Some s => put_my_session ms (mkMyHomeSession (session s) (event_listeners s ++ [listener])) w
  | None => w
  end.

(** [MyHomeSession::events]: the receiving half of a new listener's channel. *)
Definition my_session_events (ms : MySessionId) : IO W SinkId := λ w,
  let '(listener, c) := mpsc_channel CHANNEL_CAPACITY (listener_chans w) in
  (listener, add_listener ms listener (set_listener_chans c w)).

(** [MyHomeSessionImpl::new]. *)
Definition MyHomeSessionImpl_new (s : ClientSession Env) : IO W MySessionId := λ w,
  let ms := next_my_session (me w) in
  let w := set_me (set_my_sessions (<[ms := mkMyHomeSession s []]> (my_sessions (me w))) (S ms)
                     (me w)) w in
  let '(stream, e) := cs_events s (env w) in
  (ms, spawn_client (ForwardEvents ms stream) (set_env e w)).

(** Sending an event to every listener that has room for it; each [send] gives
    its sender back.  A listener without room makes its [send] wait:
    [Forwarding.v] has the sends one poll at a time. *)
Fixpoint send_to_all (listeners : list SinkId) (event : ProfileEvent) (c : Chans)
  : list (SinkId * Result string SinkId) * Chans :=
  match listeners with
  | [] => ([], c)
  | l :: listeners =>
      let '(r, c) := mpsc_send l event c in
      let '(rs, c) := send_to_all listeners event c in
      ((l, (λ _, l) <$> r) :: rs, c)
  end.

(** [select_all] of the [futures] crate, on the completed sends. *)
Context (select_all : list (nat * (SinkId * Result string SinkId)) →
           (nat * Result string SinkId) * list (nat * (SinkId * Result string SinkId))).

(** [forward_event], when no send has to wait: the listeners that received the
    event are kept. *)
Definition forward_event (listeners : list SinkId) (event : ProfileEvent)
  : Future W unit (list SinkId) := λ w,
  let '(send_futs, c) := send_to_all listeners event (listener_chans w) in
  let w := set_listener_chans c w in
  match collect_results select_all send_futs with
  | Some send_results => (Ok (omap ok send_results), w)
  | None => (Err tt, w) (* [collect_results] always has a result *)
  end.

(** When all sends are done: the listeners that took the event go behind those
    added meanwhile.  The upgraded [Rc] keeps the list, if not the session, alive. *)
Definition listeners_notified (ms : MySessionId) (successful_listeners : list SinkId) (w : W) : W :=
  match my_sessions (me w) !! ms with
  | Some s => put_my_session ms
                (mkMyHomeSession (session s) (event_listeners s ++ successful_listeners)) w
  | None => w
  end.

(** [forward_event_safe], when no send has to wait: the listeners are taken out
    when the event arrives and put back when all sends are done. *)
Definition forward_event_safe (ms : MySessionId) (event_res : Result string ProfileEvent)
  : IO W (Future W unit unit) := λ w,
  match my_sessions (me w) !! ms with
  | None => (future_err tt, w)
  | Some s =>
      match event_res with
      | Ok event =>
          let w := put_my_session ms (mkMyHomeSession (session s) []) w in
          (and_then (forward_event (event_listeners s) event) (λ successful_listeners w,
             (future_ok tt, listeners_notified ms successful_listeners w)), w)
      | Err _ => (future_err tt, w)
      end
  end.

(** ** Relations *)

Definition on_new_relation (rel_proof : RelationProof) : IO W (Future W ConnError unit) := λ w,
  match relations (me w) with
  | None => (future_err (conn_from Conn.ImplementationError), w)
  | Some rs => (future_ok tt, set_me (set_relations (Some (rs ++ [rel_proof])) (me w)) w)
  end.

(** The closure of the loop [start_event_handler] spawns; the error is logged. *)
Definition handle_event (event : ProfileEvent) : IO W (Future W unit unit) := λ w,
  match event with
  | PairingResponse rel_proof =>
      let '(fut, w) := on_new_relation rel_proof w in (future_map_err (λ _, tt) fut, w)
  | _ => (future_ok tt, w)
  end.

Definition start_event_handler (ms : MySessionId) : IO W unit := λ w,
  let '(events, w) := my_session_events ms w in
  (tt, spawn_client (StoreRelations events) w).

(** A task of the reactor, on the items its stream has yielded. *)
Definition forward_task (ms : MySessionId) (items : list (Result string ProfileEvent)) :=
  for_each (forward_event_safe ms) items.
Definition relations_task (events : list ProfileEvent) := for_each handle_event events.

(** ** Queries of [MyProfile] *)

Definition my_relations (m : MyProfileImpl Env) : list RelationProof := default [] (relations m).

(** [Option::map_or(true, ..)]. *)
Definition filter_passes {A} (f : option A) (p : A → bool) : bool :=
  match f with Some a => p a | None => true end.

Definition relations_with_peer (m : MyProfileImpl Env) (peer_id : ProfileId)
    (app_filter : option ApplicationId) (relation_type_filter : option string)
  : list RelationProof :=
  let rels := my_relations m in
  let rels := List.filter (λ proof,
    match proof_peer_id proof (signer_profile_id (mp_signer m)) with
    | Ok p_id => bool_decide (p_id = peer_id)
    | Err _ => false
    end) rels in
  let rels := List.filter (λ proof, filter_passes app_filter (accessible_by proof)) rels in
  List.filter (λ proof, filter_passes relation_type_filter
                          (λ rel, bool_decide (rp_relation_type proof = rel))) rels.

Definition homes (m : MyProfileImpl Env) : Result ConnError (list RelationProof) :=
  match profile_facet (own_profile (mp_own_profile m)) with
  | Persona persona => Ok (persona_homes persona)
  | _ => Err (conn_from Conn.PersonaProfileExpected)
  end.

(** ** Finding homes *)

Definition connect_home2 (home_profile_id : ProfileId) (signer : Signer)
  : IO W (Future W ConnError (ClientHome Env)) := λ w,
  let '(load_fut, w) := load_profile Conn.FailedToLoadProfile home_profile_id w in
  (and_then load_fut (λ home_profile, lift (home_connect home_profile signer)), w).

Definition connect_home (home_profile_id : ProfileId)
  : IO W (Future W ConnError (ClientHome Env)) := λ w,
  connect_home2 home_profile_id (mp_signer (me w)) w.

(** The future [any_home_of2] makes for one home of a profile. *)
Definition home_conn_fut (profile_id : ProfileId) (signer : Signer) (home_proof : RelationProof)
  : IO W (Future W ConnError (RelationProof * ClientHome Env)) := λ w,
  match proof_peer_id home_proof profile_id with
  | Ok home_id =>
      let '(conn_fut, w) := connect_home2 home_id signer w in
      (future_map (λ home, (home_proof, home)) conn_fut, w)
  | Err e => (future_err (conn_context Conn.FailedToGetPeerId e), w)
  end.

Fixpoint home_conn_futs (profile_id : ProfileId) (signer : Signer) (homes : list RelationProof)
  : IO W (list (Future W ConnError (RelationProof * ClientHome Env))) := λ w,
  match homes with
  | [] => ([], w)
  | home_proof :: homes =>
      let '(fut, w) := home_conn_fut profile_id signer home_proof w in
      let '(futs, w) := home_conn_futs profile_id signer homes w in
      (fut :: futs, w)
  end.

Definition any_home_of2 (profile : Profile) (signer : Signer)
  : IO W (Future W ConnError (RelationProof * ClientHome Env)) := λ w,
  match profile_facet profile with
  | Persona facet =>
      let '(futs, w) := home_conn_futs (profile_id profile) signer (persona_homes facet) w in
      match futs with
      | [] => (future_err (conn_from Conn.NoHomesFound), w)
      | fut :: futs => (select_ok fut futs, w)
      end
  | _ => (future_err (conn_from Conn.HomeProfileExpected), w)
  end.

Definition any_home_of (profile : Profile)
  : IO W (Future W ConnError (RelationProof * ClientHome Env)) := λ w,
  any_home_of2 profile (mp_signer (me w)) w.

(** ** Logging in *)

(** [home.login] with a proof of [home_id], and what [login] and [login_home]
    do with the session. *)
Definition login_at (home_id : ProfileId) (home_proof : RelationProof) (home : ClientHome Env)
  : IO W (Future W ConnError MySessionId) := λ w,
  let '(fut, w) := lift (home_login home home_proof) w in
  (and_then (future_map_err (conn_context Conn.LoginFailed) fut) (λ s w,
     let '(my_session, w) := MyHomeSessionImpl_new s w in
     let w := set_me (set_cache (<[home_id := my_session]> (session_cache (me w))) (me w)) w in
     let '(_, w) := start_event_handler my_session w in
     (future_ok my_session, w)), w).

(** The first home proof of the profile that names the home. *)
Definition find_home_proof (my_profile_id home_id : ProfileId) (profile : Profile)
  : Result ConnError RelationProof :=
  match profile_facet profile with
  | Persona persona =>
      ok_or (head (List.filter (λ home_proof,
          is_ok (proof_peer_id home_proof my_profile_id ≫= λ peer_id,
                   if decide (peer_id = home_id) then Ok true
                   else Err (proto_from Proto.PeerIdRetreivalFailed)))
        (persona_homes persona))) (conn_from Conn.HomeProofNotFound)
  | _ => Err (conn_from Conn.PersonaProfileExpected)
  end.

Definition login_home (home_profile_id : ProfileId) : IO W (Future W ConnError MySessionId) := λ w,
  match session_cache (me w) !! home_profile_id with
  | Some session_rc => (future_ok session_rc, w)
  | None =>
      let signer := mp_signer (me w) in
      let my_profile_id := signer_profile_id signer in
      let '(load_fut, w) := load_profile Conn.FailedToLoadProfile my_profile_id w in
      let login_fut := and_then load_fut (λ profile,
        io_ret (future_result (find_home_proof my_profile_id home_profile_id profile))) in
      (and_then login_fut (λ home_proof w,
         let '(conn_fut, w) := connect_home2 home_profile_id signer w in
         (and_then conn_fut (login_at home_profile_id home_proof), w)), w)
  end.

Definition MyProfile_login : IO W (Future W ConnError MySessionId) := λ w,
  match hash_values (session_cache (me w)) with
  | session_rc :: _ => (future_ok session_rc, w)
  | [] =>
      let signer := mp_signer (me w) in
      let my_profile_id := signer_profile_id signer in
      let '(load_fut, w) := load_profile Conn.LoginFailed my_profile_id w in
      let home_fut := and_then load_fut (λ profile, any_home_of2 profile signer) in
      (and_then home_fut (λ '(home_proof, home),
         match proof_peer_id home_proof my_profile_id with
         | Ok home_id => login_at home_id home_proof home
         | Err e => io_ret (future_err (conn_context Conn.FailedToAuthorize e))
         end), w)
  end.

(** ** Joining and leaving homes *)

Definition join_home (home_id : ProfileId) (invite : option HomeInvitation)
  : IO W (Future W ConnError unit) := λ w,
  let half_proof := RelationHalfProof_new RELATION_TYPE_HOSTED_ON_HOME home_id
                      (mp_signer (me w)) in
  let own_profile_dataclone := mp_own_profile (me w) in
  let '(home_fut, w) := connect_home home_id w in
  let reg_fut := and_then home_fut (λ home w,
    let '(fut, w) := lift (home_register home own_profile_dataclone half_proof invite) w in
    (future_map_err (λ '(_own_prof, err), conn_context Conn.RegistrationFailed err) fut, w)) in
  (and_then reg_fut (λ own_prof w,
     let w := set_me (set_own_profile own_prof (me w)) w in
     (* the future [insert] returns is dropped *)
     let '(_, w) := repo_insert (own_profile own_prof) w in
     (future_ok tt, w)), w).

Definition leave_home (home_id : ProfileId) (newhome : option Profile)
  : IO W (Future W ConnError unit) := λ w,
  let '(login_fut, w) := login_home home_id w in
  (and_then (future_map_err (conn_context Conn.LoginFailed) login_fut) (λ my_session w,
     match my_sessions (me w) !! my_session with
     | Some s =>
         let '(fut, w) := lift (session_unregister (cs_session (session s)) newhome) w in
         (future_map_err (conn_context Conn.DeregistrationFailed) fut, w)
     | None => (future_ok tt, w) (* the reference keeps its session alive *)
     end), w).

(** ** Pairing and calling *)

Definition initiate_relation (relation_type : string) (with_profile_id : ProfileId)
  : IO W (Future W ConnError unit) := λ w,
  let signer := mp_signer (me w) in
  let '(profile_fut, w) := load_profile Conn.FailedToLoadProfile with_profile_id w in
  (and_then profile_fut (λ profile w,
     let half_proof := RelationHalfProof_new relation_type (profile_id profile) signer in
     let '(home_fut, w) := any_home_of2 profile signer w in
     (and_then home_fut (λ '(_home_proof, home) w,
        let '(fut, w) := lift (home_pair_request home half_proof) w in
        (future_map_err (conn_context Conn.PairRequestFailed) fut, w)), w)), w).

Definition accept_relation (half_proof : RelationHalfProof)
  : IO W (Future W ConnError RelationProof) := λ w,
  let signer := mp_signer (me w) in
  if decide (hp_peer_id half_proof ≠ profile_id (own_profile (mp_own_profile (me w))))
  then (future_err (conn_from Conn.LookupFailed), w)
  else
    match sign_remaining_half half_proof signer with
    | Err e => (future_err (conn_context Conn.FailedToAuthorize e), w)
    | Ok proof =>
        let '(load_fut, w) := load_profile Conn.FailedToLoadProfile (hp_signer_id half_proof) w in
        let home_fut := and_then load_fut (λ profile, any_home_of2 profile signer) in
        let pair_fut := and_then home_fut (λ '(_home_proof, home) w,
          let '(fut, w) := lift (home_pair_response home proof) w in
          (future_map_err (conn_context Conn.PeerResponseFailed) fut, w)) in
        (and_then pair_fut (λ _, λ w,
           let '(fut, w) := on_new_relation proof w in
           (future_map (λ _, proof) fut, w)), w)
    end.

Definition MyProfile_call (proof : RelationProof) (app : ApplicationId)
    (init_payload : AppMessageFrame) (to_caller : option SinkId)
  : IO W (Future W ConnError (option SinkId)) := λ w,
  let signer := mp_signer (me w) in
  match proof_peer_id proof (signer_profile_id signer) with
  | Err e => (future_err (conn_context Conn.LookupFailed e), w)
  | Ok peer_id =>
      let '(load_fut, w) := load_profile Conn.FailedToLoadProfile peer_id w in
      let home_fut := and_then load_fut (λ profile, any_home_of2 profile signer) in
      (and_then home_fut (λ '(_home_proof, home) w,
         let '(fut, w) := lift (home_call home app (mkCallRequest proof init_payload to_caller)) w in
         (future_map_err (conn_context Conn.CallFailed) fut, w)), w)
  end.

End client.

(** [MyProfileImpl::new]. *)
Definition MyProfileImpl_new {Env} (own : OwnProfile) (signer : Signer) : MyProfileImpl Env :=
  mkMyProfile own signer ∅ (Some []) ∅ 0 [].
