(* ===== verification/ConnectFrame.v ===== *)
(** * Invariants of the client

    What a property of the state of a client ([Connect.v]) has to be closed
    under to be kept by every operation of the client, in its call and in the
    polls of its future, whatever comes between.  [ConnectProps.v] uses it for
    what a client never loses, [ClientSafety.v] for what it never gets. *)

From S2P Require Import Prelude Errors External FutureUtil Storage Protocol Relation Rpc Hoare.
From S2P Require Import Connect.

(** ** Finding a home *)

Section finding.
Context {BC : Bincode} {Env Store Chans : Type}
        {KV : KeyValueStore Store ProfileId Profile}
        {CH : Channels ProfileEvent Chans}
        {HC : HomeConnector Env}
        {SO : SelectOk (Client Env Store Chans)} {SOL : SelectOkLaws (Client Env Store Chans)}.
Abbreviation W := (Client Env Store Chans).
Implicit Types w : W.

Lemma home_conn_futs_map pid signer homes w :
  home_conn_futs pid signer homes w = ((λ p, (home_conn_fut pid signer p w).1) <$> homes, w).
Proof.
  induction homes as [|p homes IH]; cbn [home_conn_futs fmap list_fmap]; [done|].
  assert ((home_conn_fut pid signer p w).2 = w) as Hw.
  { unfold home_conn_fut. by destruct (proof_peer_id p pid). }
  destruct (home_conn_fut pid signer p w) as [fut w1]. simpl in Hw. subst w1. by rewrite IH.
Qed.

Lemma any_home_of2_call profile signer w : (any_home_of2 profile signer w).2 = w.
Proof.
  unfold any_home_of2. destruct (profile_facet profile); try done.
  rewrite home_conn_futs_map. by destruct (persona_homes f).
Qed.

Lemma first_ok_triple {E A} (I : W → Prop) (f : Future W E A) fs P :
  Forall (λ f, fut_triple I f P) (f :: fs) → fut_triple I (first_ok f fs) P.
Proof.
  revert f; induction fs as [|g fs IH]; intros f Hall w Hw;
    apply Forall_cons_1 in Hall as [Hf Hall]; specialize (Hf w Hw); simpl.
  - destruct (f w) as [[a|e] w']; simpl in *; naive_solver.
  - destruct (f w) as [[a|e] w1]; simpl in *; [naive_solver|].
    destruct Hf. by apply IH.
Qed.

Lemma select_ok_triple {E A} (I : W → Prop) (f : Future W E A) fs P :
  Forall (λ f, fut_triple I f P) (f :: fs) → fut_triple I (select_ok f fs) P.
Proof.
  intros Hall w Hw. destruct (select_ok_order E A f fs w) as (g & gs & Hp & ->).
  apply first_ok_triple; [|done]. by rewrite Hp.
Qed.

(** The homes [any_home_of2] tries are those of the profile, each by a future of
    its own. *)
Lemma any_home_of2_triple_of (I : W → Prop) profile signer w P :
  (∀ f p, profile_facet profile = Persona f → p ∈ persona_homes f →
     fut_triple I (home_conn_fut (profile_id profile) signer p w).1 P) →
  fut_triple I (any_home_of2 profile signer w).1 P.
Proof.
  intros Hone. unfold any_home_of2. destruct (profile_facet profile); try apply fut_err.
  rewrite home_conn_futs_map. destruct (persona_homes f) as [|p ps] eqn:Hps; simpl; [apply fut_err|].
  apply select_ok_triple.
  change (_ :: _) with ((λ p, (home_conn_fut (profile_id profile) signer p w).1) <$> (p :: ps)).
  rewrite <- Hps. apply Forall_fmap, Forall_forall. intros q Hq. simpl.
  apply (Hone f); [done|by apply list_elem_of_In].
Qed.
End finding.

(** ** The interface *)

Section invariant.
Context {BC : Bincode} {Env Store Chans : Type}
        {KV : KeyValueStore Store ProfileId Profile}
        {CH : Channels ProfileEvent Chans}
        {HC : HomeConnector Env}
        {SO : SelectOk (Client Env Store Chans)} {SOL : SelectOkLaws (Client Env Store Chans)}
        {HV : HashValues ProfileId}.
Abbreviation W := (Client Env Store Chans).
Implicit Types w : W.

(** What [login] and [login_home] do with the session a home has given them. *)
Definition open_session (home_id : ProfileId) (s : ClientSession Env) (w : W) : W :=
  let '(ms, w) := MyHomeSessionImpl_new s w in
  (start_event_handler ms (set_me (set_cache (<[home_id := ms]> (session_cache (me w))) (me w)) w)).2.

(** Invariants [J] of clients whose homes satisfy [safe_home], give sessions
    that satisfy [safe_session], and confirm genuine relations only; the events
    that come to the client are [genuine]. *)
Class ClientInvariant (J : W → Prop) (safe_home : ClientHome Env → Prop)
    (safe_session : ClientSession Env → Prop) (genuine : ProfileEvent → Prop) : Prop := {
  ci_connect hp signer : call_triple J (lift (home_connect hp signer)) safe_home;
  ci_register h own half invite :
    safe_home h → call_triple J (lift (home_register h own half invite)) anything;
  ci_login h proof : safe_home h → call_triple J (lift (home_login h proof)) safe_session;
  ci_pair_request h half : safe_home h → call_triple J (lift (home_pair_request h half)) anything;
  ci_pair_response h rp : safe_home h →
    call_triple J (lift (home_pair_response h rp)) (λ _, genuine (PairingResponse rp));
  ci_call h app req : safe_home h → call_triple J (lift (home_call h app req)) anything;
  ci_unregister ms s w0 newhome : J w0 → my_sessions (me w0) !! ms = Some s →
    call_triple J (lift (session_unregister (cs_session (session s)) newhome)) anything;
  ci_own own w : J w → J (set_me (set_own_profile own (me w)) w);
  ci_repo r w : J w → J (set_repo r w);
  ci_relation rp rs w : J w → relations (me w) = Some rs → genuine (PairingResponse rp) →
    J (set_me (set_relations (Some (rs ++ [rp])) (me w)) w);
  ci_open home_id s w : J w → safe_session s → J (open_session home_id s w);
  ci_listeners ms s ls w : J w → my_sessions (me w) !! ms = Some s →
    J (put_my_session ms (mkMyHomeSession (session s) ls) w);
  ci_channel n w : J w → J (set_listener_chans (mpsc_channel n (listener_chans w)).2 w);
  ci_send s event w : J w → genuine event →
    J (set_listener_chans (mpsc_send s event (listener_chans w)).2 w);
}.

Context {J : W → Prop} {safe_home : ClientHome Env → Prop}
        {safe_session : ClientSession Env → Prop} {genuine : ProfileEvent → Prop}
        {CI : ClientInvariant J safe_home safe_session genuine}.

(** ** Every operation keeps it *)

Lemma load_keeps {A} k id (K : Profile → IO W (Future W ConnError A)) Q :
  (∀ p, call_triple J (K p) Q) → ∀ w, fut_triple J (and_then (load_profile k id w).1 K) Q.
Proof.
  intros HK w. eapply fut_and_then; [apply fut_map_err, (fut_result _ _ anything); done|].
  intros p _. apply HK.
Qed.

Lemma connect_home2_keeps home_id signer :
  call_triple J (connect_home2 home_id signer) safe_home.
Proof.
  intros w Hw. split; [done|]. apply (load_keeps Conn.FailedToLoadProfile home_id). intros hp.
  apply (ci_connect (J:=J)).
Qed.

Lemma any_home_of2_keeps profile signer :
  call_triple J (any_home_of2 profile signer) (λ found, safe_home found.2).
Proof.
  intros w Hw. rewrite any_home_of2_call. split; [done|]. apply any_home_of2_triple_of.
  intros f p _ _. unfold home_conn_fut.
  destruct (proof_peer_id p (profile_id profile)) as [id|e]; simpl; [|apply fut_err].
  destruct (connect_home2_keeps id signer w Hw) as [_ H].
  eapply fut_map; [exact H|done].
Qed.

(** A request to a home with its error wrapped. *)
Lemma request_keeps {E A} (m : IO Env (Future Env E A)) (g : E → ConnError) Q :
  call_triple J (lift m) Q →
  call_triple J (λ w, let '(fut, w) := lift m w in (future_map_err g fut, w)) Q.
Proof. apply call_map_err. Qed.

Lemma login_at_keeps id proof home :
  safe_home home → call_triple J (login_at id proof home) anything.
Proof.
  intros Hh w Hw. unfold login_at.
  destruct (ci_login (J:=J) home proof Hh w Hw) as [H1 H2].
  destruct (lift (home_login home proof) w) as [f w1]. simpl in *. split; [done|].
  eapply fut_and_then; [by apply fut_map_err|]. intros s Hs w2 Hw2.
  pose proof (ci_open (J:=J) id s w2 Hw2 Hs) as H. unfold open_session in H.
  destruct (MyHomeSessionImpl_new s w2) as [ms w3].
  destruct (start_event_handler ms _) as [[] w4]. simpl in *. split; [done|]. by apply fut_ok.
Qed.

Lemma login_home_keeps id : call_triple J (login_home id) anything.
Proof.
  intros w Hw. unfold login_home. destruct (session_cache (me w) !! id) as [ms|].
  { split; [done|]. by apply fut_ok. }
  split; [done|]. simpl. eapply fut_and_then.
  - apply (load_keeps Conn.FailedToLoadProfile _ _ anything). intros p.
    by apply call_io_ret, fut_result.
  - intros proof _. apply (call_and_then _ _ _ _ _ (connect_home2_keeps id (mp_signer (me w)))).
    intros home Hh. by apply login_at_keeps.
Qed.

Lemma MyProfile_login_keeps : call_triple J MyProfile_login anything.
Proof.
  intros w Hw. unfold MyProfile_login. destruct (hash_values (session_cache (me w))) as [|ms rest].
  2: { split; [done|]. by apply fut_ok. }
  split; [done|]. simpl. eapply fut_and_then.
  - apply (load_keeps Conn.LoginFailed). intros p. apply any_home_of2_keeps.
  - intros [proof home] Hh. destruct (proof_peer_id _ _) as [id|e].
    + by apply login_at_keeps.
    + by apply call_io_ret, fut_err.
Qed.

Lemma join_home_keeps id invite : call_triple J (join_home id invite) anything.
Proof.
  intros w Hw. split; [done|]. unfold join_home, connect_home. simpl.
  eapply fut_and_then.
  - eapply fut_and_then; [apply (connect_home2_keeps id (mp_signer (me w)) w Hw)|].
    intros home Hh. by apply request_keeps, (ci_register (J:=J)).
  - intros own _ w1 Hw1. unfold repo_insert. simpl. destruct (kv_set _ _ _) as [r s]. simpl.
    split; [|by apply fut_ok]. by apply (ci_repo (J:=J)), (ci_own (J:=J)).
Qed.

Lemma leave_home_keeps id newhome : call_triple J (leave_home id newhome) anything.
Proof.
  intros w Hw. unfold leave_home. destruct (login_home_keeps id w Hw) as [H1 H2].
  destruct (login_home id w) as [f w1]. simpl in *. split; [done|].
  eapply fut_and_then; [by apply fut_map_err|]. intros ms _ w2 Hw2.
  destruct (my_sessions (me w2) !! ms) as [s|] eqn:Hs; [|by split; [|apply fut_ok]].
  exact (request_keeps (session_unregister (cs_session (session s)) newhome) _ _
    (ci_unregister (J:=J) ms s w2 newhome Hw2 Hs) w2 Hw2).
Qed.

Lemma initiate_relation_keeps rt peer : call_triple J (initiate_relation rt peer) anything.
Proof.
  intros w Hw. split; [done|]. apply (load_keeps Conn.FailedToLoadProfile peer). intros p w1 Hw1.
  destruct (any_home_of2_keeps p (mp_signer (me w)) w1 Hw1) as [H1 H2].
  destruct (any_home_of2 _ _ w1) as [f w2]. simpl in *. split; [done|].
  eapply fut_and_then; [exact H2|]. intros [proof home] Hh.
  by apply request_keeps, (ci_pair_request (J:=J)).
Qed.

Lemma on_new_relation_keeps proof :
  genuine (PairingResponse proof) → call_triple J (on_new_relation proof) anything.
Proof.
  intros Hg w Hw. unfold on_new_relation. destruct (relations (me w)) as [rs|] eqn:Hrs.
  - split; [by apply (ci_relation (J:=J))|by apply fut_ok].
  - split; [done|by apply fut_err].
Qed.

(** The countersigned proof is stored when a home has taken it only. *)
Lemma accept_relation_keeps hp : call_triple J (accept_relation hp) anything.
Proof.
  intros w Hw. unfold accept_relation. case_decide; [split; [done|by apply fut_err]|].
  destruct (sign_remaining_half hp (mp_signer (me w))) as [proof|e].
  2: { split; [done|by apply fut_err]. }
  split; [done|]. simpl. eapply fut_and_then; [eapply fut_and_then|].
  - apply (load_keeps Conn.FailedToLoadProfile). intros p. apply any_home_of2_keeps.
  - intros [? home] Hh. by apply request_keeps, (ci_pair_response (J:=J)).
  - intros u Hg w1 Hw1. destruct (on_new_relation_keeps proof Hg w1 Hw1) as [H1 H2].
    destruct (on_new_relation proof w1) as [f w2]. simpl in *. split; [done|].
    by eapply fut_map.
Qed.

Lemma MyProfile_call_keeps proof app payload to_caller :
  call_triple J (MyProfile_call proof app payload to_caller) anything.
Proof.
  intros w Hw. unfold MyProfile_call. destruct (proof_peer_id _ _) as [id|e].
  2: { split; [done|by apply fut_err]. }
  split; [done|]. simpl. eapply fut_and_then.
  - apply (load_keeps Conn.FailedToLoadProfile). intros p. apply any_home_of2_keeps.
  - intros [? home] Hh. by apply request_keeps, (ci_call (J:=J)).
Qed.

Lemma my_session_events_keeps ms : triple J (my_session_events ms) anything.
Proof.
  intros w Hw. split; [|done]. unfold my_session_events.
  pose proof (ci_channel (J:=J) CHANNEL_CAPACITY w Hw) as H.
  destruct (mpsc_channel _ _) as [l c]. simpl in *. unfold add_listener. simpl.
  destruct (my_sessions (me w) !! ms) as [s|] eqn:Hs; [|done]. by apply (ci_listeners (J:=J)).
Qed.

(** ** The loops *)

Context (select_all : list (nat * (SinkId * Result string SinkId)) →
           (nat * Result string SinkId) * list (nat * (SinkId * Result string SinkId))).

Lemma send_to_all_keeps ls event w :
  genuine event → J w → J (set_listener_chans (send_to_all ls event (listener_chans w)).2 w).
Proof.
  intros Hg. revert w; induction ls as [|l ls IH]; intros w Hw; cbn [send_to_all].
  { destruct w. exact Hw. }
  pose proof (ci_send (J:=J) l event w Hw Hg) as H1. specialize (IH _ H1).
  destruct (mpsc_send l event (listener_chans w)) as [r c]. simpl in *.
  by destruct (send_to_all ls event c).
Qed.

Lemma listeners_notified_keeps ms ls w : J w → J (listeners_notified ms ls w).
Proof.
  intros Hw. unfold listeners_notified. destruct (my_sessions (me w) !! ms) as [s|] eqn:Hms; [|done].
  by apply (ci_listeners (J:=J)).
Qed.

Lemma forward_event_safe_keeps ms item :
  (∀ event, item = Ok event → genuine event) →
  call_triple J (forward_event_safe select_all ms item) anything.
Proof.
  intros Hg w Hw. unfold forward_event_safe. destruct (my_sessions (me w) !! ms) as [s|] eqn:Hms.
  2: { split; [done|by apply fut_err]. }
  destruct item as [event|e]; [|split; [done|by apply fut_err]].
  split; [by apply (ci_listeners (J:=J))|]. simpl. eapply (fut_and_then _ _ _ anything).
  - intros w1 Hw1. unfold forward_event.
    pose proof (send_to_all_keeps (event_listeners s) event w1 (Hg _ eq_refl) Hw1) as H.
    destruct (send_to_all _ _ _) as [rs c]. by destruct (collect_results _ _).
  - intros ls _ w1 Hw1. split; [by apply listeners_notified_keeps|by apply fut_ok].
Qed.

Lemma handle_event_keeps event : genuine event → call_triple J (handle_event event) anything.
Proof.
  intros Hg w Hw. destruct event as [d|hp|p]; [split; [done|by apply fut_ok]..|].
  destruct (on_new_relation_keeps p Hg w Hw) as [H1 H2]. unfold handle_event.
  destruct (on_new_relation p w) as [f w1]. simpl in *. split; [done|]. by apply fut_map_err.
Qed.

(** The operations an application calls. *)
Inductive user_op : ∀ E A, IO W (Future W E A) → Prop :=
| op_connect_home id : user_op _ _ (connect_home id)
| op_any_home_of p : user_op _ _ (any_home_of p)
| op_login_home id : user_op _ _ (login_home id)
| op_login : user_op _ _ MyProfile_login
| op_join_home id invite : user_op _ _ (join_home id invite)
| op_leave_home id newhome : user_op _ _ (leave_home id newhome)
| op_initiate_relation rt peer : user_op _ _ (initiate_relation rt peer)
| op_accept_relation hp : user_op _ _ (accept_relation hp)
| op_call proof app payload to_caller : user_op _ _ (MyProfile_call proof app payload to_caller).

Lemma user_op_keeps E A (m : IO W (Future W E A)) : user_op E A m → call_triple J m anything.
Proof.
  assert (∀ E A (m : IO W (Future W E A)) P, call_triple J m P → call_triple J m anything) as Hweak.
  { intros E' A' m' P Hm w Hw. destruct (Hm w Hw) as [H1 H2]. split; [done|].
    intros w1 Hw1. by destruct (H2 w1 Hw1). }
  intros [id|p|id| |id invite|id newhome|rt peer|hp|proof app payload to_caller].
  - intros w Hw. by apply (Hweak _ _ _ _ (connect_home2_keeps id (mp_signer (me w)))).
  - intros w Hw. by apply (Hweak _ _ _ _ (any_home_of2_keeps p (mp_signer (me w)))).
  - apply login_home_keeps.
  - apply MyProfile_login_keeps.
  - apply join_home_keeps.
  - apply leave_home_keeps.
  - apply initiate_relation_keeps.
  - apply accept_relation_keeps.
  - apply MyProfile_call_keeps.
Qed.
End invariant.
