(* ===== verification/ConnectProps.v ===== *)
(** * Properties of the client ([Connect.v])

    First the frame of every operation (what it may touch of the client's own
    state), then what each operation does on each branch.  A method is a call
    followed later by the poll of its future: [(f, w1)] is what the call made
    in [w] gives, and [f] is polled in any later state [w2]. *)

From S2P Require Import Prelude Errors External FutureUtil Storage Protocol Relation Rpc Hoare.
From S2P Require Import Connect ConnectFrame.

Section client.
Context {BC : Bincode} {Env Store Chans : Type}
        {KV : KeyValueStore Store ProfileId Profile}
        {CH : Channels ProfileEvent Chans} {CHL : ChannelsLaws ProfileEvent Chans}
        {HC : HomeConnector Env}
        {SO : SelectOk (Client Env Store Chans)} {SOL : SelectOkLaws (Client Env Store Chans)}
        {HV : HashValues ProfileId} {HVL : HashValuesLaws ProfileId}.
Context (select_all : list (nat * (SinkId * Result string SinkId)) →
           (nat * Result string SinkId) * list (nat * (SinkId * Result string SinkId))).

Abbreviation W := (Client Env Store Chans).
Implicit Types w : W.

(** ** Vocabulary *)

(** Only the rest of the world differs. *)
Definition only_env (w w' : W) : Prop :=
  me w' = me w ∧ profile_repo w' = profile_repo w ∧ listener_chans w' = listener_chans w.

(** [home] is what connecting to the home named [home_id] gave, its profile
    being taken from the repository [r]. *)
Definition connected_to (r : SimpleProfileRepo Store) (signer : Signer) (home_id : ProfileId)
    (home : ClientHome Env) : Prop :=
  ∃ home_profile e, kv_get home_id (profiles r) = Ok home_profile
                    ∧ (await (home_connect home_profile signer) e).1 = Ok home.

(** A home that is reachable whatever the state of the network. *)
Definition reachable_home (r : SimpleProfileRepo Store) (signer : Signer) (home_id : ProfileId)
  : Prop :=
  ∃ home_profile, kv_get home_id (profiles r) = Ok home_profile
                  ∧ ∀ e, is_ok (await (home_connect home_profile signer) e).1 = true.

(** What a successful login at [home_id] leaves behind: a session that is
    cached, forwards the events of the home, and has one listener, which feeds
    the relations of the profile. *)
Record session_opened (home_id : ProfileId) (ms : MySessionId) (w w' : W) : Prop :=
  mk_session_opened
  { so_cache : session_cache (me w') = <[home_id := ms]> (session_cache (me w));
    so_tasks : ∃ s stream listener,
      my_sessions (me w') = <[ms := mkMyHomeSession s [listener]]> (my_sessions (me w))
      ∧ client_tasks (me w') =
          client_tasks (me w) ++ [ForwardEvents ms stream; StoreRelations listener]
      ∧ mpsc_received listener (listener_chans w') = []
      ∧ ∀ l, l ≠ listener → mpsc_received l (listener_chans w') = mpsc_received l (listener_chans w);
    so_signer : mp_signer (me w') = mp_signer (me w);
    so_next : next_my_session (me w') = S ms;
    so_own : mp_own_profile (me w') = mp_own_profile (me w);
    so_relations : relations (me w') = relations (me w);
    so_repo : profile_repo w' = profile_repo w }.

(** The relations among a list of events. *)
Definition pairing_of (event : ProfileEvent) : option RelationProof :=
  match event with PairingResponse p => Some p | _ => None end.

(** ** The frame of finding a home *)

#[local] Instance only_env_preorder : PreOrder only_env.
Proof. unfold only_env. split; [by intros ?|intros ???; naive_solver congruence]. Qed.

(** [w] extended by other code: the invariant under which futures are polled. *)
Definition frozen (w0 w : W) : Prop := only_env w0 w.

Lemma frozen_refl w : frozen w w.
Proof. by unfold frozen. Qed.

Lemma frozen_set_env w0 w e : frozen w0 w → frozen w0 (set_env e w).
Proof. unfold frozen, only_env. by destruct w. Qed.

Lemma lift_frozen {E A} w0 (m : IO Env (Future Env E A)) (P : A → Prop) :
  (∀ e e' a, (let '(f, e1) := m e in (f e').1 = Ok a) → P a) →
  call_triple (frozen w0) (lift m) P.
Proof.
  intros HP w Hw. unfold lift. destruct (m (env w)) as [f e] eqn:Hm. simpl.
  split; [by apply frozen_set_env|]. intros w1 Hw1. unfold lift_future.
  destruct (f (env w1)) as [r e1] eqn:Hf. simpl. split; [by apply frozen_set_env|].
  intros a ->. apply (HP (env w) (env w1)). by rewrite Hm, Hf.
Qed.

(** Call and poll of a lifted method, with nothing in between. *)
Lemma await_lift {E A} (m : IO Env (Future Env E A)) w :
  await (lift m) w = let '(r, e) := await m (env w) in (r, set_env e w).
Proof.
  unfold await, lift, lift_future. destruct (m (env w)) as [f e]. simpl.
  by destruct (f e).
Qed.

Lemma and_then_await {E A B} (f : Future W E A) (k : A → IO W (Future W E B)) w :
  and_then f k w = match f w with
                   | (Ok a, w1) => await (k a) w1
                   | (Err e, w1) => (Err e, w1)
                   end.
Proof. unfold and_then, await. by destruct (f w) as [[a|e] w1]. Qed.

Lemma connect_home2_call home_id signer w : (connect_home2 home_id signer w).2 = w.
Proof. done. Qed.

Lemma connect_home2_poll home_id signer w w2 :
  let '(r, w3) := (connect_home2 home_id signer w).1 w2 in
  only_env w2 w3 ∧ (∀ home, r = Ok home → connected_to (profile_repo w) signer home_id home).
Proof.
  unfold connect_home2, load_profile, repo_load. simpl. rewrite and_then_await.
  unfold future_map_err, future_result.
  destruct (kv_get home_id (profiles (profile_repo w))) as [hp|e] eqn:Hget; simpl; [|done].
  rewrite await_lift. destruct (await _ _) as [r e] eqn:Hr. split; [by destruct w2|].
  intros home ->. exists hp, (env w2). by rewrite Hr.
Qed.

Lemma connect_home2_triple w0 w home_id signer :
  fut_triple (frozen w0) (connect_home2 home_id signer w).1
    (connected_to (profile_repo w) signer home_id).
Proof.
  intros w2 Hw2. pose proof (connect_home2_poll home_id signer w w2) as H.
  destruct ((connect_home2 home_id signer w).1 w2) as [r w3]. destruct H as [H1 H2].
  split; [|exact H2]. unfold frozen in *. by trans w2.
Qed.

Lemma connect_home2_reachable home_id signer w w2 :
  reachable_home (profile_repo w) signer home_id →
  is_ok ((connect_home2 home_id signer w).1 w2).1 = true.
Proof.
  intros (hp & Hget & Hok). unfold connect_home2, load_profile, repo_load. simpl.
  rewrite and_then_await. unfold future_map_err, future_result. rewrite Hget. simpl.
  rewrite await_lift. specialize (Hok (env w2)). by destruct (await _ _).
Qed.

(** What a connection future of [any_home_of2] comes to. *)
Definition home_found (w : W) (signer : Signer) (profile : Profile)
    (homes : list RelationProof) (found : RelationProof * ClientHome Env) : Prop :=
  found.1 ∈ homes ∧ ∃ home_id, proof_peer_id found.1 (profile_id profile) = Ok home_id
                               ∧ connected_to (profile_repo w) signer home_id found.2.

Lemma home_conn_fut_triple w0 w signer profile homes p :
  p ∈ homes →
  fut_triple (frozen w0) (home_conn_fut (profile_id profile) signer p w).1
    (home_found w signer profile homes).
Proof.
  intros Hin. unfold home_conn_fut.
  destruct (proof_peer_id p (profile_id profile)) as [home_id|e] eqn:Hp; simpl; [|apply fut_err].
  eapply fut_map with (P := connected_to (profile_repo w) signer home_id).
  - apply (connect_home2_triple w0 w home_id signer).
  - intros home Hhome. split; [done|]. eauto.
Qed.

Lemma first_ok_succeeds {E A} (f : Future W E A) fs w :
  (∃ g, g ∈ f :: fs ∧ ∀ w, is_ok (g w).1 = true) → is_ok (first_ok f fs w).1 = true.
Proof.
  revert f w; induction fs as [|h fs IH]; intros f w (g & Hin & Hg); simpl.
  - apply list_elem_of_singleton in Hin as ->. specialize (Hg w).
    by destruct (f w) as [[] ?].
  - destruct (f w) as [[a|e] w1] eqn:Hf; [done|]. apply IH. exists g. split; [|done].
    apply elem_of_cons in Hin as [->|Hin]; [|done]. specialize (Hg w). by rewrite Hf in Hg.
Qed.

Lemma select_ok_succeeds {E A} (f : Future W E A) fs w :
  (∃ g, g ∈ f :: fs ∧ ∀ w, is_ok (g w).1 = true) → is_ok (select_ok f fs w).1 = true.
Proof.
  intros (k & Hin & Hk). destruct (select_ok_order E A f fs w) as (g & gs & Hp & ->).
  apply first_ok_succeeds. exists k. by rewrite Hp.
Qed.

(** Whatever the frame, [any_home_of2] keeps it and finds a home of the profile. *)
Definition persona_homes_of (profile : Profile) : list RelationProof :=
  match profile_facet profile with Persona f => persona_homes f | _ => [] end.

Lemma any_home_of2_triple w0 w profile signer :
  fut_triple (frozen w0) (any_home_of2 profile signer w).1
    (home_found w signer profile (persona_homes_of profile)).
Proof.
  apply any_home_of2_triple_of. intros f p Hf Hp. unfold persona_homes_of. rewrite Hf.
  by apply home_conn_fut_triple.
Qed.

(** ** The frame of logging in *)

Lemma session_opened_env home_id ms w w1 w' :
  only_env w w1 → session_opened home_id ms w1 w' → session_opened home_id ms w w'.
Proof. intros (Hm & Hr & Hc) [H1 H2 H3 H4 H5 H6 H7]. rewrite ?Hm, ?Hr, ?Hc in *. by split. Qed.

Lemma start_session_opened home_id s w :
  let '(ms, w1) := MyHomeSessionImpl_new s w in
  let w2 := set_me (set_cache (<[home_id := ms]> (session_cache (me w1))) (me w1)) w1 in
  ms = next_my_session (me w) ∧ session_opened home_id ms w (start_event_handler ms w2).2.
Proof.
  unfold MyHomeSessionImpl_new. simpl. destruct (cs_events s (env w)) as [stream e].
  split; [done|]. unfold start_event_handler, my_session_events. simpl.
  destruct (mpsc_channel _ (listener_chans w)) as [l c] eqn:Hl.
  apply mpsc_channel_new in Hl as [Hnew Hold]. unfold add_listener. simpl.
  rewrite lookup_insert_eq. simpl. split; simpl; [done| |done..].
  exists s, stream, l. rewrite insert_insert_eq, <- app_assoc. by split_and!.
Qed.

Lemma login_at_poll home_id proof home w :
  let '(r, w') := await (login_at home_id proof home) w in
  match r with
  | Ok ms => ms = next_my_session (me w) ∧ session_opened home_id ms w w'
  | Err _ => only_env w w'
  end.
Proof.
  unfold await, login_at, lift. destruct (home_login home proof (env w)) as [f e].
  rewrite and_then_await. unfold future_map_err, lift_future. simpl.
  destruct (f e) as [[s|err] e']; simpl; [|by destruct w].
  unfold await. pose proof (start_session_opened home_id s (set_env e' (set_env e w))) as H.
  destruct (MyHomeSessionImpl_new _ _) as [ms w1].
  simpl in H. destruct H as [H1 H2]. destruct (start_event_handler _ _) as [[] w2].
  split; [done|]. by eapply session_opened_env, H2.
Qed.

(** Logging in when a home has been found: nothing but the world has changed
    on the way there. *)
Lemma login_found {A} (f : Future W ConnError A) (k : A → IO W (Future W ConnError MySessionId))
    (home_id : A → ProfileId) (P : A → Prop) w :
  fut_triple (frozen w) f P →
  (∀ a, P a → ∀ w, let '(r, w') := await (k a) w in
     match r with
     | Ok ms => ms = next_my_session (me w) ∧ session_opened (home_id a) ms w w'
     | Err _ => only_env w w'
     end) →
  let '(r, w') := and_then f k w in
  match r with
  | Ok ms => ms = next_my_session (me w) ∧ ∃ a, P a ∧ session_opened (home_id a) ms w w'
  | Err _ => only_env w w'
  end.
Proof.
  intros Hf Hk. rewrite and_then_await. specialize (Hf w (frozen_refl w)).
  destruct (f w) as [[a|e] w1]; simpl in *; [|by destruct Hf].
  destruct Hf as [Hw Ha]. specialize (Ha a eq_refl). specialize (Hk a Ha w1).
  destruct (await (k a) w1) as [[ms|e] w']; [|by trans w1]. destruct Hk as [-> Hk].
  pose proof Hw as (Hme & _). rewrite Hme in Hk |- *. split; [done|]. exists a. split; [done|].
  by eapply session_opened_env, Hk.
Qed.

Lemma load_profile_triple w0 k id w :
  fut_triple (frozen w0) (load_profile k id w).1
    (λ p, kv_get id (profiles (profile_repo w)) = Ok p).
Proof.
  unfold load_profile, repo_load. simpl. apply fut_map_err, fut_result.
  intros p H. by apply map_err_ok in H.
Qed.

(** The first proof of the home in the profile. *)
Definition first_home_proof (my_id home_id : ProfileId) (profile : Profile) (proof : RelationProof) : Prop :=
  ∃ earlier later, persona_homes_of profile = earlier ++ proof :: later
    ∧ proof_peer_id proof my_id = Ok home_id
    ∧ Forall (λ p, proof_peer_id p my_id ≠ Ok home_id) earlier.

Lemma find_home_proof_first my_id home_id profile proof :
  find_home_proof my_id home_id profile = Ok proof ↔ first_home_proof my_id home_id profile proof.
Proof.
  unfold find_home_proof, first_home_proof, persona_homes_of.
  destruct (profile_facet profile) as [|f| |]; try by (split; [done|intros ([] & ? & ? & _)]).
  induction (persona_homes f) as [|p ps IH]; simpl.
  { split; [done|]. by intros ([] & ? & ? & _). }
  assert (is_ok (proof_peer_id p my_id ≫= λ peer_id, if decide (peer_id = home_id) then Ok true
            else Err (proto_from Proto.PeerIdRetreivalFailed)) = true ↔ proof_peer_id p my_id = Ok home_id) as Hp.
  { destruct (proof_peer_id p my_id) as [id|e]; simpl; [|done]. case_decide; split; naive_solver. }
  destruct (is_ok _) eqn:E.
  - split.
    + intros [= <-]. exists [], ps. split; [done|]. split; [by apply Hp|constructor].
    + intros ([|p' earlier] & later & [= -> ->] & _ & Hno); [done|].
      inversion_clear Hno as [|? ? H _]. by destruct H; apply Hp.
  - rewrite IH. split.
    + intros (earlier & later & -> & Hid & Hno). exists (p :: earlier), later.
      split; [done|]. split; [done|]. constructor; [|done]. intros H%Hp. congruence.
    + intros ([|p' earlier] & later & [= -> ->] & Hid & Hno).
      * apply Hp in Hid. congruence.
      * inversion_clear Hno. by exists earlier, later.
Qed.

Lemma find_home_proof_ok my_id home_id profile proof :
  find_home_proof my_id home_id profile = Ok proof →
  proof ∈ persona_homes_of profile ∧ proof_peer_id proof my_id = Ok home_id.
Proof.
  intros (earlier & later & -> & Hid & _)%find_home_proof_first. split; [set_solver|done].
Qed.

Lemma any_home_reachable profile signer w w2 proof home_id :
  proof ∈ persona_homes_of profile → proof_peer_id proof (profile_id profile) = Ok home_id →
  reachable_home (profile_repo w) signer home_id →
  is_ok ((any_home_of2 profile signer w).1 w2).1 = true.
Proof.
  intros Hin Hpeer Hreach. unfold any_home_of2, persona_homes_of in *.
  destruct (profile_facet profile); try by apply elem_of_nil in Hin.
  rewrite home_conn_futs_map. destruct (persona_homes f) as [|p ps] eqn:Hps; [by apply elem_of_nil in Hin|].
  apply select_ok_succeeds. exists (home_conn_fut (profile_id profile) signer proof w).1. split.
  - change (_ :: _) with ((λ p, (home_conn_fut (profile_id profile) signer p w).1) <$> (p :: ps)).
    by apply (list_elem_of_fmap_2 (λ p, (home_conn_fut (profile_id profile) signer p w).1)).
  - intros w1. unfold home_conn_fut. rewrite Hpeer.
    pose proof (connect_home2_reachable home_id signer w w1 Hreach) as Hok.
    destruct (connect_home2 home_id signer w) as [f' w']. simpl in *. unfold future_map.
    destruct (f' w1) as [[] ?]; [done|by simpl in Hok].
Qed.

(** ** The frame of the listeners *)

Lemma send_to_all_spec listeners event c :
  NoDup listeners →
  let '(rs, c') := send_to_all listeners event c in
  rs.*1 = listeners
  ∧ (∀ l, mpsc_received l c' = mpsc_received l c ++
            (if decide (l ∈ omap (λ p, ok p.2) rs) then [event] else []))
  ∧ sublist (omap (λ p, ok p.2) rs) listeners.
Proof.
  revert c; induction listeners as [|l ls IH]; intros c Hnd; cbn [send_to_all].
  { split_and!; [done| |done]. intros l. cbn [omap list_omap]. case_decide as Hin; [by apply elem_of_nil in Hin|].
    by rewrite app_nil_r. }
  inversion Hnd as [|? ? Hl Hnd']; subst.
  destruct (mpsc_send l event c) as [r c1] eqn:Hsend. specialize (IH c1 Hnd').
  destruct (send_to_all ls event c1) as [rs c2]. destruct IH as (IH1 & IH2 & IH3).
  split; [by rewrite fmap_cons, IH1|].
  assert (l ∉ omap (λ p : SinkId * Result string SinkId, ok p.2) rs) as Hl'.
  { intros Hin. apply Hl. by eapply elem_of_sublist. }
  destruct r as [[]|e]; cbn [omap list_omap fmap result_fmap snd ok].
  - apply mpsc_send_ok in Hsend as [Hs1 Hs2]. split; [|by constructor].
    intros l0. rewrite IH2. destruct (decide (l0 = l)) as [->|Hne].
    + rewrite (decide_False (P := _ ∈ omap _ _)) by done.
      rewrite decide_True by by left. by rewrite app_nil_r.
    + rewrite Hs2 by done. f_equal. apply decide_ext. rewrite elem_of_cons. naive_solver.
  - split; [|by constructor]. intros l0. by rewrite IH2, (mpsc_send_err _ _ _ _ _ Hsend).
Qed.

Section forwarding.
Context (Hsel : select_all_ok snd select_all).

Abbreviation forward_event := (forward_event select_all).
Abbreviation forward_event_safe := (forward_event_safe select_all).
Abbreviation forward_task := (forward_task select_all).

(** [event] was delivered to [survivors] and to no one else. *)
Definition delivered (event : ProfileEvent) (survivors : list SinkId) (c c' : Chans) : Prop :=
  ∀ l, mpsc_received l c' = mpsc_received l c ++ (if decide (l ∈ survivors) then [event] else []).

Lemma forward_event_poll listeners event w :
  NoDup listeners →
  ∃ survivors w', forward_event listeners event w = (Ok survivors, w')
    ∧ sublist survivors listeners
    ∧ w' = set_listener_chans (listener_chans w') w
    ∧ delivered event survivors (listener_chans w) (listener_chans w').
Proof.
  intros Hnd. unfold Connect.forward_event. pose proof (send_to_all_spec listeners event (listener_chans w) Hnd) as H.
  destruct (send_to_all _ _ _) as [rs c]. destruct H as (_ & Hrecv & Hsub).
  rewrite (collect_results_total snd select_all Hsel).
  exists (omap (λ p, ok p.2) rs), (set_listener_chans c w).
  split; [|done]. f_equal. f_equal. clear.
  induction rs as [|[? []] rs IH]; [done| |]; cbn [fmap list_fmap omap list_omap snd ok]; by rewrite IH.
Qed.

(** The listeners of a session. *)
Definition listeners_of (ms : MySessionId) (w : W) : option (list SinkId) :=
  event_listeners <$> my_sessions (me w) !! ms.

Definition set_listeners (ms : MySessionId) (ls : list SinkId) (w : W) : W :=
  match my_sessions (me w) !! ms with
  | Some s => put_my_session ms (mkMyHomeSession (session s) ls) w
  | None => w
  end.

Lemma set_listeners_lookup ms ls w :
  is_Some (listeners_of ms w) → listeners_of ms (set_listeners ms ls w) = Some ls.
Proof.
  unfold listeners_of, set_listeners. destruct (my_sessions (me w) !! ms) eqn:Hms; [|by intros [? ?]].
  intros _. unfold put_my_session. simpl. by rewrite lookup_insert_eq.
Qed.

Lemma set_listeners_twice ms ls ls' w :
  set_listeners ms ls' (set_listeners ms ls w) = set_listeners ms ls' w.
Proof.
  unfold set_listeners. destruct (my_sessions (me w) !! ms) as [s|] eqn:Hms; [|by rewrite Hms].
  unfold put_my_session. simpl. rewrite lookup_insert_eq. simpl.
  unfold set_me, set_my_sessions. simpl. by rewrite insert_insert_eq.
Qed.

(** The two phases of forwarding an event. *)
Lemma forward_event_safe_phases ms event w ls :
  listeners_of ms w = Some ls → NoDup ls →
  (forward_event_safe ms (Ok event) w).2 = set_listeners ms [] w
  ∧ ∀ w2 meanwhile, listeners_of ms w2 = Some meanwhile →
      ∃ survivors c, sublist survivors ls ∧ delivered event survivors (listener_chans w2) c
        ∧ (forward_event_safe ms (Ok event) w).1 w2
          = (Ok tt, set_listeners ms (meanwhile ++ survivors) (set_listener_chans c w2)).
Proof.
  intros Hls Hnd. unfold listeners_of in Hls. unfold Connect.forward_event_safe, set_listeners.
  destruct (my_sessions (me w) !! ms) as [s|] eqn:Hms; [|done]. injection Hls as <-.
  split; [done|]. intros w2 meanwhile Hw2. simpl. rewrite and_then_await.
  destruct (forward_event_poll (event_listeners s) event w2 Hnd) as (surv & w' & Hf & Hsub & Hw' & Hd).
  rewrite Hf. exists surv, (listener_chans w'). split_and!; [done..|].
  unfold await, listeners_notified. rewrite Hw'. simpl. unfold listeners_of in Hw2.
  destruct (my_sessions (me w2) !! ms) as [s2|] eqn:Hs2; [|done]. injection Hw2 as <-. done.
Qed.

(** One round of the forwarding loop, nothing happening in between. *)
Lemma forward_event_safe_round ms event w ls :
  listeners_of ms w = Some ls → NoDup ls →
  ∃ survivors c, sublist survivors ls ∧ delivered event survivors (listener_chans w) c
    ∧ await (forward_event_safe ms (Ok event)) w
      = (Ok tt, set_listeners ms survivors (set_listener_chans c w)).
Proof.
  intros Hls Hnd. destruct (forward_event_safe_phases ms event w ls Hls Hnd) as [H1 H2].
  destruct (H2 (set_listeners ms [] w) []) as (surv & c & Hs & Hd & Hf).
  { apply set_listeners_lookup. by rewrite Hls. }
  exists surv, c. split; [done|]. unfold await.
  destruct (Connect.forward_event_safe _ _ _ w) as [f w1]. simpl in *. subst w1. rewrite Hf.
  assert (listener_chans (set_listeners ms [] w) = listener_chans w) as Hc.
  { unfold set_listeners. by destruct (my_sessions (me w) !! ms). }
  rewrite Hc in Hd. split; [done|]. f_equal.
  rewrite <- (set_listeners_twice ms [] surv (set_listener_chans c w)). simpl.
  unfold set_listeners at 2 4. unfold set_listener_chans. simpl.
  by destruct (my_sessions (me w) !! ms).
Qed.

(** The events before the first error of a stream. *)
Fixpoint good_prefix (items : list (Result string ProfileEvent)) : list ProfileEvent :=
  match items with Ok e :: items => e :: good_prefix items | _ => [] end.

Lemma delivered_sublist event survivors ls c c' l :
  delivered event survivors c c' → sublist survivors ls → l ∉ ls →
  mpsc_received l c' = mpsc_received l c.
Proof.
  intros Hd Hs Hl. rewrite Hd, decide_False, app_nil_r; [done|].
  intros Hin. apply Hl. by eapply elem_of_sublist.
Qed.

(** Whatever the forwarding loop has done, seen from the listeners. *)
Record forwarded (ms : MySessionId) (ls survivors : list SinkId) (events : list ProfileEvent)
    (w w' : W) : Prop := mk_forwarded
  { fw_sublist : sublist survivors ls;
    fw_state : w' = set_listeners ms survivors (set_listener_chans (listener_chans w') w);
    fw_all l : l ∈ survivors →
      mpsc_received l (listener_chans w') = mpsc_received l (listener_chans w) ++ events;
    fw_some l : l ∈ ls → ∃ n,
      mpsc_received l (listener_chans w') = mpsc_received l (listener_chans w) ++ take n events;
    fw_other l : l ∉ ls →
      mpsc_received l (listener_chans w') = mpsc_received l (listener_chans w) }.

Lemma set_listeners_same ms ls w : listeners_of ms w = Some ls → set_listeners ms ls w = w.
Proof.
  unfold listeners_of, set_listeners. destruct (my_sessions (me w) !! ms) as [s|] eqn:Hms; [|done].
  intros [= <-]. unfold put_my_session, set_my_sessions, set_me. destruct s, w as [[] ? ? ?]; simpl in *.
  by rewrite insert_id.
Qed.

Lemma listener_chans_set_listeners ms ls w :
  listener_chans (set_listeners ms ls w) = listener_chans w.
Proof. unfold set_listeners. by destruct (my_sessions (me w) !! ms). Qed.

Lemma listeners_of_set_chans ms c w : listeners_of ms (set_listener_chans c w) = listeners_of ms w.
Proof. done. Qed.

Lemma set_chans_set_listeners ms ls c w :
  set_listener_chans c (set_listeners ms ls w) = set_listeners ms ls (set_listener_chans c w).
Proof. unfold set_listeners. simpl. by destruct (my_sessions (me w) !! ms). Qed.

Lemma forward_task_forwarded ms items w ls :
  listeners_of ms w = Some ls → NoDup ls →
  ∃ survivors w', forwarded ms ls survivors (good_prefix items) w w'
    ∧ forward_task ms items w = (if existsb is_err items then Err tt else Ok tt, w').
Proof.
  revert w ls; induction items as [|[event|e] items IH]; intros w ls Hls Hnd; simpl.
  - exists ls, w. split; [|done]. split; [done| | | |done].
    + destruct w. simpl. symmetry. by apply set_listeners_same.
    + intros l _. by rewrite app_nil_r.
    + intros l _. exists 0. by rewrite app_nil_r.
  - destruct (forward_event_safe_round ms event w ls Hls Hnd) as (surv1 & c & Hs1 & Hd & Hrun).
    set (w1 := set_listeners ms surv1 (set_listener_chans c w)) in *.
    assert (listeners_of ms w1 = Some surv1) as Hls1.
    { apply set_listeners_lookup. rewrite listeners_of_set_chans, Hls. done. }
    assert (listener_chans w1 = c) as Hc1 by apply listener_chans_set_listeners.
    assert (NoDup surv1) as Hnd1 by (by eapply sublist_NoDup).
    destruct (IH w1 surv1 Hls1 Hnd1) as (surv & w' & [F1 F2 F3 F4 F5] & Hw').
    rewrite Hc1 in *. exists surv, w'. split.
    + split.
      * by etrans.
      * rewrite F2 at 1. unfold w1. rewrite set_chans_set_listeners, set_listeners_twice. done.
      * intros l Hl. rewrite F3 by done. rewrite Hd, decide_True by by eapply elem_of_sublist.
        by rewrite <- app_assoc.
      * intros l Hl. destruct (decide (l ∈ surv1)) as [Hin|Hout].
        -- destruct (F4 l Hin) as [n Hn]. exists (S n). rewrite Hn, Hd, decide_True by done.
           by rewrite <- app_assoc.
        -- exists 0. rewrite F5 by done. rewrite Hd, decide_False by done. by rewrite !app_nil_r.
      * intros l Hl. rewrite F5 by (intros Hin; apply Hl; by eapply elem_of_sublist).
        by eapply delivered_sublist.
    + unfold Connect.forward_task in *. cbn [for_each]. by rewrite and_then_await, Hrun.
  - exists ls, w. split.
    + split; [done| | | |done].
      * destruct w. simpl. symmetry. by apply set_listeners_same.
      * intros l _. by rewrite app_nil_r.
      * intros l _. exists 0. by rewrite app_nil_r.
    + unfold Connect.forward_task. cbn [for_each]. rewrite and_then_await.
      unfold await, Connect.forward_event_safe.
      by destruct (my_sessions (me w) !! ms).
Qed.

End forwarding.

(** The other loop: every relation announced is stored, as it is. *)
Lemma relations_task_run events w rs :
  relations (me w) = Some rs →
  relations_task events w =
    (Ok tt, set_me (set_relations (Some (rs ++ omap pairing_of events)) (me w)) w).
Proof.
  revert w rs; induction events as [|event events IH]; intros w rs Hrs; simpl.
  - rewrite app_nil_r, <- Hrs. by destruct w as [[] ? ? ?].
  - unfold relations_task in *. cbn [for_each]. rewrite and_then_await. unfold await.
    destruct event as [data|hp|p]; simpl.
    1, 2: by apply IH.
    unfold on_new_relation. rewrite Hrs. simpl.
    rewrite (IH _ (rs ++ [p])) by done. by rewrite <- app_assoc.
Qed.

(** The two halves of [login_home]. *)
Lemma find_proof_triple w0 k my_id home_id w :
  fut_triple (frozen w0)
    (and_then (load_profile k my_id w).1
       (λ profile, io_ret (future_result (find_home_proof my_id home_id profile))))
    (λ proof, ∃ profile, kv_get my_id (profiles (profile_repo w)) = Ok profile
                         ∧ find_home_proof my_id home_id profile = Ok proof).
Proof.
  eapply fut_and_then; [apply load_profile_triple|].
  intros p Hp. apply call_io_ret, fut_result. intros proof Hproof. by exists p.
Qed.

Lemma connect_and_login_poll home_id signer proof w :
  let '(r, w') := await (λ w, let '(conn_fut, w) := connect_home2 home_id signer w in
                              (and_then conn_fut (login_at home_id proof), w)) w in
  match r with
  | Ok ms => ms = next_my_session (me w) ∧ session_opened home_id ms w w'
  | Err _ => only_env w w'
  end.
Proof.
  pose proof (login_found _ _ (λ _, home_id) _ w (connect_home2_triple w w home_id signer)
    (λ home _, login_at_poll home_id proof home)) as H.
  unfold await. unfold connect_home2, load_profile, repo_load in *. simpl in *.
  destruct (and_then (and_then _ _) _ w) as [[ms|e] w']; [|exact H].
  by destruct H as (H1 & _ & _ & H2).
Qed.

Lemma login_home_poll home_id w w2 :
  let signer := mp_signer (me w) in
  session_cache (me w) !! home_id = None →
  let '(r, w3) := (login_home home_id w).1 w2 in
  match r with
  | Ok ms => ms = next_my_session (me w2) ∧ session_opened home_id ms w2 w3
      ∧ ∃ profile proof,
          kv_get (signer_profile_id signer) (profiles (profile_repo w)) = Ok profile
          ∧ find_home_proof (signer_profile_id signer) home_id profile = Ok proof
  | Err _ => only_env w2 w3
  end.
Proof.
  intros signer Hnone. unfold login_home. rewrite Hnone. simpl.
  pose proof (login_found _ _ (λ _, home_id) _ w2
    (find_proof_triple w2 Conn.FailedToLoadProfile (signer_profile_id signer) home_id w)
    (λ proof _, connect_and_login_poll home_id signer proof)) as H.
  unfold load_profile, repo_load in H. simpl in H. fold signer.
  destruct (and_then (and_then _ _) _ w2) as [[ms|e] w3]; [|exact H].
  destruct H as (-> & proof & (profile & Hget & Hproof) & Hso). by eauto 6.
Qed.

(** What [login_home] asks the world for, and in which order: [s] is the session
    that the home of that id gives for the first proof of it, [e] the world then. *)
Definition logs_in (home_id : ProfileId) (w w2 : W) (s : ClientSession Env) (e : Env) : Prop :=
  ∃ profile proof home_profile home e1,
    kv_get (signer_profile_id (mp_signer (me w))) (profiles (profile_repo w)) = Ok profile
    ∧ first_home_proof (signer_profile_id (mp_signer (me w))) home_id profile proof
    ∧ kv_get home_id (profiles (profile_repo w2)) = Ok home_profile
    ∧ await (home_connect home_profile (mp_signer (me w))) (env w2) = (Ok home, e1)
    ∧ await (home_login home proof) e1 = (Ok s, e).

Lemma login_at_logs_in home_id proof home w :
  match await (login_at home_id proof home) w with
  | (Ok ms, w') => ∃ s e stream listener, await (home_login home proof) (env w) = (Ok s, e)
      ∧ cs_events s e = (stream, env w')
      ∧ my_sessions (me w') !! ms = Some (mkMyHomeSession s [listener])
      ∧ client_tasks (me w') = client_tasks (me w) ++ [ForwardEvents ms stream; StoreRelations listener]
  | (Err _, _) => ∀ s e, await (home_login home proof) (env w) ≠ (Ok s, e)
  end.
Proof.
  unfold await, login_at, lift. destruct (home_login home proof (env w)) as [f e].
  rewrite and_then_await. unfold future_map_err, lift_future. simpl.
  destruct (f e) as [[s|err] e']; simpl; [|done].
  unfold await, MyHomeSessionImpl_new. simpl. destruct (cs_events s e') as [stream e2] eqn:Hev.
  unfold start_event_handler, my_session_events. simpl. destruct (mpsc_channel _ _) as [l c].
  unfold add_listener. simpl. rewrite lookup_insert_eq. simpl. exists s, e', stream, l.
  split; [done|]. split; [done|]. split; [by rewrite lookup_insert_eq|]. by rewrite <- app_assoc.
Qed.

Lemma login_home_logs_in home_id w w2 :
  session_cache (me w) !! home_id = None →
  match (login_home home_id w).1 w2 with
  | (Ok ms, w3) => ∃ s e stream listener, logs_in home_id w w2 s e
      ∧ cs_events s e = (stream, env w3)
      ∧ my_sessions (me w3) !! ms = Some (mkMyHomeSession s [listener])
      ∧ client_tasks (me w3) = client_tasks (me w2) ++ [ForwardEvents ms stream; StoreRelations listener]
  | (Err _, _) => ∀ s e, ¬ logs_in home_id w w2 s e
  end.
Proof.
  intros Hnone. unfold login_home. rewrite Hnone. unfold logs_in, load_profile, repo_load. simpl.
  rewrite !and_then_await. unfold future_map_err, future_result.
  destruct (kv_get (signer_profile_id _) (profiles (profile_repo w))) as [profile|e] eqn:Hp; simpl.
  2: { intros s e1 (? & ? & ? & ? & ? & ? & _). congruence. }
  destruct (find_home_proof _ home_id profile) as [proof|e] eqn:Hf; simpl.
  2: { intros s e1 (? & ? & ? & ? & ? & ? & Hpf & _). apply find_home_proof_first in Hpf. congruence. }
  unfold await at 1, connect_home2, load_profile, repo_load. simpl.
  rewrite !and_then_await. unfold future_map_err, future_result.
  destruct (kv_get home_id (profiles (profile_repo w2))) as [hp|e] eqn:Hh; simpl.
  2: { intros s e1 (? & ? & ? & ? & ? & ? & ? & ? & _). congruence. }
  rewrite await_lift. destruct (await (home_connect hp _) (env w2)) as [[home|e] e1] eqn:Hc.
  2: { intros s e2 (? & ? & ? & ? & ? & ? & ? & ? & ? & _). congruence. }
  pose proof (login_at_logs_in home_id proof home (set_env e1 w2)) as H.
  destruct (await (login_at home_id proof home) (set_env e1 w2)) as [[ms|e] w3].
  - destruct H as (s & e & stream & l & Hlog & Hrest). exists s, e, stream, l. split; [|exact Hrest].
    apply find_home_proof_first in Hf. by exists profile, proof, hp, home, e1.
  - intros s e2 (pr & pf & hp2 & h2 & e2' & H1 & H2%find_home_proof_first & H3 & H4 & H5).
    simpl in H. apply (H s e2). congruence.
Qed.

(** Asking a home that has been found: only the world changes. *)
Lemma request_triple {A E B} w0 (f : Future W ConnError A) (P : A → Prop)
    (m : A → IO Env (Future Env E B)) (g : E → ConnError) (k : A → IO W (Future W ConnError B)) :
  (∀ a w, k a w = let '(fut, w) := lift (m a) w in (future_map_err g fut, w)) →
  fut_triple (frozen w0) f P →
  fut_triple (frozen w0) (and_then f k)
    (λ b, ∃ a e, P a ∧ (await (m a) e).1 = Ok b).
Proof.
  intros Hk Hf w Hw. rewrite and_then_await. specialize (Hf w Hw).
  destruct (f w) as [[a|err] w1]; simpl in *; [|by destruct Hf]. destruct Hf as [Hw1 Ha].
  specialize (Ha a eq_refl). unfold await. rewrite Hk. unfold lift, future_map_err, lift_future.
  destruct (m a (env w1)) as [fut e1] eqn:Hm. simpl. destruct (fut e1) as [r e2] eqn:Hr. simpl.
  split; [by do 2 apply frozen_set_env|]. intros b Hb. apply map_err_ok in Hb as ->.
  exists a, (env w1). split; [done|]. unfold await. by rewrite Hm, Hr.
Qed.

(** The way to any home of a profile that has to be loaded first, from the
    repository [r] as it was when the request was made; the profiles of the
    homes are taken from [r2], when the future is polled. *)
Definition peer_home (r r2 : SimpleProfileRepo Store) (signer : Signer) (peer_id : ProfileId)
    (profile : Profile) (found : RelationProof * ClientHome Env) : Prop :=
  kv_get peer_id (profiles r) = Ok profile
  ∧ found.1 ∈ persona_homes_of profile
  ∧ ∃ home_id, proof_peer_id found.1 (profile_id profile) = Ok home_id
               ∧ connected_to r2 signer home_id found.2.

Lemma any_home_triple w0 w profile signer (r : SimpleProfileRepo Store) peer_id :
  kv_get peer_id (profiles r) = Ok profile → frozen w0 w →
  fut_triple (frozen w0) (any_home_of2 profile signer w).1
    (peer_home r (profile_repo w0) signer peer_id profile).
Proof.
  intros Hget Hw w2 Hw2. destruct (any_home_of2_triple w0 w profile signer w2 Hw2) as [H1 H2].
  split; [done|]. intros found Hf. destruct (H2 found Hf) as (Hin & id & Hpeer & Hconn).
  destruct Hw as (_ & Hrepo & _). rewrite Hrepo in Hconn. split; [done|]. by eauto.
Qed.

Lemma load_and_find_triple w0 w k signer peer_id :
  fut_triple (frozen w0)
    (and_then (load_profile k peer_id w).1 (λ profile, any_home_of2 profile signer))
    (λ found, ∃ profile, peer_home (profile_repo w) (profile_repo w0) signer peer_id profile found).
Proof.
  eapply fut_and_then; [apply load_profile_triple|]. intros profile Hp w1 Hw1.
  rewrite any_home_of2_call. split; [done|]. intros w2 Hw2.
  destruct (any_home_triple w0 w1 profile signer _ peer_id Hp Hw1 w2 Hw2) as [H1 H2]. eauto.
Qed.

Lemma filter_sublist {A} (f : A → bool) l : sublist (List.filter f l) l.
Proof. induction l as [|a l IH]; simpl; [done|]. destruct (f a); by constructor. Qed.

(** ** What every operation keeps *)

(** The cache refers to live sessions, which are numbered below the counter. *)
Definition client_wf (w : W) : Prop :=
  (∀ id ms, session_cache (me w) !! id = Some ms → is_Some (my_sessions (me w) !! ms))
  ∧ (∀ ms, is_Some (my_sessions (me w) !! ms) → ms < next_my_session (me w)).

(** [w] may come after [w0]: relations have only been added at the end, and no
    home has left the cache. *)
Definition grown (w0 w : W) : Prop :=
  client_wf w
  ∧ (∀ rs, relations (me w0) = Some rs → ∃ more, relations (me w) = Some (rs ++ more))
  ∧ (∀ id, is_Some (session_cache (me w0) !! id) → is_Some (session_cache (me w) !! id))
  ∧ mp_signer (me w) = mp_signer (me w0).

Lemma grown_me w0 w w' : me w' = me w → grown w0 w → grown w0 w'.
Proof. unfold grown, client_wf. by intros ->. Qed.

Lemma lift_grown {E A} w0 (m : IO Env (Future Env E A)) : call_triple (grown w0) (lift m) anything.
Proof.
  intros w Hw. unfold lift. destruct (m (env w)) as [f e]. simpl.
  split; [by eapply grown_me; [|exact Hw]|]. intros w1 Hw1. unfold lift_future.
  destruct (f (env w1)) as [r e1]. simpl. split; [by eapply grown_me; [|exact Hw1]|done].
Qed.

Lemma session_opened_grown w0 w w' id ms :
  grown w0 w → ms = next_my_session (me w) → session_opened id ms w w' → grown w0 w'.
Proof.
  intros ([Hc Hn] & Hr & Hcache & Hs) -> [H1 (s & st & l & H2 & _) Hsig H3 H4 H5 H6].
  split_and!.
  - split; rewrite H2.
    + intros id' ms'. rewrite H1. intros [[-> <-]|[Hne Hl]]%lookup_insert_Some.
      * by rewrite lookup_insert_eq.
      * apply Hc in Hl as Hsome. destruct (decide (ms' = next_my_session (me w))) as [->|Hne'].
        -- by rewrite lookup_insert_eq.
        -- by rewrite lookup_insert_ne.
    + intros ms' Hsome. rewrite H3. apply lookup_insert_is_Some in Hsome as [<-|[_ Hsome]]; [lia|].
      apply Hn in Hsome. lia.
  - intros rs Hrs. rewrite H5. by apply Hr.
  - intros id' Hid. rewrite H1. apply lookup_insert_is_Some'. by right; apply Hcache.
  - congruence.
Qed.

Lemma put_my_session_grown w0 w ms s s' :
  my_sessions (me w) !! ms = Some s → grown w0 w → grown w0 (put_my_session ms s' w).
Proof.
  intros Hms ([Hc Hn] & H2 & H3 & H4). split_and!; [|done..]. split; simpl.
  - intros id ms' Hl. apply Hc in Hl. apply lookup_insert_is_Some'. by right.
  - intros ms' [<-|Hs]%lookup_insert_is_Some'; apply Hn; by eauto.
Qed.

#[local] Instance grown_invariant w0 : ClientInvariant (grown w0) anything anything anything.
Proof.
  split; try (intros; apply lift_grown).
  - intros own w Hw. exact Hw.
  - intros r w Hw. exact Hw.
  - intros rp rs w (H1 & H2 & H3 & H4) Hrs _. split_and!; [exact H1| |done..].
    intros rs0 Hrs0. destruct (H2 rs0 Hrs0) as [more Hmore]. exists (more ++ [rp]).
    rewrite Hrs in Hmore. injection Hmore as ->. simpl. by rewrite app_assoc.
  - intros home_id s w Hw _. unfold open_session. pose proof (start_session_opened home_id s w) as Hs.
    destruct (MyHomeSessionImpl_new s w) as [ms w1]. destruct Hs as [-> Hs].
    by eapply session_opened_grown.
  - intros ms s ls w Hw Hs. by eapply put_my_session_grown.
  - intros n w Hw. exact Hw.
  - intros s event w Hw _. exact Hw.
Qed.

(** ** Theorems *)

(** C23: finding a home of a profile asks nothing of the client's own state,
    and gives one of the homes the profile names, connected with the profile
    this home has in the repository.  It fails only if no home of the profile
    is reachable: one reachable home is enough, in whatever order the
    connections succeed or fail.  Profiles that are no personas, and personas
    without a home, are refused. *)
Theorem any_home_found profile signer w w2 :
  (any_home_of2 profile signer w).2 = w
  ∧ let '(r, w3) := (any_home_of2 profile signer w).1 w2 in
    only_env w2 w3
    ∧ match r with
      | Ok found => home_found w signer profile (persona_homes_of profile) found
      | Err e =>
          (∀ proof home_id, proof ∈ persona_homes_of profile →
             proof_peer_id proof (profile_id profile) = Ok home_id →
             ¬ reachable_home (profile_repo w) signer home_id)
          ∧ (persona_homes_of profile = [] →
             conn_kind e = match profile_facet profile with
                           | Persona _ => Conn.NoHomesFound
                           | _ => Conn.HomeProfileExpected
                           end)
      end.
Proof.
  split; [apply any_home_of2_call|].
  pose proof (any_home_of2_triple w2 w profile signer w2 (frozen_refl w2)) as [H1 H2].
  pose proof (λ proof home_id, any_home_reachable profile signer w w2 proof home_id) as H3.
  destruct ((any_home_of2 profile signer w).1 w2) as [[found|e] w3] eqn:Hrun; simpl in *.
  - split; [done|]. by apply H2.
  - split; [done|]. split.
    + intros proof home_id Hin Hp Hr. by specialize (H3 proof home_id Hin Hp Hr).
    + revert Hrun. unfold any_home_of2, persona_homes_of.
      destruct (profile_facet profile); try by intros [= <- <-].
      intros Hrun Hnil. rewrite Hnil in Hrun. simpl in Hrun. by injection Hrun as <- <-.
Qed.

(** C22: [login_home] hands out the cached session of a home at once, without
    asking anyone.  Otherwise it logs in to that home: it connects with the
    profile the repository has for the home, and logs in there with the first
    proof of the home in the user's own published profile.  Success leaves the
    session the home has given, cached under the home, its events forwarded to a
    listener that stores relations.  It fails only when one of these steps does,
    and then nothing of the client has changed. *)
Theorem login_home_spec home_id w :
  (login_home home_id w).2 = w
  ∧ match session_cache (me w) !! home_id with
    | Some ms => (login_home home_id w).1 = future_ok ms
    | None => ∀ w2,
        let '(r, w3) := (login_home home_id w).1 w2 in
        match r with
        | Ok ms => ms = next_my_session (me w2) ∧ session_opened home_id ms w2 w3
            ∧ ∃ s e stream listener, logs_in home_id w w2 s e
                ∧ cs_events s e = (stream, env w3)
                ∧ my_sessions (me w3) !! ms = Some (mkMyHomeSession s [listener])
                ∧ client_tasks (me w3)
                  = client_tasks (me w2) ++ [ForwardEvents ms stream; StoreRelations listener]
        | Err _ => only_env w2 w3 ∧ ∀ s e, ¬ logs_in home_id w w2 s e
        end
    end.
Proof.
  assert ((login_home home_id w).2 = w) as Hcall by (unfold login_home; by destruct (_ !! home_id)).
  split; [done|]. destruct (session_cache (me w) !! home_id) as [ms|] eqn:Hc.
  { unfold login_home. by rewrite Hc. }
  intros w2. pose proof (login_home_poll home_id w w2 Hc) as H. pose proof (login_home_logs_in home_id w w2 Hc) as Hl.
  destruct ((login_home home_id w).1 w2) as [[ms|err] w3]; [|by split]. by destruct H as (H1 & H2 & _).
Qed.

(** C32: joining a home registers the profile as it was when the request was
    made, with a half proof naming that home.  When the home accepts, its answer
    replaces the profile the client has by then, and its public part is put into
    the repository; when anything fails, the client is left as it was. *)
Theorem join_home_spec home_id invite w :
  let signer := mp_signer (me w) in
  let half_proof := RelationHalfProof_new RELATION_TYPE_HOSTED_ON_HOME home_id signer in
  (join_home home_id invite w).2 = w
  ∧ ∀ w2,
    let '(r, w3) := (join_home home_id invite w).1 w2 in
    match r with
    | Ok _ => ∃ own home e,
        connected_to (profile_repo w) signer home_id home
        ∧ (await (home_register home (mp_own_profile (me w)) half_proof invite) e).1 = Ok own
        ∧ me w3 = set_own_profile own (me w2)
        ∧ profiles (profile_repo w3)
          = (kv_set (profile_id (own_profile own)) (own_profile own) (profiles (profile_repo w2))).2
        ∧ listener_chans w3 = listener_chans w2
    | Err _ => only_env w2 w3
    end.
Proof.
  intros signer half_proof. split; [done|]. intros w2.
  pose proof (request_triple w2 _ _
    (λ home, home_register home (mp_own_profile (me w)) half_proof invite)
    (λ '(_own_prof, err), conn_context Conn.RegistrationFailed err) _ (λ a w, eq_refl)
    (connect_home2_triple w2 w home_id signer) w2 (frozen_refl w2)) as [H1 H2].
  unfold join_home, connect_home, connect_home2, load_profile, repo_load in *. simpl in *.
  fold signer half_proof. rewrite and_then_await.
  destruct (and_then (and_then _ _) _ w2) as [[own|e] w1]; simpl in *; [|exact H1].
  destruct (H2 own eq_refl) as (home & e & Hconn & Hreg). destruct H1 as (Hme & Hrepo & Hc).
  unfold await, repo_insert. simpl. rewrite Hrepo.
  destruct (kv_set _ _ _) as [r s] eqn:Hs. exists own, home, e. simpl.
  rewrite Hme, Hs. by split_and!.
Qed.

(** C31: a relation offered by a half proof is accepted only when the half
    proof is addressed to the user's own profile; success means that a home of
    the signer took the response, and the countersigned proof is added to the
    relations, provided they still exist.  Nothing is stored when the request
    fails. *)
Theorem accept_relation_spec half_proof w :
  (accept_relation half_proof w).2 = w
  ∧ ∀ w2,
    let '(r, w3) := (accept_relation half_proof w).1 w2 in
    match r with
    | Ok proof => ∃ profile found e rs,
        hp_peer_id half_proof = profile_id (own_profile (mp_own_profile (me w)))
        ∧ sign_remaining_half half_proof (mp_signer (me w)) = Ok proof
        ∧ peer_home (profile_repo w) (profile_repo w2) (mp_signer (me w))
            (hp_signer_id half_proof) profile found
        ∧ (await (home_pair_response found.2 proof) e).1 = Ok tt
        ∧ relations (me w2) = Some rs
        ∧ me w3 = set_relations (Some (rs ++ [proof])) (me w2)
        ∧ profile_repo w3 = profile_repo w2 ∧ listener_chans w3 = listener_chans w2
    | Err e => only_env w2 w3
        ∧ (hp_peer_id half_proof ≠ profile_id (own_profile (mp_own_profile (me w))) →
           conn_kind e = Conn.LookupFailed)
    end.
Proof.
  unfold accept_relation. case_decide as Hpeer.
  { split; [done|]. intros w2. simpl. by split; [reflexivity|]. }
  destruct (sign_remaining_half half_proof (mp_signer (me w))) as [proof|e] eqn:Hsign.
  2: { split; [done|]. intros w2. simpl. by split; [reflexivity|]. }
  split; [done|]. intros w2.
  pose proof (request_triple w2 _ _ (λ found, home_pair_response found.2 proof)
    (conn_context Conn.PeerResponseFailed)
    (λ '(_home_proof, home) w, let '(fut, w) := lift (home_pair_response home proof) w in
       (future_map_err (conn_context Conn.PeerResponseFailed) fut, w))
    ltac:(by intros [] ?)
    (load_and_find_triple w2 w Conn.FailedToLoadProfile (mp_signer (me w)) (hp_signer_id half_proof))
    w2 (frozen_refl w2)) as [H1 H2].
  unfold load_profile, repo_load in *. simpl in *. rewrite and_then_await.
  destruct (and_then (and_then _ _) _ w2) as [[[]|e] w1]; simpl in *; [|by split].
  destruct (H2 tt eq_refl) as (found & e & (profile & Hpeerh) & Hresp).
  destruct H1 as (Hme & Hrepo & Hc). unfold await, on_new_relation.
  rewrite Hme. destruct (relations (me w2)) as [rs|] eqn:Hrs; simpl.
  - exists profile, found, e, rs. by split_and!.
  - by split_and!.
Qed.

(** Requests to a peer leave the client's own state alone.  Initiating a
    relation succeeds when a home of the peer took a half proof made for the
    peer and signed by the user; a call succeeds with what a home of the other
    side of the relation answered, and is refused when the user has no part in
    the relation. *)
Theorem requests_to_peer relation_type peer proof app payload to_caller w w2 :
  let signer := mp_signer (me w) in
  (let '(r, w3) := (initiate_relation relation_type peer w).1 w2 in
   only_env w2 w3
   ∧ (r = Ok tt → ∃ profile found e,
        peer_home (profile_repo w) (profile_repo w2) signer peer profile found
        ∧ (await (home_pair_request found.2
                    (RelationHalfProof_new relation_type (profile_id profile) signer)) e).1 = Ok tt))
  ∧ (let '(r, w3) := (MyProfile_call proof app payload to_caller w).1 w2 in
     only_env w2 w3
     ∧ (∀ answer, r = Ok answer → ∃ peer_id profile found e,
          proof_peer_id proof (signer_profile_id signer) = Ok peer_id
          ∧ peer_home (profile_repo w) (profile_repo w2) signer peer_id profile found
          ∧ (await (home_call found.2 app (mkCallRequest proof payload to_caller)) e).1 = Ok answer)
     ∧ (is_err (proof_peer_id proof (signer_profile_id signer)) = true →
        ∃ e, r = Err e ∧ conn_kind e = Conn.LookupFailed)).
Proof.
  intros signer. split.
  - assert (fut_triple (frozen w2) (initiate_relation relation_type peer w).1 (λ _, ∃ profile found e,
        peer_home (profile_repo w) (profile_repo w2) signer peer profile found
        ∧ (await (home_pair_request found.2
                    (RelationHalfProof_new relation_type (profile_id profile) signer)) e).1 = Ok tt))
      as Ht.
    { unfold initiate_relation. simpl. eapply fut_and_then; [apply (load_profile_triple w2)|].
      intros profile Hp w1 Hw1. pose proof (any_home_of2_call profile signer w1) as Hcall.
      pose proof (any_home_triple w2 w1 profile signer _ peer Hp Hw1) as Hfind.
      fold signer. destruct (any_home_of2 profile signer w1) as [f w1']. simpl in *. subst w1'.
      split; [done|]. eapply triple_weaken; [eapply (request_triple w2 _ _
        (λ found, home_pair_request found.2 (RelationHalfProof_new relation_type (profile_id profile) signer))
        (conn_context Conn.PairRequestFailed)); [by intros [] ?|exact Hfind]|].
      intros r Hr [] ->. destruct (Hr tt eq_refl) as (found & e & H1 & H2). by eauto. }
    destruct (Ht w2 (frozen_refl w2)) as [H1 H2].
    destruct ((initiate_relation relation_type peer w).1 w2) as [r w3]. split; [done|]. by apply H2.
  - unfold MyProfile_call. fold signer.
    destruct (proof_peer_id proof (signer_profile_id signer)) as [peer_id|e] eqn:Hpeer.
    + destruct (request_triple w2 _ _
        (λ found, home_call found.2 app (mkCallRequest proof payload to_caller))
        (conn_context Conn.CallFailed)
        (λ '(_home_proof, home) w,
           let '(fut, w) := lift (home_call home app (mkCallRequest proof payload to_caller)) w in
           (future_map_err (conn_context Conn.CallFailed) fut, w))
        ltac:(by intros [] ?)
        (load_and_find_triple w2 w Conn.FailedToLoadProfile signer peer_id)
        w2 (frozen_refl w2)) as [H1 H2].
      unfold load_profile, repo_load in *. simpl in *.
      destruct (and_then (and_then _ _) _ w2) as [r w3]. split_and!; [done| |done].
      intros answer Ha. destruct (H2 answer Ha) as (found & e & (profile & Hp) & He).
      by exists peer_id, profile, found, e.
    + simpl. split_and!; [reflexivity|done|eauto].
Qed.

(** Leaving a home, even with success, only asks the home: the home
    stays in the user's own profile and its session in the cache, and later
    logins, to this home or to any, keep handing out cached sessions without
    asking a home. *)
Theorem leave_home_keeps_session home_id newhome w ms :
  session_cache (me w) !! home_id = Some ms →
  only_env w (await (leave_home home_id newhome) w).2
  ∧ ∀ w', only_env w w' →
    login_home home_id w' = (future_ok ms, w')
    ∧ ∃ home_id' ms', session_cache (me w) !! home_id' = Some ms'
                      ∧ MyProfile_login w' = (future_ok ms', w').
Proof.
  intros Hms. split.
  - unfold await, leave_home, login_home. rewrite Hms. simpl. rewrite and_then_await. simpl.
    unfold await. destruct (my_sessions (me w) !! ms) as [s|]; simpl; [|reflexivity].
    pose proof (lift_frozen w (session_unregister (cs_session (session s)) newhome) anything
      ltac:(done) w (frozen_refl w)) as [H1 H2].
    destruct (lift _ w) as [f w1]. simpl in *. unfold future_map_err.
    specialize (H2 w1 H1) as [H2 _]. by destruct (f w1).
  - intros w' (Hme & _). unfold login_home, MyProfile_login. rewrite Hme, Hms. split; [done|].
    pose proof (hash_values_perm _ (session_cache (me w))) as Hp.
    destruct (hash_values (session_cache (me w))) as [|ms' rest] eqn:Hv.
    + apply Permutation_nil_l in Hp.
      assert (ms ∈ (map_to_list (session_cache (me w))).*2) as Hin.
      { apply list_elem_of_fmap. exists (home_id, ms). split; [done|]. by apply elem_of_map_to_list. }
      rewrite <- Hp in Hin. by apply elem_of_nil in Hin.
    + assert (ms' ∈ (map_to_list (session_cache (me w))).*2) as Hin by (rewrite <- Hp; left).
      apply list_elem_of_fmap in Hin as ([id x] & -> & Hin). apply elem_of_map_to_list in Hin.
      simpl. by eauto.
Qed.

(** The operations of the client that return futures: those applications call
    and the bodies of its loops. *)
Inductive client_op : ∀ E A, IO W (Future W E A) → Prop :=
| op_user E A m : user_op E A m → client_op E A m
| op_forward ms item : client_op _ _ (forward_event_safe select_all ms item)
| op_handle event : client_op _ _ (handle_event event).

(** C14: in every interleaving of calls and polls, cached sessions stay alive,
    the relations a profile has are never removed, changed or reordered, only
    extended, and a home once logged in to stays in the cache. *)
Theorem client_only_grows E A (m : IO W (Future W E A)) w0 :
  client_op E A m → call_triple (grown w0) m anything.
Proof.
  intros [E' A' m' Hm|ms item|event].
  - by apply (user_op_keeps E' A' m' Hm).
  - by apply (forward_event_safe_keeps select_all).
  - by apply handle_event_keeps.
Qed.

(** The listeners of a session are taken out while an event is being
    forwarded.  When all sends are done, those that took the event are put back
    in their order behind the listeners registered meanwhile, and those that
    failed are gone.  Each listener that was there and is kept got the event
    exactly once; the newcomers did not get it. *)
Theorem listeners_during_forwarding ms event w ls :
  select_all_ok snd select_all → listeners_of ms w = Some ls → NoDup ls →
  (forward_event_safe select_all ms (Ok event) w).2 = set_listeners ms [] w
  ∧ ∀ w2 meanwhile, listeners_of ms w2 = Some meanwhile →
      let '(r, w3) := (forward_event_safe select_all ms (Ok event) w).1 w2 in
      r = Ok tt
      ∧ ∃ survivors, sublist survivors ls
          ∧ listeners_of ms w3 = Some (meanwhile ++ survivors)
          ∧ delivered event survivors (listener_chans w2) (listener_chans w3)
          ∧ env w3 = env w2 ∧ profile_repo w3 = profile_repo w2.
Proof.
  intros Hsel Hls Hnd. destruct (forward_event_safe_phases Hsel ms event w ls Hls Hnd) as [H1 H2].
  split; [done|]. intros w2 meanwhile Hm. destruct (H2 w2 meanwhile Hm) as (surv & c & Hs & Hd & ->).
  split; [done|]. exists surv. rewrite listener_chans_set_listeners. split_and!; [done| |done| |].
  - apply set_listeners_lookup. rewrite listeners_of_set_chans. by rewrite Hm.
  - unfold set_listeners. simpl. by destruct (my_sessions (me w2) !! ms).
  - unfold set_listeners. simpl. by destruct (my_sessions (me w2) !! ms).
Qed.

(** A session just opened stores, unless the receiver of its own listener
    is dropped, the relation of every pairing response its home sends before
    the first error of the stream, in order and after the relations already
    there.  Whether the proof is signed, or concerns the user at all, is not
    looked at. *)
Theorem pairing_responses_stored home_id ms w0 w items rs :
  select_all_ok snd select_all → session_opened home_id ms w0 w → relations (me w) = Some rs →
  ∃ listener, listeners_of ms w = Some [listener]
    ∧ let '(r, w1) := forward_task select_all ms items w in
      r = (if existsb is_err items then Err tt else Ok tt)
      ∧ (listeners_of ms w1 = Some []
         ∨ listeners_of ms w1 = Some [listener]
           ∧ let '(r, w2) := relations_task (mpsc_received listener (listener_chans w1)) w1 in
             r = Ok tt ∧ relations (me w2) = Some (rs ++ omap pairing_of (good_prefix items))).
Proof.
  intros Hsel [Hc (s & st & l & Hms & _ & Hrecv & _)] Hrs. exists l.
  assert (listeners_of ms w = Some [l]) as Hls.
  { unfold listeners_of. by rewrite Hms, lookup_insert_eq. }
  split; [done|].
  destruct (forward_task_forwarded Hsel ms items w [l] Hls) as (surv & w1 & [F1 F2 F3 F4 F5] & ->).
  { constructor; [apply not_elem_of_nil|constructor]. }
  split; [done|].
  assert (listeners_of ms w1 = Some surv) as Hls1.
  { rewrite F2. apply set_listeners_lookup. by rewrite listeners_of_set_chans, Hls. }
  assert (relations (me w1) = Some rs) as Hrs1.
  { rewrite F2. unfold set_listeners. simpl. by destruct (my_sessions (me w) !! ms). }
  rewrite Hls1. apply sublist_cons_r in F1 as [F1|(k & -> & F1)].
  - left. by apply sublist_nil_r in F1 as ->.
  - right. apply sublist_nil_r in F1 as ->. split; [done|].
    rewrite (relations_task_run _ _ _ Hrs1). simpl. split; [done|].
    rewrite F3 by left. by rewrite Hrecv.
Qed.

(** [relations_with_peer] lists, in the order in which they were stored,
    exactly the relations with that peer whose type passes the filters.  The
    application filter is compared with the relation type as well, so two
    filters that differ exclude everything. *)
Theorem relations_with_peer_spec (m : MyProfileImpl Env) peer app_filter relation_type_filter :
  let rels := relations_with_peer m peer app_filter relation_type_filter in
  sublist rels (my_relations m)
  ∧ (∀ proof, proof ∈ rels ↔ proof ∈ my_relations m
       ∧ proof_peer_id proof (signer_profile_id (mp_signer m)) = Ok peer
       ∧ (∀ app, app_filter = Some app → rp_relation_type proof = app_str app)
       ∧ (∀ rel, relation_type_filter = Some rel → rp_relation_type proof = rel))
  ∧ (∀ app rel, app_filter = Some app → relation_type_filter = Some rel →
       app_str app ≠ rel → rels = []).
Proof.
  assert (∀ proof, proof ∈ relations_with_peer m peer app_filter relation_type_filter
       ↔ proof ∈ my_relations m
       ∧ proof_peer_id proof (signer_profile_id (mp_signer m)) = Ok peer
       ∧ (∀ app, app_filter = Some app → rp_relation_type proof = app_str app)
       ∧ (∀ rel, relation_type_filter = Some rel → rp_relation_type proof = rel)) as Hin.
  { intros proof. unfold relations_with_peer. rewrite !list_elem_of_In, !filter_In.
    unfold filter_passes, accessible_by.
    destruct (proof_peer_id _ _) as [id|e]; destruct app_filter, relation_type_filter;
      rewrite ?bool_decide_eq_true; naive_solver. }
  split_and!.
  - unfold relations_with_peer. etrans; [apply filter_sublist|]. etrans; [apply filter_sublist|].
    apply filter_sublist.
  - exact Hin.
  - intros app rel -> -> Hne. destruct (relations_with_peer _ _ _ _) as [|p ps]; [done|].
    destruct (Hin p) as [H _]. destruct H as (_ & _ & H1 & H2); [left|].
    exfalso. apply Hne. rewrite <- (H1 app eq_refl). by apply H2.
Qed.

End client.
