(* ===== verification/Forwarding.v ===== *)
(** * The loops of a session, one poll at a time ([connect/src/profile.rs])

    [forward_event] sends an event to every listener of a session, and each of
    these sends waits while its listener has not taken enough of the events it
    was given before: the channels are bounded and the senders are not cloned.
    Here the loop that forwards, and the one that stores relations, are state
    machines whose steps are single polls.  When every listener has room, the
    polls come to what [forward_event_safe] of [Connect.v] does at once. *)

From S2P Require Import Prelude Errors External FutureUtil Storage Protocol HomeServer Rpc.
From S2P Require Import Connect ConnectProps.
From stdpp Require Import relations.

(** [listener.send(event)]: waiting, or done with the sender given back. *)
Abbreviation SendFuture := (SinkId * option (Result string SinkId))%type (only parsing).

(** A [for_each] loop: it is about to take the item at [pos] of its stream, it
    waits for the sends of an event, or an error has ended it. *)
Inductive LoopState : Set :=
| Taking (pos : nat)
| Sending (pos : nat) (event : ProfileEvent) (send_futs : list SendFuture)
| Ended.

Section loops.
Context {BC : Bincode} {Env Store Chans : Type}
        {CH : Channels ProfileEvent Chans} {BCH : BoundedChannels ProfileEvent Chans}.
Abbreviation W := (Client Env Store Chans).
Context (select_all : list (nat * (SinkId * Result string SinkId)) →
           (nat * Result string SinkId) * list (nat * (SinkId * Result string SinkId))).

Definition start_sends (listeners : list SinkId) : list SendFuture :=
  (λ listener, (listener, None)) <$> listeners.

(** Polling the [j]-th of the sends: it goes through if its sender is not parked. *)
Definition send_poll (j : nat) (event : ProfileEvent) (send_futs : list SendFuture) (c : Chans)
  : option (list SendFuture * Chans) :=
  match send_futs !! j with
  | Some (listener, None) =>
      if mpsc_ready listener c then
        let '(r, c) := mpsc_send listener event c in
        Some (<[j := (listener, Some ((λ _, listener) <$> r))]> send_futs, c)
      else None
  | _ => None
  end.

Definition send_result (f : SendFuture) : option (SinkId * Result string SinkId) :=
  r ← f.2; Some (f.1, r).

(** [forward_event_safe] on an item of the stream, up to the future it returns. *)
Definition forward_start (ms : MySessionId) (event_res : Result string ProfileEvent) (pos : nat) (w : W)
  : LoopState * W :=
  match my_sessions (me w) !! ms with
  | None => (Ended, w)
  | Some s =>
      match event_res with
      | Ok event => (Sending pos event (start_sends (event_listeners s)),
                     put_my_session ms (mkMyHomeSession (session s) []) w)
      | Err _ => (Ended, w)
      end
  end.

(** Polling that future: [collect_results] polls the sends that are not done,
    [j] being the one that now is; when there is none left the listeners go back. *)
Definition forward_poll (j : nat) (ms : MySessionId) (pos : nat) (event : ProfileEvent)
    (send_futs : list SendFuture) (w : W) : option (LoopState * W) :=
  match send_poll j event send_futs (listener_chans w) with
  | Some (send_futs, c) => Some (Sending pos event send_futs, set_listener_chans c w)
  | None =>
      match mapM send_result send_futs with
      | Some completed => Some
          match collect_results select_all completed with
          | Some send_results => (Taking (S pos), listeners_notified ms (omap ok send_results) w)
          | None => (Ended, w)
          end
      | None => None
      end
  end.

(** The loop of [start_event_handler]: it takes an event from its channel and
    handles it. *)
Definition store_poll (events : SinkId) (pos : nat) (w : W) : option (LoopState * W) :=
  let '(next, c) := mpsc_recv events (listener_chans w) in
  match next with
  | Some event =>
      let '(r, w) := await (handle_event event) (set_listener_chans c w) in
      Some (match r with Ok _ => Taking (S pos) | Err _ => Ended end, w)
  | None => None
  end.

(** ** A listener that has room *)

Definition has_room (l : SinkId) (c : Chans) : Prop :=
  length (mpsc_received l c) ≤ mpsc_taken l c + mpsc_capacity l c.

Context {CHL : ChannelsLaws ProfileEvent Chans} {BL : BoundedLaws ProfileEvent Chans}.
Context (Hsel : select_all_ok snd select_all).

(** Sending to one listener takes no room from another. *)
Lemma send_received_other l l' event (c : Chans) :
  l' ≠ l → mpsc_received l' (mpsc_send l event c).2 = mpsc_received l' c.
Proof.
  intros Hne. destruct (mpsc_send l event c) as [[[]|e] c'] eqn:Hs; simpl.
  - apply mpsc_send_ok in Hs as [_ H]. by apply H.
  - by eapply mpsc_send_err.
Qed.

Lemma send_leaves_room l l' event (c : Chans) :
  l' ≠ l → has_room l' c → has_room l' (mpsc_send l event c).2.
Proof.
  intros Hne. unfold has_room. destruct (bounded_send l event c l') as [-> ->].
  by rewrite send_received_other.
Qed.

Definition send_step (event : ProfileEvent) : relation (list SendFuture * Chans) := λ x y,
  ∃ j, send_poll j event x.1 x.2 = Some y.
Definition sent (rs : list (SinkId * Result string SinkId)) : list SendFuture :=
  (λ r, (r.1, Some r.2)) <$> rs.

(** The sends go through one after the other. *)
Lemma sends_in_order event ls (pre : list (SinkId * Result string SinkId)) (c : Chans) :
  NoDup ls → (∀ l, l ∈ ls → has_room l c) →
  rtc (send_step event) (sent pre ++ start_sends ls, c)
    (sent (pre ++ (send_to_all ls event c).1), (send_to_all ls event c).2).
Proof.
  revert pre c; induction ls as [|l ls IH]; intros pre c Hnd Hroom; cbn [send_to_all].
  { simpl. rewrite !app_nil_r. apply rtc_refl. }
  inversion Hnd as [|? ? Hl Hnd']; subst.
  assert (∀ l', l' ∈ ls → has_room l' (mpsc_send l event c).2) as Hroom'.
  { intros l' Hl'. apply send_leaves_room; [by intros ->|]. apply Hroom. by right. }
  pose proof (Hroom l ltac:(by left)) as Hready%bounded_ready.
  destruct (mpsc_send l event c) as [r c1] eqn:Hs. simpl in Hroom'.
  specialize (IH (pre ++ [(l, (λ _, l) <$> r)]) c1 Hnd' Hroom').
  destruct (send_to_all ls event c1) as [rs c2]. simpl in *. rewrite <- app_assoc in IH.
  eapply rtc_l; [|exact IH]. exists (length (sent pre)). unfold send_poll. simpl.
  rewrite list_lookup_middle by done. rewrite Hready, Hs. f_equal. f_equal.
  rewrite insert_app_r_alt, Nat.sub_diag by done. simpl. unfold sent. by rewrite fmap_app, <- app_assoc.
Qed.

Lemma mapM_sent rs : mapM send_result (sent rs) = Some rs.
Proof.
  induction rs as [|[l r] rs IH]; [done|]. unfold sent in *. rewrite fmap_cons. simpl.
  by rewrite IH.
Qed.

(** Polls of the loop while it forwards an event. *)
Definition forward_step (ms : MySessionId) : relation (LoopState * W) := λ x y,
  ∃ j pos event futs, x.1 = Sending pos event futs ∧ forward_poll j ms pos event futs x.2 = Some y.

Lemma send_steps_forward ms pos event w x y :
  rtc (send_step event) x y →
  rtc (forward_step ms) (Sending pos event x.1, set_listener_chans x.2 w)
    (Sending pos event y.1, set_listener_chans y.2 w).
Proof.
  induction 1 as [x|x y z [j Hj] _ IH]; [apply rtc_refl|]. eapply rtc_l; [|exact IH].
  exists j, pos, event, x.1. split; [done|]. unfold forward_poll. simpl. rewrite Hj. by destruct y.
Qed.

(** When every listener has room, the loop can get through an event, and what it
    has done then is what [forward_event_safe] does at once. *)
Lemma forward_in_order ms event w s ls pos :
  my_sessions (me w) !! ms = Some (mkMyHomeSession s ls) → NoDup ls →
  (∀ l, l ∈ ls → has_room l (listener_chans w)) →
  ∃ w', rtc (forward_step ms) (forward_start ms (Ok event) pos w) (Taking (S pos), w')
    ∧ await (forward_event_safe select_all ms (Ok event)) w = (Ok tt, w').
Proof.
  intros Hms Hnd Hroom. set (w1 := put_my_session ms (mkMyHomeSession s []) w).
  pose proof (sends_in_order event ls [] (listener_chans w) Hnd Hroom) as Hsends.
  set (rs := (send_to_all ls event (listener_chans w)).1) in *.
  set (c := (send_to_all ls event (listener_chans w)).2) in *.
  exists (listeners_notified ms (omap ok rs.*2) (set_listener_chans c w1)). split.
  - unfold forward_start. rewrite Hms. simpl. fold w1.
    apply (send_steps_forward ms pos event w1) in Hsends.
    eapply rtc_r; [exact Hsends|]. exists (length rs), pos, event, (sent rs). split; [done|].
    unfold forward_poll, send_poll. simpl.
    rewrite lookup_ge_None_2 by (unfold sent; by rewrite length_fmap).
    by rewrite mapM_sent, (collect_results_total snd select_all Hsel).
  - unfold await, forward_event_safe. rewrite Hms. cbn [event_listeners session]. fold w1.
    rewrite and_then_await. unfold forward_event. change (listener_chans w1) with (listener_chans w).
    subst rs c. destruct (send_to_all ls event (listener_chans w)) as [rs c]. simpl.
    by rewrite (collect_results_total snd select_all Hsel).
Qed.
End loops.
