(* ===== verification/ClientSafety.v ===== *)
(** * What never reaches a client

    A client does not check the pairing responses it stores ([on_new_relation]).
    If the homes it is connected to confirm and deliver genuine relations only,
    genuine relations are all it ever has: [ClientInvariant] for that property,
    over any world in which connecting gives such homes. *)

From S2P Require Import Prelude Errors External FutureUtil Storage Protocol Relation Rpc Hoare.
From S2P Require Import Connect ConnectFrame.

Section safety.
Context {BC : Bincode} {Env Store Chans : Type}
        {KV : KeyValueStore Store ProfileId Profile}
        {CH : Channels ProfileEvent Chans} {CHL : ChannelsLaws ProfileEvent Chans}
        {HC : HomeConnector Env}
        {SO : SelectOk (Client Env Store Chans)} {SOL : SelectOkLaws (Client Env Store Chans)}.
Abbreviation W := (Client Env Store Chans).
Implicit Types w : W.

(** [I] is what holds of the rest of the world. *)
Context (I : Env → Prop) (genuine : ProfileEvent → Prop).

(** What the world promises of its homes: all their methods keep [I], and a
    pairing response is accepted for a genuine relation only. *)
Record safe_session (s : ClientSession Env) : Prop := mkSafeSession
  { ss_update own : call_triple I (session_update (cs_session s) own) anything;
    ss_unregister newhome : call_triple I (session_unregister (cs_session s) newhome) anything;
    ss_ping txt : call_triple I (session_ping (cs_session s) txt) anything;
    ss_events : triple I (cs_events s) anything;
    ss_checkin_app app : triple I (cs_checkin_app s app) anything }.

Record safe_home (h : ClientHome Env) : Prop := mkSafeHome
  { sh_load id : call_triple I (home_load h id) anything;
    sh_claim id : call_triple I (home_claim h id) anything;
    sh_register own half invite : call_triple I (home_register h own half invite) anything;
    sh_login proof : call_triple I (home_login h proof) safe_session;
    sh_pair_request half : call_triple I (home_pair_request h half) anything;
    sh_pair_response rp : call_triple I (home_pair_response h rp) (λ _, genuine (PairingResponse rp));
    sh_call app req : call_triple I (home_call h app req) anything }.

Class SafeConnector : Prop := {
  safe_connect hp signer : call_triple I (home_connect hp signer) safe_home
}.

(** The client: its relations are genuine, as are the events that wait for its
    loops and listeners, and so are its sessions safe. *)
Record client_inv w : Prop := mkClientInv
  { cv_env : I (env w);
    cv_relations rs : relations (me w) = Some rs → Forall (λ rp, genuine (PairingResponse rp)) rs;
    cv_events s event : event ∈ mpsc_received s (listener_chans w) → genuine event;
    cv_sessions ms s : my_sessions (me w) !! ms = Some s → safe_session (session s) }.

Lemma client_inv_env w e : client_inv w → I e → client_inv (set_env e w).
Proof. by intros [] He. Qed.

Lemma client_inv_me w m :
  client_inv w → relations m = relations (me w) → my_sessions m = my_sessions (me w) →
  client_inv (set_me m w).
Proof. intros [H1 H2 H3 H4] Hr Hs. split; simpl; rewrite ?Hr, ?Hs; done. Qed.

Lemma client_inv_sessions w ms s n :
  client_inv w → safe_session (session s) →
  client_inv (set_me (set_my_sessions (<[ms := s]> (my_sessions (me w))) n (me w)) w).
Proof.
  intros [H1 H2 H3 H4] Hs. split; simpl; [done..|].
  intros ms' s' [[_ <-]|[_ Hl]]%lookup_insert_Some; [done|by eapply H4].
Qed.

Lemma client_inv_channel n w :
  client_inv w → client_inv (set_listener_chans (mpsc_channel n (listener_chans w)).2 w).
Proof.
  intros [H1 H2 H3 H4]. split; simpl; [done|done| |done]. intros s event Hin.
  destruct (mpsc_channel n (listener_chans w)) as [s0 c] eqn:Hc. simpl in Hin.
  destruct (mpsc_channel_new _ _ _ _ Hc) as [Hnew Hold]. destruct (decide (s = s0)) as [->|Hne].
  - rewrite Hnew in Hin. by apply elem_of_nil in Hin.
  - rewrite Hold in Hin by done. by eapply H3.
Qed.

Lemma client_inv_recv {BCH : BoundedChannels ProfileEvent Chans} {BL : BoundedLaws ProfileEvent Chans} l w :
  client_inv w → client_inv (set_listener_chans (mpsc_recv l (listener_chans w)).2 w).
Proof.
  intros [H1 H2 H3 H4]. split; simpl; [done|done| |done]. intros s event.
  destruct (bounded_recv_after l (listener_chans w) s) as [-> _]. apply H3.
Qed.

Lemma client_inv_send s event w :
  client_inv w → genuine event →
  client_inv (set_listener_chans (mpsc_send s event (listener_chans w)).2 w).
Proof.
  intros [H1 H2 H3 H4] Hg. split; simpl; [done|done| |done]. intros s' event' Hin.
  destruct (mpsc_send s event (listener_chans w)) as [[[]|e] c] eqn:Hc; simpl in Hin.
  - destruct (mpsc_send_ok _ _ _ _ Hc) as [Hs Ho]. destruct (decide (s' = s)) as [->|Hne].
    + rewrite Hs in Hin. apply elem_of_app in Hin as [Hin|Hin%list_elem_of_singleton]; [by eapply H3|by subst].
    + rewrite Ho in Hin by done. by eapply H3.
  - rewrite (mpsc_send_err _ _ _ _ _ Hc) in Hin. by eapply H3.
Qed.

Lemma lift_safe {E A} (m : IO Env (Future Env E A)) Q :
  call_triple I m Q → call_triple client_inv (lift m) Q.
Proof.
  intros Hm w Hw. unfold lift. destruct (Hm (env w) (cv_env _ Hw)) as [H1 H2].
  destruct (m (env w)) as [f e]. simpl in *. split; [by apply client_inv_env|].
  intros w1 Hw1. unfold lift_future. destruct (H2 (env w1) (cv_env _ Hw1)) as [H3 H4].
  destruct (f (env w1)) as [r e1]. simpl in *. split; [by apply client_inv_env|done].
Qed.

Lemma client_inv_open home_id s w :
  client_inv w → safe_session s → client_inv (open_session home_id s w).
Proof.
  intros Hw Hs. unfold open_session, MyHomeSessionImpl_new. cbv zeta.
  set (w1 := set_me (set_my_sessions _ _ _) w).
  assert (client_inv w1) as Hw1 by by apply client_inv_sessions.
  destruct (ss_events s Hs (env w1) (cv_env _ Hw1)) as [He _].
  destruct (cs_events s (env w1)) as [stream e]. simpl in He.
  unfold start_event_handler. cbn [fst snd].
  match goal with |- client_inv (let '(_, _) := my_session_events ?m ?x in _).2 =>
    set (w2 := x); set (ms' := m) end.
  assert (client_inv w2) as Hw2.
  { unfold w2. apply client_inv_me; [|done|done]. apply client_inv_me; [|done|done].
    by apply client_inv_env. }
  unfold my_session_events. pose proof (client_inv_channel CHANNEL_CAPACITY w2 Hw2) as Hw3.
  destruct (mpsc_channel CHANNEL_CAPACITY (listener_chans w2)) as [l c]. cbn [snd] in Hw3 |- *.
  apply client_inv_me; [|done|done]. unfold add_listener.
  destruct (my_sessions _ !! ms') as [s'|] eqn:Hl; [|done].
  unfold put_my_session. apply client_inv_sessions; [done|]. simpl. by eapply (cv_sessions _ Hw3).
Qed.

#[export] Instance client_inv_invariant `{!SafeConnector} :
  ClientInvariant client_inv safe_home safe_session genuine.
Proof.
  split.
  - intros hp signer. apply lift_safe, safe_connect.
  - intros h own half invite Hh. by apply lift_safe, sh_register.
  - intros h proof Hh. by apply lift_safe, sh_login.
  - intros h half Hh. by apply lift_safe, sh_pair_request.
  - intros h rp Hh. by apply lift_safe, sh_pair_response.
  - intros h app req Hh. by apply lift_safe, sh_call.
  - intros ms s w0 newhome Hw0 Hs. apply lift_safe, ss_unregister. by eapply (cv_sessions _ Hw0).
  - intros own w Hw. by apply client_inv_me.
  - intros r w []. by split.
  - intros rp rs w [H1 H2 H3 H4] Hrs Hg. split; simpl; [done| |done|done].
    intros rs' [= <-]. apply Forall_app. split; [by apply H2|by constructor].
  - intros home_id s w. apply client_inv_open.
  - intros ms s ls w Hw Hs. apply client_inv_sessions; [done|]. simpl. by eapply (cv_sessions _ Hw).
  - intros n w. apply client_inv_channel.
  - intros s event w. apply client_inv_send.
Qed.
End safety.
