(* ===== verification/Net.v ===== *)
(** * Connecting to homes over TCP ([connect/src/net.rs])

    Addresses are converted to sockets, the first address that connects is
    used, and the handshake runs on it before Cap'n Proto takes over. *)

From Stdlib Require Import ZArith.
From S2P Require Import Prelude Errors External Protocol Crypto Handshake Rpc Connect.

(** [multiaddr]: the components of an address. *)
Inductive AddrComponent : Set :=
| IP4 (octets : Z)
| IP6 (segments : Z)
| TCP (port : Z)
| UDP (port : Z)
| OtherComponent (code : Z).

Class MultiaddrComponents := { multiaddr_iter : Multiaddr → list AddrComponent }.

(** [std::net]. *)
Inductive IpAddr : Set := V4 (octets : Z) | V6 (segments : Z).
Record SocketAddr : Set := mkSocketAddr { socket_ip : IpAddr; socket_port : Z }.

(** A TCP stream: whether [set_nodelay] works on it, and its two halves. *)
Record TcpStream : Set := mkTcpStream
  { nodelay : Result string unit; tcp_reader : bytes; tcp_writer : Writer }.

Section net.
Context {MA : MultiaddrComponents} {SJ : SerdeJson AuthenticationInfo} {Env : Type}
        {SO : SelectOk Env}.

(** [TcpStream::connect], and the RPC runtime behind [HomeClientCapnProto::new]. *)
Context (tcp_connect : SocketAddr → Future Env string TcpStream)
        (HomeClientCapnProto_new : bytes → Writer → IO Env (ClientHome Env)).

(** Components after the second one are not looked at. *)
Definition multiaddr_to_socketaddr (multiaddr : Multiaddr) : Result ConnError SocketAddr :=
  let components := multiaddr_iter multiaddr in
  ip_address ← match head components with
               | Some (IP4 address) => Ok (V4 address)
               | Some (IP6 address) => Ok (V6 address)
               | _ => Err (conn_from Conn.AddressConversionFailed)
               end;
  ip_port ← match head (tail components) with
            | Some (TCP port) => Ok port
            | Some (UDP port) => Ok port
            | _ => Err (conn_from Conn.AddressConversionFailed)
            end;
  Ok (mkSocketAddr ip_address ip_port).

Definition connect_addr (addr : Multiaddr) : Future Env ConnError TcpStream :=
  match multiaddr_to_socketaddr addr with
  | Err err => future_err err
  | Ok tcp_addr => future_map_err (conn_context Conn.ConnectionFailed) (tcp_connect tcp_addr)
  end.

(** The handshake and the proxy on a connection. *)
Definition home_on (signer : Signer) (tcp_stream : TcpStream)
  : IO Env (Future Env ConnError (ClientHome Env)) := io_ret (λ w,
  match temp_tcp_handshake_until_tls_is_implemented (nodelay tcp_stream) (tcp_reader tcp_stream)
          (tcp_writer tcp_stream) signer with
  | Err err => (Err (conn_context Conn.HandshakeFailed err), w)
  | Ok (reader, writer, _peer_ctx) =>
      let '(home, w) := HomeClientCapnProto_new reader writer w in (Ok home, w)
  end).

(** [HomeConnector for SimpleTcpHomeConnector]: [select_ok] panics when there
    is no address. *)
Definition SimpleTcpHomeConnector_connect (home_profile : Profile) (signer : Signer)
  : Panicking (IO Env (Future Env ConnError (ClientHome Env))) :=
  match profile_facet home_profile with
  | Protocol.Home home_facet =>
      let tcp_conns := (λ addr, future_map_err (conn_context Conn.ConnectionFailed)
                                  (connect_addr addr)) <$> home_addrs home_facet in
      match tcp_conns with
      | [] => Panics
      | conn :: conns => Returns (io_ret (and_then (select_ok conn conns) (home_on signer)))
      end
  | _ => Returns (io_ret (future_err (conn_from Conn.HomeProfileExpected)))
  end.

(** [StunTurnTcpConnector::connect] and [TcpHomeConnector::connect] are
    unimplemented. *)
Definition StunTurnTcpConnector_connect (_addr : SocketAddr)
  : Panicking (IO Env (Future Env ConnError TcpStream)) := Panics.
Definition TcpHomeConnector_connect (_home_profile : Profile) (_signer : Signer)
  : Panicking (IO Env (Future Env ConnError (ClientHome Env))) := Panics.

End net.

(** ** Theorems *)

Section theorems.
Context {MA : MultiaddrComponents} {SJ : SerdeJson AuthenticationInfo} {Env : Type}
        {SO : SelectOk Env} {SOL : SelectOkLaws Env}
        (tcp_connect : SocketAddr → Future Env string TcpStream)
        (new_client : bytes → Writer → IO Env (ClientHome Env)).

(** An address converts exactly when an IP component is followed by a TCP or,
    just as well, a UDP port; what comes after is dropped. *)
Lemma multiaddr_to_socketaddr_iff a s :
  multiaddr_to_socketaddr a = Ok s ↔
  ∃ ip port rest, multiaddr_iter a = ip :: port :: rest
    ∧ (ip = IP4 match socket_ip s with V4 x => x | V6 x => x end ∧ (∃ x, socket_ip s = V4 x)
       ∨ ip = IP6 match socket_ip s with V4 x => x | V6 x => x end ∧ (∃ x, socket_ip s = V6 x))
    ∧ (port = TCP (socket_port s) ∨ port = UDP (socket_port s)).
Proof.
  unfold multiaddr_to_socketaddr. split.
  - destruct (multiaddr_iter a) as [|[] [|[] rest]]; simpl; try done;
      intros [= <-]; simpl; eauto 12.
  - destruct s as [ip0 port0]. simpl. intros (ip & port & rest & -> & Hip & Hport).
    destruct Hip as [[-> [x ->]]|[-> [x ->]]], Hport as [->| ->]; done.
Qed.

Lemma connect_addr_ok a w stream w' :
  future_map_err (conn_context Conn.ConnectionFailed) (connect_addr tcp_connect a) w = (Ok stream, w') →
  ∃ socket, multiaddr_to_socketaddr a = Ok socket ∧ tcp_connect socket w = (Ok stream, w').
Proof.
  unfold connect_addr, future_map_err, future_err.
  destruct (multiaddr_to_socketaddr a) as [socket|e]; [|done].
  destruct (tcp_connect socket w) as [[s|e] w1] eqn:Hc; [|done]. intros [= <- <-]. eauto.
Qed.

(** Connecting refuses profiles that are not homes, panics on a home
    profile without addresses, and succeeds only over one of the addresses of
    the profile, on a stream on which the handshake went through.  Who answered
    there is not compared with the home that was asked for: two home profiles
    with the same addresses are the same to it. *)
Theorem SimpleTcpHomeConnector_connect_spec home_profile signer :
  match profile_facet home_profile with
  | Protocol.Home f =>
      (SimpleTcpHomeConnector_connect tcp_connect new_client home_profile signer = Panics
       ↔ home_addrs f = [])
      ∧ (∀ m w home w', SimpleTcpHomeConnector_connect tcp_connect new_client home_profile signer
           = Returns m → await m w = (Ok home, w') →
           ∃ addr socket stream reader writer peer w1 w2,
             addr ∈ home_addrs f ∧ multiaddr_to_socketaddr addr = Ok socket
             ∧ tcp_connect socket w1 = (Ok stream, w2)
             ∧ temp_tcp_handshake_until_tls_is_implemented (nodelay stream) (tcp_reader stream)
                 (tcp_writer stream) signer = Ok (reader, writer, peer)
             ∧ new_client reader writer w2 = (home, w'))
      ∧ ∀ id pk data, SimpleTcpHomeConnector_connect tcp_connect new_client
          (mkProfile id pk (Protocol.Home (mkHomeFacet (home_addrs f) data))) signer
          = SimpleTcpHomeConnector_connect tcp_connect new_client home_profile signer
  | _ => SimpleTcpHomeConnector_connect tcp_connect new_client home_profile signer
         = Returns (io_ret (future_err (conn_from Conn.HomeProfileExpected)))
  end.
Proof.
  unfold SimpleTcpHomeConnector_connect.
  destruct (profile_facet home_profile) as [f| | |]; simpl; try done.
  split_and!; [by destruct (home_addrs f)| |by destruct (home_addrs f)].
  intros m w home w'. destruct (home_addrs f) as [|a addrs]; [done|]. simpl. intros [= <-].
  unfold await, io_ret. intros H. unfold and_then in H.
  destruct (select_ok _ _ w) as [[stream|e] w1] eqn:Hsel; [|done].
  apply select_ok_inv in Hsel as (g & w0 & Hin & Hg).
  change (_ :: _) with ((λ addr, future_map_err (conn_context Conn.ConnectionFailed)
                           (connect_addr tcp_connect addr)) <$> (a :: addrs)) in Hin.
  apply list_elem_of_fmap in Hin as (addr & -> & Hin).
  apply connect_addr_ok in Hg as (socket & Hsock & Htcp).
  unfold home_on, io_ret in H.
  destruct (temp_tcp_handshake_until_tls_is_implemented _ _ _ _) as [[[reader writer] peer]|e] eqn:Hh;
    [|done].
  destruct (new_client reader writer w1) as [h w2] eqn:Hnew. injection H as -> ->.
  by exists addr, socket, stream, reader, writer, peer, w0, w1.
Qed.

End theorems.
