(* ===== verification/Service.v ===== *)
(** * The local service ([connect/src/service.rs], [connect/src/sdk.rs])

    The wrappers of the user's profiles live in one process, share the profile
    repository, the listener channels and the world, and are handed out by a
    caching factory; applications use them through sessions that are bound to
    one profile and one application id. *)

From S2P Require Import Prelude Errors External Storage Protocol Relation Rpc HomeServer Connect.

(** [Rc<MyProfile>]. *)
Abbreviation ProfileRef := nat (only parsing).

Record ConnectService (Env Store PStore Chans : Type) : Type := mkConnectService
  { my_profile_ids : list ProfileId;
    profile_store : PStore;
    signers : gmap ProfileId Signer;
    factory_cache : gmap ProfileId ProfileRef;
    profile_heap : gmap ProfileRef (MyProfileImpl Env);
    next_profile : ProfileRef;
    shared_repo : SimpleProfileRepo Store;
    shared_chans : Chans;
    shared_env : Env }.
Arguments mkConnectService {Env Store PStore Chans}.
Arguments my_profile_ids {Env Store PStore Chans}.
Arguments profile_store {Env Store PStore Chans}.
Arguments signers {Env Store PStore Chans}.
Arguments factory_cache {Env Store PStore Chans}.
Arguments profile_heap {Env Store PStore Chans}.
Arguments next_profile {Env Store PStore Chans}.
Arguments shared_repo {Env Store PStore Chans}.
Arguments shared_chans {Env Store PStore Chans}.
Arguments shared_env {Env Store PStore Chans}.

(** [struct DAppSessionImpl] and [struct RelationImpl]. *)
Record DAppSessionImpl : Set := mkDAppSession
  { ds_my_profile : ProfileRef; ds_app_id : ApplicationId }.
Record RelationImpl : Set := mkRelationImpl
  { ri_relation_proof : RelationProof; ri_my_profile : ProfileRef; ri_app_id : ApplicationId }.

(** [struct DAppCall] and [enum DAppEvent]. *)
Record DAppCall : Set := mkDAppCall { outgoing : SinkId; incoming : SinkId }.
Inductive DAppEvent : Set :=
| DAppPairingResponse (contact : RelationImpl)
| DAppIncomingCall (call : Call).

(** [struct DAppAction]. *)
Record DAppAction : Set := mkDAppAction { action_bytes : bytes }.

(** [trait UserInterface]; the service uses [select_profile]. *)
Class UserInterface (S : Type) := {
  ui_initialize : IO S (Future S ConnError unit);
  ui_confirm_dappaction : DAppAction → IO S (Future S ConnError unit);
  ui_confirm_pairing : RelationHalfProof → IO S (Future S ConnError unit);
  ui_notify_pairing : RelationProof → IO S (Future S ConnError unit);
  ui_select_profile : IO S (Future S ConnError ProfileId);
  ui_manage_profiles : IO S (Future S ConnError unit);
}.

Section service.
Context {BC : Bincode} {Env Store PStore Chans : Type}
        {KV : KeyValueStore Store ProfileId Profile}
        {PKV : KeyValueStore PStore ProfileId OwnProfile}
        {CH : Channels ProfileEvent Chans} {FCH : Channels AppMessageFrame Chans}
        {HC : HomeConnector Env}
        {SO : SelectOk (Client Env Store Chans)}
        {HV : HashValues ProfileId}.

Abbreviation S := (ConnectService Env Store PStore Chans).
Context {UI : UserInterface S}.

Definition set_factory (cache : gmap ProfileId ProfileRef)
    (heap : gmap ProfileRef (MyProfileImpl Env)) (n : ProfileRef) (s : S) : S :=
  mkConnectService (my_profile_ids s) (profile_store s) (signers s) cache heap n
    (shared_repo s) (shared_chans s) (shared_env s).

(** The client a profile wrapper is, and its changes put back. *)
Definition client_of (p : MyProfileImpl Env) (s : S) : Client Env Store Chans :=
  mkClient p (shared_repo s) (shared_chans s) (shared_env s).
Definition put_client (r : ProfileRef) (c : Client Env Store Chans) (s : S) : S :=
  mkConnectService (my_profile_ids s) (profile_store s) (signers s) (factory_cache s)
    (<[r := me c]> (profile_heap s)) (next_profile s)
    (profile_repo c) (listener_chans c) (env c).

(** A method of the profile behind a reference.  The reference keeps it alive,
    so it is in the heap. *)
Definition on_profile_poll {A} (r : ProfileRef) (f : Future (Client Env Store Chans) ConnError A)
  : Future S ConnError A := λ s,
  match profile_heap s !! r with
  | Some p => let '(res, c) := f (client_of p s) in (res, put_client r c s)
  | None => (Err (conn_from Conn.ImplementationError), s)
  end.
Definition on_profile {A} (r : ProfileRef)
    (m : IO (Client Env Store Chans) (Future (Client Env Store Chans) ConnError A))
  : IO S (Future S ConnError A) := λ s,
  match profile_heap s !! r with
  | Some p => let '(f, c) := m (client_of p s) in (on_profile_poll r f, put_client r c s)
  | None => (future_err (conn_from Conn.ImplementationError), s)
  end.

(** ** [SignerFactory] and [MyProfileFactory] *)

Definition factory_signer (profile_id : ProfileId) (s : S) : option Signer :=
  signers s !! profile_id.

Definition factory_create (own : OwnProfile) : IO S (Result ConnError ProfileRef) := λ s,
  let profile_id := profile_id (own_profile own) in
  match factory_cache s !! profile_id with
  | Some my_profile_rc => (Ok my_profile_rc, s)
  | None =>
      match factory_signer profile_id s with
      | Some signer =>
          let r := next_profile s in
          (Ok r, set_factory (<[profile_id := r]> (factory_cache s))
                   (<[r := MyProfileImpl_new own signer]> (profile_heap s)) (Datatypes.S r) s)
      | None => (Err (conn_from Conn.FailedToAuthorize), s)
      end
  end.

(** A stored profile with its wrapper. *)
Definition load_and_create (id : ProfileId) : IO S (Future S ConnError ProfileRef) := λ s,
  (and_then (future_result (map_err (conn_context Conn.FailedToLoadProfile)
                              (kv_get id (profile_store s))))
     (λ own s, let '(r, s) := factory_create own s in (future_result r, s)), s).

(** ** [AdminSessionImpl] *)

Definition admin_profile (id : ProfileId) : IO S (Future S ConnError ProfileRef) :=
  load_and_create id.

(** [join_all]: the futures were all made before the first is polled; the first
    error is the result. *)
Fixpoint join_all {A} (futs : list (Future S ConnError A)) : Future S ConnError (list A) :=
  match futs with
  | [] => future_ok []
  | f :: futs => and_then f (λ a, io_ret (future_map (cons a) (join_all futs)))
  end.

Definition admin_profiles : IO S (Future S ConnError (list ProfileRef)) := λ s,
  (join_all ((λ prof_id, (load_and_create prof_id s).1) <$> my_profile_ids s), s).

Definition admin_create_profile : Panicking (IO S (Future S ConnError ProfileRef)) := Panics.
Definition admin_remove_profile (_profile : ProfileId)
  : Panicking (IO S (Future S ConnError unit)) := Panics.

(** ** [ConnectService] *)

(** An admin session holds the same references as the service. *)
Definition admin_session (_authorization : option bytes) : IO S (Future S ConnError unit) :=
  io_ret (future_ok tt).

Definition dapp_session (app : ApplicationId) (_authorization : option bytes)
  : IO S (Future S ConnError DAppSessionImpl) := λ s,
  let '(fut, s) := ui_select_profile s in
  (future_map (λ my_profile, mkDAppSession my_profile app)
     (and_then fut load_and_create), s).

(** ** [DAppSessionImpl] *)

Definition selected_profile (d : DAppSessionImpl) (s : S) : option ProfileId :=
  p ← profile_heap s !! ds_my_profile d; Some (signer_profile_id (mp_signer p)).

Definition relation_from (d : DAppSessionImpl) (proof : RelationProof) : RelationImpl :=
  mkRelationImpl proof (ds_my_profile d) (ds_app_id d).

(** The profile of a session, which its reference keeps alive. *)
Definition with_my_profile {A} (r : ProfileRef) (f : MyProfileImpl Env → list A) (s : S) : list A :=
  match profile_heap s !! r with Some p => f p | None => [] end.

Definition contacts (d : DAppSessionImpl) : IO S (Future S ConnError (list RelationImpl)) := λ s,
  (future_ok (with_my_profile (ds_my_profile d) (λ p,
     relation_from d <$> List.filter (λ proof, accessible_by proof (ds_app_id d)) (my_relations p)) s),
   s).

Definition contacts_with_profile (d : DAppSessionImpl) (profile : ProfileId)
    (relation_type : option string) : IO S (Future S ConnError (list RelationImpl)) := λ s,
  (future_ok (with_my_profile (ds_my_profile d) (λ p,
     relation_from d <$> relations_with_peer p profile (Some (ds_app_id d)) relation_type) s),
   s).

Definition initiate_contact (d : DAppSessionImpl) (with_profile : ProfileId)
  : IO S (Future S ConnError unit) :=
  on_profile (ds_my_profile d) (initiate_relation (app_str (ds_app_id d)) with_profile).

Definition app_storage (_d : DAppSessionImpl) : Panicking (IO S (Future S ConnError unit)) := Panics.

(** [RelationImpl::call]. *)
Definition set_shared_chans (c : Chans) (s : S) : S :=
  mkConnectService (my_profile_ids s) (profile_store s) (signers s) (factory_cache s)
    (profile_heap s) (next_profile s) (shared_repo s) c (shared_env s).

Definition contact_call (c : RelationImpl) (init_payload : AppMessageFrame)
  : IO S (Future S ConnError DAppCall) := λ s,
  let '(chan, cs) := @mpsc_channel AppMessageFrame Chans FCH CHANNEL_CAPACITY (shared_chans s) in
  let s := set_shared_chans cs s in
  let '(fut, s) := on_profile (ri_my_profile c)
      (MyProfile_call (ri_relation_proof c) (ri_app_id c) init_payload (Some chan)) s in
  (and_then fut (λ to_callee_opt, io_ret (future_result
     match to_callee_opt with
     | None => Err (conn_from Conn.CallRefused)
     | Some to_callee => Ok (mkDAppCall to_callee chan)
     end)), s).

(** [checkin]: the calls of the application and the events of the session, as
    two streams that are merged. *)
Definition checkin (d : DAppSessionImpl) : IO S (Future S ConnError (SinkId * SinkId)) :=
  on_profile (ds_my_profile d) (λ c,
    let '(fut, c) := MyProfile_login c in
    (and_then fut (λ my_session c,
       match my_sessions (me c) !! my_session with
       | Some s =>
           let '(calls, e) := cs_checkin_app (session s) (ds_app_id d) (env c) in
           let '(events, c) := my_session_events my_session (set_env e c) in
           (future_ok (calls, events), c)
       | None => (future_err (conn_from Conn.ImplementationError), c)
       end), c)).

(** An item of either stream, as it arrives. *)
Definition checkin_event (d : DAppSessionImpl) (item : Result string Call + ProfileEvent)
  : option DAppEvent :=
  match item with
  | inl inc_call_res => DAppIncomingCall <$> ok inc_call_res
  | inr (PairingResponse proof) =>
      if accessible_by proof (ds_app_id d) then Some (DAppPairingResponse (relation_from d proof))
      else None
  | inr _ => None
  end.

Definition checkin_stream (d : DAppSessionImpl) (items : list (Result string Call + ProfileEvent))
  : list DAppEvent := omap (checkin_event d) items.

End service.

(** [MyProfileFactory::new] and [ConnectService::new] on their parts. *)
Definition ConnectService_new {Env Store PStore Chans} (ids : list ProfileId) (store : PStore)
    (signers : gmap ProfileId Signer) (repo : SimpleProfileRepo Store) (c : Chans) (e : Env)
  : ConnectService Env Store PStore Chans :=
  mkConnectService ids store signers ∅ ∅ 0 repo c e.

(** [DummyUserInterface]: it always agrees, and selects the first profile in the
    order of the hash set. *)
Definition DummyUserInterface {S} (my_profiles : list ProfileId) : UserInterface S :=
  {| ui_initialize := io_ret (future_ok tt);
     ui_confirm_dappaction _action := io_ret (future_ok tt);
     ui_confirm_pairing _request := io_ret (future_ok tt);
     ui_notify_pairing _response := io_ret (future_ok tt);
     ui_manage_profiles := io_ret (future_ok tt);
     ui_select_profile := io_ret (future_result
       (ok_or (head my_profiles) (conn_from Conn.FailedToAuthorize))) |}.

(** ** Theorems *)

Section theorems.
Context {BC : Bincode} {Env Store PStore Chans : Type}
        {PKV : KeyValueStore PStore ProfileId OwnProfile}.
Abbreviation S := (ConnectService Env Store PStore Chans).
Implicit Types s : S.

(** The cache refers to live wrappers, one per profile id. *)
Definition service_wf s : Prop :=
  (∀ id r, factory_cache s !! id = Some r → is_Some (profile_heap s !! r))
  ∧ (∀ id id' r, factory_cache s !! id = Some r → factory_cache s !! id' = Some r → id = id')
  ∧ (∀ r, is_Some (profile_heap s !! r) → r < next_profile s).

(** The wrappers of [s] are those of [s'], in the same state. *)
Definition wrappers_kept s s' : Prop :=
  profile_heap s ⊆ profile_heap s' ∧ factory_cache s ⊆ factory_cache s'.

(** Handing out a wrapper keeps the factory well formed and the wrappers it has. *)
Lemma factory_create_wf own s :
  service_wf s →
  let '(res, s') := factory_create own s in
  service_wf s' ∧ wrappers_kept s s' ∧ ∀ r, res = Ok r → is_Some (profile_heap s' !! r).
Proof.
  intros (W1 & W2 & W3). unfold factory_create, factory_signer.
  destruct (factory_cache s !! profile_id (own_profile own)) as [r|] eqn:Hc.
  { split; [done|]. split; [done|]. intros ? [= <-]. by eapply W1. }
  destruct (signers s !! profile_id (own_profile own)) as [signer|] eqn:Hsig; [|done].
  assert (profile_heap s !! next_profile s = None) as Hfresh.
  { destruct (profile_heap s !! next_profile s) eqn:Hh; [|done].
    specialize (W3 (next_profile s) ltac:(by rewrite Hh)). lia. }
  split; [split_and!; simpl|split; [|simpl]].
  - intros id r [[<- <-]|[_ Hl]]%lookup_insert_Some; [by rewrite lookup_insert_eq|].
    apply lookup_insert_is_Some'. right. by eapply W1.
  - intros id id' r [[<- <-]|[_ Hl]]%lookup_insert_Some [[<- Heq]|[_ Hl']]%lookup_insert_Some;
      [done| | |by eapply W2]; simplify_eq.
    + destruct (W1 _ _ Hl') as [p Hp]. congruence.
    + destruct (W1 _ _ Hl) as [p Hp]. congruence.
  - intros r [<-|[_ Hr]]%lookup_insert_is_Some; [lia|]. apply W3 in Hr. lia.
  - split; by apply insert_subseteq.
  - intros r [= <-]. by rewrite lookup_insert_eq.
Qed.

(** The factory makes at most one wrapper per profile and keeps it for
    good: once a profile has been handed out, every later request for its id
    gives the same wrapper in the state it is in, whatever profile data the
    request comes with.  No wrapper is replaced, and nothing happens when the
    profile has no signer. *)
Theorem factory_create_spec own s :
  service_wf s →
  let '(res, s') := factory_create own s in
  service_wf s' ∧ wrappers_kept s s'
  ∧ match res with
    | Ok r => factory_cache s' !! profile_id (own_profile own) = Some r
        ∧ (∀ own' s2, profile_id (own_profile own') = profile_id (own_profile own) →
             wrappers_kept s' s2 → factory_create own' s2 = (Ok r, s2))
        ∧ (factory_cache s !! profile_id (own_profile own) = None →
           ∃ signer, signers s !! profile_id (own_profile own) = Some signer
                     ∧ profile_heap s' !! r = Some (MyProfileImpl_new own signer))
    | Err e => s' = s ∧ conn_kind e = Conn.FailedToAuthorize
        ∧ signers s !! profile_id (own_profile own) = None
    end.
Proof.
  intros Hwf. pose proof (factory_create_wf own s Hwf) as Hnew.
  assert (∀ r own' s' s2, factory_cache s' !! profile_id (own_profile own) = Some r →
    profile_id (own_profile own') = profile_id (own_profile own) →
    wrappers_kept s' s2 → factory_create own' s2 = (Ok r, s2)) as Hagain.
  { intros r own' s' s2 Hc Hid [_ Hkept]. unfold factory_create. rewrite Hid.
    by rewrite (lookup_weaken _ _ _ _ Hc Hkept). }
  unfold factory_create, factory_signer in Hnew. unfold factory_create at 1, factory_signer.
  destruct (factory_cache s !! profile_id (own_profile own)) as [r|] eqn:Hc.
  { destruct Hnew as (? & ? & _). do 2 (split; [done|]). split; [done|]. split; [|done].
    intros own' s2. by apply Hagain. }
  destruct (signers s !! profile_id (own_profile own)) as [signer|] eqn:Hsig.
  2: { split; [done|]. split; [done|]. by split_and!. }
  destruct Hnew as (? & ? & _). do 2 (split; [done|]). split_and!; simpl.
  - by rewrite lookup_insert_eq.
  - intros own' s2 Hid Hk. eapply Hagain; [|exact Hid|exact Hk]. simpl. by rewrite lookup_insert_eq.
  - intros _. exists signer. by rewrite lookup_insert_eq.
Qed.

Lemma relations_of_contacts (d : DAppSessionImpl) (p : MyProfileImpl Env) peer rt c :
  c ∈ relation_from d <$> relations_with_peer p peer (Some (ds_app_id d)) rt ↔
  c ∈ relation_from d <$> List.filter (λ proof, accessible_by proof (ds_app_id d)) (my_relations p)
  ∧ proof_peer_id (ri_relation_proof c) (signer_profile_id (mp_signer p)) = Ok peer
  ∧ (∀ rel, rt = Some rel → rel = app_str (ds_app_id d)).
Proof.
  rewrite !list_elem_of_fmap. unfold relations_with_peer.
  setoid_rewrite list_elem_of_In. repeat setoid_rewrite filter_In.
  unfold accessible_by, filter_passes. split.
  - intros (proof & -> & ((Hin & Hpeer) & Happ) & Hrt). split_and!; [by eauto| |].
    + simpl. destruct (proof_peer_id _ _); [|done]. apply bool_decide_eq_true in Hpeer. by subst.
    + intros rel ->. apply bool_decide_eq_true in Hrt, Happ. congruence.
  - intros ((proof & -> & Hin & Happ) & Hpeer & Hrt). exists proof. split_and!; [done..| | |].
    + simpl in Hpeer. rewrite Hpeer. by apply bool_decide_eq_true.
    + done.
    + destruct rt as [rel|]; [|done]. rewrite (Hrt rel eq_refl).
      apply bool_decide_eq_true in Happ. by apply bool_decide_eq_true.
Qed.

(** C40: an application session shows the relations of its own application
    only: the contacts are the relations of the profile of that type, in order;
    the contacts with one peer are those among them that relate to the peer and
    pass the type filter; and of the pairing responses arriving after check-in
    exactly those of the application are passed on, with every call. *)
Theorem dapp_session_sees_own_app (d : DAppSessionImpl) (p : MyProfileImpl Env) s w2 peer rt items :
  profile_heap s !! ds_my_profile d = Some p →
  let '(all, _) := (contacts d s).1 w2 in
  let '(some, _) := (contacts_with_profile d peer rt s).1 w2 in
  (∃ cs, all = Ok cs
     ∧ ri_relation_proof <$> cs
       = List.filter (λ proof, bool_decide (rp_relation_type proof = app_str (ds_app_id d)))
           (my_relations p)
     ∧ ∃ cs', some = Ok cs'
        ∧ ∀ c, c ∈ cs' ↔ c ∈ cs
            ∧ proof_peer_id (ri_relation_proof c) (signer_profile_id (mp_signer p)) = Ok peer
            ∧ (∀ rel, rt = Some rel → rel = app_str (ds_app_id d)))
  ∧ (∀ contact, DAppPairingResponse contact ∈ checkin_stream d items ↔
       ∃ proof, inr (PairingResponse proof) ∈ items
                ∧ rp_relation_type proof = app_str (ds_app_id d)
                ∧ contact = relation_from d proof)
  ∧ (∀ call, DAppIncomingCall call ∈ checkin_stream d items ↔ inl (Ok call) ∈ items).
Proof.
  intros Hp. unfold contacts, contacts_with_profile, with_my_profile. rewrite Hp. simpl.
  split_and!.
  - eexists. split; [done|]. split.
    { rewrite <- list_fmap_compose. apply list_fmap_id. }
    eexists. split; [done|]. intros c. apply relations_of_contacts.
  - intros contact. unfold checkin_stream. rewrite list_elem_of_omap. split.
    + intros ([r|[| |proof]] & Hin & Hev); simpl in Hev; try done.
      { by destruct r. }
      unfold accessible_by in Hev. case_bool_decide; [|done]. injection Hev as <-. eauto.
    + intros (proof & Hin & Ht & ->). exists (inr (PairingResponse proof)). split; [done|].
      simpl. unfold accessible_by. by rewrite bool_decide_true.
  - intros call. unfold checkin_stream. rewrite list_elem_of_omap. split.
    + intros ([[r|]|[| |proof]] & Hin & Hev); simpl in Hev; try done; [by injection Hev as <-|].
      by destruct (accessible_by _ _).
    + intros Hin. by exists (inl (Ok call)).
Qed.

End theorems.
