(* ===== verification/ServiceProps.v ===== *)
(** * The profiles of the local service

    Profiles are handed out as shared references: by the administration, and
    within application sessions.  There is one wrapper per profile: whatever the
    service is asked to do, and whatever is done with the profiles, a profile
    that has been handed out is handed out again as the same wrapper, which goes
    on signing with the key of that profile. *)

From S2P Require Import Prelude Errors External Storage Protocol Relation Rpc Hoare HomeServer.
From S2P Require Import Connect ConnectFrame Service.

(** ** Methods of a profile leave its signer alone *)

Section signer.
Context {BC : Bincode} {Env Store Chans : Type}
        {KV : KeyValueStore Store ProfileId Profile}
        {CH : Channels ProfileEvent Chans} {HC : HomeConnector Env}
        {SO : SelectOk (Client Env Store Chans)} {SOL : SelectOkLaws (Client Env Store Chans)}
        {HV : HashValues ProfileId}.
Abbreviation W := (Client Env Store Chans).

Definition signs_with (sg : Signer) (c : W) : Prop := mp_signer (me c) = sg.

Lemma lift_signs_with {E A} sg (m : IO Env (Future Env E A)) : call_triple (signs_with sg) (lift m) anything.
Proof.
  intros w Hw. unfold lift. destruct (m (env w)) as [f e]. split; [done|]. intros w1 Hw1. unfold lift_future. simpl.
  by destruct (f (env w1)).
Qed.

#[export] Instance signs_with_invariant sg : ClientInvariant (signs_with sg) anything anything anything.
Proof.
  split; try (intros; apply lift_signs_with); try done.
  intros home_id s w Hw _. unfold open_session, MyHomeSessionImpl_new. simpl.
  destruct (cs_events s (env w)) as [stream e]. unfold start_event_handler, my_session_events. simpl.
  destruct (mpsc_channel _ _) as [l c]. unfold add_listener. simpl. by rewrite lookup_insert_eq.
Qed.

(** A method of a profile that does. *)
Definition keeps_signer {A} (m : IO W (Future W ConnError A)) : Prop :=
  ∀ sg, call_triple (signs_with sg) m anything.

Lemma user_op_keeps_signer A (m : IO W (Future W ConnError A)) : user_op ConnError A m → keeps_signer m.
Proof. intros Hm sg. by apply (user_op_keeps (J:=signs_with sg)). Qed.
End signer.

Section wrappers.
Context {BC : Bincode} {Env Store PStore Chans : Type}
        {KV : KeyValueStore Store ProfileId Profile}
        {PKV : KeyValueStore PStore ProfileId OwnProfile}
        {CH : Channels ProfileEvent Chans} {FCH : Channels AppMessageFrame Chans}
        {HC : HomeConnector Env}
        {SO : SelectOk (Client Env Store Chans)} {SOL : SelectOkLaws (Client Env Store Chans)}
        {HV : HashValues ProfileId}.
Abbreviation S := (ConnectService Env Store PStore Chans).
Abbreviation C := (Client Env Store Chans).
Context {UI : UserInterface S}.
Implicit Types (s : S) (refs : list (ProfileId * ProfileRef)) (sgs : gmap ProfileId Signer).

(** The signers of the service are [sgs], each wrapper signs with that of the
    profile it is cached under, and [refs] have been handed out for these ids. *)
Record handed_out sgs refs s : Prop := mkHandedOut
  { ho_wf : service_wf s;
    ho_signers : signers s = sgs;
    ho_wrappers id r : factory_cache s !! id = Some r →
      ∃ p, profile_heap s !! r = Some p ∧ sgs !! id = Some (mp_signer p);
    ho_refs : Forall (λ x, factory_cache s !! x.1 = Some x.2) refs }.

Lemma handed_out_ref sgs refs s id r :
  handed_out sgs refs s → (id, r) ∈ refs →
  ∃ p, factory_cache s !! id = Some r ∧ profile_heap s !! r = Some p ∧ sgs !! id = Some (mp_signer p).
Proof.
  intros [H1 H2 H3 H4] Hin. apply (proj1 (list.Forall_forall _ _) H4) in Hin. simpl in Hin.
  destruct (H3 id r Hin) as (p & ? & ?). by exists p.
Qed.

(** The wrapper behind a reference has changed, but not its signer. *)
Lemma put_client_handed_out sgs refs s id r c :
  handed_out sgs refs s → (id, r) ∈ refs → sgs !! id = Some (mp_signer (me c)) →
  handed_out sgs refs (put_client r c s).
Proof.
  intros Hs Hin Hsg. destruct (handed_out_ref _ _ _ _ _ Hs Hin) as (p & Hc & Hp & _).
  destruct Hs as [(W1 & W2 & W3) H2 H3 H4]. split; [split_and!|done| |done]; simpl.
  - intros id' r' Hid. apply lookup_insert_is_Some'. right. by eapply W1.
  - done.
  - intros r' [<-|[_ Hr]]%lookup_insert_is_Some; apply W3; [by rewrite Hp|done].
  - intros id' r' Hid. destruct (decide (r' = r)) as [->|Hne].
    + rewrite (W2 id' id r Hid Hc). exists (me c). by rewrite lookup_insert_eq.
    + rewrite lookup_insert_ne by done. by apply H3.
Qed.

(** Calling a method of a profile that was handed out. *)
Lemma on_profile_keeps {A} sgs refs id r (m : IO C (Future C ConnError A)) :
  (id, r) ∈ refs → keeps_signer m → call_triple (handed_out sgs refs) (on_profile r m) anything.
Proof.
  intros Hin Hm s Hs. destruct (handed_out_ref _ _ _ _ _ Hs Hin) as (p & _ & Hp & Hsg).
  unfold on_profile. rewrite Hp. destruct (Hm (mp_signer p) (client_of p s) eq_refl) as [Hc Hf].
  destruct (m (client_of p s)) as [f c]. simpl in *. split.
  { eapply put_client_handed_out; [done|done|]. by rewrite Hc. }
  intros s2 Hs2. unfold on_profile_poll. destruct (handed_out_ref _ _ _ _ _ Hs2 Hin) as (p2 & _ & Hp2 & Hsg2).
  rewrite Hp2. assert (mp_signer p2 = mp_signer p) as Hsame by congruence.
  destruct (Hf (client_of p2 s2) Hsame) as [Hc2 _]. destruct (f (client_of p2 s2)) as [res c2]. simpl in *.
  split; [|done]. eapply put_client_handed_out; [done|done|]. by rewrite Hc2, <- Hsame.
Qed.

(** ** Handing out *)

(** What a request for the profile [own] comes to: the wrapper that is there, or
    a new one that signs for the profile. *)
Definition wrapper_of sgs (own : OwnProfile) (r : ProfileRef) s s' : Prop :=
  factory_cache s' !! profile_id (own_profile own) = Some r
  ∧ match factory_cache s !! profile_id (own_profile own) with
    | Some r' => r = r' ∧ s' = s
    | None => ∃ sg, sgs !! profile_id (own_profile own) = Some sg
                    ∧ profile_heap s' !! r = Some (MyProfileImpl_new own sg)
    end.

Lemma factory_create_hands_out sgs refs own s :
  handed_out sgs refs s →
  match factory_create own s with
  | (Ok r, s') => wrapper_of sgs own r s s' ∧ handed_out sgs ((profile_id (own_profile own), r) :: refs) s'
  | (Err e, s') => s' = s ∧ conn_kind e = Conn.FailedToAuthorize ∧ sgs !! profile_id (own_profile own) = None
  end.
Proof.
  intros [H1 H2 H3 H4]. pose proof (factory_create_wf own s H1) as Hwf.
  unfold factory_create, factory_signer, wrapper_of in *. rewrite H2 in *.
  destruct (factory_cache s !! profile_id (own_profile own)) as [r|] eqn:Hc.
  { split; [done|]. split; try done. by constructor. }
  destruct (sgs !! profile_id (own_profile own)) as [sg|] eqn:Hsg; [|by split_and!].
  destruct Hwf as (Hwf & [Hheap Hcache] & _). simpl in Hheap, Hcache. split.
  - simpl. split; [by rewrite lookup_insert_eq|]. exists sg. by rewrite lookup_insert_eq.
  - split; [exact Hwf|exact H2| |]; simpl.
    + intros id r [[<- <-]|[_ Hl]]%lookup_insert_Some.
      * exists (MyProfileImpl_new own sg). by rewrite lookup_insert_eq.
      * destruct (H3 id r Hl) as (p & Hp & Hid). exists p. split; [exact (lookup_weaken _ _ _ _ Hp Hheap)|done].
    + constructor; [by rewrite lookup_insert_eq|]. eapply list.Forall_impl; [exact H4|].
      intros x Hx. exact (lookup_weaken _ _ _ _ Hx Hcache).
Qed.

Lemma handed_out_weaken sgs x refs s : handed_out sgs (x :: refs) s → handed_out sgs refs s.
Proof. intros [H1 H2 H3 H4]. split; try done. by inversion H4. Qed.

Lemma load_and_create_keeps sgs refs id : call_triple (handed_out sgs refs) (load_and_create id) anything.
Proof.
  intros s Hs. split; [done|]. unfold load_and_create.
  eapply (fut_and_then _ _ _ anything); [by apply fut_result|]. intros own _ s2 Hs2.
  pose proof (factory_create_hands_out sgs refs own s2 Hs2) as H.
  destruct (factory_create own s2) as [[r|e] s3]; simpl.
  - destruct H as [_ H]. split; [by eapply handed_out_weaken|by apply fut_result].
  - destruct H as [-> _]. split; [done|by apply fut_result].
Qed.

(** The profile is the one stored when the request was made. *)
Lemma load_and_create_hands_out sgs refs id s s2 :
  handed_out sgs refs s2 →
  match (load_and_create id s).1 s2 with
  | (Ok r, s3) => ∃ own, kv_get id (profile_store s) = Ok own ∧ wrapper_of sgs own r s2 s3
      ∧ handed_out sgs ((profile_id (own_profile own), r) :: refs) s3
  | (Err e, s3) => s3 = s2
      ∧ ∀ own, kv_get id (profile_store s) = Ok own → sgs !! profile_id (own_profile own) = None
  end.
Proof.
  intros Hs2. unfold load_and_create, and_then, future_result. simpl.
  destruct (kv_get id (profile_store s)) as [own|e]; simpl; [|by split].
  pose proof (factory_create_hands_out sgs refs own s2 Hs2) as H.
  destruct (factory_create own s2) as [[r|e] s3]; simpl.
  - exists own. by split.
  - destruct H as (-> & _ & Hsg). split; [done|]. by intros own' [= <-].
Qed.

Lemma join_all_keeps {A} sgs refs (futs : list (Future S ConnError A)) :
  Forall (λ f, fut_triple (handed_out sgs refs) f anything) futs →
  fut_triple (handed_out sgs refs) (join_all futs) anything.
Proof.
  induction 1 as [|f futs Hf Hfs IH]; simpl; [by apply fut_ok|].
  eapply (fut_and_then _ _ _ anything); [done|]. intros a _. apply call_io_ret.
  by eapply fut_map.
Qed.

(** ** The operations *)

(** The user interface does not touch the profiles. *)
Definition ui_keeps : Prop := ∀ sgs refs, call_triple (handed_out sgs refs) ui_select_profile anything.

Lemma dapp_session_keeps sgs refs app auth :
  ui_keeps → call_triple (handed_out sgs refs) (dapp_session app auth) anything.
Proof.
  intros Hui s Hs. unfold dapp_session. destruct (Hui sgs refs s Hs) as [Hs' Hf].
  destruct (ui_select_profile s) as [fut s']. simpl in *. split; [done|].
  eapply fut_map; [|done]. eapply (fut_and_then _ _ _ anything); [done|].
  intros id _. apply load_and_create_keeps.
Qed.

Lemma initiate_contact_keeps sgs refs d id peer :
  (id, ds_my_profile d) ∈ refs → call_triple (handed_out sgs refs) (initiate_contact d peer) anything.
Proof.
  intros Hd. apply (on_profile_keeps _ _ id); [done|]. apply user_op_keeps_signer, op_initiate_relation.
Qed.

Lemma checkin_keeps sgs refs d id :
  (id, ds_my_profile d) ∈ refs → call_triple (handed_out sgs refs) (checkin d) anything.
Proof.
  intros Hd. apply (on_profile_keeps _ _ id); [done|]. intros sg.
  apply (call_and_then _ MyProfile_login _ anything); [apply (MyProfile_login_keeps (J:=signs_with sg))|].
  intros ms _ c Hc. destruct (my_sessions (me c) !! ms) as [s|]; [|split; [done|by apply fut_err]].
  destruct (cs_checkin_app (session s) (ds_app_id d) (env c)) as [calls e].
  destruct (my_session_events_keeps (J:=signs_with sg) ms (set_env e c) Hc) as [H _].
  destruct (my_session_events ms (set_env e c)) as [events c2]. split; [done|by apply fut_ok].
Qed.

Lemma contact_call_keeps sgs refs c id payload :
  (id, ri_my_profile c) ∈ refs → call_triple (handed_out sgs refs) (contact_call c payload) anything.
Proof.
  intros Hin s Hs. unfold contact_call. destruct (mpsc_channel _ _) as [chan cs].
  assert (handed_out sgs refs (set_shared_chans cs s)) as Hs' by (by destruct Hs as [(?&?&?) ???]; split).
  match goal with |- context [on_profile ?r ?m ?x] =>
    destruct (on_profile_keeps sgs refs id r m Hin) with (w := x) as [Hs2 Hf];
      [apply user_op_keeps_signer, op_call|exact Hs'|]; destruct (on_profile r m x) as [fut s2]
  end. simpl in *. split; [done|]. eapply (fut_and_then _ _ _ anything); [done|].
  intros o _. by apply call_io_ret, fut_result.
Qed.

(** C20: the service has one wrapper per profile.  Let [refs] be what it has
    handed out so far, each for a profile id.  Nothing that is asked of it, or
    done with a profile that was handed out, when it is called or when its future
    is polled, gives one of these ids another wrapper, or makes a wrapper sign
    with a key other than the one the service has for its id.  A request for a
    profile gives the wrapper of that profile, in the state it is in, if there is
    one, and otherwise a new one for the stored profile and its signer; it fails,
    and changes nothing, only if the profile is not stored or has no signer.  An
    application session is bound to the wrapper of the profile the user selects,
    and to its application. *)
Theorem one_wrapper_per_profile sgs refs :
  ui_keeps →
  ((∀ id, call_triple (handed_out sgs refs) (admin_profile id) anything)
   ∧ call_triple (handed_out sgs refs) admin_profiles anything
   ∧ (∀ app auth, call_triple (handed_out sgs refs) (dapp_session app auth) anything)
   ∧ (∀ id r A (m : IO C (Future C ConnError A)), (id, r) ∈ refs → user_op ConnError A m →
        call_triple (handed_out sgs refs) (on_profile r m) anything)
   ∧ (∀ id d, (id, ds_my_profile d) ∈ refs →
        (∀ peer, call_triple (handed_out sgs refs) (initiate_contact d peer) anything)
        ∧ call_triple (handed_out sgs refs) (checkin d) anything)
   ∧ (∀ id c payload, (id, ri_my_profile c) ∈ refs →
        call_triple (handed_out sgs refs) (contact_call c payload) anything))
  ∧ (∀ id s s2, handed_out sgs refs s2 →
       match (admin_profile id s).1 s2 with
       | (Ok r, s3) => ∃ own, kv_get id (profile_store s) = Ok own ∧ wrapper_of sgs own r s2 s3
           ∧ handed_out sgs ((profile_id (own_profile own), r) :: refs) s3
       | (Err _, s3) => s3 = s2
           ∧ ∀ own, kv_get id (profile_store s) = Ok own → sgs !! profile_id (own_profile own) = None
       end)
  ∧ (∀ app auth s s2 d s3, handed_out sgs refs s → handed_out sgs refs s2 →
       (dapp_session app auth s).1 s2 = (Ok d, s3) →
       ds_app_id d = app
       ∧ ∃ id s2' own, (ui_select_profile s).1 s2 = (Ok id, s2') ∧ kv_get id (profile_store s2') = Ok own
           ∧ wrapper_of sgs own (ds_my_profile d) s2' s3
           ∧ handed_out sgs ((profile_id (own_profile own), ds_my_profile d) :: refs) s3).
Proof.
  intros Hui. split; [split_and!|split].
  - apply load_and_create_keeps.
  - intros s Hs. split; [done|]. apply join_all_keeps, Forall_fmap, Forall_true.
    intros i. by apply load_and_create_keeps.
  - intros app auth. by apply dapp_session_keeps.
  - intros id r A m Hin Hm. by apply (on_profile_keeps _ _ id), user_op_keeps_signer.
  - intros id d Hd. split; [intros peer; by apply (initiate_contact_keeps _ _ _ id)|by apply (checkin_keeps _ _ _ id)].
  - intros id c payload Hin. by apply (contact_call_keeps _ _ _ id).
  - intros id s s2 Hs2. by apply load_and_create_hands_out.
  - intros app auth s s2 d s3 Hs Hs2. unfold dapp_session. destruct (Hui sgs refs s Hs) as [_ Hf].
    destruct (ui_select_profile s) as [fut s1]. simpl in *. unfold future_map, and_then.
    destruct (Hf s2 Hs2) as [Hs2' _]. destruct (fut s2) as [[id|e] s2'] eqn:Hsel; [|done]. simpl in Hs2'.
    pose proof (load_and_create_hands_out sgs refs id s2' s2' Hs2') as H.
    assert ((load_and_create id s2').2 = s2') as E by done.
    destruct (load_and_create id s2') as [f s4]. simpl in *. subst s4.
    destruct (f s2') as [[r|e] s4]; [|done]. intros [= <- <-]. split; [done|].
    destruct H as (own & Hget & Hw & Ho). by exists id, s2', own.
Qed.
End wrappers.
