(* ===== verification/JsonRpc.v ===== *)
(** * JSON-RPC sessions ([connect/src/jsonrpc/api.rs])

    The methods the local service offers to applications in other processes.
    Every connection has a session that remembers the application session it
    was given and the way to cancel its subscription to events.  The JSON and
    publish/subscribe crates are parameters. *)

From S2P Require Import Prelude Errors External Storage Protocol Relation Rpc HomeServer Connect Service.

(** ** What comes from other crates *)

(** [serde_json] and the formatting of values: an object as the parameters of
    a request carry it, and values of responses. *)
Record Request : Set := mkRequest
  { application_id : ApplicationId; permissions : option bytes }.
Record Response : Set := mkResponse { response_profile_id : string }.

Class JsonValues := {
  JsonMap : Type;
  JsonValue : Type;
  json_string : string → JsonValue;
  json_bool : bool → JsonValue;
  request_from_value : JsonMap → Result string Request;
  response_to_value : Response → Result string JsonValue;
}.

(** [futures::sync::oneshot] for cancellation.  The receiving half lives in the
    task that can be cancelled and is dropped when the task ends. *)
Abbreviation CancelId := nat (only parsing).
Inductive CancelState : Set := CancelPending | CancelSent | CancelDropped.

Class CancelChannels (C : Type) := {
  cancel_channel : C → CancelId * C;
  cancel_send : CancelId → C → Result unit unit * C;
  cancel_drop : CancelId → C → C;
  cancel_drop_receiver : CancelId → C → C;
  cancel_poll : CancelId → C → CancelState;
}.

(** [cancel_known]: the channel has been made; [cancel_open]: its receiver has
    not been dropped.  A dropped sender shows on the receiver, unless it has
    sent; sending succeeds exactly while the receiver is there. *)
Class CancelChannelsLaws (C : Type) `{CancelChannels C} := {
  cancel_known : CancelId → C → Prop;
  cancel_open : CancelId → C → Prop;
  cancel_channel_new c i c' : cancel_channel c = (i, c') →
    ¬ cancel_known i c ∧ cancel_open i c' ∧ cancel_poll i c' = CancelPending
    ∧ (∀ j, cancel_known j c' ↔ j = i ∨ cancel_known j c)
    ∧ ∀ j, j ≠ i → cancel_poll j c' = cancel_poll j c ∧ (cancel_open j c → cancel_open j c');
  cancel_send_spec i c :
    (cancel_open i c → (cancel_send i c).1 = Ok tt ∧ cancel_poll i (cancel_send i c).2 = CancelSent)
    ∧ (¬ cancel_open i c → (cancel_send i c).1 = Err tt)
    ∧ (∀ j, j ≠ i → cancel_poll j (cancel_send i c).2 = cancel_poll j c)
    ∧ (∀ j, cancel_known j c → cancel_known j (cancel_send i c).2)
    ∧ ∀ j, cancel_open j c → cancel_open j (cancel_send i c).2;
  cancel_drop_spec i c :
    (cancel_poll i (cancel_drop i c) ≠ CancelPending)
    ∧ (∀ j, j ≠ i → cancel_poll j (cancel_drop i c) = cancel_poll j c)
    ∧ (∀ j, cancel_known j c → cancel_known j (cancel_drop i c))
    ∧ ∀ j, cancel_open j c → cancel_open j (cancel_drop i c);
  cancel_drop_receiver_spec i c :
    (¬ cancel_open i (cancel_drop_receiver i c))
    ∧ (∀ j, cancel_poll j (cancel_drop_receiver i c) = cancel_poll j c)
    ∧ (∀ j, cancel_known j c → cancel_known j (cancel_drop_receiver i c))
    ∧ ∀ j, j ≠ i → cancel_open j c → cancel_open j (cancel_drop_receiver i c);
}.

(** [jsonrpc_core::Params] and the error codes in use. *)
Inductive Params `{JsonValues} : Type :=
| ParamsMap (map : JsonMap)
| ParamsArray (values : list JsonValue)
| ParamsNone.

Inductive ErrorCode : Set := InvalidParams | InternalError.

(** [jsonrpc_pubsub]: a subscriber that is given an id becomes a sink, through
    which the transport [T] of its connection is reached. *)
Class PubSub `{JsonValues} (T : Type) := {
  Subscriber : Type;
  PubSubSink : Type;
  assign_id : Subscriber → string → T → Result unit PubSubSink * T;
  sink_send : PubSubSink → Params → T → Result string unit * T;
}.

(** ** State *)

(** [Rc<RefCell<SessionData>>]. *)
Abbreviation SessionRef := nat (only parsing).

Record SessionData : Set := mkSessionData
  { pubsub_session : SinkId;
    dapp_session_of : option DAppSessionImpl;
    cancel_events : option CancelId }.

(** [SessionData::new] on the sending half of the transport. *)
Definition SessionData_new (transport_tx : SinkId) : SessionData :=
  mkSessionData transport_tx None None.

(** What the spawned future of a subscription has got to: it waits for the
    check-in, or forwards the events of the two streams. *)
Inductive SubscriptionPhase (S : Type) : Type :=
| CheckingIn (checkin_fut : Future S ConnError (SinkId * SinkId))
| Forwarding (calls events : SinkId).
Arguments CheckingIn {S}.
Arguments Forwarding {S}.

Section api.
Context {BC : Bincode} {MB : Multibase} {Env Store PStore Chans C T : Type}
        {KV : KeyValueStore Store ProfileId Profile}
        {PKV : KeyValueStore PStore ProfileId OwnProfile}
        {CH : Channels ProfileEvent Chans} {FCH : Channels AppMessageFrame Chans}
        {HC : HomeConnector Env}
        {SO : SelectOk (Client Env Store Chans)}
        {HV : HashValues ProfileId}
        {JV : JsonValues} {PS : PubSub T} {CC : CancelChannels C}.

Abbreviation S := (ConnectService Env Store PStore Chans).
Context {UI : UserInterface S}.

Record Subscription : Type := mkSubscription
  { sub_session : SessionRef;
    sub_dapp : DAppSessionImpl;
    sub_sink : PubSubSink;
    sub_cancel : CancelId;
    sub_phase : SubscriptionPhase S }.

Record RpcState : Type := mkRpcState
  { rs_service : S;
    rs_sessions : gmap SessionRef SessionData;
    rs_next_session : SessionRef;
    rs_cancel : C;
    rs_transport : T;
    rs_subscriptions : list Subscription }.

Definition set_rs_service (s : S) (w : RpcState) : RpcState :=
  mkRpcState s (rs_sessions w) (rs_next_session w) (rs_cancel w) (rs_transport w)
    (rs_subscriptions w).
Definition set_rs_session (m : SessionRef) (d : SessionData) (w : RpcState) : RpcState :=
  mkRpcState (rs_service w) (<[m := d]> (rs_sessions w)) (rs_next_session w) (rs_cancel w)
    (rs_transport w) (rs_subscriptions w).
Definition set_rs_cancel (c : C) (w : RpcState) : RpcState :=
  mkRpcState (rs_service w) (rs_sessions w) (rs_next_session w) c (rs_transport w)
    (rs_subscriptions w).
Definition set_rs_transport (t : T) (w : RpcState) : RpcState :=
  mkRpcState (rs_service w) (rs_sessions w) (rs_next_session w) (rs_cancel w) t
    (rs_subscriptions w).
Definition set_rs_subscriptions (l : list Subscription) (w : RpcState) : RpcState :=
  mkRpcState (rs_service w) (rs_sessions w) (rs_next_session w) (rs_cancel w)
    (rs_transport w) l.

(** ** [Session] *)

(** [Session::new]. *)
Definition Session_new (transport_tx : SinkId) : IO RpcState SessionRef := λ w,
  let m := rs_next_session w in
  (m, mkRpcState (rs_service w) (<[m := SessionData_new transport_tx]> (rs_sessions w))
        (Datatypes.S m) (rs_cancel w) (rs_transport w) (rs_subscriptions w)).

Definition session_dapp (m : SessionRef) (w : RpcState) : option DAppSessionImpl :=
  d ← rs_sessions w !! m; dapp_session_of d.

Definition set_dapp_session (m : SessionRef) (dapp : DAppSessionImpl) (w : RpcState) : RpcState :=
  match rs_sessions w !! m with
  | Some d => set_rs_session m (mkSessionData (pubsub_session d) (Some dapp) (cancel_events d)) w
  | None => w
  end.

Definition take_cancel_events (m : SessionRef) : IO RpcState (option CancelId) := λ w,
  match rs_sessions w !! m with
  | Some d =>
      (cancel_events d,
       set_rs_session m (mkSessionData (pubsub_session d) (dapp_session_of d) None) w)
  | None => (None, w)
  end.

(** [replace] drops the sender that was there, which cancels its receiver. *)
Definition set_cancel_events (m : SessionRef) (cancel : CancelId) (w : RpcState) : RpcState :=
  match rs_sessions w !! m with
  | Some d =>
      let w := set_rs_session m (mkSessionData (pubsub_session d) (dapp_session_of d)
                                   (Some cancel)) w in
      match cancel_events d with
      | Some old => set_rs_cancel (cancel_drop old (rs_cancel w)) w
      | None => w
      end
  | None => w
  end.

(** ** ["get_session"] *)

(** A future of the service, on the state it is part of. *)
Definition lift_service {E A} (f : Future S E A) : Future RpcState E A := λ w,
  let '(r, s) := f (rs_service w) in (r, set_rs_service s w).

Definition get_session (params : Params) (meta : SessionRef)
  : IO RpcState (Future RpcState ErrorCode JsonValue) := λ w,
  match params with
  | ParamsNone | ParamsArray _ => (future_err InvalidParams, w)
  | ParamsMap param_map =>
      match request_from_value param_map with
      | Err _ => (future_err InvalidParams, w)
      | Ok req =>
          let '(fut, s) := dapp_session (application_id req) (permissions req) (rs_service w) in
          (and_then (future_map_err (λ _, InternalError) (lift_service fut))
             (λ dapp_endpoint w,
                match selected_profile dapp_endpoint (rs_service w) with
                | Some id =>
                    let resp := mkResponse (ProfileId_to_string id) in
                    let w := set_dapp_session meta dapp_endpoint w in
                    (future_result (map_err (λ _, InternalError) (response_to_value resp)), w)
                | None => (future_err InternalError, w) (* the session keeps its profile alive *)
                end), set_rs_service s w)
      end
  end.

(** ** ["subscribe_events"] and ["unsubscribe_events"] *)

Definition SUBSCRIPTION_ID : string := "TODO_set_a_better_id_here".

Definition event_params (event : DAppEvent) : Params :=
  ParamsArray [json_string match event with
                           | DAppPairingResponse _ => "Pairing response"
                           | DAppIncomingCall _ => "Call"
                           end].

Definition subscribe_events (_params : Params) (meta : SessionRef) (subscriber : Subscriber)
    (w : RpcState) : RpcState :=
  let '(assigned, t) := assign_id subscriber SUBSCRIPTION_ID (rs_transport w) in
  let w := set_rs_transport t w in
  match assigned with
  | Err _ => w
  | Ok sink =>
      match session_dapp meta w with
      | None => w
      | Some dapp =>
          let '(cancel, c) := cancel_channel (rs_cancel w) in
          let w := set_cancel_events meta cancel (set_rs_cancel c w) in
          let '(checkin_fut, s) := checkin dapp (rs_service w) in
          let w := set_rs_service s w in
          set_rs_subscriptions
            (rs_subscriptions w ++ [mkSubscription meta dapp sink cancel (CheckingIn checkin_fut)]) w
      end
  end.

Definition unsubscribe_events (_id : string) (meta : SessionRef)
  : IO RpcState (Result ErrorCode JsonValue) := λ w,
  let '(taken, w) := take_cancel_events meta w in
  match taken with
  | None => (Err InternalError, w)
  | Some cancel =>
      let '(sent, c) := cancel_send cancel (rs_cancel w) in
      ((λ _, json_bool true) <$> map_err (λ _, InternalError) sent, set_rs_cancel c w)
  end.

(** ** The spawned subscription *)

(** [dapp_events.map(..).forward(sink)] on what has arrived. *)
Fixpoint forward_events (sink : PubSubSink) (events : list DAppEvent) (t : T)
  : Result unit unit * T :=
  match events with
  | [] => (Ok tt, t)
  | event :: events =>
      let '(r, t) := sink_send sink (event_params event) t in
      match r with
      | Ok _ => forward_events sink events t
      | Err _ => (Err tt, t)
      end
  end.

(** Polling the first future of the [select]: [None] when it is not done.
    [items] is what the streams of the check-in have yielded, and [ended]
    whether both have ended. *)
Definition poll_forwarding (sub : Subscription)
    (items : list (Result string Call + ProfileEvent)) (ended : bool)
  : IO RpcState (option (Result unit unit) * SubscriptionPhase S) := λ w,
  let '(checked_in, w) :=
    match sub_phase sub with
    | CheckingIn fut =>
        let '(r, w) := lift_service fut w in (map_err (λ _, tt) r, w)
    | Forwarding calls events => (Ok (calls, events), w)
    end in
  match checked_in with
  | Err _ => ((Some (Err tt), sub_phase sub), w)
  | Ok (calls, events) =>
      let '(r, t) := forward_events (sub_sink sub) (checkin_stream (sub_dapp sub) items)
                       (rs_transport w) in
      ((match r with
        | Err _ => Some (Err tt)
        | Ok _ => if ended then Some (Ok tt) else None
        end, Forwarding calls events), set_rs_transport t w)
  end.

(** Polling the whole; a subscription that is done drops its receiver. *)
Definition poll_subscription (sub : Subscription)
    (items : list (Result string Call + ProfileEvent)) (ended : bool)
  : IO RpcState (option Subscription) := λ w,
  let '((done, phase), w) := poll_forwarding sub items ended w in
  let finished := set_rs_cancel (cancel_drop_receiver (sub_cancel sub) (rs_cancel w)) w in
  match done with
  | Some _ => (None, finished)
  | None =>
      match cancel_poll (sub_cancel sub) (rs_cancel w) with
      | CancelPending =>
          (Some (mkSubscription (sub_session sub) (sub_dapp sub) (sub_sink sub)
                   (sub_cancel sub) phase), w)
      | CancelSent | CancelDropped => (None, finished)
      end
  end.

End api.

(** ** Sessions over time

    [rpc_wf] says how sessions, subscriptions and their cancel channels hang
    together; [rpc_step] are the things that happen on a JSON-RPC server. *)

Section steps.
Context {BC : Bincode} {MB : Multibase} {Env Store PStore Chans C T : Type}
        {KV : KeyValueStore Store ProfileId Profile}
        {PKV : KeyValueStore PStore ProfileId OwnProfile}
        {CH : Channels ProfileEvent Chans} {FCH : Channels AppMessageFrame Chans}
        {HC : HomeConnector Env}
        {SO : SelectOk (Client Env Store Chans)}
        {HV : HashValues ProfileId}
        {JV : JsonValues} {PS : PubSub T} {CC : CancelChannels C} {CCL : CancelChannelsLaws C}.
Abbreviation S := (ConnectService Env Store PStore Chans).
Context {UI : UserInterface S}.
Abbreviation RpcState := (@RpcState Env Store PStore Chans C T JV PS).
Abbreviation Subscription := (@Subscription Env Store PStore Chans T JV PS).
Implicit Types w : RpcState.
Implicit Types sub : Subscription.

(** Not told to stop. *)
Definition live sub w : Prop := cancel_poll (sub_cancel sub) (rs_cancel w) = CancelPending.

(** The sender a session holds. *)
Definition session_cancel (m : SessionRef) w : option CancelId :=
  d ← rs_sessions w !! m; cancel_events d.

Record rpc_wf w : Prop := mkRpcWf
  { wf_open : ∀ sub, sub ∈ rs_subscriptions w →
      cancel_known (sub_cancel sub) (rs_cancel w) ∧ cancel_open (sub_cancel sub) (rs_cancel w);
    wf_distinct : NoDup (sub_cancel <$> rs_subscriptions w);
    wf_known : ∀ m c, session_cancel m w = Some c → cancel_known c (rs_cancel w);
    wf_live : ∀ sub, sub ∈ rs_subscriptions w → live sub w →
      session_cancel (sub_session sub) w = Some (sub_cancel sub);
    wf_fresh : ∀ m, is_Some (rs_sessions w !! m) → m < rs_next_session w }.

Inductive rpc_step : RpcState → RpcState → Prop :=
| step_connect transport w : rpc_step w (Session_new transport w).2
| step_get_session params m w : rpc_step w (get_session params m w).2
| step_get_session_poll params m w0 w : rpc_step w ((get_session params m w0).1 w).2
| step_subscribe params m subscriber w : rpc_step w (subscribe_events params m subscriber w)
| step_unsubscribe id m w : rpc_step w (unsubscribe_events id m w).2
| step_poll l1 sub l2 items ended rest w w' :
    rs_subscriptions w = l1 ++ sub :: l2 →
    poll_subscription sub items ended w = (rest, w') →
    rpc_step w (set_rs_subscriptions (l1 ++ option_list rest ++ l2) w')
| step_service s w : rpc_step w (set_rs_service s w)
| step_transport t w : rpc_step w (set_rs_transport t w).

(** What the server looks like after any number of steps from an empty one. *)
Inductive rpc_reachable : RpcState → Prop :=
| reach_start s c t : rpc_reachable (mkRpcState s ∅ 0 c t [])
| reach_step w w' : rpc_reachable w → rpc_step w w' → rpc_reachable w'.

(** *** Frame lemmas *)

(** Changing what [rpc_wf] does not look at. *)
Lemma rpc_wf_ext w w' :
  rpc_wf w → rs_sessions w' = rs_sessions w → rs_next_session w' = rs_next_session w →
  rs_cancel w' = rs_cancel w → rs_subscriptions w' = rs_subscriptions w → rpc_wf w'.
Proof.
  intros [? ? ? ? ?] Hs Hn Hc Hl. unfold live, session_cancel in *.
  split; unfold live, session_cancel; by rewrite ?Hs, ?Hn, ?Hc, ?Hl.
Qed.

Lemma lift_service_frame {E A} (f : Future S E A) w :
  (lift_service f w).2 = set_rs_service (rs_service (lift_service f w).2) w.
Proof. unfold lift_service. by destruct (f (rs_service w)). Qed.

Lemma rpc_wf_session m d w :
  rpc_wf w → rs_sessions w !! m = Some d → ∀ d', cancel_events d' = cancel_events d →
  rpc_wf (set_rs_session m d' w).
Proof.
  intros [H1 H2 H3 H4 H5] Hm d' Hd'.
  assert (∀ n, session_cancel n (set_rs_session m d' w) = session_cancel n w) as Heq.
  { intros n. unfold session_cancel. simpl. destruct (decide (n = m)) as [->|].
    - rewrite lookup_insert_eq, Hm. simpl. done.
    - by rewrite lookup_insert_ne by done. }
  split; unfold live in *; simpl; try done.
  - intros n c. rewrite Heq. apply H3.
  - intros sub. rewrite Heq. by apply H4.
  - intros n [<-|[_ Hn]]%lookup_insert_is_Some; [apply H5; by rewrite Hm|by apply H5].
Qed.

Lemma set_dapp_session_wf m dapp w : rpc_wf w → rpc_wf (set_dapp_session m dapp w).
Proof.
  intros Hw. unfold set_dapp_session. destruct (rs_sessions w !! m) as [d|] eqn:Hm; [|done].
  by eapply rpc_wf_session.
Qed.

Lemma Session_new_wf transport w : rpc_wf w → rpc_wf (Session_new transport w).2.
Proof.
  intros [H1 H2 H3 H4 H5].
  assert (rs_sessions w !! rs_next_session w = None) as Hfresh.
  { destruct (rs_sessions w !! rs_next_session w) eqn:Hn; [|done].
    specialize (H5 (rs_next_session w) ltac:(by rewrite Hn)). lia. }
  assert (∀ n c, session_cancel n (Session_new transport w).2 = Some c ↔
                 session_cancel n w = Some c) as Heq.
  { intros n c. unfold session_cancel. simpl.
    destruct (decide (n = rs_next_session w)) as [->|].
    - by rewrite lookup_insert_eq, Hfresh.
    - by rewrite lookup_insert_ne by done. }
  split; unfold live in *; simpl; try done.
  - intros n c Hn%Heq. eauto.
  - intros sub Hin Hl. apply Heq. by apply H4.
  - intros n [<-|[_ Hn]]%lookup_insert_is_Some; [lia|]. apply H5 in Hn. lia.
Qed.

Lemma get_session_call_frame params m w :
  (get_session params m w).2 = set_rs_service (rs_service (get_session params m w).2) w.
Proof.
  unfold get_session. destruct params as [map|vs|]; [|by destruct w|by destruct w].
  destruct (request_from_value map) as [req|e]; [|by destruct w].
  by destruct (dapp_session _ _ _).
Qed.

Lemma get_session_poll_wf params m w0 w :
  rpc_wf w → rpc_wf ((get_session params m w0).1 w).2.
Proof.
  intros Hw. unfold get_session. destruct params as [map|vs|]; [|done|done].
  destruct (request_from_value map) as [req|e]; [|done].
  destruct (dapp_session _ _ _) as [fut s]. simpl. unfold and_then, future_map_err.
  pose proof (lift_service_frame fut w) as Hf. destruct (lift_service fut w) as [[a|e] w1].
  - simpl in *. assert (rpc_wf w1) as Hw1 by (by rewrite Hf; eapply rpc_wf_ext).
    destruct (selected_profile _ _); simpl; [by apply set_dapp_session_wf|done].
  - simpl in *. rewrite Hf. by eapply rpc_wf_ext.
Qed.

(** A subscription whose session has a new sender, the old one being dropped. *)
Lemma subscribed_wf m d sub w c i :
  rpc_wf w → rs_sessions w !! m = Some d → cancel_channel (rs_cancel w) = (i, c) →
  sub_session sub = m → sub_cancel sub = i →
  rpc_wf (set_rs_subscriptions (rs_subscriptions w ++ [sub])
            (set_cancel_events m i (set_rs_cancel c w))).
Proof.
  intros [H1 H2 H3 H4 H5] Hm Hc Hsm Hsc.
  destruct (cancel_channel_new _ _ _ Hc) as (Hnew & Hopen & Hpoll & Hknown & Hother).
  assert (∀ sub, sub ∈ rs_subscriptions w → sub_cancel sub ≠ i) as Hne.
  { intros sub' Hin Heq. destruct (H1 _ Hin) as [Hk _]. by rewrite Heq in Hk. }
  assert (∀ c', session_cancel m w = Some c' → c' ≠ i) as Hold.
  { intros c' Hc' ->. by apply Hnew, (H3 m). }
  unfold session_cancel in Hold. rewrite Hm in Hold. simpl in Hold.
  set (drop_old c := match cancel_events d with Some old => cancel_drop old c | None => c end).
  assert (set_cancel_events m i (set_rs_cancel c w)
    = set_rs_cancel (drop_old c) (set_rs_session m
        (mkSessionData (pubsub_session d) (dapp_session_of d) (Some i)) w)) as ->.
  { unfold set_cancel_events, drop_old. simpl. rewrite Hm. by destruct (cancel_events d). }
  assert (∀ j, cancel_known j c → cancel_known j (drop_old c)) as Hdk.
  { intros j Hj. unfold drop_old. destruct (cancel_events d); [by apply cancel_drop_spec|done]. }
  assert (∀ j, cancel_open j c → cancel_open j (drop_old c)) as Hdo.
  { intros j Hj. unfold drop_old. destruct (cancel_events d); [by apply cancel_drop_spec|done]. }
  assert (∀ n, session_cancel n (set_rs_session m (mkSessionData (pubsub_session d)
             (dapp_session_of d) (Some i)) w) = if decide (n = m) then Some i else session_cancel n w)
    as Hsess.
  { intros n. unfold session_cancel. simpl. case_decide as Hn.
    - subst. by rewrite lookup_insert_eq.
    - by rewrite lookup_insert_ne. }
  split; simpl.
  - intros sub' [Hin| ->%list_elem_of_singleton]%elem_of_app; rewrite ?Hsc.
    + destruct (H1 _ Hin). split; [apply Hdk, Hknown; by right|].
      apply Hdo. apply Hother; auto.
    + split; [apply Hdk, Hknown; by left|by apply Hdo].
  - rewrite fmap_app. apply list.NoDup_app. split_and!; [done| |apply NoDup_singleton].
    intros x (sub' & -> & Hin)%list_elem_of_fmap. simpl. rewrite Hsc.
    intros Hx%list_elem_of_singleton. by apply (Hne _ Hin).
  - intros n j Hn. unfold session_cancel in *. simpl in *. rewrite Hsess in Hn.
    apply Hdk, Hknown. case_decide; [left; congruence|right; by eapply H3].
  - intros sub' Hin Hl. unfold live in Hl. simpl in Hl. unfold session_cancel in *. simpl in *.
    rewrite Hsess. apply elem_of_app in Hin as [Hin| ->%list_elem_of_singleton].
    2: { by rewrite Hsm, decide_True, Hsc. }
    assert (cancel_events d ≠ Some (sub_cancel sub') ∧ live sub' w) as [Hd Hl'].
    { unfold live. destruct (Hother (sub_cancel sub') (Hne _ Hin)) as [Hp _].
      unfold drop_old in Hl. destruct (cancel_events d) as [old|]; [|split; [done|congruence]].
      destruct (cancel_drop_spec old c) as (Hdp & Hdother & _).
      destruct (decide (sub_cancel sub' = old)) as [Heq|Hneq]; [by rewrite Heq in Hl|].
      split; [congruence|]. rewrite <- Hp. by rewrite <- Hdother. }
    specialize (H4 _ Hin Hl'). case_decide as Hs; [|done]. rewrite Hs, Hm in H4. by destruct Hd.
  - intros n [<-|[_ Hn]]%lookup_insert_is_Some; apply H5; [by rewrite Hm|done].
Qed.

Lemma subscribe_events_wf params m subscriber w :
  rpc_wf w → rpc_wf (subscribe_events params m subscriber w).
Proof.
  intros Hw. unfold subscribe_events. destruct (assign_id _ _ _) as [[sink|[]] t]; simpl.
  2: by eapply rpc_wf_ext.
  assert (rpc_wf (set_rs_transport t w)) as Hw' by (by eapply rpc_wf_ext).
  destruct (session_dapp m (set_rs_transport t w)) as [dapp|] eqn:Hm; [|done].
  unfold session_dapp in Hm. simpl in Hm.
  destruct (rs_sessions w !! m) as [d|] eqn:Hd; [|done].
  destruct (cancel_channel (rs_cancel w)) as [i c] eqn:Hc. simpl.
  destruct (checkin dapp (rs_service _)) as [fut s].
  pose proof (subscribed_wf m d (mkSubscription m dapp sink i (CheckingIn fut))
    (set_rs_transport t w) c i Hw' Hd Hc eq_refl eq_refl) as Hsub.
  unfold set_cancel_events in Hsub |- *. simpl in Hsub |- *. rewrite Hd in Hsub |- *. simpl.
  destruct (cancel_events d); by eapply rpc_wf_ext.
Qed.

Lemma unsubscribe_events_wf id m w : rpc_wf w → rpc_wf (unsubscribe_events id m w).2.
Proof.
  intros [H1 H2 H3 H4 H5]. unfold unsubscribe_events, take_cancel_events.
  destruct (rs_sessions w !! m) as [d|] eqn:Hm; [|done].
  assert (∀ n, session_cancel n (set_rs_session m (mkSessionData (pubsub_session d)
             (dapp_session_of d) None) w) = if decide (n = m) then None else session_cancel n w)
    as Hsess.
  { intros n. unfold session_cancel. simpl. case_decide as Hn.
    - subst. by rewrite lookup_insert_eq.
    - by rewrite lookup_insert_ne. }
  assert (session_cancel m w = cancel_events d) as Hcm.
  { unfold session_cancel. by rewrite Hm. }
  assert (∀ n, is_Some (<[m:=mkSessionData (pubsub_session d) (dapp_session_of d) None]>
             (rs_sessions w) !! n) → n < rs_next_session w) as Hfr.
  { intros n [<-|[_ Hn]]%lookup_insert_is_Some; apply H5; [by rewrite Hm|done]. }
  destruct (cancel_events d) as [i|] eqn:Hi; simpl.
  2: { split; unfold session_cancel in *; simpl in *; try done.
       - intros n c. rewrite Hsess. case_decide; [done|apply H3].
       - intros sub Hin Hl. rewrite Hsess. specialize (H4 _ Hin Hl).
         case_decide as Hs; [|done]. rewrite Hs in H4. congruence. }
  destruct (cancel_send_spec i (rs_cancel w)) as (Hs1 & Hs2 & Hs3 & Hs4 & Hs5).
  destruct (cancel_send i (rs_cancel w)) as [r c]. simpl in *.
  split; unfold session_cancel, live in *; simpl in *; try done.
  - intros sub Hin. destruct (H1 _ Hin). auto.
  - intros n j. rewrite Hsess. case_decide; [done|]. intros Hj. by eapply Hs4, H3.
  - intros sub Hin Hl. rewrite Hsess. destruct (decide (sub_cancel sub = i)) as [Heq|Hne].
    + destruct (H1 _ Hin) as [_ Ho]. rewrite Heq in *. destruct (Hs1 Ho). congruence.
    + rewrite Hs3 in Hl by done. specialize (H4 _ Hin Hl).
      case_decide as Hs; [|done]. rewrite Hs in H4. congruence.
Qed.

(** *** Polling a subscription *)

Lemma poll_forwarding_frame sub items ended w :
  ∃ s t, (poll_forwarding sub items ended w).2 = set_rs_transport t (set_rs_service s w).
Proof.
  unfold poll_forwarding. destruct (sub_phase sub) as [fut|calls evs].
  - pose proof (lift_service_frame fut w) as Hf. destruct (lift_service fut w) as [[[c e]|e] w1].
    + simpl in *. destruct (forward_events _ _ _) as [r t]. simpl. rewrite Hf. by eexists _, t.
    + simpl in *. exists (rs_service w1), (rs_transport w). by rewrite Hf at 1.
  - destruct (forward_events _ _ _) as [r t]. simpl. eexists (rs_service w), t. by destruct w.
Qed.

(** A poll either ends the subscription, dropping its receiver, or leaves it
    under the same session and sender; the latter only while it is live. *)
Lemma poll_subscription_cases sub items ended w rest w' :
  poll_subscription sub items ended w = (rest, w') →
  ∃ s t, let w1 := set_rs_transport t (set_rs_service s w) in
    rest = None ∧ w' = set_rs_cancel (cancel_drop_receiver (sub_cancel sub) (rs_cancel w)) w1
    ∨ (∃ phase, rest = Some (mkSubscription (sub_session sub) (sub_dapp sub) (sub_sink sub)
                               (sub_cancel sub) phase) ∧ w' = w1 ∧ live sub w).
Proof.
  unfold poll_subscription. destruct (poll_forwarding_frame sub items ended w) as (s & t & Hf).
  destruct (poll_forwarding sub items ended w) as [[done phase] w1]. simpl in Hf. subst w1.
  intros H. exists s, t. simpl in *. unfold live.
  destruct done; [left; by simplify_eq|].
  destruct (cancel_poll _ _); simplify_eq; [right; by eexists|by left|by left].
Qed.

Lemma poll_subscription_wf l1 sub l2 items ended rest w w' :
  rpc_wf w → rs_subscriptions w = l1 ++ sub :: l2 →
  poll_subscription sub items ended w = (rest, w') →
  rpc_wf (set_rs_subscriptions (l1 ++ option_list rest ++ l2) w').
Proof.
  intros Hw Hl (s & t & [[-> ->]|(phase & -> & -> & _)])%poll_subscription_cases;
    destruct Hw as [H1 H2 H3 H4 H5]; rewrite Hl in H1, H2, H4.
  - destruct (cancel_drop_receiver_spec (sub_cancel sub) (rs_cancel w)) as (_ & Hp & Hk & Ho).
    rewrite fmap_app, fmap_cons in H2. apply list.NoDup_app in H2 as (N1 & N2 & N3).
    apply list.NoDup_cons in N3 as [N3 N4].
    assert (∀ sub', sub' ∈ l1 ++ l2 → sub' ∈ l1 ++ sub :: l2 ∧ sub_cancel sub' ≠ sub_cancel sub)
      as Hin.
    { intros sub' [Hin|Hin]%elem_of_app; (split; [set_solver|]).
      - intros Heq. apply (N2 (sub_cancel sub')); [apply list_elem_of_fmap; by exists sub'|].
        rewrite Heq. left.
      - intros Heq. apply N3, list_elem_of_fmap. by exists sub'. }
    split; unfold live, session_cancel in *; simpl in *; try done.
    + intros sub' Hs. destruct (Hin _ Hs) as [Hs' Hne]. destruct (H1 _ Hs'). split; auto.
    + rewrite fmap_app. apply list.NoDup_app. split_and!; [done| |done].
      intros x Hx Hx2. apply (N2 x Hx). by right.
    + intros m c Hc. by eapply Hk, H3.
    + intros sub' Hs. rewrite Hp. intros Hlv. apply H4; [by apply Hin|done].
  - set (sub2 := mkSubscription _ _ _ _ _).
    assert (∀ sub', sub' ∈ l1 ++ sub2 :: l2 → ∃ sub0, sub0 ∈ l1 ++ sub :: l2
      ∧ sub_cancel sub' = sub_cancel sub0 ∧ sub_session sub' = sub_session sub0) as Hin.
    { intros sub' [Hin|[->|Hin]%elem_of_cons]%elem_of_app; [exists sub'|exists sub|exists sub'];
        set_solver. }
    split; unfold live, session_cancel in *; simpl in *; try done.
    + intros sub' Hs. destruct (Hin _ Hs) as (sub0 & Hs0 & -> & _). auto.
    + rewrite fmap_app, fmap_cons in H2 |- *. done.
    + intros sub' Hs. destruct (Hin _ Hs) as (sub0 & Hs0 & -> & ->). auto.
Qed.

Lemma rpc_step_wf w w' : rpc_wf w → rpc_step w w' → rpc_wf w'.
Proof.
  intros Hw. destruct 1.
  - by apply Session_new_wf.
  - rewrite get_session_call_frame. by eapply rpc_wf_ext.
  - by apply get_session_poll_wf.
  - by apply subscribe_events_wf.
  - by apply unsubscribe_events_wf.
  - by eapply poll_subscription_wf.
  - by eapply rpc_wf_ext.
  - by eapply rpc_wf_ext.
Qed.

Lemma rpc_reachable_wf w : rpc_reachable w → rpc_wf w.
Proof.
  induction 1 as [s c t|w w' _ IH Hstep]; [|by eapply rpc_step_wf].
  split; unfold live, session_cancel; simpl.
  - set_solver.
  - constructor.
  - intros m i. by rewrite lookup_empty.
  - set_solver.
  - intros m [d Hd]. by rewrite lookup_empty in Hd.
Qed.

(** *** Properties *)

(** C21: a connection never has two live event subscriptions: whatever clients
    do, of all the subscriptions that run for a session at most one has not been
    told to stop, and it is the one the session can cancel. *)
Theorem one_live_subscription w :
  rpc_reachable w →
  ∀ i j sub sub', rs_subscriptions w !! i = Some sub → rs_subscriptions w !! j = Some sub' →
    sub_session sub = sub_session sub' → live sub w → live sub' w →
    i = j ∧ session_cancel (sub_session sub) w = Some (sub_cancel sub).
Proof.
  intros Hw%rpc_reachable_wf i j sub sub' Hi Hj Hs Hl Hl'.
  pose proof (wf_live w Hw sub (list_elem_of_lookup_2 _ _ _ Hi) Hl) as H1.
  pose proof (wf_live w Hw sub' (list_elem_of_lookup_2 _ _ _ Hj) Hl') as H2.
  split; [|done]. eapply NoDup_lookup; [apply (wf_distinct w Hw)| |].
  - by rewrite list_lookup_fmap, Hi.
  - rewrite list_lookup_fmap, Hj. simpl. rewrite Hs in H1. congruence.
Qed.

(** Unsubscribing tells the subscription of the session to stop and answers
    [true]; without one, or when it has ended by itself, the answer is an
    internal error.  A subscription that was told to stop, by this or by being
    replaced, forwards what has arrived when it is polled next and then ends. *)
Theorem unsubscribe_events_spec id m w :
  rpc_reachable w →
  let '(r, w') := unsubscribe_events id m w in
  session_cancel m w' = None
  ∧ (∀ sub, sub ∈ rs_subscriptions w → sub_session sub = m → ¬ live sub w')
  ∧ match r with
    | Ok v => v = json_bool true ∧ is_Some (session_cancel m w)
    | Err e => e = InternalError
        ∧ (∀ sub, sub ∈ rs_subscriptions w → sub_session sub = m → ¬ live sub w)
    end
  ∧ ∀ w2 sub items ended, ¬ live sub w2 →
      let '(rest, w3) := poll_subscription sub items ended w2 in
      rest = None ∧ rs_transport w3 = rs_transport (poll_forwarding sub items ended w2).2.
Proof.
  intros Hw%rpc_reachable_wf.
  assert (∀ w2 sub items ended, ¬ live sub w2 →
      let '(rest, w3) := poll_subscription sub items ended w2 in
      rest = None ∧ rs_transport w3 = rs_transport (poll_forwarding sub items ended w2).2) as Hend.
  { intros w2 sub items ended Hl. unfold poll_subscription, live in *.
    destruct (poll_forwarding_frame sub items ended w2) as (s & t & Hf).
    destruct (poll_forwarding sub items ended w2) as [[done phase] w3]. simpl in *. subst w3. simpl.
    destruct done; [done|]. by destruct (cancel_poll _ _). }
  assert (∀ sub, sub ∈ rs_subscriptions w → sub_session sub = m → live sub w →
            session_cancel m w = Some (sub_cancel sub)) as Hlive.
  { intros sub Hin <-. by apply (wf_live w Hw). }
  unfold unsubscribe_events, take_cancel_events.
  unfold session_cancel in *.
  destruct (rs_sessions w !! m) as [d|] eqn:Hm; simpl in *.
  2: { rewrite Hm. split_and!; [done| | | |done].
       all: try (intros sub Hin Hs Hl; by specialize (Hlive sub Hin Hs Hl)). done. }
  destruct (cancel_events d) as [i|] eqn:Hi; simpl.
  2: { rewrite lookup_insert_eq. split_and!; [done| | | |done].
       all: try (intros sub Hin Hs Hl; by specialize (Hlive sub Hin Hs Hl)). done. }
  destruct (cancel_send_spec i (rs_cancel w)) as (Hs1 & Hs2 & Hs3 & _).
  destruct (cancel_send i (rs_cancel w)) as [r c]. simpl in *.
  assert (∀ sub, sub ∈ rs_subscriptions w → sub_session sub = m → live sub w →
            sub_cancel sub = i ∧ r = Ok tt ∧ cancel_poll i c = CancelSent) as Hsent.
  { intros sub Hin Hs Hl. specialize (Hlive sub Hin Hs Hl).
    destruct (wf_open w Hw sub Hin) as [_ Ho]. assert (sub_cancel sub = i) as Heq by congruence.
    rewrite Heq in Ho. destruct (Hs1 Ho). done. }
  rewrite lookup_insert_eq. split; [done|]. split.
  - intros sub Hin Hs Hl. unfold live in Hl. simpl in Hl.
    destruct (decide (sub_cancel sub = i)) as [Heq|Hne].
    + destruct (wf_open w Hw sub Hin) as [_ Ho]. rewrite Heq in *. destruct (Hs1 Ho). congruence.
    + destruct (Hsent sub Hin Hs) as [? _]; [|done]. unfold live. by rewrite <- Hs3.
  - split; [|done]. destruct r as [[]|[]]; simpl.
    + split; [done|by eexists].
    + split; [done|]. intros sub Hin Hs Hl. destruct (Hsent sub Hin Hs Hl) as (_ & ? & _). done.
Qed.

Lemma dapp_session_app app auth (s s2 : S) :
  let '(r, _) := (dapp_session app auth s).1 s2 in
  ∀ dapp, r = Ok dapp → ds_app_id dapp = app.
Proof.
  unfold dapp_session. destruct (ui_select_profile s) as [fut s1]. simpl. unfold future_map.
  destruct (and_then fut load_and_create s2) as [[r|e] w']; simpl; [|done]. by intros dapp [= <-].
Qed.

(** ["get_session"] gives a connection a session of the application that was
    asked for, bound to the profile the user selected, and answers with that
    profile's id.  Only this session changes, and its subscription goes on; bad
    parameters are refused without asking the service for anything.  The session
    is set before the answer is written, so it is there even when writing
    fails. *)
Theorem get_session_spec params m w0 w :
  let '(fut, w1) := get_session params m w0 in
  let '(r, w') := fut w in
  rs_sessions w1 = rs_sessions w0
  ∧ (∀ n, n ≠ m → rs_sessions w' !! n = rs_sessions w !! n)
  ∧ session_cancel m w' = session_cancel m w
  ∧ rs_subscriptions w' = rs_subscriptions w ∧ rs_cancel w' = rs_cancel w
  ∧ rs_transport w' = rs_transport w
  ∧ let set_to dapp req id := ds_app_id dapp = application_id req
      ∧ selected_profile dapp (rs_service w') = Some id
      ∧ (is_Some (rs_sessions w !! m) → session_dapp m w' = Some dapp) in
    match r with
    | Ok v => ∃ map req dapp id, params = ParamsMap map ∧ request_from_value map = Ok req
        ∧ set_to dapp req id ∧ response_to_value (mkResponse (ProfileId_to_string id)) = Ok v
    | Err InvalidParams => w1 = w0 ∧ w' = w
        ∧ ∀ map req, params = ParamsMap map → request_from_value map ≠ Ok req
    | Err InternalError => ∃ map req, params = ParamsMap map ∧ request_from_value map = Ok req
        ∧ (session_dapp m w' = session_dapp m w
           ∨ ∃ dapp id e, set_to dapp req id
               ∧ response_to_value (mkResponse (ProfileId_to_string id)) = Err e)
    end.
Proof.
  unfold get_session. destruct params as [map|vs|]; [|by split_and!..].
  destruct (request_from_value map) as [req|e] eqn:Hreq.
  2: { simpl. split_and!; try done. intros ? ? [= <-]. congruence. }
  pose proof (dapp_session_app (application_id req) (permissions req) (rs_service w0) (rs_service w))
    as Happ.
  destruct (dapp_session _ _ _) as [fut s]. simpl in Happ |- *. unfold and_then, future_map_err, lift_service.
  destruct (fut (rs_service w)) as [[dapp|e] s'].
  2: { simpl. split_and!; try done. exists map, req. by split_and!; [| |left]. }
  simpl. specialize (Happ dapp eq_refl).
  destruct (selected_profile dapp s') as [id|] eqn:Hsel; simpl.
  2: { split_and!; try done. exists map, req. by split_and!; [| |left]. }
  set (w2 := set_rs_service s' w). assert (rs_sessions w2 = rs_sessions w) as Hs2 by done.
  assert ((∀ n, n ≠ m → rs_sessions (set_dapp_session m dapp w2) !! n = rs_sessions w !! n)
    ∧ session_cancel m (set_dapp_session m dapp w2) = session_cancel m w
    ∧ (is_Some (rs_sessions w !! m) → session_dapp m (set_dapp_session m dapp w2) = Some dapp)
    ∧ ∃ ss, set_dapp_session m dapp w2 = mkRpcState s' ss (rs_next_session w) (rs_cancel w)
              (rs_transport w) (rs_subscriptions w)) as (F1 & F2 & F3 & ss & F4).
  { unfold set_dapp_session, session_dapp, session_cancel. rewrite Hs2.
    destruct (rs_sessions w !! m) as [d|] eqn:Hm; simpl.
    - rewrite lookup_insert_eq. split; [intros n Hn; by rewrite lookup_insert_ne|].
      do 2 (split; [done|]). by eexists.
    - rewrite Hm. do 2 (split; [done|]). split; [by intros [??]|]. by eexists. }
  rewrite F4 in *. simpl in *. split_and!; try done.
  destruct (response_to_value _) as [v|e] eqn:Hv; simpl.
  - by exists map, req, dapp, id.
  - exists map, req. split_and!; [done..|]. right. by exists dapp, id, e.
Qed.

End steps.
