(* ===== verification/JsonRpcServer.v ===== *)
(** * Serving JSON-RPC connections ([connect/src/jsonrpc/mod.rs],
    [server_dispatcher.rs])

    A connection is served by three futures that run side by side: one reads
    requests into a bounded queue, one handles them one by one and queues the
    responses, one writes the queued responses.  The connection ends with the
    first of them that ends.  Their interleavings, with each other, the network
    and the rest of the service, are a step relation. *)

From S2P Require Import Prelude Errors External Protocol.

(** What the decoder yields. *)
Inductive NetItem : Set := Frame (line : string) | ReadError | EndOfStream.

(** What goes out: a response, remembered with the request it answers, or a
    notification of a subscription. *)
Inductive Reply : Set := ResponseTo (line text : string) | Notification (text : string).

Section server.
Context {W SessionRef : Type}.

(** [PubSubHandler::handle_request] and [Session::new]. *)
Context (handle_request : string → SessionRef → IO W (Future W unit (option string)))
        (Session_new : SinkId → IO W SessionRef).

Record Duplex : Type := mkDuplex
  { d_session : SessionRef;
    d_incoming : list NetItem;
    d_requests : list string;
    d_busy : option (string * Future W unit (option string));
    d_responses : list Reply;
    d_written : list Reply;
    d_done : option (Result ConnError unit);
    d_world : W }.

(** [JsonRpcServer::serve_duplex_stream], before anything is polled. *)
Definition serve_duplex_stream (resp_sink : SinkId) (w : W) : Duplex :=
  let '(session, w) := Session_new resp_sink w in
  mkDuplex session [] [] None [] [] None w.

(** The [select]s: the whole is done, an error being replaced. *)
Definition finish (r : Result unit unit) (d : Duplex) : Duplex :=
  mkDuplex (d_session d) (d_incoming d) (d_requests d) (d_busy d) (d_responses d) (d_written d)
    (Some (map_err (λ _, conn_from Conn.ImplementationError) r)) (d_world d).

(** [fwd_req_fut]: [net_stream.forward(req_sink)].  The sender is parked while
    the queue is over its capacity. *)
Definition fwd_req_step (d : Duplex) : option Duplex :=
  match d_incoming d with
  | [] => None
  | Frame line :: rest =>
      if decide (length (d_requests d) ≤ CHANNEL_CAPACITY)
      then Some (mkDuplex (d_session d) rest (d_requests d ++ [line]) (d_busy d) (d_responses d)
                   (d_written d) (d_done d) (d_world d))
      else None
  | ReadError :: _ => Some (finish (Err tt) d)
  | EndOfStream :: _ => Some (finish (Ok tt) d)
  end.

(** [serve_client_requests]: taking the next request when none is being handled,
    and polling the one that is. *)
Definition take_request (d : Duplex) : option Duplex :=
  match d_busy d, d_requests d with
  | None, line :: rest =>
      let '(fut, w) := handle_request line (d_session d) (d_world d) in
      Some (mkDuplex (d_session d) (d_incoming d) rest (Some (line, fut)) (d_responses d)
              (d_written d) (d_done d) w)
  | _, _ => None
  end.

Definition poll_request (d : Duplex) : option Duplex :=
  match d_busy d with
  | None => None
  | Some (line, fut) =>
      let '(r, w) := fut (d_world d) in
      let respond replies := mkDuplex (d_session d) (d_incoming d) (d_requests d) None
        (d_responses d ++ replies) (d_written d) (d_done d) w in
      Some match r with
           | Ok None => respond []
           | Ok (Some response) => respond [ResponseTo line response]
           | Err _ => finish (Err tt) (respond [])
           end
  end.

(** [fwd_resp_fut]: [resp_stream.forward(net_sink)]; [sent] is what writing to the
    network results in. *)
Definition fwd_resp_step (sent : Result unit unit) (d : Duplex) : option Duplex :=
  match d_responses d with
  | [] => None
  | reply :: rest => Some
      match sent with
      | Ok _ => mkDuplex (d_session d) (d_incoming d) (d_requests d) (d_busy d) rest
                  (d_written d ++ [reply]) (d_done d) (d_world d)
      | Err _ => finish (Err tt) d
      end
  end.

(** What others do: frames arrive, the service changes, subscriptions notify. *)
Definition arrive (item : NetItem) (d : Duplex) : Duplex :=
  mkDuplex (d_session d) (d_incoming d ++ [item]) (d_requests d) (d_busy d) (d_responses d)
    (d_written d) (d_done d) (d_world d).
Definition set_world (w : W) (d : Duplex) : Duplex :=
  mkDuplex (d_session d) (d_incoming d) (d_requests d) (d_busy d) (d_responses d)
    (d_written d) (d_done d) w.
Definition notify (text : string) (d : Duplex) : Duplex :=
  mkDuplex (d_session d) (d_incoming d) (d_requests d) (d_busy d)
    (d_responses d ++ [Notification text]) (d_written d) (d_done d) (d_world d).

(** ** [UdsServer] *)

(** [UdsServer::new]. *)
Definition UdsServer_new {Listener} (bind : string → Result string Listener) (sock_path : string)
  : Result string Listener := bind sock_path.

(** [UdsServer::dispatch] on the connections that come in, each with the sending
    half of its response channel: all of them are served side by side, until
    accepting one fails. *)
Fixpoint uds_dispatch (incoming : list (Result string SinkId)) (served : list Duplex)
  : IO W (Result ConnError unit * list Duplex) := λ w,
  match incoming with
  | [] => ((Ok tt, served), w)
  | Err e :: _ => ((Err (conn_context Conn.ImplementationError e), served), w)
  | Ok resp_sink :: incoming =>
      let d := serve_duplex_stream resp_sink w in
      uds_dispatch incoming (served ++ [d]) (d_world d)
  end.

(** ** The steps of a connection *)

(** A step of one of its own futures, every write going through. *)
Inductive task_step : Duplex → Duplex → Prop :=
| task_fwd_req d d' : fwd_req_step d = Some d' → task_step d d'
| task_take d d' : take_request d = Some d' → task_step d d'
| task_poll d d' : poll_request d = Some d' → task_step d d'
| task_fwd_resp d d' : fwd_resp_step (Ok tt) d = Some d' → task_step d d'.

(** Anything that can happen to a connection that is being served; the items
    that have arrived are recorded. *)
Inductive duplex_run (d0 : Duplex) : list NetItem → Duplex → Prop :=
| run_start : duplex_run d0 [] d0
| run_arrive items item d :
    duplex_run d0 items d → d_done d = None → duplex_run d0 (items ++ [item]) (arrive item d)
| run_world items w d : duplex_run d0 items d → d_done d = None → duplex_run d0 items (set_world w d)
| run_notify items text d :
    duplex_run d0 items d → d_done d = None → duplex_run d0 items (notify text d)
| run_task items d d' :
    duplex_run d0 items d → d_done d = None → task_step d d' → duplex_run d0 items d'
| run_write_fails items d d' :
    duplex_run d0 items d → d_done d = None → fwd_resp_step (Err tt) d = Some d' →
    duplex_run d0 items d'.

(** Every way the futures of a connection can be scheduled from [d] on, with any
    changes of the service before each step, comes to a state satisfying [P]. *)
Inductive eventually (P : Duplex → Prop) (d : Duplex) : Prop :=
| eventually_now : P d → eventually P d
| eventually_step :
    (∃ d', task_step d d') →
    (∀ w d', task_step (set_world w d) d' → eventually P d') →
    eventually P d.

(** The frames among the items, and the requests that have been answered. *)
Definition frame_of (item : NetItem) : option string :=
  match item with Frame line => Some line | _ => None end.
Definition answered_of (r : Reply) : option string :=
  match r with ResponseTo line _ => Some line | Notification _ => None end.
Definition frames : list NetItem → list string := omap frame_of.
Definition answered : list Reply → list string := omap answered_of.
Definition busy_line (d : Duplex) : list string :=
  match d_busy d with Some (line, _) => [line] | None => [] end.

(** What has arrived and is not answered, in order. *)
Definition pending (d : Duplex) : list string :=
  busy_line d ++ d_requests d ++ frames (d_incoming d).

End server.
Arguments Duplex : clear implicits.

Section theorems.
Context {W SessionRef : Type}
        (handle_request : string → SessionRef → IO W (Future W unit (option string)))
        (Session_new : SinkId → IO W SessionRef).
Implicit Types d : Duplex W SessionRef.

Lemma answered_app xs ys : answered (xs ++ ys) = answered xs ++ answered ys.
Proof. apply omap_app. Qed.
Lemma frames_app xs ys : frames (xs ++ ys) = frames xs ++ frames ys.
Proof. apply omap_app. Qed.

(** What is in order about a running connection that has had [items]. *)
Definition duplex_inv (items : list NetItem) d : Prop :=
  length (d_requests d) ≤ CHANNEL_CAPACITY + 1
  ∧ ∃ handled, frames items = handled ++ pending d
      ∧ answered (d_written d ++ d_responses d) `sublist_of` handled.

Ltac frame_inv :=
  match goal with
  | H : fwd_req_step _ = Some _ |- _ => unfold fwd_req_step in H
  | H : take_request _ _ = Some _ |- _ => unfold take_request in H
  | H : poll_request _ = Some _ |- _ => unfold poll_request in H
  | H : fwd_resp_step _ _ = Some _ |- _ => unfold fwd_resp_step in H
  end.

Lemma task_step_inv items d d' :
  duplex_inv items d → task_step handle_request d d' → duplex_inv items d'.
Proof.
  intros (Hlen & handled & Hf & Hsub) Hs. destruct Hs as [d d' H|d d' H|d d' H|d d' H];
    frame_inv; destruct d as [m inc reqs busy resps wr dn w];
    unfold duplex_inv, pending, busy_line in *; simpl in *.
  - destruct inc as [|[line| |] rest]; [done| | |]; simplify_eq/=; [|by eauto..].
    case_decide as Hc; [|done]. simplify_eq/=. rewrite length_app. unfold CHANNEL_CAPACITY in *.
    simpl. split; [lia|]. exists handled. split; [|done]. rewrite Hf. by rewrite <- !app_assoc.
  - destruct busy; [done|]. destruct reqs as [|line reqs]; [done|].
    destruct (handle_request line m w) as [fut w']. simplify_eq/=.
    unfold CHANNEL_CAPACITY in *. split; [lia|]. by exists handled.
  - destruct busy as [[line fut]|]; [|done]. destruct (fut w) as [[[text|]|[]] w']; simplify_eq/=;
      (split; [done|]); exists (handled ++ [line]); rewrite Hf, ?app_nil_r, <- ?app_assoc; simpl;
      (split; [done|]).
    + rewrite app_assoc, answered_app. by apply sublist_app.
    + by apply sublist_inserts_r.
    + by apply sublist_inserts_r.
  - destruct resps as [|r resps]; [done|]. simplify_eq/=. split; [done|]. exists handled.
    split; [done|]. by rewrite <- app_assoc.
Qed.

(** C38: a client of a connection is served in order and cannot flood it: the
    requests answered so far, in the order of their responses, are among those
    that have been handled, which are the first to have arrived; what waits is
    the rest, in order, and at most [CHANNEL_CAPACITY] requests and one more are
    ever queued. *)
Theorem duplex_served_in_order resp_sink w items d :
  duplex_run handle_request (serve_duplex_stream Session_new resp_sink w) items d →
  length (d_requests d) ≤ CHANNEL_CAPACITY + 1
  ∧ ∃ handled, frames items = handled ++ pending d
      ∧ answered (d_written d) ++ answered (d_responses d) `sublist_of` handled.
Proof.
  intros Hrun. cut (duplex_inv items d); [unfold duplex_inv; by rewrite answered_app|].
  induction Hrun as [|items item d Hr IH Hd|items w' d Hr IH Hd|items text d Hr IH Hd
                    |items d d' Hr IH Hd Hs|items d d' Hr IH Hd Hs].
  - unfold serve_duplex_stream. destruct (Session_new resp_sink w) as [m w'].
    split; simpl; [lia|]. by exists [].
  - destruct IH as (Hlen & handled & Hf & Hsub). split; [done|]. exists handled. split; [|done].
    unfold pending, busy_line in *. simpl in *. rewrite !frames_app, Hf. by rewrite <- !app_assoc.
  - done.
  - destruct IH as (Hlen & handled & Hf & Hsub). split; [done|]. exists handled. split; [done|].
    simpl. by rewrite app_assoc, answered_app, app_nil_r.
  - by eapply task_step_inv.
  - unfold fwd_resp_step in Hs. destruct (d_responses d) eqn:Hr'; [done|]. simplify_eq/=.
    destruct IH as (Hlen & handled & Hf & Hsub). split; [done|]. exists handled.
    split; [done|]. simpl. by rewrite Hr' in *.
Qed.

(** *** Progress *)

(** The steps it takes to get everything that has arrived out again. *)
Definition work d : nat :=
  4 * length (d_incoming d) + 3 * length (d_requests d)
  + match d_busy d with Some _ => 2 | None => 0 end + length (d_responses d).

(** What JSON-RPC gives back for a line: a response to a request, and nothing for
    a notification; [expects] tells which lines get a response. *)
Context (expects : string → bool).
Definition answers_expected : Prop :=
  ∀ line m w w', ∃ resp, ((handle_request line m w).1 w').1 = Ok resp
    ∧ (expects line = true ↔ is_Some resp).
Abbreviation expected := (List.filter expects).

(** A connection nothing has ended, with the answers [total] to come in all. *)
Definition serving (total : list string) d : Prop :=
  d_done d = None
  ∧ Forall (λ item, is_Some (frame_of item)) (d_incoming d)
  ∧ (∀ line fut, d_busy d = Some (line, fut) → ∃ m w, fut = (handle_request line m w).1)
  ∧ answered (d_written d ++ d_responses d) ++ expected (pending d) = total.

Lemma serving_world total w d : serving total d → serving total (set_world w d).
Proof. done. Qed.

Lemma serving_step total d d' :
  answers_expected → serving total d → task_step handle_request d d' →
  serving total d' ∧ work d' < work d.
Proof.
  intros Ha (Hrun & Hin & Hbusy & Htot) Hs. destruct Hs as [d d' H|d d' H|d d' H|d d' H];
    frame_inv; destruct d as [m inc reqs busy resps wr dn w];
    unfold serving, pending, busy_line, work in *; simpl in *.
  - destruct inc as [|[line| |] rest]; [done| |by inversion Hin as [|? ? [? ?]]..].
    case_decide; [|done]. simplify_eq/=. inversion Hin. rewrite length_app. simpl.
    split; [|lia]. split_and!; [done..|]. by rewrite <- !app_assoc.
  - destruct busy; [done|]. destruct reqs as [|line reqs]; [done|].
    destruct (handle_request line m w) as [fut w'] eqn:Hh. simplify_eq/=. split; [|lia].
    split_and!; [done..| |done]. intros line' fut' [= <- <-]. exists m, w. by rewrite Hh.
  - destruct busy as [[line fut]|]; [|done]. destruct (Hbusy line fut eq_refl) as (m' & w' & ->).
    destruct (Ha line m' w' w) as (resp & Ht & Hexp).
    destruct ((handle_request line m' w').1 w) as [r w2]. simpl in Ht. subst r. destruct resp as [text|]; simplify_eq/=.
    + rewrite length_app. simpl. split; [|lia]. split_and!; [done..|].
      rewrite (proj2 Hexp) by done. by rewrite (app_assoc wr), (answered_app (wr ++ resps)), <- app_assoc.
    + rewrite app_nil_r. split; [|lia]. split_and!; [done..|].
      destruct (expects line); [|done]. by destruct (proj1 Hexp eq_refl).
  - destruct resps as [|r resps]; [done|]. simplify_eq/=. split; [|lia].
    split_and!; [done..|]. by rewrite <- (app_assoc wr).
Qed.

(** While there is work some future of the connection can take a step. *)
Lemma serving_progress total d :
  serving total d → work d ≠ 0 → ∃ d', task_step handle_request d d'.
Proof.
  intros (Hrun & Hin & _) Hw. destruct d as [m inc reqs busy resps wr dn w]. unfold work in Hw.
  simpl in *. destruct resps as [|r resps]; [|eexists; by eapply task_fwd_resp].
  destruct busy as [[line fut]|].
  - destruct (fut w) as [[[text|]|[]] w'] eqn:Hf; eexists; eapply task_poll;
      unfold poll_request; simpl; by rewrite Hf.
  - destruct reqs as [|line reqs].
    + destruct inc as [|[line| |] rest]; [done|eexists; by eapply task_fwd_req|..];
        by inversion Hin as [|? ? [? ?]].
    + destruct (handle_request line m w) as [fut w'] eqn:Hh. eexists. eapply task_take.
      unfold take_request. simpl. by rewrite Hh.
Qed.

Lemma serving_eventually total d :
  answers_expected → serving total d →
  eventually handle_request
    (λ d', d_done d' = None ∧ pending d' = [] ∧ d_responses d' = []
           ∧ answered (d_written d') = total) d.
Proof.
  intros Ha. remember (work d) as n eqn:Hn. revert d Hn.
  induction (lt_wf n) as [n _ IH]. intros d -> Hs. destruct (decide (work d = 0)) as [Hz|Hnz].
  - apply eventually_now. destruct Hs as (Hrun & _ & _ & Htot).
    destruct d as [m inc reqs busy resps wr dn w].
    unfold work, pending, busy_line in *. simpl in *.
    destruct inc, reqs, busy, resps; simpl in *; try lia.
    split_and!; [done..|]. by rewrite !app_nil_r in Htot.
  - apply eventually_step; [by eapply serving_progress|]. intros w d' Hstep.
    destruct (serving_step total _ _ Ha (serving_world total w d Hs) Hstep) as [Hs' Hlt].
    eapply IH; [|done|done]. exact Hlt.
Qed.

Lemma busy_from_handler resp_sink w items d :
  duplex_run handle_request (serve_duplex_stream Session_new resp_sink w) items d →
  ∀ line fut, d_busy d = Some (line, fut) → ∃ m w, fut = (handle_request line m w).1.
Proof.
  induction 1 as [|items item d Hr IH Hd|items w' d Hr IH Hd|items text d Hr IH Hd
                 |items d d' Hr IH Hd Hs|items d d' Hr IH Hd Hs]; try done.
  - unfold serve_duplex_stream. by destruct (Session_new resp_sink w).
  - destruct Hs as [d d' H|d d' H|d d' H|d d' H]; frame_inv;
      destruct d as [m inc reqs busy resps wr dn w']; simpl in *.
    + destruct inc as [|[line| |] rest]; [done| | |]; try case_decide; by simplify_eq/=.
    + destruct busy; [done|]. destruct reqs as [|line reqs]; [done|].
      destruct (handle_request line m w') as [fut w2] eqn:Hh. simplify_eq/=.
      intros ? ? [= <- <-]. exists m, w'. by rewrite Hh.
    + destruct busy as [[line fut]|]; [|done]. destruct (fut w') as [[[?|]|[]] ?]; by simplify_eq/=.
    + destruct resps; by simplify_eq/=.
  - frame_inv. destruct (d_responses d); by simplify_eq/=.
Qed.

(** C16: while a connection stays open, every request is answered: if the handler
    responds to requests and gives nothing for notifications, every write goes
    through, and neither the end of the stream nor a read error is among what has
    arrived, then however the three futures of the connection are scheduled, and
    whatever happens to the service in between, everything that has arrived by
    now is handled: the requests get their responses written, in order, behind
    what was written before, the notifications get none, and the connection is
    still open. *)
Theorem requests_eventually_answered resp_sink w items d :
  answers_expected →
  duplex_run handle_request (serve_duplex_stream Session_new resp_sink w) items d →
  d_done d = None → Forall (λ item, is_Some (frame_of item)) (d_incoming d) →
  eventually handle_request
    (λ d', d_done d' = None ∧ pending d' = [] ∧ d_responses d' = []
       ∧ answered (d_written d')
         = answered (d_written d) ++ answered (d_responses d) ++ expected (pending d)) d.
Proof.
  intros Ha Hrun Hd Hin. rewrite app_assoc, <- answered_app. apply serving_eventually; [done|].
  split_and!; [done..| |done]. by eapply busy_from_handler.
Qed.

(** But a client that closes its sending side loses what it has asked for: when
    the end of the stream arrives with the requests, the connection is over
    before any of them is handled. *)
Lemma half_close_loses_requests resp_sink w line1 line2 :
  ∃ d, duplex_run handle_request (serve_duplex_stream Session_new resp_sink w)
         [Frame line1; Frame line2; EndOfStream] d
       ∧ d_done d = Some (Ok tt) ∧ d_written d = [] ∧ d_requests d = [line1; line2].
Proof.
  unfold serve_duplex_stream. destruct (Session_new resp_sink w) as [m w'].
  set (d0 := mkDuplex m [] [] None [] [] None w').
  assert (duplex_run handle_request d0 (([] ++ [Frame line1]) ++ [Frame line2] ++ [EndOfStream])
            (arrive EndOfStream (arrive (Frame line2) (arrive (Frame line1) d0)))) as H3.
  { rewrite app_assoc. repeat (apply run_arrive; [|done]). apply run_start. }
  assert (duplex_run handle_request d0 [Frame line1; Frame line2; EndOfStream]
            (mkDuplex m [EndOfStream] [line1; line2] None [] [] None w')) as H5.
  { eapply run_task with (d := mkDuplex m [Frame line2; EndOfStream] [line1] None [] [] None w');
      [|done|by apply task_fwd_req].
    by eapply run_task; [exact H3|done|apply task_fwd_req]. }
  eexists. split; [eapply run_task; [exact H5|done|by apply task_fwd_req]|by split_and!].
Qed.

End theorems.
