(* ===== verification/Config.v ===== *)
(** * Configuration ([home-protocol/src/util.rs], [home-node/src/config.rs],
    [examples/TheButton/src/client_config.rs], [server_config.rs], [logging.rs])

    What the programs make of their command lines, configuration files and key
    files.  The file system, the TOML parser and the command line parser are
    parameters. *)

From Stdlib Require Import NArith Strings.Ascii.
From S2P Require Import Prelude Errors External Protocol Crypto.

(** ** [str::parse::<u64>] *)

Inductive IntErrorKind : Set := IntEmpty | InvalidDigit | PosOverflow.

Definition U64_MAX : N := (2 ^ 64 - 1)%N.

(** [char::to_digit(10)]. *)
Definition to_digit (c : ascii) : option N :=
  let n := N_of_ascii c in
  if decide (48 <= n <= 57)%N then Some (n - 48)%N else None.

(** [checked_mul(10)] and [checked_add(digit)], digit by digit. *)
Fixpoint parse_digits (acc : N) (s : string) : Result IntErrorKind N :=
  match s with
  | EmptyString => Ok acc
  | String c s =>
      match to_digit c with
      | None => Err InvalidDigit
      | Some d =>
          let ten := (acc * 10)%N in
          if decide (U64_MAX < ten)%N then Err PosOverflow
          else if decide (U64_MAX < ten + d)%N then Err PosOverflow
          else parse_digits (ten + d)%N s
      end
  end.

(** A leading plus sign is allowed; an unsigned type knows no minus sign. *)
Definition strip_plus (s : string) : string :=
  match s with
  | String c rest => if decide (c = "+"%char) then rest else s
  | EmptyString => s
  end.

Definition parse_u64 (s : string) : Result IntErrorKind N :=
  let digits := strip_plus s in
  match digits with
  | EmptyString => Err IntEmpty
  | _ => parse_digits 0 digits
  end.

Definition int_error_text (e : IntErrorKind) : string :=
  match e with
  | IntEmpty => "cannot parse integer from empty string"
  | InvalidDigit => "invalid digit found in string"
  | PosOverflow => "number too large to fit in target type"
  end.
#[export] Instance int_error_to_cause : ToCause IntErrorKind :=
  fun e => [CauseForeign (int_error_text e)].

(** ** [home-protocol/src/util.rs] *)

Section util.
(** [fs::read_to_string] of the configuration file, [toml::from_str], and the
    iteration over the [HashMap] in the order of the table. *)
Context (toml_from_str : string → Result string (gmap string string))
        (hash_iter : gmap string string → list (string * string)).

Definition keyval_args (kv : string * string) : list string :=
  ["--" +:+ kv.1; kv.2].

Definition read_config_file (file : Result string string) : Result unit (list string) :=
  file_contents ← map_err (λ _, tt) file;
  file_keyvals ← map_err (λ _, tt) (toml_from_str file_contents);
  Ok (concat (keyval_args <$> hash_iter file_keyvals)).

(** [T::clap().get_matches_from] and [T::from_clap]. *)
Definition parse_config {T} (get_matches_from : list string → T) (cli_args : list string)
    (file : Result string string) : T :=
  let file_args := match read_config_file file with Ok args => args | Err _ => [] end in
  get_matches_from (cli_args ++ file_args).

End util.

(** ** [home-node/src/config.rs] *)

(** [CliConfig], with the defaults of its options. *)
Record CliConfig : Set := mkCliConfig
  { private_key_file : string; cli_storage_path : string; socket_addr : string }.
Definition CliConfig_default : CliConfig :=
  mkCliConfig "../etc/homenode.id" "/tmp/mercury/home/hosted-profiles" "0.0.0.0:2077".
Definition HOME_CONFIG_PATH : string := "home.cfg".

Record HomeConfig (SocketAddr : Type) : Type := mkHomeConfig
  { storage_path : string; config_signer : Signer; listen_socket : SocketAddr }.
Arguments mkHomeConfig {SocketAddr}.
Arguments storage_path {SocketAddr}. Arguments config_signer {SocketAddr}.
Arguments listen_socket {SocketAddr}.

Section home_config.
Context {MH : Multihash} {ED : Ed25519} {SocketAddr : Type}.
(** [PathBuf::to_str], [fs::read] and [to_socket_addrs]. *)
Context (to_str : string → option string) (fs_read : string → Result string bytes)
        (to_socket_addrs : string → Result string (list SocketAddr)).

(** [unwrap] and [expect]. *)
Definition unwrap {E A} (r : Result E A) : Panicking A :=
  match r with Ok a => Returns a | Err _ => Panics end.
Definition unwrap_option {A} (o : option A) : Panicking A :=
  match o with Some a => Returns a | None => Panics end.

(** [Config::new]: everything that is wrong panics. *)
Definition Config_new (cli : CliConfig) : Panicking (HomeConfig SocketAddr) :=
  storage_path ← unwrap_option (to_str (cli_storage_path cli));
  key_bytes ← unwrap (fs_read (private_key_file cli));
  signer ← Ed25519Signer_new (mkPrivateKey key_bytes);
  signer ← unwrap signer;
  addrs ← unwrap (to_socket_addrs (socket_addr cli));
  listen_socket ← unwrap_option (head addrs);
  Returns (mkHomeConfig storage_path (Ed25519Signer_signer signer) listen_socket).

End home_config.

(** ** TheButton: [client_config.rs], [server_config.rs], [logging.rs], [main.rs] *)

(** [enum OnFail]. *)
Inductive OnFail : Set := Terminate | Retry.
#[export] Instance OnFail_eq_dec : EqDecision OnFail.
Proof. solve_decision. Defined.

Record ClientConfig : Set := mkClientConfig
  { callee_profile_id : ProfileId; on_fail : OnFail }.
Record ServerConfig : Set := mkServerConfig { event_timer : option N }.

(** [args.value_of(..)] of the two options; the parser makes sure that the
    profile is given. *)
Definition ClientConfig_try_from {MB : Multibase} (on_fail_arg server_profile_arg : option string)
  : Panicking (Result ConnError ClientConfig) :=
  let on_fail := match on_fail_arg with
                 | Some fail =>
                     if decide (fail = "retry") then Ok Retry
                     else if decide (fail = "terminate") then Ok Terminate
                     else Err (conn_from Conn.LookupFailed)
                 | None => Ok Terminate
                 end in
  match on_fail with
  | Err e => Returns (Err e)
  | Ok on_fail =>
      callee_id_str ← unwrap_option server_profile_arg;
      '(_base, callee_id_decoded) ← unwrap (mb_decode callee_id_str);
      Returns (Ok (mkClientConfig (mkProfileId callee_id_decoded) on_fail))
  end.

Definition ServerConfig_try_from (event_timer_arg : option string) : Result ConnError ServerConfig :=
  timer ← match event_timer_arg with
          | Some s => map_err (conn_context Conn.LookupFailed) (Some <$> parse_u64 s)
          | None => Ok None
          end;
  Ok (mkServerConfig timer).

Inductive LevelFilter : Set := Warn | Info | Debug | Trace.
Definition log_level (occurrences : nat) : LevelFilter :=
  match occurrences with 0 => Info | 1 => Debug | _ => Trace end.

(** ** Theorems *)

(** The value of a string of digits, and digits of a number, most significant
    first. *)
Fixpoint digits_value (acc : N) (s : string) : option N :=
  match s with
  | EmptyString => Some acc
  | String c s => d ← to_digit c; digits_value (acc * 10 + d) s
  end.

Fixpoint digits_of (fuel : nat) (n : N) (rest : string) : string :=
  match fuel with
  | O => rest
  | S fuel =>
      let rest := String (ascii_of_N (48 + n mod 10)) rest in
      if decide (n < 10)%N then rest else digits_of fuel (n / 10) rest
  end.

(** [u64::to_string]; twenty digits are enough. *)
Definition print_u64 (n : N) : string := digits_of 20 n EmptyString.

Lemma to_digit_lt c d : to_digit c = Some d → (d < 10)%N.
Proof. unfold to_digit. case_decide; [|done]. intros [= <-]. lia. Qed.

Lemma digits_value_ge acc s n : digits_value acc s = Some n → (acc <= n)%N.
Proof.
  revert acc; induction s as [|c s IH]; intros acc; simpl; [intros [= <-]; lia|].
  destruct (to_digit c); simpl; [|done]. intros Hn%IH. lia.
Qed.

(** Digit-wise parsing with overflow checks computes the value, when it fits. *)
Lemma parse_digits_iff acc s n :
  (acc <= U64_MAX)%N →
  parse_digits acc s = Ok n ↔ digits_value acc s = Some n ∧ (n <= U64_MAX)%N.
Proof.
  revert acc; induction s as [|c s IH]; intros acc Hacc; simpl.
  { split; [by intros [= <-]|]. by intros [[= <-] _]. }
  destruct (to_digit c) as [d|]; simpl; [|naive_solver].
  repeat case_decide.
  - split; [done|]. intros [Hn%digits_value_ge ?]. lia.
  - split; [done|]. intros [Hn%digits_value_ge ?]. lia.
  - rewrite IH by lia. done.
Qed.

Lemma parse_digits_overflow acc s :
  (acc <= U64_MAX)%N → parse_digits acc s = Err PosOverflow →
  ∀ n, digits_value acc s = Some n → (U64_MAX < n)%N.
Proof.
  revert acc; induction s as [|c s IH]; intros acc Hacc; simpl; [done|].
  destruct (to_digit c) as [d|]; simpl; [|done]. repeat case_decide.
  - intros _ n Hn%digits_value_ge. lia.
  - intros _ n Hn%digits_value_ge. lia.
  - intros Hp. apply IH; [lia|done].
Qed.

Lemma digits_of_value fuel n rest acc :
  (n < 10 ^ N.of_nat fuel)%N → fuel ≠ 0 →
  ∃ k, digits_value acc (digits_of fuel n rest) = digits_value (acc * 10 ^ k + n) rest.
Proof.
  revert n rest; induction fuel as [|fuel IH]; intros n rest Hn Hf; [done|]. simpl.
  assert (∀ acc rest, digits_value acc (String (ascii_of_N (48 + n mod 10)) rest)
            = digits_value (acc * 10 + n mod 10) rest) as Hdig.
  { intros acc' rest'. cbn [digits_value]. unfold to_digit. pose proof (N.mod_lt n 10 ltac:(lia)).
    set (m := (n mod 10)%N) in *. clearbody m.
    rewrite N_ascii_embedding by lia. rewrite decide_True by lia. cbn [mbind option_bind].
    by replace (48 + m - 48)%N with m by lia. }
  case_decide as H10.
  - exists 1%N. rewrite Hdig. f_equal. rewrite N.mod_small by done. lia.
  - destruct fuel as [|fuel].
    { simpl in Hn. lia. }
    destruct (IH (n / 10)%N (String (ascii_of_N (48 + n mod 10)) rest)) as [k Hk]; [|done|].
    { rewrite Nat2N.inj_succ, N.pow_succ_r' in Hn. apply N.Div0.div_lt_upper_bound. lia. }
    exists (k + 1)%N. rewrite Hk, Hdig. f_equal. rewrite N.pow_add_r.
    pose proof (N.div_mod n 10). change (10 ^ 1)%N with 10%N. lia.
Qed.

(** The decimal number a text stands for: digits, behind a plus sign if any. *)
Definition decimal_value (s : string) : option N :=
  let digits := strip_plus s in
  match digits with EmptyString => None | _ => digits_value 0 digits end.

Lemma parse_u64_iff s n :
  parse_u64 s = Ok n ↔ decimal_value s = Some n ∧ (n <= U64_MAX)%N.
Proof.
  unfold parse_u64, decimal_value. destruct (strip_plus s).
  - split; [done|by intros [??]].
  - apply parse_digits_iff. unfold U64_MAX. lia.
Qed.

Lemma digits_of_head fuel n rest :
  fuel ≠ 0 → ∃ d s, digits_of fuel n rest = String (ascii_of_N (48 + d)) s ∧ (d < 10)%N.
Proof.
  revert n rest; induction fuel as [|fuel IH]; intros n rest Hf; [done|]. simpl.
  pose proof (N.mod_lt n 10 ltac:(lia)). case_decide; [by eexists _, _|].
  destruct fuel as [|fuel]; [by eexists _, _|]. by apply IH.
Qed.

Lemma parse_print_u64 n : (n <= U64_MAX)%N → parse_u64 (print_u64 n) = Ok n.
Proof.
  intros Hn. apply parse_u64_iff. split; [|done]. unfold decimal_value, print_u64.
  destruct (digits_of_head 20 n EmptyString) as (d & s & Hs & Hd); [done|].
  assert (ascii_of_N (48 + d) ≠ "+"%char) as Hplus.
  { intros Heq%(f_equal N_of_ascii). rewrite N_ascii_embedding in Heq by lia.
    change (N_of_ascii "+"%char) with 43%N in Heq. lia. }
  destruct (digits_of_value 20 n EmptyString 0) as [k Hk]; [unfold U64_MAX in Hn; simpl; lia|done|].
  rewrite Hs in Hk |- *. rewrite N.mul_0_l, N.add_0_l in Hk. cbn [digits_value] in Hk.
  unfold strip_plus. by rewrite decide_False.
Qed.

(** C39: bounds of the timer option: a server configuration has a timer exactly
    when one was given; its seconds are the decimal number that was given, which
    is below 2^64.  Anything that is not such a number, overflowing numbers
    included, is a lookup error, and every number of 64 bits is accepted. *)
Theorem server_config_bounds arg :
  match ServerConfig_try_from arg with
  | Ok cfg =>
      match event_timer cfg, arg with
      | None, None => True
      | Some n, Some s => (n < 2 ^ 64)%N ∧ decimal_value s = Some n
      | _, _ => False
      end
  | Err e => conn_kind e = Conn.LookupFailed
      ∧ ∃ s, arg = Some s ∧ ∀ n, decimal_value s = Some n → (2 ^ 64 <= n)%N
  end
  ∧ ∀ n, (n < 2 ^ 64)%N →
      ServerConfig_try_from (Some (print_u64 n)) = Ok (mkServerConfig (Some n)).
Proof.
  split.
  - unfold ServerConfig_try_from. destruct arg as [s|]; simpl; [|done].
    destruct (parse_u64 s) as [n|e] eqn:Hp; simpl.
    + apply parse_u64_iff in Hp as [Hv Hn]. unfold U64_MAX in Hn. split; [lia|done].
    + split; [done|]. exists s. split; [done|]. intros n Hn.
      destruct (decide (2 ^ 64 <= n)%N); [done|].
      assert (parse_u64 s = Ok n) by (apply parse_u64_iff; unfold U64_MAX; split; [done|lia]).
      congruence.
  - intros n Hn. unfold ServerConfig_try_from. rewrite parse_print_u64; [done|].
    unfold U64_MAX. lia.
Qed.

(** The options of the file come behind the arguments of the command line, each
    key with its value once; a file that cannot be used adds none. *)
Lemma parse_config_args {T} toml hash_iter (get_matches : list string → T) cli file :
  (∀ m, hash_iter m ≡ₚ map_to_list m) →
  ∃ file_args, parse_config toml hash_iter get_matches cli file = get_matches (cli ++ file_args)
    ∧ match file ≫= (λ text, toml text) with
      | Ok keyvals => length file_args = 2 * size keyvals
          ∧ ∀ k v, keyvals !! k = Some v ↔
              ∃ i, file_args !! (2 * i) = Some ("--" +:+ k) ∧ file_args !! (2 * i + 1) = Some v
      | Err _ => file_args = []
      end.
Proof.
  intros Hiter. unfold parse_config, read_config_file.
  destruct file as [text|e]; simpl; [|by eexists]. destruct (toml text) as [m|e]; simpl; [|by eexists].
  eexists. split; [done|]. specialize (Hiter m).
  assert (∀ k v, m !! k = Some v ↔ ∃ i, hash_iter m !! i = Some (k, v)) as Hk.
  { intros k v. rewrite <- elem_of_map_to_list, <- Hiter. apply list_elem_of_lookup. }
  assert (length (hash_iter m) = size m) as Hlen.
  { rewrite Hiter. by rewrite length_map_to_list. }
  revert Hk Hlen. generalize (hash_iter m) as kvs. clear Hiter. intros kvs Hk Hlen.
  assert (∀ i kv, kvs !! i = Some kv ↔
            concat (keyval_args <$> kvs) !! (2 * i) = Some ("--" +:+ kv.1)
            ∧ concat (keyval_args <$> kvs) !! (2 * i + 1) = Some kv.2) as Hi.
  { clear. induction kvs as [|kv0 kvs IH]; intros [|i] kv; cbn [fmap list_fmap concat].
    - split; [done|by intros [??]].
    - split; [done|]. intros [? _]. by rewrite lookup_nil in *.
    - simpl. split; [by intros [= ->]|]. destruct kv0, kv. intros [[= H1] [= H2]]. simpl in *.
      by simplify_eq.
    - replace (2 * S i) with (S (S (2 * i))) by lia.
      replace (S (S (2 * i)) + 1) with (S (S (2 * i + 1))) by lia. apply IH. }
  split.
  - rewrite <- Hlen. clear. induction kvs as [|kv kvs IH]; [done|].
    rewrite fmap_cons. cbn [concat]. rewrite length_app, IH. simpl. lia.
  - intros k v. rewrite Hk. split.
    + intros [i Hkv]. exists i. by apply (Hi i (k, v)).
    + intros [i Hkv]. exists i. by apply Hi.
Qed.
