(* ===== verification/HomeNode.v ===== *)
(** * The home node program ([home-node/src/bin/mercury-home.rs])

    The program reads its configuration, makes a server over empty public
    storage and the stored hosted profiles, and serves every client that
    connects: a handshake, a connection of the server for the client the
    handshake introduced, and the RPC system on it.  Its runs are runs of the
    transition system of [HomeInvariants.v]. *)

From S2P Require Import Prelude Errors External Storage Protocol Crypto Relation Handshake.
From S2P Require Import HomeServer HomeInvariants Net Config.

Section node.
Context {BC : Bincode} {MH : Multihash} {ED : Ed25519} {SJ : SerdeJson AuthenticationInfo}
        {Dht Db Chans : Type}
        {DHT : KeyValueStore Dht ProfileId Profile}
        {DB : KeyValueStore Db ProfileId OwnProfile}
        {CH : Channels ChanMsg Chans}.

(** The future of one client: [None] when the client is dropped with a warning,
    otherwise what [HomeDispatcherCapnProto::dispatch] gets to serve. *)
Definition serve_client (signer : Signer) (server : HomeServer Dht Db Chans) (socket : TcpStream)
  : option (HomeConnectionServer * bytes * Writer) :=
  match temp_tcp_handshake_until_tls_is_implemented (nodelay socket) (tcp_reader socket)
          (tcp_writer socket) signer with
  | Err _ => None
  | Ok (reader, writer, client_context) =>
      match HomeConnectionServer_new client_context server with
      | Err _ => None
      | Ok home => Some (home, reader, writer)
      end
  end.

(** The running program: the handshakes that are spawned, the connections that
    are served with what is left to read on them and what was written, and how
    the accepting loop ended, if it did. *)
Record Node : Type := mkNode
  { node_system : System (Dht:=Dht) (Db:=Db) (Chans:=Chans);
    node_handshakes : list TcpStream;
    node_served : list (HomeConnectionServer * bytes * Writer);
    node_result : option (Result string unit) }.

(** [main] up to the accepting loop: the stores are new, the file store having
    what earlier runs left in it. *)
Definition node_start (dht : Dht) (db : Db) (c : Chans) : Node :=
  mkNode (initial CompositeValidator_default dht db c) [] [] None.

(** [main] with its configuration: the file store is opened at the configured
    path and the signer serves every client.  [file_store] is what opening it
    gives and [new_dht] the empty in-memory store. *)
Definition main {SocketAddr : Type} to_str fs_read
    (to_socket_addrs : string → Result string (list SocketAddr))
    (file_store : string → Result string Db) (new_dht : Dht) (c : Chans) (cli : CliConfig)
  : Panicking (Signer * Node) :=
  config ← Config_new to_str fs_read to_socket_addrs cli;
  local_storage ← unwrap (file_store (storage_path config));
  Returns (config_signer config, node_start new_dht local_storage c).

(** The body of [incoming().for_each(..)]; an error of [incoming] ends it. *)
Definition accept (incoming : Result string TcpStream) (n : Node) : Node :=
  match incoming with
  | Ok socket =>
      mkNode (node_system n) (node_handshakes n ++ [socket]) (node_served n) (node_result n)
  | Err e => mkNode (node_system n) (node_handshakes n) (node_served n) (Some (Err e))
  end.

Definition add_connection (home : HomeConnectionServer) (s : System (Dht:=Dht) (Db:=Db) (Chans:=Chans))
  : System :=
  mkSystem (world s) (home :: connections s) (pending s) (responses s).

(** Polling a spawned handshake. *)
Definition finish_handshake (signer : Signer) (socket : TcpStream) (others : list TcpStream)
    (n : Node) : Node :=
  match serve_client signer (world (node_system n)) socket with
  | None => mkNode (node_system n) others (node_served n) (node_result n)
  | Some (home, reader, writer) =>
      mkNode (add_connection home (node_system n)) others
        (node_served n ++ [(home, reader, writer)]) (node_result n)
  end.

(** The steps of the program while it accepts clients; those of the server on
    the connections it has are the steps of its system but connecting. *)
Inductive node_step (signer : Signer) : Node → Node → Prop :=
| node_accept incoming n : node_result n = None → node_step signer n (accept incoming n)
| node_handshake socket h1 h2 n :
    node_result n = None → node_handshakes n = h1 ++ socket :: h2 →
    node_step signer n (finish_handshake signer socket (h1 ++ h2) n)
| node_serve s' n :
    node_result n = None → step (node_system n) s' → connections s' = connections (node_system n) →
    node_step signer n (mkNode s' (node_handshakes n) (node_served n) (node_result n)).

Definition node_reachable (signer : Signer) (dht : Dht) (db : Db) (c : Chans) (n : Node) : Prop :=
  rtc (node_step signer) (node_start dht db c) n.

End node.

(** ** Theorems *)

Section theorems.
Context {BC : Bincode} {MH : Multihash} {ED : Ed25519} {SJ : SerdeJson AuthenticationInfo}
        {Dht Db Chans : Type}
        {DHT : KeyValueStore Dht ProfileId Profile}
        {DB : KeyValueStore Db ProfileId OwnProfile}
        {CH : Channels ChanMsg Chans}
        {DHTL : KeyValueStoreLaws Dht ProfileId Profile any_key}
        {DBL : KeyValueStoreLaws Db ProfileId OwnProfile any_key}
        {CHL : ChannelsLaws ChanMsg Chans}.
Context (signer : Signer).
Abbreviation Node := (@Node Dht Db Chans).
Implicit Types n : Node.

Lemma serve_client_some server socket home reader writer :
  serve_client (Dht:=Dht) (Db:=Db) (Chans:=Chans) signer server socket = Some (home, reader, writer) →
  ∃ ctx, temp_tcp_handshake_until_tls_is_implemented (nodelay socket) (tcp_reader socket)
           (tcp_writer socket) signer = Ok (reader, writer, ctx)
    ∧ HomeConnectionServer_new ctx server = Ok home.
Proof.
  unfold serve_client. destruct (temp_tcp_handshake_until_tls_is_implemented _ _ _ _)
    as [[[r w] ctx]|e]; [|done].
  destruct (HomeConnectionServer_new ctx server) eqn:Hn; [|done]. intros [= -> -> ->]. eauto.
Qed.

Lemma handshake_signer nd reader writer reader' writer' ctx :
  temp_tcp_handshake_until_tls_is_implemented nd reader writer signer = Ok (reader', writer', ctx) →
  my_signer ctx = signer.
Proof.
  unfold temp_tcp_handshake_until_tls_is_implemented, temp_handshake_until_tls_is_implemented.
  destruct nd; [|done]. destruct (json_to_vec _) as [out|]; [|done].
  destruct (write_all writer _) as [w1|]; simpl; [|done].
  destruct (write_all w1 out) as [w2|]; simpl; [|done].
  destruct (read_exact reader 4) as [[b1 r1]|]; simpl; [|done].
  destruct (read_exact r1 _) as [[b2 r2]|]; simpl; [|done].
  destruct (json_from_slice b2); simpl; [|done]. by intros [= <- <- <-].
Qed.

(** The program's own bookkeeping: the connections of the system are those it
    serves, each from a handshake and for a certified client. *)
Definition node_inv n : Prop :=
  connections (node_system n) ≡ₚ (λ x, x.1.1) <$> node_served n
  ∧ server_validator (world (node_system n)) = CompositeValidator_default
  ∧ ∀ home reader writer, (home, reader, writer) ∈ node_served n →
      my_signer (context home) = signer
      ∧ certified CompositeValidator_default (peer_pubkey (context home)) (peer_id (context home)).

Lemma step_reachable s0 s s' : reachable (Dht:=Dht) (Db:=Db) (Chans:=Chans) s0 s → step s s' → reachable s0 s'.
Proof. intros Hr Hs. by eapply rtc_r. Qed.

Lemma node_step_refines s0 n n' :
  node_step signer n n' → reachable s0 (node_system n) →
  (∀ s, reachable s0 s → server_validator (world s) = CompositeValidator_default) →
  node_inv n → reachable s0 (node_system n') ∧ node_inv n'.
Proof.
  intros Hstep Hr Hv (Hc & Hval & Hs). destruct Hstep as [incoming n Hn|socket h1 h2 n Hn Hh|s' n Hn Hst Heq].
  - destruct incoming; done.
  - unfold finish_handshake.
    destruct (serve_client _ _ _) as [[[home reader] writer]|] eqn:Hsc; [|done].
    apply serve_client_some in Hsc as (ctx & Hhs & Hnew). apply handshake_signer in Hhs.
    split.
    + eapply step_reachable; [exact Hr|]. simpl. destruct (node_system n) as [w conns ps rs].
      by apply (step_connect w conns ps rs ctx).
    + split; [|split; [done|]]; simpl.
      * rewrite fmap_app, Hc. simpl. apply Permutation_cons_append.
      * intros home' reader' writer' [Hin|Hin]%elem_of_app; [by eapply Hs|].
        apply list_elem_of_singleton in Hin as [= -> -> ->].
        apply new_connection_valid in Hnew as [-> Hcert]. by rewrite Hval in Hcert.
  - simpl. split; [by eapply step_reachable|]. split; [|split]; simpl; [by rewrite Heq| |done].
    apply Hv. by eapply step_reachable.
Qed.

Lemma node_reachable_inv dht db c n :
  store_inv CompositeValidator_default id dht → store_inv CompositeValidator_default own_profile db →
  chans_inv CompositeValidator_default c →
  node_reachable signer dht db c n →
  reachable (initial CompositeValidator_default dht db c) (node_system n) ∧ node_inv n.
Proof.
  intros Hdht Hdb Hc Hr.
  assert (∀ s, reachable (initial CompositeValidator_default dht db c) s →
            server_validator (world s) = CompositeValidator_default) as Hv.
  { intros s Hs. destruct (reachable_inv _ _ _ _ _ Hdht Hdb Hc Hs) as [Hw _ _].
    apply (inv_validator _ _ Hw). }
  unfold node_reachable in Hr. remember (node_start dht db c) as n0 eqn:Hn0.
  assert (reachable (initial CompositeValidator_default dht db c) (node_system n0) ∧ node_inv n0)
    as H0.
  { subst n0. split; [apply rtc_refl|]. split_and!; [done|done|]. intros ? ? ? []%elem_of_nil. }
  clear Hn0. induction Hr as [|n0 n1 n2 Hstep Hr IH]; [done|].
  apply IH. destruct H0. by eapply node_step_refines.
Qed.

(** C11: the home program implements the system its properties are about: every
    run of the program, however handshakes, failing clients and requests
    interleave, is a run of the transition system from the stores it started
    with; so all it hosts stays certified.  Every connection is served in the
    name of the configured key and for a client whose id belongs to its key. *)
Theorem node_refines_system dht db c n :
  store_inv CompositeValidator_default id dht → store_inv CompositeValidator_default own_profile db →
  chans_inv CompositeValidator_default c →
  node_reachable signer dht db c n →
  reachable (initial CompositeValidator_default dht db c) (node_system n)
  ∧ (∀ home, home ∈ connections (node_system n) →
       my_signer (context home) = signer
       ∧ multihash_validate_profile (peer_pubkey (context home)) (peer_id (context home)) = Ok true)
  ∧ (∀ k own, kv_get k (hosted_profile_db (world (node_system n))) = Ok own →
       profile_id (own_profile own) = k
       ∧ multihash_validate_profile (profile_public_key (own_profile own)) k = Ok true).
Proof.
  intros Hdht Hdb Hc Hr. destruct (node_reachable_inv _ _ _ _ Hdht Hdb Hc Hr) as [Hreach (H1 & H2 & H3)].
  split; [done|]. split.
  - intros home Hin. rewrite H1 in Hin.
    apply list_elem_of_fmap in Hin as ([[h reader] writer] & -> & Hin). simpl.
    destruct (H3 _ _ _ Hin). done.
  - intros k own Hk. destruct (reachable_inv _ _ _ _ _ Hdht Hdb Hc Hreach) as [Hw _ _].
    by apply (inv_db _ _ Hw).
Qed.

(** Whom the program serves: a client that sends a well-formed introduction
    with an id that belongs to its key is served under this identity, with the
    bytes that follow left for the RPC system; and no client is served whose
    introduction does not name such an id. *)
Theorem serve_client_iff {SJL : SerdeJsonLaws AuthenticationInfo} (server : HomeServer Dht Db Chans) info out mine rest writer :
  server_validator server = CompositeValidator_default →
  json_to_vec info = Ok out → (N.of_nat (length out) < 2 ^ 32)%N →
  json_to_vec (auth_info signer) = Ok mine → 4 + length mine ≤ room writer →
  let socket := mkTcpStream (Ok tt) (put_u32_le (as_u32 (length out)) ++ out ++ rest) writer in
  match serve_client signer server socket with
  | Some (home, reader, _) =>
      multihash_validate_profile (auth_public_key info) (auth_profile_id info) = Ok true
      ∧ reader = rest ∧ peer_id (context home) = auth_profile_id info
      ∧ peer_pubkey (context home) = auth_public_key info ∧ my_signer (context home) = signer
  | None => multihash_validate_profile (auth_public_key info) (auth_profile_id info) ≠ Ok true
  end.
Proof.
  intros Hv Hout Hlen Hmine Hroom. cbn zeta.
  unfold serve_client, temp_tcp_handshake_until_tls_is_implemented.
  cbn [nodelay tcp_reader tcp_writer].
  destruct (handshake_receives signer writer info out mine rest Hout Hlen Hmine Hroom)
    as (w' & ctx & -> & Hid & Hpk & Hs).
  destruct (HomeConnectionServer_new ctx server) as [home|e] eqn:Hnew.
  - apply new_connection_valid in Hnew as [-> Hcert]. rewrite Hv in Hcert.
    unfold certified in Hcert. simpl in Hcert. rewrite Hid, Hpk in Hcert. by rewrite Hid, Hpk.
  - intros Hok. unfold HomeConnectionServer_new, PeerContext_validate in Hnew.
    rewrite Hv in Hnew. simpl in Hnew. rewrite Hid, Hpk, Hok in Hnew. by simpl in Hnew.
Qed.

End theorems.
