(* ===== verification/Startup.v ===== *)
(** * Client programs ([connect/src/bin/service-daemon.rs],
    [connect/src/bin/protocol-sample.rs], [examples/TheButton/src/init_hack.rs])

    What a client program does before it can serve: reading its keys, making
    its profile known to the repository and the store of own profiles, and
    building the service on them; and the sample program that goes through the
    protocol once. *)

From S2P Require Import Prelude Errors External Storage Protocol Crypto Relation Rpc HomeServer.
From S2P Require Import Connect Net Service JsonRpcServer Config.

Section startup.
Context {MH : Multihash} {ED : Ed25519} {Env Store PStore Chans : Type}
        {KV : KeyValueStore Store ProfileId Profile}
        {PKV : KeyValueStore PStore ProfileId OwnProfile}.

(** [std::fs::read], [str::parse::<SocketAddr>] and [to_multiaddr]. *)
Context (fs_read : string → Result string bytes)
        (parse_addr : string → Result string SocketAddr)
        (to_multiaddr : SocketAddr → Result string Multiaddr).

(** [ErrorKind::LookupFailed] around a failed read. *)
Definition read_key (file : string) : Result ConnError bytes :=
  map_err (conn_context Conn.LookupFailed) (fs_read file).

(** Result and panic: what [?] and [unwrap] leave behind. *)
Definition try {E A B} (r : Result E A) (k : A → Panicking (Result E B)) : Panicking (Result E B) :=
  match r with Ok a => k a | Err e => Returns (Err e) end.

(** The profile of a home as the command line names it. *)
Definition read_home_profile (home_pubkey_file home_addr_str : string)
  : Panicking (Result ConnError Profile) :=
  try (read_key home_pubkey_file) (λ home_pubkey_bytes,
  let home_pubkey := mkPublicKey home_pubkey_bytes in
  home_id ← ProfileId_from_public_key home_pubkey;
  try (map_err (λ _, conn_from Conn.LookupFailed) (parse_addr home_addr_str)) (λ home_addr,
  home_multiaddr ← unwrap (to_multiaddr home_addr);
  Returns (Ok (Profile_new_home home_id home_pubkey home_multiaddr)))).

Definition read_signer (my_private_profilekey_file : string) : Panicking (Result ConnError Signer) :=
  try (read_key my_private_profilekey_file) (λ my_private_key_bytes,
  signer ← Ed25519Signer_new (mkPrivateKey my_private_key_bytes);
  signer ← unwrap signer;
  Returns (Ok (Ed25519Signer_signer signer))).

(** [unwrap] on a finished write. *)
Definition set_or_panic {St V} `{KeyValueStore St ProfileId V} (id : ProfileId) (v : V) (s : St)
  : Panicking St :=
  match kv_set id v s with (Ok _, s) => Returns s | (Err _, _) => Panics end.

(** The repository is populated only if it does not know the own profile. *)
Definition populate_repo (home_profile my_profile : Profile) (repo : Store) : Panicking Store :=
  if is_err (kv_get (profile_id my_profile) repo)
  then repo ← set_or_panic (profile_id home_profile) home_profile repo;
       set_or_panic (profile_id my_profile) my_profile repo
  else Returns repo.

Definition empty_persona (s : Signer) : Profile :=
  Profile_new (signer_profile_id s) (signer_public_key s) (Persona (mkPersonaFacet [] [])).

(** [init_connect_service]: the service with the ids of the own profile and the
    home.  [repo_store] and [own_store] are what opening the two stores gave. *)
Definition init_connect_service (my_private_profilekey_file home_pubkey_file home_addr_str : string)
    (repo_store : Result string Store) (own_store : Result string PStore) (c : Chans) (e : Env)
  : Panicking (Result ConnError (ConnectService Env Store PStore Chans * ProfileId * ProfileId)) :=
  home_profile ← read_home_profile home_pubkey_file home_addr_str;
  try home_profile (λ home_profile,
  my_signer ← read_signer my_private_profilekey_file;
  try my_signer (λ my_signer,
  let my_profile_id := signer_profile_id my_signer in
  let my_profile := empty_persona my_signer in
  repo ← unwrap repo_store;
  repo ← populate_repo home_profile my_profile repo;
  let my_own_profile := OwnProfile_new my_profile [] in
  own_profile_store ← unwrap own_store;
  own_profile_store ← set_or_panic my_profile_id my_own_profile own_profile_store;
  Returns (Ok (ConnectService_new [my_profile_id] own_profile_store
                 {[ my_profile_id := my_signer ]} (mkSimpleProfileRepo repo) c e,
               my_profile_id, profile_id home_profile)))).

End startup.

(** [init_hack.rs] keeps the own profiles in memory only. *)
Definition button_init_connect_service {MH : Multihash} {ED : Ed25519} {Env Store Chans : Type}
    {KV : KeyValueStore Store ProfileId Profile} fs_read parse_addr to_multiaddr
    (my_private_profilekey_file home_id_str home_addr_str : string)
    (repo_store : Result string Store) (c : Chans) (e : Env) :=
  init_connect_service fs_read parse_addr to_multiaddr my_private_profilekey_file home_id_str
    home_addr_str repo_store (Ok (InMemoryStore_new (K:=ProfileId) (V:=OwnProfile))) c e.

(** [Config] of the daemon with the defaults of its options, and [main] up to
    serving: the service and the listener of [UdsServer]. *)
Record DaemonConfig : Set := mkDaemonConfig
  { my_private_key_file : string; home_public_key_file : string;
    home_address : string; uds_path : string }.
Definition DaemonConfig_default : DaemonConfig :=
  mkDaemonConfig "../etc/client.id" "../etc/homenode.id.pub" "127.0.0.1:2077" "/tmp/jsonrpc.sock".
Definition DAEMON_CONFIG_PATH : string := "connect.cfg".

Definition daemon_main {MH : Multihash} {ED : Ed25519} {Env Store PStore Chans Listener : Type}
    {KV : KeyValueStore Store ProfileId Profile} {PKV : KeyValueStore PStore ProfileId OwnProfile}
    fs_read parse_addr to_multiaddr (bind : string → Result string Listener)
    (repo_store : Result string Store) (own_store : Result string PStore) (c : Chans) (e : Env)
    (config : DaemonConfig)
  : Panicking (Result ConnError (ConnectService Env Store PStore Chans * Listener)) :=
  started ← init_connect_service fs_read parse_addr to_multiaddr (my_private_key_file config)
    (home_public_key_file config) (home_address config) repo_store own_store c e;
  try started (λ '(service, _my_profile_id, _home_id),
  jsonrpc ← unwrap (UdsServer_new bind (uds_path config));
  Returns (Ok (service, jsonrpc))).

(** ** [protocol-sample.rs] *)

Section sample.
Context {BC : Bincode} {Env Store Chans : Type}
        {KV : KeyValueStore Store ProfileId Profile}
        {CH : Channels ProfileEvent Chans}
        {HC : HomeConnector Env}
        {SO : SelectOk (Client Env Store Chans)}
        {HV : HashValues ProfileId}.
Abbreviation W := (Client Env Store Chans).

(** [persona.homes.get(0)]. *)
Definition first_home (own_profile : OwnProfile) : option RelationProof :=
  match profile_facet (Protocol.own_profile own_profile) with
  | Persona persona => head (persona_homes persona)
  | _ => None
  end.

(** [test_fut]: connecting, registering, logging in and a ping. *)
Definition protocol_sample (server_id : ProfileId) (client_own_profile : OwnProfile)
    (client_signer : Signer) : IO W (Future W ProtoError string) := λ w,
  let '(connect_fut, w) := connect_home server_id w in
  let registered := and_then
    (future_map_err (proto_context Proto.ConnectionToHomeFailed) connect_fut)
    (λ home w,
       let halfproof := RelationHalfProof_new RELATION_TYPE_HOSTED_ON_HOME server_id client_signer in
       let '(fut, w) := lift (home_register home client_own_profile halfproof None) w in
       (future_map_err (λ '(_own_profile, e), e)
          (future_map (λ own_profile, (own_profile, home)) fut), w)) in
  let session := and_then registered (λ '(own_profile, home) w,
    match first_home own_profile with
    | Some proof => lift (home_login home proof) w
    | None => (future_err (proto_from Proto.LoginFailed), w)
    end) in
  (and_then session (λ session, lift (session_ping (cs_session session) "hahoooo")), w).

(** [main]: keys and address are read, with a panic when that fails; the profile
    of the home is put into a new repository, and the future is made by a wrapper
    for the own profile. *)
Definition protocol_sample_main {MH : Multihash} {ED : Ed25519} (fs_read : string → Result string bytes)
    (parse_addr : string → Result string SocketAddr)
    (to_multiaddr : SocketAddr → Result string Multiaddr)
    (client_key_file server_key_file server_addr : string) (new_store : Store) (c : Chans) (e : Env)
  : Panicking (Result ProtoError string * W) :=
  client_private_key ← unwrap (fs_read client_key_file);
  client_signer ← Ed25519Signer_new (mkPrivateKey client_private_key);
  client_signer ← unwrap client_signer;
  let client_signer := Ed25519Signer_signer client_signer in
  let client_own_profile := OwnProfile_new (empty_persona client_signer) [] in
  srv_addr ← unwrap (parse_addr server_addr);
  addr ← unwrap (to_multiaddr srv_addr);
  server_key ← unwrap (fs_read server_key_file);
  server_id ← ProfileId_from_public_key (mkPublicKey server_key);
  let home_profile := Profile_new_home server_id (mkPublicKey server_key) addr in
  let w := mkClient (MyProfileImpl_new client_own_profile client_signer)
             (mkSimpleProfileRepo new_store) c e in
  let '(_, w) := repo_insert home_profile w in
  Returns (await (protocol_sample server_id client_own_profile client_signer) w).

End sample.

(** ** Theorems *)

Section theorems.
Context {MH : Multihash} {ED : Ed25519} {BC : Bincode} {Env Store PStore Chans : Type}
        {KV : KeyValueStore Store ProfileId Profile}
        {PKV : KeyValueStore PStore ProfileId OwnProfile}
        {valid valid' : ProfileId → Prop}
        {KVL : KeyValueStoreLaws Store ProfileId Profile valid}
        {PKVL : KeyValueStoreLaws PStore ProfileId OwnProfile valid'}
        {CH : Channels ProfileEvent Chans} {HC : HomeConnector Env}
        {SO : SelectOk (Client Env Store Chans)} {HV : HashValues ProfileId}.
Context (fs_read : string → Result string bytes)
        (parse_addr : string → Result string SocketAddr)
        (to_multiaddr : SocketAddr → Result string Multiaddr).

Lemma panicking_bind_inv {A B} (m : Panicking A) (k : A → Panicking B) b :
  m ≫= k = Returns b → ∃ a, m = Returns a ∧ k a = Returns b.
Proof. destruct m; [eauto|done]. Qed.

Lemma try_inv {E A B} (r : Result E A) (k : A → Panicking (Result E B)) b :
  try r k = Returns (Ok b) → ∃ a, r = Ok a ∧ k a = Returns (Ok b).
Proof. destruct r; [eauto|done]. Qed.

Lemma unwrap_inv {E A} (r : Result E A) a : unwrap r = Returns a → r = Ok a.
Proof. destruct r; [by intros [= ->]|done]. Qed.

Lemma set_or_panic_inv {St V} `{KeyValueStore St ProfileId V} id (v : V) (s s' : St) :
  set_or_panic id v s = Returns s' → kv_set id v s = (Ok tt, s').
Proof. unfold set_or_panic. destruct (kv_set id v s) as [[[]|] ?]; [by intros [= ->]|done]. Qed.

(** The repository afterwards: as it was when it knew the profile, otherwise
    with the two profiles added. *)
Lemma populate_repo_spec home_profile my_profile (repo repo' : Store) :
  (∀ id, valid id) →
  populate_repo home_profile my_profile repo = Returns repo' →
  match kv_get (profile_id my_profile) repo with
  | Ok _ => repo' = repo
  | Err _ => kv_get (profile_id my_profile) repo' = Ok my_profile
      ∧ (profile_id home_profile ≠ profile_id my_profile →
           kv_get (profile_id home_profile) repo' = Ok home_profile)
      ∧ ∀ id, id ≠ profile_id my_profile → id ≠ profile_id home_profile →
           kv_get id repo' = kv_get id repo
  end.
Proof.
  intros Hv. unfold populate_repo. destruct (kv_get (profile_id my_profile) repo); simpl.
  { by intros [= ->]. }
  intros (repo1 & H1%set_or_panic_inv & H2%set_or_panic_inv)%panicking_bind_inv. split_and!.
  - by eapply kv_set_ok.
  - intros Hne. rewrite (kv_set_other _ _ _ _ _ (profile_id home_profile) (Hv _) (Hv _) H2 Hne).
    by eapply kv_set_ok.
  - intros id Hm Hh. rewrite (kv_set_other _ _ _ _ _ id (Hv _) (Hv _) H2 Hm).
    by rewrite (kv_set_other _ _ _ _ _ id (Hv _) (Hv _) H1 Hh).
Qed.

(** C27: a client program that starts up has a service for exactly the profile of
    its key, which the repository knows: either from an earlier run, in which
    case the repository is left as it is, or newly, together with the home of
    the command line.  But whatever earlier runs left in the store of own
    profiles is overwritten: the wrapper that the service hands out has no
    homes, even when the repository knows that the profile has joined some. *)
Theorem init_connect_service_spec my_file home_file addr (repo0 : Store)
    (own_store : Result string PStore) (c : Chans) (e : Env) service my_id home_id :
  (∀ id, valid id) → (∀ id, valid' id) →
  init_connect_service fs_read parse_addr to_multiaddr my_file home_file addr (Ok repo0) own_store c e
    = Returns (Ok (service, my_id, home_id)) →
  ∃ signer home_profile,
    read_signer fs_read my_file = Returns (Ok signer)
    ∧ read_home_profile fs_read parse_addr to_multiaddr home_file addr = Returns (Ok home_profile)
    ∧ my_id = signer_profile_id signer ∧ home_id = profile_id home_profile
    ∧ my_profile_ids service = [my_id] ∧ signers service = {[ my_id := signer ]}
    ∧ service_wf service
    ∧ match kv_get my_id repo0 with
      | Ok _ => profiles (shared_repo service) = repo0
      | Err _ => kv_get my_id (profiles (shared_repo service)) = Ok (empty_persona signer)
          ∧ (home_id ≠ my_id → kv_get home_id (profiles (shared_repo service)) = Ok home_profile)
      end
    ∧ let '(r, s') := await (admin_profile my_id) service in
      ∃ ref p, r = Ok ref ∧ profile_heap s' !! ref = Some p
        ∧ mp_signer p = signer ∧ my_relations p = [] ∧ homes p = Ok [].
Proof.
  intros Hv Hv'. unfold init_connect_service.
  intros (hp & Hhp & Hrest)%panicking_bind_inv.
  apply try_inv in Hrest as (home_profile & -> & Hrest).
  apply panicking_bind_inv in Hrest as (sg & Hsg & Hrest).
  apply try_inv in Hrest as (signer & -> & Hrest).
  apply panicking_bind_inv in Hrest as (repo & [= <-]%unwrap_inv & Hrest).
  apply panicking_bind_inv in Hrest as (repo & Hrepo & Hrest).
  apply panicking_bind_inv in Hrest as (own & _ & Hrest).
  apply panicking_bind_inv in Hrest as (own' & Hown%set_or_panic_inv & [= <- <- <-]).
  apply populate_repo_spec in Hrepo; [|done]. simpl in Hrepo.
  exists signer, home_profile. do 6 (split; [done|]). split; [|split].
  - repeat split; simpl; [by intros ?? ?%lookup_empty_Some|by intros ?? ? ?%lookup_empty_Some|].
    by intros r [x ?%lookup_empty_Some].
  - simpl. destruct (kv_get _ repo0); [done|]. destruct Hrepo as (? & ? & _). done.
  - unfold await, admin_profile, load_and_create. simpl.
    assert (kv_get (signer_profile_id signer) own' = Ok (OwnProfile_new (empty_persona signer) []))
      as -> by (by eapply kv_set_ok).
    unfold and_then, future_result, factory_create. simpl. rewrite lookup_empty.
    unfold factory_signer. simpl. rewrite lookup_singleton_eq. simpl.
    eexists _, _. split; [done|]. split; [by rewrite lookup_insert_eq|]. done.
Qed.

(** What makes a client program stop or crash at start-up. *)
Lemma init_connect_service_failures my_file home_file addr repo0 own_store c e err :
  init_connect_service (Env:=Env) (Chans:=Chans) fs_read parse_addr to_multiaddr my_file home_file
    addr repo0 own_store c e = Returns (Err err) →
  conn_kind err = Conn.LookupFailed
  ∧ (is_err (fs_read home_file) = true ∨ is_err (parse_addr addr) = true
     ∨ is_err (fs_read my_file) = true).
Proof.
  unfold init_connect_service, read_home_profile, read_signer, read_key.
  destruct (fs_read home_file) as [hk|e1] eqn:H1; simpl; [|intros [= <-]; auto].
  destruct (ProfileId_from_public_key _) as [id|]; simpl; [|done].
  destruct (parse_addr addr) as [a|e1] eqn:H2; simpl; [|intros [= <-]; auto].
  destruct (to_multiaddr a) as [ma|]; simpl; [|done].
  destruct (fs_read my_file) as [mk|e1] eqn:H3; simpl; [|intros [= <-]; auto].
  destruct (Ed25519Signer_new _) as [[sg|]|]; simpl; try done.
  destruct repo0 as [r0|]; simpl; [|done]. destruct (populate_repo _ _ r0); simpl; [|done].
  destruct own_store as [os|]; simpl; [|done]. by destruct (set_or_panic _ _ os).
Qed.

End theorems.
