(* ===== verification/ButtonCli.v ===== *)
(** * The command line of TheButton ([examples/TheButton/src/cli.rs], [logging.rs])

    The table of options and subcommands as data, what the program may rely on
    when the command line parser accepts its arguments, and what it makes of the
    verbosity.  The parser is a class with laws; [SampleClap] is a small one. *)

From Stdlib Require Import Strings.Ascii.
From S2P Require Import Prelude Errors External Protocol Crypto Config.

(** ** [cli.rs] *)

Definition CLI_VERSION : string := "version".
Definition CLI_VERBOSE : string := "verbose".
Definition CLI_PRIVATE_KEY_FILE : string := "private-key-file".
Definition CLI_HOME_NODE_KEY_FILE : string := "home-node-key-file".
Definition CLI_SERVER_ADDRESS : string := "server-addr".
Definition CLI_SERVER : string := "server".
Definition CLI_EVENT_TIMER : string := "event-timer".
Definition CLI_CLIENT : string := "client".
Definition CLI_SERVER_PROFILE : string := "server-profile".

(** [clap::Arg], [clap::SubCommand] and [clap::App], without their help texts. *)
Record Arg : Set := mkArg
  { arg_name : string; arg_short : option string; arg_long : string; multiple : bool;
    takes_value : bool; required : bool; default_value : option string; value_name : option string }.
Record SubCommand : Set := mkSubCommand { sub_name : string; sub_args : list Arg }.
Record App : Set := mkApp
  { app_name : string; app_version : string; app_author : string; subcommand_required : bool; app_args : list Arg; app_subcommands : list SubCommand }.

(** [Arg::with_name(name).long(name)], and what is added to it. *)
Definition with_name (name : string) : Arg := mkArg name None name false false false None None.
Definition flag (short : string) (many : bool) (a : Arg) : Arg :=
  mkArg (arg_name a) (Some short) (arg_long a) many false (required a) None None.
Definition with_value (value : string) (default : option string) (a : Arg) : Arg :=
  mkArg (arg_name a) (arg_short a) (arg_long a) (multiple a) true (required a) default (Some value).
Definition mandatory (a : Arg) : Arg :=
  mkArg (arg_name a) (arg_short a) (arg_long a) (multiple a) (takes_value a) true
    (default_value a) (value_name a).

Definition cli : App :=
  mkApp "TheButton" "0.1" "Deusz <lovaszoltanr@gmail.com>" true
    [ flag "v" true (with_name CLI_VERBOSE);
      flag "V" false (with_name CLI_VERSION);
      with_value "KEY" (Some "../../etc/client.id") (with_name CLI_PRIVATE_KEY_FILE);
      with_value "KEY" (Some "../../etc/homenode.id.pub") (with_name CLI_HOME_NODE_KEY_FILE);
      with_value "ADDRESS" (Some "127.0.0.1:2077") (with_name CLI_SERVER_ADDRESS) ]
    [ mkSubCommand CLI_SERVER [with_value "SECS" None (with_name CLI_EVENT_TIMER)];
      mkSubCommand CLI_CLIENT
        [with_value "FAIL" None (with_name "on-fail");
         mandatory (with_value "PROFILE_ID" None (with_name CLI_SERVER_PROFILE))] ].

(** ** What [clap] makes of the command line

    [value_of], [is_present] and [occurrences_of] of the program, and the
    subcommand with the [value_of] of its own options, if there is one. *)
Record Matches : Type := mkMatches
  { is_present : string → bool; occurrences_of : string → nat; value_of : string → option string;
    subcommand : string * option (string → option string) }.

(** [App::get_matches]: [None] when it reports an error and exits. *)
Class Clap := get_matches : App → list string → option Matches.

Class ClapLaws `{Clap} : Prop := {
  clap_default app argv m a :
    get_matches app argv = Some m → a ∈ app_args app → is_Some (default_value a) →
    is_Some (value_of m (arg_name a));
  clap_subcommand app argv m args :
    get_matches app argv = Some m → (subcommand m).2 = Some args →
    ∃ sc, sc ∈ app_subcommands app ∧ sub_name sc = (subcommand m).1
      ∧ ∀ a, a ∈ sub_args sc → required a = true → is_Some (args (arg_name a));
  clap_subcommand_required app argv m :
    get_matches app argv = Some m → subcommand_required app = true → is_Some (subcommand m).2 }.

(** ** [logging.rs] *)

(** What is given to [log4rs]: the appenders, the loggers with levels of their
    own, and the appenders and the level of the root. *)
Record LogConfig : Set := mkLogConfig
  { appenders : list string; loggers : list (string * LevelFilter);
    root_appenders : list string; root_level : LevelFilter }.

Definition LOG_FILE : string := "log/button.log".

Definition log_config (occurrences : nat) : LogConfig :=
  mkLogConfig ["stdout"; "logfile"] [("tokio_core::reactor", Warn); ("tokio_reactor", Warn)]
    ["stdout"; "logfile"] (log_level occurrences).

(** Opening the log file, building the configuration and installing it. *)
Class Log4rs := {
  file_appender : string → Result string unit;
  config_build : LogConfig → Result string LogConfig;
  init_config : LogConfig → Result string unit }.

Definition start_logging `{Log4rs} (matches : Matches) : Panicking unit :=
  _logfile ← unwrap (file_appender LOG_FILE);
  config ← unwrap (config_build (log_config (occurrences_of matches CLI_VERBOSE)));
  unwrap (init_config config).

(** ** A small parser *)

Module SampleClap.

Definition Parsed : Set := list (string * option string).

Definition names (a : Arg) (word : string) : bool :=
  bool_decide (word = "--" +:+ arg_long a) || bool_decide (Some word = (String.append "-" <$> arg_short a)).

(** The options at the front, each with its value, up to the first other word. *)
Fixpoint parse_args (args : list Arg) (acc : Parsed) (argv : list string)
  : option (Parsed * list string) :=
  match argv with
  | [] => Some (acc, [])
  | word :: rest =>
      match filter (λ a, names a word = true) args with
      | [] => match word with
              | String "-"%char _ => None
              | _ => Some (acc, argv)
              end
      | a :: _ =>
          if takes_value a
          then match rest with
               | [] => None
               | v :: rest => parse_args args ((arg_name a, Some v) :: acc) rest
               end
          else parse_args args ((arg_name a, None) :: acc) rest
      end
  end.

(** The last value given, or else the default. *)
Definition lookup_value (args : list Arg) (parsed : Parsed) (name : string) : option string :=
  match omap (λ '(k, v), if decide (k = name) then v else None) parsed with
  | v :: _ => Some v
  | [] => head (omap (λ a, if decide (arg_name a = name) then default_value a else None) args)
  end.

Definition count (parsed : Parsed) (name : string) : nat :=
  length (filter (λ p, p.1 = name) parsed).

Definition complete (sc : SubCommand) (parsed : Parsed) : bool :=
  forallb (λ a, implb (required a) (bool_decide (is_Some (lookup_value (sub_args sc) parsed (arg_name a)))))
    (sub_args sc).

#[export] Instance sample_clap : Clap := λ app argv,
  '(parsed, rest) ← parse_args (app_args app) [] argv;
  let matches := mkMatches (λ n, bool_decide (0 < count parsed n)) (count parsed)
                   (lookup_value (app_args app) parsed) in
  match rest with
  | [] => if subcommand_required app then None else Some (matches ("", None))
  | word :: rest =>
      sc ← head (filter (λ sc, sub_name sc = word) (app_subcommands app));
      '(sub_parsed, rest) ← parse_args (sub_args sc) [] rest;
      if complete sc sub_parsed && bool_decide (rest = [])
      then Some (matches (word, Some (lookup_value (sub_args sc) sub_parsed)))
      else None
  end.

Lemma lookup_value_default args parsed a :
  a ∈ args → is_Some (default_value a) → is_Some (lookup_value args parsed (arg_name a)).
Proof.
  intros Ha [d Hd]. unfold lookup_value. destruct (omap _ parsed); [|by eexists].
  assert (d ∈ omap (λ b, if decide (arg_name b = arg_name a) then default_value b else None) args)
    as Hin.
  { apply list_elem_of_omap. exists a. split; [done|]. by rewrite decide_True. }
  destruct (omap _ args); [by apply elem_of_nil in Hin|by eexists].
Qed.

#[export] Instance sample_clap_laws : ClapLaws.
Proof.
  split; unfold get_matches, sample_clap; intros app argv m.
  - intros a Hm Ha Hd. destruct (parse_args _ _ _) as [[parsed rest]|]; [|done]. simpl in Hm.
    assert (value_of m = lookup_value (app_args app) parsed) as ->; [|by apply lookup_value_default].
    destruct rest as [|word rest]; [by destruct (subcommand_required app); simplify_eq|].
    destruct (head _) as [sc|]; [|done]. simpl in Hm. destruct (parse_args _ _ _) as [[sp r]|]; [|done].
    simpl in Hm. destruct (complete sc sp && bool_decide (r = [])); by simplify_eq.
  - intros args Hm Hargs. destruct (parse_args _ _ _) as [[parsed rest]|]; [|done]. simpl in Hm.
    destruct rest as [|word rest]; [by destruct (subcommand_required app); simplify_eq/=|].
    destruct (head _) as [sc|] eqn:Hsc; [|done]. simpl in Hm.
    destruct (parse_args (sub_args sc) _ _) as [[sp r]|]; [|done]. simpl in Hm.
    destruct (complete sc sp) eqn:Hc; [|done]. destruct (bool_decide _); [|done]. simplify_eq/=.
    assert (sc ∈ filter (λ sc, sub_name sc = word) (app_subcommands app)) as [Hn Hin]%list_elem_of_filter.
    { destruct (filter _ _); simplify_eq/=. set_solver. }
    exists sc. split; [done|]. split; [done|]. intros a Ha Hr. unfold complete in Hc.
    rewrite forallb_forall in Hc. apply list_elem_of_In, Hc in Ha. rewrite Hr in Ha. simpl in Ha.
    by apply bool_decide_eq_true in Ha.
  - intros Hm Hr. destruct (parse_args _ _ _) as [[parsed rest]|]; [|done]. simpl in Hm.
    destruct rest as [|word rest]; [by rewrite Hr in Hm|].
    destruct (head _) as [sc|]; [|done]. simpl in Hm. destruct (parse_args _ _ _) as [[sp r]|]; [|done].
    simpl in Hm. destruct (complete sc sp && bool_decide (r = [])); simplify_eq/=. by eexists.
Qed.

End SampleClap.

(** ** Theorems *)

Section theorems.
Context `{Clap} `{!ClapLaws}.

(** Once the parser has accepted the command line, every option the program
    unwraps has a value, and there is a subcommand, one of the two it knows. *)
Lemma cli_matches argv m :
  get_matches cli argv = Some m →
  is_Some (value_of m CLI_PRIVATE_KEY_FILE) ∧ is_Some (value_of m CLI_HOME_NODE_KEY_FILE)
  ∧ is_Some (value_of m CLI_SERVER_ADDRESS)
  ∧ ∃ args, (subcommand m = (CLI_SERVER, Some args)
             ∨ subcommand m = (CLI_CLIENT, Some args) ∧ is_Some (args CLI_SERVER_PROFILE)).
Proof.
  intros Hm.
  assert (∀ a, a ∈ app_args cli → is_Some (default_value a) → is_Some (value_of m (arg_name a))) as Hd
    by (intros a; by eapply clap_default).
  split; [apply (Hd (with_value "KEY" (Some "../../etc/client.id") (with_name CLI_PRIVATE_KEY_FILE)));
          [set_solver|by eexists]|].
  split; [apply (Hd (with_value "KEY" (Some "../../etc/homenode.id.pub") (with_name CLI_HOME_NODE_KEY_FILE)));
          [set_solver|by eexists]|].
  split; [apply (Hd (with_value "ADDRESS" (Some "127.0.0.1:2077") (with_name CLI_SERVER_ADDRESS)));
          [set_solver|by eexists]|].
  destruct (clap_subcommand_required cli argv m Hm eq_refl) as [args Hargs].
  destruct (clap_subcommand cli argv m args Hm Hargs) as (sc & Hin & Hname & Hreq).
  exists args. destruct (subcommand m) as [name o]. simpl in *. subst o name.
  apply elem_of_cons in Hin as [->|Hin]; [by left|]. apply list_elem_of_singleton in Hin as ->.
  right. split; [done|]. apply (Hreq (mandatory (with_value "PROFILE_ID" None (with_name CLI_SERVER_PROFILE))));
    [set_solver|done].
Qed.
End theorems.
