(* ===== verification/TheButton.v ===== *)
(** * TheButton, an application ([examples/TheButton/src])

    A server waits for calls of clients and sends a frame to each of them
    whenever its button is pressed; a client pairs with the server, unless it
    has done so before, and calls it.  Both contain the connect service of
    [Startup.v] and use it through an application session. *)

From S2P Require Import Prelude Errors External Storage Protocol Relation Rpc HomeServer.
From S2P Require Import Connect Net Service Config Startup ButtonCli.

Definition BUTTON_APP_ID : ApplicationId := mkApplicationId "TheButton-dApp-Sample".

(** [struct AppContext]; the service is the state of the program. *)
Record AppContext : Set := mkAppContext { client_id : ProfileId; home_id : ProfileId }.

(** The subcommand of [main] and what it runs. *)
Inductive ButtonApp : Set :=
| RunServer (cfg : ServerConfig)
| RunClient (cfg : ClientConfig).

(** [main]: [matches.subcommand()] with the values of its options. *)
Definition select_app {MB : Multibase} (sub_name : string) (sub_args : option (string → option string))
  : Panicking (Result ConnError ButtonApp) :=
  match sub_args with
  | Some value_of =>
      if decide (sub_name = CLI_SERVER)
      then match ServerConfig_try_from (value_of CLI_EVENT_TIMER) with
           | Ok cfg => Returns (Ok (RunServer cfg))
           | Err e => Returns (Err e)
           end
      else if decide (sub_name = CLI_CLIENT)
      then match ClientConfig_try_from (value_of "on-fail") (value_of CLI_SERVER_PROFILE) with
           | Returns (Ok cfg) => Returns (Ok (RunClient cfg))
           | Returns (Err e) => Returns (Err e)
           | Panics => Panics
           end
      else Returns (Err (conn_from Conn.LookupFailed))
  | None => Returns (Err (conn_from Conn.LookupFailed))
  end.

(** [AppContext::new]: the service, and what the program remembers of it. *)
Definition AppContext_new {MH : Multihash} {ED : Ed25519} {Env Store Chans : Type}
    {KV : KeyValueStore Store ProfileId Profile} fs_read parse_addr to_multiaddr
    (priv_key node_id node_addr : string) (repo_store : Result string Store) (c : Chans) (e : Env)
  : Panicking (Result ConnError
      (ConnectService Env Store (InMemoryStore ProfileId OwnProfile) Chans * AppContext)) :=
  started ← button_init_connect_service fs_read parse_addr to_multiaddr priv_key node_id node_addr
    repo_store c e;
  try started (λ '(service, client_id, home_id), Returns (Ok (service, mkAppContext client_id home_id))).

(** [main] up to running the application, once the command line is parsed:
    [None] when only the version is asked for. *)
Definition button_main `{Log4rs} {MB : Multibase} {MH : Multihash} {ED : Ed25519} {Env Store Chans : Type}
    {KV : KeyValueStore Store ProfileId Profile} fs_read parse_addr to_multiaddr
    (repo_store : Result string Store) (c : Chans) (e : Env) (matches : Matches)
  : Panicking (Result ConnError (option
      (ConnectService Env Store (InMemoryStore ProfileId OwnProfile) Chans * AppContext * ButtonApp))) :=
  if is_present matches CLI_VERSION then Returns (Ok None) else
  _ ← start_logging matches;
  priv_key ← unwrap_option (value_of matches CLI_PRIVATE_KEY_FILE);
  node_id ← unwrap_option (value_of matches CLI_HOME_NODE_KEY_FILE);
  node_addr ← unwrap_option (value_of matches CLI_SERVER_ADDRESS);
  appcx ← AppContext_new fs_read parse_addr to_multiaddr priv_key node_id node_addr repo_store c e;
  try appcx (λ '(service, appcx),
  let '(sub_name, sub_args) := subcommand matches in
  app ← select_app sub_name sub_args;
  try app (λ app, Returns (Ok (Some (service, appcx, app))))).

Section button.
Context {BC : Bincode} {Env Store PStore Chans : Type}
        {KV : KeyValueStore Store ProfileId Profile}
        {PKV : KeyValueStore PStore ProfileId OwnProfile}
        {CH : Channels ProfileEvent Chans} {FCH : Channels AppMessageFrame Chans}
        {HC : HomeConnector Env}
        {SO : SelectOk (Client Env Store Chans)}
        {HV : HashValues ProfileId}.
Abbreviation S := (ConnectService Env Store PStore Chans).
Context {UI : UserInterface S}.
Implicit Types ctx : AppContext.

(** ** [init_hack.rs] *)

Definition init_app_common ctx : IO S (Future S ConnError ProfileRef) := λ s,
  let '(admin_fut, s) := admin_session None s in
  (and_then (and_then admin_fut (λ _, admin_profile (client_id ctx)))
     (λ my_profile s,
        let '(fut, s) := on_profile my_profile (join_home (home_id ctx) None) s in
        (future_map (λ _, my_profile) fut, s)), s).

(** The loop that [init_server] spawns on the events of the session. *)
Definition accept_event (my_profile : ProfileRef) (event : ProfileEvent)
  : IO S (Future S unit unit) := λ s,
  match event with
  | PairingRequest half_proof =>
      let '(fut, s) := on_profile my_profile (accept_relation half_proof) s in
      (future_map_err (λ _, tt) (future_map (λ _, tt) fut), s)
  | _ => (future_ok tt, s)
  end.

Definition accept_task (my_profile : ProfileRef) (events : list ProfileEvent) : Future S unit unit :=
  for_each (accept_event my_profile) events.

(** [init_server], up to the profile and the event stream of the loop. *)
Definition init_server ctx : IO S (Future S ConnError (ProfileRef * SinkId)) := λ s,
  let '(common_fut, s) := init_app_common ctx s in
  let logged_in := and_then common_fut (λ my_profile s,
    let '(fut, s) := on_profile my_profile MyProfile_login s in
    (future_map (λ session, (my_profile, session)) fut, s)) in
  (and_then logged_in (λ '(my_profile, session) s,
     let '(fut, s) := on_profile my_profile (λ c,
       let '(events, c) := my_session_events session c in (future_ok events, c)) s in
     (future_map (λ events, (my_profile, events)) fut, s)), s).

(** ** [client.rs] *)

(** Whether an event is the response that is waited for. *)
Definition pairing_response (my_profile_id : ProfileId) (event : DAppEvent) : option RelationImpl :=
  match event with
  | DAppPairingResponse relation =>
      if is_ok (proof_peer_id (ri_relation_proof relation) my_profile_id) then Some relation else None
  | DAppIncomingCall _ => None
  end.

(** [wait_for_pairing_response] on the events the stream has yielded, and
    whether it has ended; [timer] is what the timeout of ten milliseconds
    results in. *)
Definition wait_for_pairing_response (events : list DAppEvent) (ended : bool)
    (my_profile_id : ProfileId) (timer : Result string unit) : option (Result ConnError RelationImpl) :=
  match omap (pairing_response my_profile_id) events with
  | proof :: _ => Some ((λ _, proof) <$> map_err (conn_context Conn.ImplementationError) timer)
  | [] => if ended then Some (Err (conn_from Conn.LookupFailed)) else None
  end.

(** What the streams of a check-in yield until their end, while the rest of the
    world goes on, what the timer does, and the frames of a call. *)
Context (stream_items : SinkId * SinkId → IO S (list (Result string Call + ProfileEvent)))
        (timer : Result string unit)
        (call_frames : SinkId → IO S (list (Result string AppMessageFrame))).

Definition get_or_create_contact ctx (cfg : ClientConfig) (dapp_session : DAppSessionImpl)
  : IO S (Future S ConnError RelationImpl) := λ s,
  let peer_id := callee_profile_id cfg in
  let '(relations_fut, s) := contacts_with_profile dapp_session peer_id None s in
  (and_then relations_fut (λ relations s,
     (* the future is made here, and dropped when there is a relation *)
     let '(init_rel_fut, s) := initiate_contact dapp_session peer_id s in
     match list.last relations with
     | Some relation => (future_ok relation, s)
     | None =>
         let '(checkin_fut, s) := checkin dapp_session s in
         let paired := and_then checkin_fut
           (λ events, io_ret (future_map (λ _, events) init_rel_fut)) in
         (and_then paired (λ events, io_ret (λ s,
            let '(items, s) := stream_items events s in
            (default (Err (conn_from Conn.LookupFailed))
               (wait_for_pairing_response (checkin_stream dapp_session items) true
                  (client_id ctx) timer), s))), s)
     end), s).

(** One incoming frame; the first error ends the program. *)
Definition client_frame (msg : Result string AppMessageFrame) : IO S (Future S unit unit) :=
  io_ret (future_result (map_err (λ _, tt) ((λ _, tt) <$> msg))).

(** [Client::into_future]: joining the home is tried first, with any result. *)
Definition Client_into_future ctx (cfg : ClientConfig) : IO S (Future S ConnError unit) := λ s,
  let '(session_fut, s) := dapp_session BUTTON_APP_ID None s in
  let contact := and_then session_fut (get_or_create_contact ctx cfg) in
  let call := and_then contact (λ contact, contact_call contact (mkAppMessageFrame [])) in
  let client_fut := and_then call (λ call, io_ret (λ s,
    let '(frames, s) := call_frames (incoming call) s in
    future_map_err (λ _, conn_from Conn.CallFailed) (for_each client_frame frames) s)) in
  let '(init_fut, s) := init_app_common ctx s in
  (future_then init_fut (λ _res, io_ret client_fut), s).

(** ** [server.rs] *)

(** The running server: the clients it has answered, the loops that accept
    pairing requests, and the sends that are spawned. *)
Record ServerState : Type := mkServerState
  { srv_service : S;
    active_calls : list DAppCall;
    accept_loops : list (ProfileRef * SinkId);
    spawned_sends : list (SinkId * AppMessageFrame) }.

(** [IncomingCall::answer]. *)
Definition answer_call (call : Call) (to_callee : option SinkId) : IO S CallRequestDetails := λ s,
  let '(_, cs) := @oneshot_send AppMessageFrame Chans FCH (call_sender call) to_callee (shared_chans s) in
  (call_request call, set_shared_chans cs s).

(** The body of the loop over the events of the application session. *)
Definition server_event (event : DAppEvent) (st : ServerState) : ServerState :=
  match event with
  | DAppIncomingCall incoming_call =>
      let s := srv_service st in
      let '(to_me, cs) := @mpsc_channel AppMessageFrame Chans FCH 1 (shared_chans s) in
      let '(details, s) := answer_call incoming_call (Some to_me) (set_shared_chans cs s) in
      mkServerState s
        (active_calls st ++ match cr_to_caller details with
                            | Some to_caller => [mkDAppCall to_caller to_me]
                            | None => []
                            end)
        (accept_loops st) (spawned_sends st)
  | DAppPairingResponse _ => st
  end.

Definition press_frame : AppMessageFrame := mkAppMessageFrame [x2a].

(** [fwd_pressed_fut] for one press: a send is spawned for every client. *)
Definition fwd_pressed (st : ServerState) : ServerState :=
  mkServerState (srv_service st) (active_calls st) (accept_loops st)
    (spawned_sends st ++ ((λ call, (outgoing call, press_frame)) <$> active_calls st)).

(** Running a spawned send; a failure is ignored. *)
Definition run_send (i : nat) (st : ServerState) : ServerState :=
  match spawned_sends st !! i with
  | None => st
  | Some (sink, frame) =>
      let s := srv_service st in
      mkServerState
        (set_shared_chans (@mpsc_send AppMessageFrame Chans FCH sink frame (shared_chans s)).2 s)
        (active_calls st) (accept_loops st) (delete i (spawned_sends st))
  end.

(** What happens to a running server, in any order. *)
Inductive ServerOp : Set :=
| OpEvent (event : DAppEvent)
| OpPress
| OpSend (i : nat).

Definition server_op (op : ServerOp) (st : ServerState) : ServerState :=
  match op with
  | OpEvent event => server_event event st
  | OpPress => fwd_pressed st
  | OpSend i => run_send i st
  end.
Definition server_ops (ops : list ServerOp) (st : ServerState) : ServerState :=
  foldl (λ st op, server_op op st) st ops.

End button.
Arguments ServerState : clear implicits.

(** ** Theorems *)

(** The presses a client at [s] is sent, of which [connected] calls have been
    answered already. *)
Fixpoint expected (s : SinkId) (connected : nat) (ops : list ServerOp) : nat :=
  match ops with
  | [] => 0
  | OpEvent (DAppIncomingCall call) :: ops =>
      expected s (connected + if decide (cr_to_caller (call_request call) = Some s) then 1 else 0) ops
  | OpPress :: ops => connected + expected s connected ops
  | _ :: ops => expected s connected ops
  end.

Section theorems.
Context {BC : Bincode} {Env Store PStore Chans : Type}
        {KV : KeyValueStore Store ProfileId Profile}
        {PKV : KeyValueStore PStore ProfileId OwnProfile}
        {CH : Channels ProfileEvent Chans} {FCH : Channels AppMessageFrame Chans}
        {FCHL : ChannelsLaws AppMessageFrame Chans}
        {HC : HomeConnector Env}
        {SO : SelectOk (Client Env Store Chans)}
        {HV : HashValues ProfileId}.
Abbreviation S := (ConnectService Env Store PStore Chans).
Context {UI : UserInterface S}.
Context {open : SinkId → Chans → Prop} {KO : KeepsOpen (Msg:=AppMessageFrame) open}.
Implicit Types st : ServerState Env Store PStore Chans.

Definition received_frames (s : SinkId) st : list AppMessageFrame :=
  @mpsc_received AppMessageFrame Chans FCH s (shared_chans (srv_service st)).
Definition connected (s : SinkId) st : nat := length (filter (λ c, outgoing c = s) (active_calls st)).
Definition on_the_way (s : SinkId) st : nat := length (filter (λ p, p.1 = s) (spawned_sends st)).

(** [s] is open and has been sent presses only. *)
Definition press_inv (s : SinkId) st : Prop :=
  open s (shared_chans (srv_service st)) ∧ Forall (λ p, p.2 = press_frame) (spawned_sends st).

(** The [n] frames [s] is owed: received since [st], or on the way. *)
Definition owed_since (s : SinkId) st st' (n : nat) : Prop :=
  ∃ k, received_frames s st' = received_frames s st ++ replicate k press_frame
       ∧ k + on_the_way s st' = on_the_way s st + n.

Lemma filter_presses s calls :
  length (filter (λ p : SinkId * AppMessageFrame, p.1 = s)
            ((λ call, (outgoing call, press_frame)) <$> calls))
  = length (filter (λ c, outgoing c = s) calls).
Proof.
  induction calls as [|c calls IH]; [done|]. rewrite fmap_cons, !list.filter_cons. simpl.
  case_decide; simpl; by rewrite IH.
Qed.

Lemma filter_delete (s : SinkId) (l : list (SinkId * AppMessageFrame)) i p :
  l !! i = Some p →
  length (filter (λ p, p.1 = s) l)
  = (if decide (p.1 = s) then 1 else 0) + length (filter (λ p, p.1 = s) (delete i l)).
Proof.
  intros Hi. rewrite <- (take_drop_middle l i p Hi) at 1. rewrite delete_take_drop.
  rewrite !list.filter_app, !length_app, list.filter_cons. case_decide; simpl; lia.
Qed.

Lemma server_event_inv s st call :
  press_inv s st →
  let st' := server_event (DAppIncomingCall call) st in
  press_inv s st' ∧ received_frames s st' = received_frames s st ∧ on_the_way s st' = on_the_way s st
  ∧ connected s st' = connected s st
      + if decide (cr_to_caller (call_request call) = Some s) then 1 else 0.
Proof.
  intros [Ho Hp]. unfold server_event, answer_call, press_inv, received_frames, on_the_way, connected.
  destruct (keep_after_channel s 1 _ Ho) as [Hne Ho'].
  destruct (mpsc_channel 1 (shared_chans (srv_service st))) as [to_me cs] eqn:Hc. simpl in *.
  apply mpsc_channel_new in Hc as [_ Hrec].
  pose proof (keep_after_answer s (call_sender call) (Some to_me) cs Ho') as Ho2.
  pose proof (oneshot_send_received (Msg:=AppMessageFrame) (call_sender call) (Some to_me) cs s) as Hr2.
  destruct (oneshot_send (call_sender call) (Some to_me) cs) as [r cs2]. simpl in *.
  split; [done|]. split; [by rewrite Hr2, Hrec|]. split; [done|].
  rewrite list.filter_app, length_app. f_equal.
  destruct (cr_to_caller (call_request call)) as [t|]; [|done]. rewrite list.filter_cons. simpl.
  repeat case_decide; simplify_eq; done.
Qed.

Lemma run_send_inv s st i :
  press_inv s st →
  let st' := run_send i st in
  press_inv s st' ∧ connected s st' = connected s st ∧ owed_since s st st' 0.
Proof.
  intros [Ho Hp]. unfold run_send, press_inv, connected, owed_since, received_frames, on_the_way.
  destruct (spawned_sends st !! i) as [[t frame]|] eqn:Hi; simpl.
  2: { split; [done|]. split; [done|]. exists 0. by rewrite app_nil_r. }
  assert (frame = press_frame) as -> by (by apply (Forall_lookup_1 _ _ _ _ Hp Hi)).
  pose proof (keep_after_send s t press_frame _ Ho) as Ho'.
  pose proof (filter_delete s _ _ _ Hi) as Hcount. cbn [fst] in Hcount.
  split; [split; [done|by apply Forall_delete]|]. split; [done|].
  destruct (mpsc_send t press_frame (shared_chans (srv_service st))) as [[[]|e] c'] eqn:Hs; simpl in *.
  - apply mpsc_send_ok in Hs as [Hsame Hother]. case_decide as Ht.
    + subst t. exists 1. split; [done|]. lia.
    + exists 0. rewrite app_nil_r. split; [by apply Hother|]. lia.
  - case_decide as Ht.
    + subst t. pose proof (keep_send s press_frame _ Ho) as Hk. rewrite Hs in Hk. done.
    + exists 0. rewrite app_nil_r. split; [by eapply mpsc_send_err|]. lia.
Qed.

Lemma server_ops_inv s ops st :
  press_inv s st →
  press_inv s (server_ops ops st) ∧ owed_since s st (server_ops ops st) (expected s (connected s st) ops).
Proof.
  revert st; induction ops as [|op ops IH]; intros st Hinv.
  { split; [done|]. exists 0. rewrite app_nil_r. split; [done|]. done. }
  assert (∃ m, press_inv s (server_op op st) ∧ owed_since s st (server_op op st) m
    ∧ expected s (connected s st) (op :: ops) = m + expected s (connected s (server_op op st)) ops)
    as (m & Hinv' & (k1 & Hr1 & Hk1) & Hexp).
  { destruct op as [[c|call]| |i]; cbn [server_op expected].
    - exists 0. split; [done|]. split; [|done]. exists 0. by rewrite app_nil_r.
    - destruct (server_event_inv s st call Hinv) as (H1 & H2 & H3 & H4). exists 0. rewrite H4.
      split; [done|]. split; [|done]. exists 0. rewrite H2, H3, app_nil_r. done.
    - exists (connected s st). destruct Hinv as [Ho Hp]. split; [|split; [|done]].
      + split; [done|]. simpl. apply Forall_app. split; [done|]. by apply Forall_fmap, Forall_true.
      + exists 0. rewrite app_nil_r. split; [done|]. unfold on_the_way, fwd_pressed. simpl.
        rewrite list.filter_app, length_app, filter_presses. done.
    - destruct (run_send_inv s st i Hinv) as (H1 & H2 & H3). exists 0. by rewrite H2. }
  destruct (IH _ Hinv') as [Hfin (k2 & Hr2 & Hk2)]. cbn [server_ops foldl].
  split; [done|]. exists (k1 + k2). unfold server_ops in *. rewrite Hr2, Hr1, replicate_add, app_assoc.
  split; [done|]. lia.
Qed.

(** Running every spawned send once. *)
Definition drain st : ServerState Env Store PStore Chans :=
  server_ops (replicate (length (spawned_sends st)) (OpSend 0)) st.

Lemma drain_spawned st : spawned_sends (drain st) = [].
Proof.
  unfold drain. remember (spawned_sends st) as l eqn:Hl. revert st Hl.
  induction l as [|[t f] l IH]; intros st Hl; [done|]. cbn. apply IH.
  unfold run_send. by rewrite <- Hl.
Qed.

Lemma expected_sends s n k : expected s k (replicate n (OpSend 0)) = 0.
Proof. by induction n. Qed.

End theorems.

Section client_theorems.
Context {BC : Bincode} {Env Store PStore Chans : Type}
        {KV : KeyValueStore Store ProfileId Profile}
        {PKV : KeyValueStore PStore ProfileId OwnProfile}
        {CH : Channels ProfileEvent Chans} {FCH : Channels AppMessageFrame Chans}
        {HC : HomeConnector Env}
        {SO : SelectOk (Client Env Store Chans)}
        {HV : HashValues ProfileId}.
Abbreviation S := (ConnectService Env Store PStore Chans).
Context {UI : UserInterface S}.
Implicit Types s : S.

Lemma pairing_response_some id event c :
  pairing_response id event = Some c ↔
  event = DAppPairingResponse c ∧ is_ok (proof_peer_id (ri_relation_proof c) id) = true.
Proof.
  unfold pairing_response. destruct event as [r|call]; [|by split; [|intros [??]]].
  destruct (is_ok (proof_peer_id (ri_relation_proof r) id)) eqn:Hok.
  - split; [by intros [= <-]|]. by intros [[= ->] _].
  - split; [done|]. intros [[= ->] ?]. congruence.
Qed.

(** Waiting for a pairing response ends with the first response that has the
    user as a side, and then succeeds unless the timer breaks; as long as there
    is none it goes on, and it fails when the events end.  Whose response it is
    does not matter: the contact need not be the one that was asked. *)
Theorem wait_for_pairing_response_spec events ended id timer :
  let concerns_me c := is_ok (proof_peer_id (ri_relation_proof c) id) = true in
  match wait_for_pairing_response events ended id timer with
  | Some (Ok c) => timer = Ok tt ∧ concerns_me c
      ∧ ∃ before after, events = before ++ DAppPairingResponse c :: after
          ∧ ∀ c', DAppPairingResponse c' ∈ before → ¬ concerns_me c'
  | Some (Err e) =>
      conn_kind e = Conn.ImplementationError ∧ is_err timer = true
        ∧ (∃ c, DAppPairingResponse c ∈ events ∧ concerns_me c)
      ∨ conn_kind e = Conn.LookupFailed ∧ ended = true
        ∧ ∀ c, DAppPairingResponse c ∈ events → ¬ concerns_me c
  | None => ended = false ∧ ∀ c, DAppPairingResponse c ∈ events → ¬ concerns_me c
  end.
Proof.
  cbn zeta. unfold wait_for_pairing_response.
  destruct (omap (pairing_response id) events) as [|c cs] eqn:Hom.
  - assert (∀ c, DAppPairingResponse c ∈ events →
              ¬ is_ok (proof_peer_id (ri_relation_proof c) id) = true) as Hno.
    { intros c Hin Hok. assert (c ∈ omap (pairing_response id) events) as Hc.
      { apply list_elem_of_omap. eexists. split; [exact Hin|]. by apply pairing_response_some. }
      rewrite Hom in Hc. by apply elem_of_nil in Hc. }
    destruct ended; [by right|done].
  - assert (∃ before after, events = before ++ DAppPairingResponse c :: after
        ∧ is_ok (proof_peer_id (ri_relation_proof c) id) = true
        ∧ ∀ c', DAppPairingResponse c' ∈ before →
            ¬ is_ok (proof_peer_id (ri_relation_proof c') id) = true)
      as (before & after & Hev & Hok & Hno).
    { clear -Hom. revert Hom. induction events as [|e events IH]; [done|]. cbn.
      destruct (pairing_response id e) as [c'|] eqn:He.
      - intros [= -> _]. apply pairing_response_some in He as [-> Hok].
        exists [], events. split; [done|]. split; [done|]. by intros c' ?%elem_of_nil.
      - intros (before & after & -> & Hok & Hno)%IH. exists (e :: before), after.
        split; [done|]. split; [done|]. intros c' [<-|Hin]%elem_of_cons Hc; [|by eapply Hno].
        assert (pairing_response id (DAppPairingResponse c') = Some c')
          by (by apply pairing_response_some). congruence. }
    destruct timer as [[]|e]; simpl.
    + split; [done|]. split; [done|]. by exists before, after.
    + left. split; [done|]. split; [done|]. exists c. split; [|done]. rewrite Hev. set_solver.
Qed.

(** With a contact already there the client pairs with nobody: the latest one is
    used, and making the future of the request has no effect. *)
Lemma get_or_create_contact_existing stream_items timer ctx cfg d s w p :
  profile_heap w !! ds_my_profile d = Some p →
  ∀ q, profile_heap s !! ds_my_profile d = Some q →
  ∀ c, list.last (relation_from d <$> relations_with_peer q (callee_profile_id cfg)
                    (Some (ds_app_id d)) None) = Some c →
  let '(fut, s') := get_or_create_contact stream_items timer ctx cfg d s in
  s' = s ∧ (fut w).1 = Ok c
  ∧ shared_env (fut w).2 = shared_env w ∧ shared_repo (fut w).2 = shared_repo w.
Proof.
  intros Hp q Hq c Hlast. unfold get_or_create_contact, contacts_with_profile, with_my_profile.
  rewrite Hq. simpl. split; [done|]. unfold and_then, future_ok, initiate_contact, on_profile.
  simpl. rewrite Hp. unfold initiate_relation, load_profile, repo_load. simpl.
  by rewrite Hlast.
Qed.

(** The server accepts pairing requests until one fails: as long as every
    accept succeeds each request is accepted in turn, but after the first that
    fails, because it is not addressed to the user or because a home cannot be
    reached, the loop is over and no later request is looked at. *)
Theorem accept_task_stops r before hp after s :
  (∀ before1 hp1 rest, before = before1 ++ PairingRequest hp1 :: rest →
     let s1 := (accept_task r before1 s).2 in
     is_ok (await (on_profile r (accept_relation hp1)) s1).1 = true) →
  let s1 := (accept_task r before s).2 in
  (accept_task r before s).1 = Ok tt
  ∧ match await (on_profile r (accept_relation hp)) s1 with
    | (Ok _, s2) => accept_task r (before ++ PairingRequest hp :: after) s = accept_task r after s2
    | (Err _, s2) => accept_task r (before ++ PairingRequest hp :: after) s = (Err tt, s2)
    end.
Proof.
  intros Hok.
  assert (∀ hp s, await (accept_event r (PairingRequest hp)) s
    = let '(res, s') := await (on_profile r (accept_relation hp)) s in
      (map_err (λ _, tt) ((λ _, tt) <$> res), s')) as Hacc.
  { intros hp1 s1. unfold await, accept_event, future_map_err, future_map.
    destruct (on_profile r (accept_relation hp1) s1) as [fut s2]. by destruct (fut s2). }
  assert ((accept_task r before s).1 = Ok tt) as Hbefore.
  { clear after hp. induction before as [|ev before IH] using rev_ind; [done|].
    assert ((accept_task r before s).1 = Ok tt) as Hb.
    { apply IH. intros b1 hp1 rest ->. apply (Hok b1 hp1 (rest ++ [ev])). by rewrite <- app_assoc. }
    unfold accept_task in *. rewrite for_each_app.
    destruct (for_each (accept_event r) before s) as [[[]|e] s1] eqn:Hs1; [|done].
    assert ((for_each (accept_event r) [ev] s1).1 = (await (accept_event r ev) s1).1) as ->.
    { simpl. unfold and_then. by destruct (await (accept_event r ev) s1) as [[[]|] s2]. }
    destruct ev as [data|hp1|rp]; try done. rewrite Hacc.
    specialize (Hok before hp1 [] eq_refl). rewrite Hs1 in Hok. cbn [snd] in Hok.
    destruct (await (on_profile r (accept_relation hp1)) s1) as [[|] ?]; done. }
  split; [done|]. unfold accept_task in *. cbn zeta. rewrite for_each_app.
  destruct (for_each (accept_event r) before s) as [[[]|e] s1]; [|done]. cbn [fst snd].
  cbn [for_each]. unfold and_then. rewrite !Hacc.
  by destruct (await (on_profile r (accept_relation hp)) s1) as [[rp|e] s2].
Qed.

End client_theorems.

(** When the parser has accepted the command line, [main] finds all its options
    and one of its two subcommands, so that it never reports an unknown or a
    missing one; it panics only on the identifier of a server that is not in a
    multibase. *)
Lemma button_main_parsed `{Log4rs} `{Clap} `{!ClapLaws} {MB : Multibase} {MH : Multihash} {ED : Ed25519}
    {Env Store Chans : Type} {KV : KeyValueStore Store ProfileId Profile}
    fs_read parse_addr to_multiaddr (repo_store : Result string Store) (c : Chans) (e : Env) argv m :
  get_matches cli argv = Some m → is_present m CLI_VERSION = false → start_logging m = Returns tt →
  ∃ priv_key node_id node_addr args,
    button_main fs_read parse_addr to_multiaddr repo_store c e m
    = (appcx ← AppContext_new fs_read parse_addr to_multiaddr priv_key node_id node_addr repo_store c e;
       try appcx (λ '(service, appcx),
         app ← select_app (subcommand m).1 (Some args);
         try app (λ app, Returns (Ok (Some (service, appcx, app))))))
    ∧ ((subcommand m).1 = CLI_SERVER
         ∧ select_app (subcommand m).1 (Some args)
           = Returns (RunServer <$> ServerConfig_try_from (args CLI_EVENT_TIMER))
       ∨ ∃ profile, (subcommand m).1 = CLI_CLIENT ∧ args CLI_SERVER_PROFILE = Some profile
         ∧ (is_ok (mb_decode profile) = true →
            ∃ res, select_app (subcommand m).1 (Some args) = Returns res)).
Proof.
  intros Hm Hv Hlog. destruct (cli_matches argv m Hm) as ([k Hk] & [n Hn] & [a Ha] & args & Hsub).
  exists k, n, a, args. unfold button_main. rewrite Hv, Hlog, Hk, Hn, Ha. simpl.
  destruct Hsub as [->|[-> [profile Hp]]]; (split; [done|]).
  - left. split; [done|]. unfold select_app. cbn [fst]. case_decide; [|done].
    by destruct (ServerConfig_try_from (args CLI_EVENT_TIMER)).
  - right. exists profile. split; [done|]. split; [done|]. intros Hok. unfold select_app, ClientConfig_try_from.
    cbn [fst]. case_decide; [done|]. case_decide; [|done]. rewrite Hp.
    destruct (match args "on-fail" with None => _ | Some _ => _ end) as [o|]; [|by eexists].
    simpl. destruct (mb_decode profile) as [[]|]; [|done]. by eexists.
Qed.
