(* ===== verification/ButtonRun.v ===== *)
(** * The running programs of TheButton ([examples/TheButton/src/server.rs], [main.rs])

    The server is a [select] over its parts: the events of its session, the
    presses it forwards, the signals and the ticks that press the button; the
    main function selects it with the interrupt signal.  Here is one poll of
    that combination, runs of polls and spawned sends, and what a run comes to. *)

From Stdlib Require Import ZArith.
From S2P Require Import Prelude Errors External Storage Protocol Relation Rpc HomeServer.
From S2P Require Import Connect Net Service Config Startup ButtonCli TheButton.

(** What polling a stream yields before it has to wait. *)
Inductive Polled (E A : Type) : Type :=
| Item (a : A)
| Failed (e : E)
| Ended.
Arguments Item {E A} a.
Arguments Failed {E A} e.
Arguments Ended {E A}.

(** [Stream::map_err]. *)
Definition polled_map_err {E F A} (f : E → F) (p : Polled E A) : Polled F A :=
  match p with Item a => Item a | Failed e => Failed (f e) | Ended => Ended end.

(** [signal_recv] of [main.rs]. *)
Definition signal_recv (items : list (Polled string Z)) : list (Polled ConnError Z) :=
  polled_map_err (conn_context Conn.ImplementationError) <$> items.

(** One poll of [for_each], with a body that is never pending: [None] when the
    stream is waited for. *)
Fixpoint poll_for_each {W A} (body : A → W → W) (items : list (Polled ConnError A)) (w : W)
  : W * option (Result ConnError unit) :=
  match items with
  | [] => (w, None)
  | Item a :: items => poll_for_each body items (body a w)
  | Failed e :: _ => (w, Some (Err e))
  | Ended :: _ => (w, Some (Ok tt))
  end.

(** [Future::select]: the first future is polled first, and the second only when
    the first is pending; the one that is left is dropped. *)
Definition select {W R} (a b : W → W * option R) : W → W * option R := λ w,
  match a w with (w, Some r) => (w, Some r) | (w, None) => b w end.

(** What the streams of the program yield in one poll. *)
Record Turn : Type := mkTurn
  { turn_events : list (Polled unit DAppEvent); turn_sigusr1 : list (Polled string Z);
    turn_ticks : list (Polled string unit); turn_sigint : list (Polled string Z) }.
Definition idle : Turn := mkTurn [] [] [] [].

(** [signal_recv(SIGINT).into_future()]: the first item, or the end. *)
Definition sigint_fut {W} (t : Turn) : W → W * option (Result ConnError unit) := λ w,
  (w, match signal_recv (turn_sigint t) with
      | [] => None
      | Failed e :: _ => Some (Err e)
      | _ => Some (Ok tt)
      end).

(** *** The client: [for_each] on the frames of its call, which ends at the first
    that is an error, under the same [select] *)
Definition client_item (p : Polled unit (Result string AppMessageFrame)) : Polled ConnError AppMessageFrame :=
  match p with
  | Item (Ok frame) => Item frame
  | Item (Err _) | Failed _ => Failed (conn_from Conn.CallFailed)
  | Ended => Ended
  end.
Definition client_messages (items : list (Polled unit (Result string AppMessageFrame)))
  : list AppMessageFrame → list AppMessageFrame * option (Result ConnError unit) :=
  poll_for_each (λ frame seen, seen ++ [frame]) (client_item <$> items).
Definition client_app_fut (items : list (Polled unit (Result string AppMessageFrame))) (t : Turn) :=
  select (client_messages items) (sigint_fut t).

Section run.
Context {BC : Bincode} {Env Store PStore Chans : Type}
        {KV : KeyValueStore Store ProfileId Profile}
        {PKV : KeyValueStore PStore ProfileId OwnProfile}
        {CH : Channels ProfileEvent Chans} {FCH : Channels AppMessageFrame Chans}
        {HC : HomeConnector Env}
        {SO : SelectOk (Client Env Store Chans)}
        {HV : HashValues ProfileId}.
Abbreviation S := (ConnectService Env Store PStore Chans).
Abbreviation ServerState := (ServerState Env Store PStore Chans).
Context {UI : UserInterface S}.
Implicit Types (ctx : AppContext) (cfg : ServerConfig) (t : Turn) (st : ServerState).

(** The server with the presses that wait in its channel. *)
Abbreviation Part := (ServerState * nat → (ServerState * nat) * option (Result ConnError unit)).

(** ** The parts of the server *)

Definition dapp_events_fut t : Part :=
  poll_for_each (λ event '(st, pressed), (server_event event st, pressed))
    (polled_map_err (λ _, conn_from Conn.ConnectionFailed) <$> turn_events t).

(** The channel has a sender as long as the part for the signal is there. *)
Definition fwd_pressed_fut : Part := λ '(st, pressed), ((Nat.iter pressed fwd_pressed st, 0), None).

(** [generate_button_press.clone().send(())]: a new clone of a sender has a slot
    of its own, so the send completes. *)
Definition generate_button_press (w : ServerState * nat) : ServerState * nat := (w.1, Datatypes.S w.2).

Definition press_on_sigusr1_fut t : Part :=
  poll_for_each (λ _, generate_button_press) (signal_recv (turn_sigusr1 t)).

Definition press_on_timer_fut t : Part :=
  poll_for_each (λ _, generate_button_press)
    (polled_map_err (conn_context Conn.ImplementationError) <$> turn_ticks t).

Definition server_fut cfg t : Part :=
  let server_fut := select (select (dapp_events_fut t) fwd_pressed_fut) (press_on_sigusr1_fut t) in
  match event_timer cfg with
  | None => server_fut
  | Some _interval_secs => select server_fut (press_on_timer_fut t)
  end.

(** ** [main.rs] *)

Definition app_fut cfg t : Part := select (server_fut cfg t) (sigint_fut t).

(** The program while the reactor runs it: [ended] is what [main] returns, and
    from then on nothing runs any more. *)
Record Running : Type := mkRunning
  { run_server : ServerState; pressed : nat; ended : option (Result ConnError unit) }.

(** [Server::new] and its [into_future], up to where all parts wait: the session
    is asked for first, then the profile joins and logs in, with any result, and
    then the server needs its session and checks in.  [interval_new] is
    [reactor::Interval::new] of that many seconds. *)
Definition Server_into_future (interval_new : N → Result string unit) cfg ctx (s : S)
  : Panicking Running :=
  let '(session_fut, s) := dapp_session BUTTON_APP_ID None s in
  _interval ← match event_timer cfg with
              | None => Returns tt
              | Some interval_secs => unwrap (interval_new interval_secs)
              end;
  let '(init, s) := await (init_server ctx) s in
  let accept_loops := match init with Ok task => [task] | Err _ => [] end in
  let '(events, s) := and_then session_fut checkin s in
  Returns (mkRunning (mkServerState s [] accept_loops []) 0
             match events with Ok _ => None | Err e => Some (Err e) end).

(** The reactor polls the application, or one of the spawned sends. *)
Inductive RunStep : Type :=
| RunPoll (t : Turn)
| RunSend (i : nat).

Definition run_step cfg (step : RunStep) (r : Running) : Running :=
  match ended r with
  | Some _ => r
  | None =>
      match step with
      | RunPoll t =>
          let '((st, pressed), result) := app_fut cfg t (run_server r, pressed r) in
          mkRunning st pressed result
      | RunSend i => mkRunning (run_send i (run_server r)) (pressed r) None
      end
  end.
Definition run_steps cfg (steps : list RunStep) (r : Running) : Running :=
  foldl (λ r step, run_step cfg step r) r steps.

(** Whatever is still on its way: the presses in the channel are forwarded, and
    the spawned sends run. *)
Definition settle cfg (r : Running) : ServerState :=
  drain (run_server (run_step cfg (RunPoll idle) r)).

End run.
Arguments Running : clear implicits.

(** ** What a run comes to *)

Definition items_of {E A} (items : list (Polled E A)) : list A :=
  omap (λ p, match p with Item a => Some a | _ => None end) items.

(** How a stream ends its part. *)
Fixpoint stream_result {E A} (fail : E → ConnError) (items : list (Polled E A))
  : option (Result ConnError unit) :=
  match items with
  | [] => None
  | Item _ :: items => stream_result fail items
  | Failed e :: _ => Some (Err (fail e))
  | Ended :: _ => Some (Ok tt)
  end.

Definition implementation_error : string → ConnError := conn_context Conn.ImplementationError.

(** How a poll ends the program: by the first of its parts that ends, the
    interrupt being the last of them. *)
Definition turn_result (cfg : ServerConfig) (t : Turn) : option (Result ConnError unit) :=
  head (omap id
    [ stream_result (λ _, conn_from Conn.ConnectionFailed) (turn_events t);
      stream_result implementation_error (turn_sigusr1 t);
      match event_timer cfg with
      | Some _ => stream_result implementation_error (turn_ticks t)
      | None => None
      end;
      match turn_sigint t with
      | [] => None
      | Failed e :: _ => Some (Err (implementation_error e))
      | _ => Some (Ok tt)
      end ]).
Definition step_result (cfg : ServerConfig) (step : RunStep) : option (Result ConnError unit) :=
  match step with RunPoll t => turn_result cfg t | RunSend _ => None end.

(** The presses of a poll, and the calls it answers whose frames go to [s]. *)
Definition turn_presses (cfg : ServerConfig) (t : Turn) : nat :=
  length (items_of (turn_sigusr1 t))
  + match event_timer cfg with Some _ => length (items_of (turn_ticks t)) | None => 0 end.
Definition goes_to (s : SinkId) (event : DAppEvent) : nat :=
  match event with
  | DAppIncomingCall call => if decide (cr_to_caller (call_request call) = Some s) then 1 else 0
  | DAppPairingResponse _ => 0
  end.
Definition turn_calls (s : SinkId) (t : Turn) : nat :=
  sum_list (goes_to s <$> items_of (turn_events t)).

(** The frames [s] is owed by a run, given its calls and the presses that wait:
    a press is forwarded by the poll after the one that has noticed it, to
    everyone whose call has been answered by then. *)
Fixpoint owed_frames (cfg : ServerConfig) (s : SinkId) (calls waiting : nat) (steps : list RunStep) : nat :=
  match steps with
  | [] => calls * waiting
  | RunSend _ :: steps => owed_frames cfg s calls waiting steps
  | RunPoll t :: steps =>
      let calls := calls + turn_calls s t in
      calls * waiting + owed_frames cfg s calls (turn_presses cfg t) steps
  end.

(** ** Theorems *)

Lemma poll_for_each_spec {E A W} (f : E → ConnError) (body : A → W → W) items w :
  (poll_for_each body (polled_map_err f <$> items) w).2 = stream_result f items
  ∧ (stream_result f items = None →
       (poll_for_each body (polled_map_err f <$> items) w).1
       = foldl (λ w a, body a w) w (items_of items)).
Proof.
  revert w; induction items as [|[a|e|] items IH]; intros w; try (by split).
  exact (IH (body a w)).
Qed.

Lemma select_spec {W R} (a b : W → W * option R) w :
  select a b w = match (a w).2 with Some r => ((a w).1, Some r) | None => b (a w).1 end.
Proof. unfold select. by destruct (a w) as [w' [r|]]. Qed.

Lemma foldl_count {A} (n : nat) (xs : list A) : foldl (λ n _, S n) n xs = n + length xs.
Proof. revert n; induction xs as [|x xs IH]; intros n; simpl; [lia|]. rewrite IH. lia. Qed.

(** Polled until its stream ends, the client comes to what the loop of
    [Client_into_future] does. *)
Lemma client_messages_loop {Env Store PStore Chans : Type} (frames : list (Result string AppMessageFrame))
    seen (w : ConnectService Env Store PStore Chans) :
  (client_messages ((Item <$> frames) ++ [Ended]) seen).2
  = Some (future_map_err (λ _, conn_from Conn.CallFailed) (for_each client_frame frames) w).1.
Proof.
  unfold client_messages. revert seen; induction frames as [|[frame|e] frames IH]; intros seen; [done| |done].
  exact (IH (seen ++ [frame])).
Qed.

Section theorems.
Context {BC : Bincode} {Env Store PStore Chans : Type}
        {KV : KeyValueStore Store ProfileId Profile}
        {PKV : KeyValueStore PStore ProfileId OwnProfile}
        {CH : Channels ProfileEvent Chans} {FCH : Channels AppMessageFrame Chans}
        {FCHL : ChannelsLaws AppMessageFrame Chans}
        {HC : HomeConnector Env}
        {SO : SelectOk (Client Env Store Chans)}
        {HV : HashValues ProfileId}.
Abbreviation S := (ConnectService Env Store PStore Chans).
Context {UI : UserInterface S}.
Context {open : SinkId → Chans → Prop} {KO : KeepsOpen (Msg:=AppMessageFrame) open}.
Implicit Types (st : ServerState Env Store PStore Chans) (r : Running Env Store PStore Chans).

(** What a poll that does not end the program does to the server. *)
Definition turn_ops (waiting : nat) (t : Turn) : list ServerOp :=
  (OpEvent <$> items_of (turn_events t)) ++ replicate waiting OpPress.

Lemma server_ops_app st ops ops' : server_ops (ops ++ ops') st = server_ops ops' (server_ops ops st).
Proof. unfold server_ops. by rewrite foldl_app. Qed.

Lemma server_ops_presses st n : server_ops (replicate n OpPress) st = Nat.iter n fwd_pressed st.
Proof.
  revert st; induction n as [|n IH]; intros st; [done|].
  cbn [replicate server_ops foldl server_op]. fold (server_ops (replicate n OpPress) (fwd_pressed st)).
  rewrite IH. symmetry. apply Nat.iter_succ_r.
Qed.

Lemma dapp_events_fut_spec t st n :
  (dapp_events_fut t (st, n)).2 = stream_result (λ _, conn_from Conn.ConnectionFailed) (turn_events t)
  ∧ (stream_result (λ _, conn_from Conn.ConnectionFailed) (turn_events t) = None →
       (dapp_events_fut t (st, n)).1 = (server_ops (OpEvent <$> items_of (turn_events t)) st, n)).
Proof.
  unfold dapp_events_fut.
  match goal with |- context [poll_for_each ?b (polled_map_err ?f <$> ?i) ?w] =>
    destruct (poll_for_each_spec f b i w) as [-> H] end.
  split; [done|]. intros ->%H. generalize (items_of (turn_events t)) as events. clear.
  intros events; revert st; induction events as [|event events IH]; intros st; [done|].
  apply (IH (server_event event st)).
Qed.

Lemma presses_spec {E A} (f : E → ConnError) (items : list (Polled E A)) st n :
  let part := poll_for_each (λ _, generate_button_press) (polled_map_err f <$> items) in
  (part (st, n)).2 = stream_result f items
  ∧ (stream_result f items = None → (part (st, n)).1 = (st, n + length (items_of items))).
Proof.
  cbn zeta. match goal with |- context [poll_for_each ?b (polled_map_err _ <$> _) ?w] =>
    destruct (poll_for_each_spec f b items w) as [-> H] end.
  split; [done|]. intros ->%H. rewrite <- foldl_count. generalize (items_of items) as xs, n. clear.
  intros xs; induction xs as [|x xs IH]; intros n; [done|]. apply (IH (Datatypes.S n)).
Qed.

Lemma press_on_sigusr1_fut_spec t st n :
  (press_on_sigusr1_fut t (st, n)).2 = stream_result implementation_error (turn_sigusr1 t)
  ∧ (stream_result implementation_error (turn_sigusr1 t) = None →
       (press_on_sigusr1_fut t (st, n)).1 = (st, n + length (items_of (turn_sigusr1 t)))).
Proof. apply presses_spec. Qed.

Lemma press_on_timer_fut_spec t st n :
  (press_on_timer_fut t (st, n)).2 = stream_result implementation_error (turn_ticks t)
  ∧ (stream_result implementation_error (turn_ticks t) = None →
       (press_on_timer_fut t (st, n)).1 = (st, n + length (items_of (turn_ticks t)))).
Proof. apply presses_spec. Qed.

Lemma sigint_fut_spec t (w : ServerState Env Store PStore Chans * nat) :
  sigint_fut t w
  = (w, match turn_sigint t with
        | [] => None | Failed e :: _ => Some (Err (implementation_error e)) | _ => Some (Ok tt) end).
Proof. unfold sigint_fut, signal_recv. by destruct (turn_sigint t) as [|[]]. Qed.

Lemma app_fut_spec cfg t st n :
  (app_fut cfg t (st, n)).2 = turn_result cfg t
  ∧ (turn_result cfg t = None →
       (app_fut cfg t (st, n)).1 = (server_ops (turn_ops n t) st, turn_presses cfg t)).
Proof.
  unfold app_fut, server_fut, turn_result, turn_presses, turn_ops.
  rewrite server_ops_app, server_ops_presses.
  destruct (dapp_events_fut_spec t st n) as [He Hev].
  set (st1 := server_ops (OpEvent <$> items_of (turn_events t)) st) in *.
  set (st2 := Nat.iter n fwd_pressed st1).
  destruct (press_on_sigusr1_fut_spec t st2 0) as [Hs Hsi].
  destruct (press_on_timer_fut_spec t st2 (length (items_of (turn_sigusr1 t)))) as [Ht Hti].
  set (re := stream_result _ (turn_events t)) in *.
  set (rs := stream_result _ (turn_sigusr1 t)) in *.
  set (rt := stream_result _ (turn_ticks t)) in *.
  clearbody re rs rt.
  destruct (event_timer cfg) as [secs|]; rewrite !select_spec, He;
    (destruct re as [x|]; [by split|rewrite Hev by done]); cbn [fwd_pressed_fut snd fst]; fold st2;
    rewrite Hs; (destruct rs as [x|]; [by split|rewrite Hsi by done]); cbn [Nat.add].
  - rewrite Ht. destruct rt as [x|]; [by split|]. rewrite Hti by done.
    rewrite sigint_fut_spec. by destruct (turn_sigint t) as [|[]].
  - rewrite sigint_fut_spec, Nat.add_0_r. by destruct (turn_sigint t) as [|[]].
Qed.

(** Calls and frames of a list of operations. *)
Lemma turn_ops_expected s c n t :
  expected s c (turn_ops n t) = (c + turn_calls s t) * n.
Proof.
  unfold turn_ops, turn_calls. generalize (items_of (turn_events t)) as events. intros events.
  revert c; induction events as [|[rel|call] events IH]; intros c; simpl.
  - rewrite Nat.add_0_r. induction n as [|n IHn]; simpl; [lia|]. rewrite IHn. lia.
  - apply IH.
  - rewrite IH. unfold id. by rewrite Nat.add_assoc.
Qed.

Lemma turn_ops_connected s n t st :
  press_inv (open:=open) s st →
  connected s (server_ops (turn_ops n t) st) = connected s st + turn_calls s t.
Proof.
  unfold turn_ops, turn_calls. generalize (items_of (turn_events t)) as events. intros events.
  revert st; induction events as [|[rel|call] events IH]; intros st Hinv.
  - transitivity (connected s (Nat.iter n fwd_pressed st)); [by rewrite <- server_ops_presses|].
    rewrite Nat.add_0_r. clear Hinv. induction n as [|n IHn]; [done|]. exact IHn.
  - exact (IH st Hinv).
  - destruct (server_event_inv s st call Hinv) as (Hinv' & _ & _ & Hc).
    transitivity (connected s (server_event (DAppIncomingCall call) st) + sum_list (goes_to s <$> events));
      [exact (IH _ Hinv')|]. by rewrite Hc, <- Nat.add_assoc.
Qed.

Lemma run_step_ended cfg step r res : ended r = Some res → run_step cfg step r = r.
Proof. unfold run_step. by intros ->. Qed.

Lemma run_ended cfg steps r res : ended r = Some res → run_steps cfg steps r = r.
Proof. intros H. induction steps as [|step steps IH]; [done|]. simpl. by rewrite (run_step_ended _ _ _ _ H). Qed.

Lemma run_step_spec cfg step r :
  ended r = None →
  ended (run_step cfg step r) = step_result cfg step
  ∧ (step_result cfg step = None →
     run_server (run_step cfg step r) =
       match step with
       | RunPoll t => server_ops (turn_ops (pressed r) t) (run_server r)
       | RunSend i => server_ops [OpSend i] (run_server r)
       end
     ∧ pressed (run_step cfg step r) =
         match step with RunPoll t => turn_presses cfg t | RunSend _ => pressed r end).
Proof.
  intros Hr. unfold run_step. rewrite Hr. destruct step as [t|i]; [|done].
  destruct (app_fut_spec cfg t (run_server r) (pressed r)) as [H1 H2]. cbn [step_result].
  destruct (app_fut cfg t _) as [[st n] res]. cbn [fst snd] in *. subst res. split; [done|].
  intros [= -> ->]%H2. done.
Qed.

Lemma run_results cfg steps r :
  ended r = None → ended (run_steps cfg steps r) = head (omap (step_result cfg) steps).
Proof.
  revert r; induction steps as [|step steps IH]; intros r Hr; [done|].
  destruct (run_step_spec cfg step r Hr) as [Hs _]. cbn [omap list_omap run_steps foldl].
  change (foldl _ ?x ?l) with (run_steps cfg l x).
  destruct (step_result cfg step) as [res|]; [by rewrite (run_ended _ _ _ res)|by apply IH].
Qed.

(** What is owed adds up. *)
Lemma owed_since_trans s st st1 st2 n m :
  owed_since s st st1 n → owed_since s st1 st2 m → owed_since s st st2 (n + m).
Proof.
  intros (k & Hk & Hn) (l & Hl & Hm). exists (k + l). rewrite Hl, Hk, replicate_add, app_assoc.
  split; [done|lia].
Qed.

(** Over a run that has not ended a client is owed what [owed_frames] says. *)
Lemma run_owed cfg s steps r :
  ended (run_steps cfg steps r) = None → press_inv (open:=open) s (run_server r) →
  let r' := run_steps cfg steps r in
  press_inv (open:=open) s (run_server r')
  ∧ ∃ k, owed_since s (run_server r) (run_server r') k
      ∧ k + connected s (run_server r') * pressed r'
        = owed_frames cfg s (connected s (run_server r)) (pressed r) steps.
Proof.
  revert r; induction steps as [|step steps IH]; intros r Hrun Hinv.
  { split; [done|]. exists 0. split; [|done]. exists 0. by rewrite app_nil_r. }
  assert (ended r = None) as Hr.
  { destruct (ended r) as [res|] eqn:Hr; [|done]. rewrite (run_ended _ _ _ _ Hr) in Hrun. congruence. }
  cbn [run_steps foldl] in Hrun |- *. change (foldl _ ?x ?l) with (run_steps cfg l x) in *.
  destruct (run_step_spec cfg step r Hr) as [Hend Hst].
  destruct (step_result cfg step) as [res|] eqn:Hres; [by rewrite (run_ended _ _ _ _ Hend) in Hrun; congruence|].
  specialize (Hst eq_refl) as [Hserver Hpressed].
  destruct step as [t|i].
  - destruct (server_ops_inv s (turn_ops (pressed r) t) (run_server r) Hinv) as [Hinv1 Howed].
    rewrite turn_ops_expected in Howed. pose proof (turn_ops_connected s (pressed r) t _ Hinv) as Hc.
    rewrite <- Hserver in Hinv1, Howed, Hc. destruct (IH _ Hrun Hinv1) as (Hinv2 & k & Hk & Hsum).
    split; [done|]. eexists. split; [by eapply owed_since_trans|]. cbn [owed_frames].
    rewrite Hpressed, Hc in Hsum. lia.
  - destruct (server_ops_inv s [OpSend i] (run_server r) Hinv) as [Hinv1 Howed].
    destruct (run_send_inv s (run_server r) i Hinv) as (_ & Hc & _).
    change (run_send i (run_server r)) with (server_ops [OpSend i] (run_server r)) in Hc.
    rewrite <- Hserver in Hinv1, Howed, Hc. destruct (IH _ Hrun Hinv1) as (Hinv2 & k & Hk & Hsum).
    split; [done|]. exists k. split; [by apply (owed_since_trans s _ _ _ 0 k Howed)|].
    rewrite Hpressed, Hc in Hsum. exact Hsum.
Qed.

(** C17: what a run of the server comes to.  It ends exactly when the first of its
    parts ends or the interrupt arrives, with the result of that part, a failed
    stream being reported as its error; from then on nothing happens any more.
    As long as it has not ended, every press of the button by a signal or by a
    tick of the timer is one frame for every client whose call had been answered
    when the press was forwarded, which is at the next poll: once what is on its
    way has settled, a client that is still there has got exactly those frames,
    whatever the order of calls, presses and spawned sends, and no matter which
    other clients have gone away. *)
Theorem button_run_spec cfg s steps r :
  ended r = None →
  let r' := run_steps cfg steps r in
  ended r' = head (omap (step_result cfg) steps)
  ∧ (∀ more, is_Some (ended r') → run_steps cfg (steps ++ more) r = r')
  ∧ (ended r' = None → spawned_sends (run_server r) = [] → open s (shared_chans (srv_service (run_server r))) →
     let st := settle cfg r' in
     spawned_sends st = []
     ∧ received_frames s st = received_frames s (run_server r)
         ++ replicate (owed_frames cfg s (connected s (run_server r)) (pressed r) steps) press_frame).
Proof.
  intros Hr r'. split; [by apply run_results|]. split.
  { intros more [res Hres]. unfold run_steps. rewrite foldl_app. change (foldl _ ?x ?l) with (run_steps cfg l x).
    by apply (run_ended _ _ _ res). }
  intros Hrun Hsends Ho st. split; [apply drain_spawned|].
  assert (press_inv (open:=open) s (run_server r)) as Hinv by (split; [done|by rewrite Hsends]).
  destruct (run_owed cfg s steps r Hrun Hinv) as (Hinv1 & k & Hk & Hsum). fold r' in Hinv1, Hk, Hsum.
  unfold settle in st. destruct (run_step_spec cfg (RunPoll idle) r' Hrun) as [_ Hidle].
  assert (turn_result cfg idle = None) as Hno by (unfold turn_result; by destruct (event_timer cfg)).
  destruct (Hidle Hno) as [Hserver _]. unfold st. rewrite Hserver.
  set (ops := turn_ops (pressed r') idle) in *.
  destruct (server_ops_inv s ops _ Hinv1) as [Hinv2 Howed].
  unfold ops in Howed. rewrite turn_ops_expected in Howed. fold ops in Howed.
  set (n := length (spawned_sends (server_ops ops (run_server r')))).
  destruct (server_ops_inv s (replicate n (OpSend 0)) _ Hinv2) as [_ Hdrain].
  rewrite expected_sends in Hdrain. change (server_ops (replicate n (OpSend 0)) ?x) with (drain x) in Hdrain.
  destruct (owed_since_trans _ _ _ _ _ _ (owed_since_trans _ _ _ _ _ _ Hk Howed) Hdrain) as (j & -> & Hj).
  unfold on_the_way in Hj. rewrite drain_spawned, Hsends in Hj. simpl in Hj. do 2 f_equal.
  change (turn_calls s idle) with 0 in Hj. lia.
Qed.

End theorems.
