(* ===== verification/EndToEnd.v ===== *)
(** * Client and home together

    A client ([Connect.v]) whose homes are connections to the home node
    ([HomeServer.v]), and a run of the two: joining a home, logging in and
    pairing.  The witnesses of the client's properties are evaluated on it. *)

From S2P Require Import Prelude Errors External FutureUtil Storage Protocol Crypto Relation.
From S2P Require Import HomeServer Rpc Hoare HomeServerProps Connect ConnectFrame ConnectProps Handshake.
From S2P Require Import Net Service.

Section local.
Context {BC : Bincode} {Dht Db Chans : Type}
        {DHT : KeyValueStore Dht ProfileId Profile}
        {DB : KeyValueStore Db ProfileId OwnProfile}
        {CH : Channels ChanMsg Chans}.
Abbreviation World := (HomeServer Dht Db Chans).

(** [HomeSessionServer] as the trait object a client sees. *)
Definition local_session (ctx : PeerContext) (sid : SessionId) : ClientSession World :=
  mkClientSession
    (mkHomeSession (update ctx) (unregister ctx) ping)
    (λ w, let '(sink, w) := events sid w in (default 0 sink, w))
    (λ app w, let '(sink, w) := checkin_app sid app w in (default 0 sink, w)).

(** [HomeConnectionServer] as the trait object a client sees; a call that is
    not answered at once times out. *)
Definition local_home (conn : HomeConnectionServer) : ClientHome World :=
  mkHome (load conn) (claim conn) (register conn)
    (λ proof w, let '(fut, w) := login conn proof w in
                (future_map (local_session (context conn)) fut, w))
    (pair_request conn) (pair_response conn)
    (λ app req w, let '(fut, w) := call conn app req (Ok tt) w in
       (and_then fut (λ chan w,
          (future_result (default (Ok None) (poll_answer chan TimerFired w)), w)), w)).

(** Everybody reaches the home of [home_signer], as themselves. *)
Definition local_connector (home_signer : Signer) : HomeConnector World :=
  {| home_connect home_profile signer := λ w,
       (if decide (profile_id home_profile = signer_profile_id home_signer)
        then future_ok (local_home (mkConnection
               (mkPeerContext home_signer (signer_public_key signer) (signer_profile_id signer))))
        else future_err (conn_from Conn.ConnectionFailed), w) |}.

End local.

(** ** A run *)

Module Run.
Import HomeServerProps.Demo.
#[local] Existing Instance Sample.bincode.
#[local] Existing Instance Sample.multihash.
#[local] Existing Instance Sample.ed25519.
#[export] Existing Instance Sample.select_first.
#[export] Existing Instance Sample.select_first_laws.
#[export] Existing Instance Sample.hash_in_order.
#[export] Existing Instance Sample.hash_in_order_laws.
#[export] Instance connector : HomeConnector World := local_connector Actors.home.

Abbreviation ClientWorld := (Client World (InMemoryStore ProfileId Profile) (Sample.chans ProfileEvent)).

(** The home completes its sends in the order in which they were started. *)
Definition select_head (l : list (nat * (SinkId * Result string SinkId)))
  : (nat * Result string SinkId) * list (nat * (SinkId * Result string SinkId)) :=
  match l with
  | [] => ((0, Err "select_all on an empty list"), [])
  | (i, f) :: rest => ((i, f.2), rest)
  end.

Definition home_profile : Profile :=
  Profile_new_home (signer_profile_id Actors.home) (signer_public_key Actors.home)
    (mkMultiaddr [x01]).

Definition start_of (s : Signer) (w : World) : ClientWorld :=
  mkClient (MyProfileImpl_new (own_of s) s)
    (mkSimpleProfileRepo (mkInMemoryStore {[ signer_profile_id Actors.home := home_profile ]}))
    Sample.chans_empty w.

Definition home_id : ProfileId := signer_profile_id Actors.home.

(** Alice joins the home and logs in to it. *)
Definition joined : ClientWorld := (await (join_home home_id None) (start_of Actors.alice empty_world)).2.
Definition alice_online : ClientWorld := (await (login_home home_id) joined).2.

(** Bob is a client of his own; what they share is the home, and he knows
    Alice's profile. *)
Definition bob_joined : ClientWorld :=
  (await (join_home home_id None)
     (set_repo (profile_repo alice_online) (start_of Actors.bob (env alice_online)))).2.

Definition bob_asks : ClientWorld :=
  (await (initiate_relation "enable_call_between" (signer_profile_id Actors.alice)) bob_joined).2.
End Run.

(** ** Witnesses *)

Section witnesses.
#[local] Existing Instance Sample.bincode.
#[local] Existing Instance Sample.multihash.
#[local] Existing Instance Sample.ed25519.
Import HomeServerProps.Demo Run.

Lemma select_head_ok : select_all_ok snd select_head.
Proof. intros [|[i f] l] Hne; [done|]. by exists [], i, f, l. Qed.

Example alice_joins : (await (join_home home_id None) (start_of Actors.alice empty_world)).1 = Ok tt.
Proof. vm_compute. reflexivity. Qed.

Example alice_logs_in : (await (login_home home_id) joined).1 = Ok 0.
Proof. vm_compute. reflexivity. Qed.

Example bob_asks_alice :
  (await (initiate_relation "enable_call_between" (signer_profile_id Actors.alice)) bob_joined).1 = Ok tt.
Proof. vm_compute. reflexivity. Qed.

Lemma leave_home_keeps_session_witness :
  (await (leave_home home_id None) alice_online).1 = Ok tt
  ∧ login_home home_id (await (leave_home home_id None) alice_online).2
    = (future_ok 0, (await (leave_home home_id None) alice_online).2).
Proof.
  split; [vm_compute; reflexivity|].
  destruct (leave_home_keeps_session home_id None alice_online 0) as [H1 H2];
    [vm_compute; reflexivity|].
  exact (proj1 (H2 _ H1)).
Defined.

Lemma client_only_grows_witness :
  is_ok (await (login_home home_id) joined).1 = true
  ∧ grown joined (login_home home_id joined).2.
Proof.
  split; [vm_compute; reflexivity|].
  apply (client_only_grows select_head _ _ (login_home home_id) joined (op_user _ _ _ _ (op_login_home home_id))).
  split_and!; [|intros rs Hrs; exists []; by rewrite app_nil_r|done|done].
  assert (session_cache (me joined) = ∅) as Hc.
  { apply map_to_list_empty_iff. vm_compute. reflexivity. }
  assert (my_sessions (me joined) = ∅) as Hs.
  { apply map_to_list_empty_iff. vm_compute. reflexivity. }
  split; rewrite ?Hc, ?Hs; [done|]. by intros ? [].
Defined.

(** A listener on top of the internal one. *)
Definition watched : ClientWorld := (my_session_events 0 alice_online).2.

Lemma listeners_during_forwarding_witness :
  listeners_of 0 watched = Some [0; 1]
  ∧ (forward_event_safe select_head 0 (Ok (PairingResponse friends)) watched).2
    = set_listeners 0 [] watched.
Proof.
  assert (listeners_of 0 watched = Some [0; 1]) as Hl by (vm_compute; reflexivity).
  split; [exact Hl|].
  destruct (listeners_during_forwarding select_head 0 (PairingResponse friends) watched [0; 1]
              select_head_ok Hl) as [H _]; [|exact H].
  apply (bool_decide_unpack _). vm_compute. reflexivity.
Defined.

Lemma pairing_responses_stored_witness :
  ∃ listener, listeners_of 0 alice_online = Some [listener]
    ∧ relations (me (relations_task (mpsc_received listener (listener_chans
          (forward_task select_head 0 [Ok (PairingResponse friends); Err "gone"] alice_online).2))
        (forward_task select_head 0 [Ok (PairingResponse friends); Err "gone"] alice_online).2).2)
      = Some [friends].
Proof.
  destruct (pairing_responses_stored select_head home_id 0 joined alice_online
    [Ok (PairingResponse friends); Err "gone"] []) as (l & Hl & H).
  - exact select_head_ok.
  - pose proof (login_home_poll home_id joined joined) as H. unfold alice_online, await.
    assert (session_cache (me joined) !! home_id = None) as Hnone by (vm_compute; reflexivity).
    specialize (H Hnone). simpl in H.
    assert (((login_home home_id joined).1 joined).1 = Ok 0) as Hok by (vm_compute; reflexivity).
    assert ((login_home home_id joined).2 = joined) as Hcall by (unfold login_home; by rewrite Hnone).
    destruct (login_home home_id joined) as [f w1]. simpl in *. subst w1.
    destruct (f joined) as [r w2]. simpl in *. subst r. simpl. by destruct H as (_ & H & _).
  - vm_compute. reflexivity.
  - exists l. split; [exact Hl|]. vm_compute in Hl. injection Hl as <-. vm_compute. reflexivity.
Defined.

(** The profile of Alice as her home publishes it. *)
Definition alice_hosted : Profile := own_profile (mp_own_profile (me joined)).

Lemma any_home_found_witness :
  length (persona_homes_of alice_hosted) = 1
  ∧ only_env joined ((any_home_of2 alice_hosted Actors.bob joined).1 joined).2.
Proof.
  split; [vm_compute; reflexivity|].
  destruct (any_home_found alice_hosted Actors.bob joined joined) as [_ H].
  destruct ((any_home_of2 _ _ _).1 joined) as [r w3]. exact (proj1 H).
Defined.

Lemma login_home_spec_witness :
  (login_home home_id joined).2 = joined
  ∧ ∃ s e, logs_in home_id joined joined s e
      ∧ session <$> my_sessions (me ((login_home home_id joined).1 joined).2) !! 0 = Some s.
Proof.
  destruct (login_home_spec home_id joined) as [Hcall H]. split; [exact Hcall|].
  assert (session_cache (me joined) !! home_id = None) as Hnone by (vm_compute; reflexivity).
  assert (((login_home home_id joined).1 joined).1 = Ok 0) as Hok by (vm_compute; reflexivity).
  rewrite Hnone in H. specialize (H joined). destruct ((login_home home_id joined).1 joined) as [r w3].
  simpl in Hok. subst r. destruct H as (_ & _ & s & e & stream & l & Hlogs & _ & Hs & _).
  exists s, e. split; [exact Hlogs|]. simpl. by rewrite Hs.
Defined.

(** What Bob's request asks Alice to sign. *)
Definition bobs_offer : RelationHalfProof :=
  RelationHalfProof_new "enable_call_between" (signer_profile_id Actors.alice) Actors.bob.

(** Alice with Bob's profile at hand, at a home that hosts both. *)
Definition alice_asked : ClientWorld :=
  set_env (env bob_asks) (set_repo (profile_repo bob_asks) alice_online).

Lemma accept_relation_spec_witness :
  (∃ proof, (await (accept_relation bobs_offer) alice_asked).1 = Ok proof)
  ∧ (accept_relation bobs_offer alice_asked).2 = alice_asked.
Proof.
  split; [eexists; vm_compute; reflexivity|].
  exact (proj1 (accept_relation_spec bobs_offer alice_asked)).
Defined.

Lemma requests_to_peer_witness :
  ((initiate_relation "enable_call_between" (signer_profile_id Actors.alice) bob_joined).1 bob_joined).1
    = Ok tt
  ∧ only_env bob_joined
      ((initiate_relation "enable_call_between" (signer_profile_id Actors.alice) bob_joined).1
         bob_joined).2.
Proof.
  split; [vm_compute; reflexivity|].
  destruct (requests_to_peer "enable_call_between" (signer_profile_id Actors.alice) friends chat
              (mkAppMessageFrame []) None bob_joined bob_joined) as [H _].
  destruct ((initiate_relation _ _ bob_joined).1 bob_joined) as [r w3]. exact (proj1 H).
Defined.

(** The whole exchange: Alice hears of Bob's offer through her session, accepts
    it, and has the relation. *)
Example alice_hears_of_it :
  mpsc_received 0 (chans (env bob_asks)) = [EventMsg (Ok (PairingRequest bobs_offer))].
Proof. vm_compute. reflexivity. Qed.

Example alice_has_the_relation :
  rp_relation_type <$> relations_with_peer
      (me (await (accept_relation bobs_offer) alice_asked).2) (signer_profile_id Actors.bob)
      (Some (mkApplicationId "enable_call_between")) None
  = ["enable_call_between"%string].
Proof. vm_compute. reflexivity. Qed.

(** A network on which every address answers with the handshake of [s]. *)
Section tcp.
#[local] Instance tcp_addresses : MultiaddrComponents :=
  {| multiaddr_iter _ := [IP4 2130706433; UDP 2077] |}.
#[local] Instance tcp_json : SerdeJson AuthenticationInfo :=
  {| json_to_vec a := Ok (pid_bytes (auth_profile_id a));
     json_from_slice b := Ok (mkAuthenticationInfo (mkProfileId b) (mkPublicKey b)) |}.
#[local] Existing Instance Sample.select_first.
#[local] Existing Instance Sample.select_first_laws.

Definition answers_as (s : Signer) (_ : SocketAddr) : Future unit string TcpStream :=
  future_ok (mkTcpStream (Ok tt)
    (put_u32_le (as_u32 (length (pid_bytes (signer_profile_id s)))) ++ pid_bytes (signer_profile_id s))
    (mkWriter [] 100)).

Definition silent_home : ClientHome unit :=
  let no {A} : IO unit (Future unit ProtoError A) :=
    io_ret (future_err (proto_from Proto.ConnectionToHomeFailed)) in
  mkHome (λ _, no) (λ _, no)
    (λ own _ _, io_ret (future_err (own, proto_from Proto.ConnectionToHomeFailed)))
    (λ _, no) (λ _, no) (λ _, no) (λ _ _, no).

Lemma SimpleTcpHomeConnector_connect_spec_witness :
  match SimpleTcpHomeConnector_connect (answers_as Actors.carol) (λ _ _, io_ret silent_home)
          home_profile Actors.alice with
  | Returns m => is_ok (await m tt).1
  | Panics => false
  end = true
  ∧ SimpleTcpHomeConnector_connect (answers_as Actors.carol) (λ _ _, io_ret silent_home)
      (mkProfile (mkProfileId []) (mkPublicKey [])
         (Protocol.Home (mkHomeFacet [mkMultiaddr [x01]] [x2a]))) Actors.alice
    = SimpleTcpHomeConnector_connect (answers_as Actors.carol) (λ _ _, io_ret silent_home)
        home_profile Actors.alice.
Proof.
  split; [vm_compute; reflexivity|].
  exact (proj2 (proj2 (SimpleTcpHomeConnector_connect_spec (answers_as Actors.carol)
                         (λ _ _, io_ret silent_home) home_profile Actors.alice))
           (mkProfileId []) (mkPublicKey []) [x2a]).
Defined.
End tcp.

(** A service with one profile. *)
Abbreviation DemoService :=
  (ConnectService World (InMemoryStore ProfileId Profile) (InMemoryStore ProfileId OwnProfile)
     (Sample.chans ProfileEvent)).

Definition service : DemoService :=
  ConnectService_new [signer_profile_id Actors.alice]
    (mkInMemoryStore {[ signer_profile_id Actors.alice := own_of Actors.alice ]})
    {[ signer_profile_id Actors.alice := Actors.alice ]}
    (mkSimpleProfileRepo InMemoryStore_new) Sample.chans_empty empty_world.

Lemma factory_create_spec_witness :
  (factory_create (own_of Actors.alice) service).1 = Ok 0
  ∧ service_wf (factory_create (own_of Actors.alice) service).2.
Proof.
  split; [vm_compute; reflexivity|].
  pose proof (factory_create_spec (own_of Actors.alice) service) as H.
  assert (service_wf service) as Hwf by (split_and!; simpl; [done|done|by intros ? []]).
  specialize (H Hwf). destruct (factory_create _ service) as [r s']. exact (proj1 H).
Defined.

Definition serving : DemoService :=
  set_factory ∅ {[ 0 := set_relations (Some [friends]) (MyProfileImpl_new (own_of Actors.alice) Actors.alice) ]}
    1 service.
Definition calls_app : DAppSessionImpl := mkDAppSession 0 (mkApplicationId "enable_call_between").

Lemma dapp_session_sees_own_app_witness :
  DAppPairingResponse (relation_from calls_app friends)
    ∈ checkin_stream calls_app [inr (UnknownEvent []); inr (PairingResponse friends)].
Proof.
  pose proof (dapp_session_sees_own_app calls_app
    (set_relations (Some [friends]) (MyProfileImpl_new (own_of Actors.alice) Actors.alice))
    serving serving (signer_profile_id Actors.bob) None
    [inr (UnknownEvent []); inr (PairingResponse friends)] eq_refl) as H.
  destruct ((contacts calls_app serving).1 serving) as [all w3].
  destruct ((contacts_with_profile calls_app _ _ serving).1 serving) as [some w4].
  apply (proj1 (proj2 H)). exists friends. split_and!; [right; left|vm_compute; reflexivity|done].
Defined.

End witnesses.
