(* ===== verification/Composition.v ===== *)
(** * Joining, logging in and being reached

    The client ([Connect.v]) and the home node ([HomeServer.v]) put together: a
    user who joins a home and logs in to it hears of every peer that asks for a
    relation there.  The client reaches the home directly; what the RPC system
    in between does is in [Rpc.v]. *)

From S2P Require Import Prelude Errors External Storage Protocol Crypto Relation.
From S2P Require Import HomeServer HomeInvariants HomeServerProps Rpc Connect ConnectProps EndToEnd.

(** ** Whole calls of a client, without anything in between *)

Section calls.
Context {BC : Bincode} {Env Store Chans : Type}
        {KV : KeyValueStore Store ProfileId Profile}
        {CH : Channels ProfileEvent Chans} {HC : HomeConnector Env}.
Implicit Types w : Client Env Store Chans.

Lemma await_and_then {E A B} (m : IO (Client Env Store Chans) (Future (Client Env Store Chans) E A))
    (k : A → IO (Client Env Store Chans) (Future (Client Env Store Chans) E B)) w :
  await (λ w, let '(f, w) := m w in (and_then f k, w)) w
  = match await m w with (Ok a, w1) => await (k a) w1 | (Err e, w1) => (Err e, w1) end.
Proof. unfold await at 1 2. destruct (m w) as [f w1]. apply and_then_await. Qed.

Lemma join_home_await home_id inv w :
  await (join_home home_id inv) w
  = match await (connect_home home_id) w with
    | (Err e, w1) => (Err e, w1)
    | (Ok home, w1) =>
        match await (home_register home (mp_own_profile (me w))
                       (RelationHalfProof_new RELATION_TYPE_HOSTED_ON_HOME home_id (mp_signer (me w)))
                       inv) (env w1) with
        | (Err (_, err), e) => (Err (conn_context Conn.RegistrationFailed err), set_env e w1)
        | (Ok own, e) =>
            (Ok tt, (repo_insert (own_profile own) (set_me (set_own_profile own (me w1)) (set_env e w1))).2)
        end
    end.
Proof.
  unfold await at 1, join_home. unfold await at 1.
  destruct (connect_home home_id w) as [f w0]. rewrite !and_then_await.
  destruct (f w0) as [[home|e] w1]; [|done]. unfold await, lift, lift_future, future_map_err.
  destruct (home_register _ _ _ _ _) as [g e]. simpl. destruct (g e) as [[own|[o err]] e2]; simpl; [|by destruct w1].
  unfold repo_insert. by destruct w1, (kv_set _ _ _).
Qed.

Lemma login_home_await home_id w profile proof :
  session_cache (me w) !! home_id = None →
  kv_get (signer_profile_id (mp_signer (me w))) (profiles (profile_repo w)) = Ok profile →
  find_home_proof (signer_profile_id (mp_signer (me w))) home_id profile = Ok proof →
  await (login_home home_id) w
  = match await (connect_home home_id) w with
    | (Err e, w1) => (Err e, w1)
    | (Ok home, w1) => await (login_at home_id proof home) w1
    end.
Proof.
  intros Hc Hp Hf. unfold await at 1, login_home. rewrite Hc. unfold load_profile at 1, repo_load at 1.
  rewrite Hp. simpl. rewrite and_then_await. unfold and_then at 1, future_map_err at 1, future_result.
  simpl. rewrite Hf. exact (await_and_then (connect_home2 home_id (mp_signer (me w))) _ w).
Qed.

Lemma login_at_await home_id proof home w s e :
  await (home_login home proof) (env w) = (Ok s, e) →
  await (login_at home_id proof home) w
  = let '(ms, w1) := MyHomeSessionImpl_new s (set_env e w) in
    (Ok ms, (start_event_handler ms
               (set_me (set_cache (<[home_id := ms]> (session_cache (me w1))) (me w1)) w1)).2).
Proof.
  intros Hl. unfold await at 1, login_at. unfold await in Hl. unfold lift.
  destruct (home_login home proof (env w)) as [f e1]. rewrite and_then_await.
  unfold future_map_err, lift_future. simpl. rewrite Hl. simpl. unfold await.
  destruct (MyHomeSessionImpl_new _ _) as [ms w1].
  by destruct (start_event_handler _ _) as [[] w2].
Qed.
End calls.

(** A store that takes everything. *)
Definition never_fails (St V : Type) `{KeyValueStore St ProfileId V} : Prop :=
  ∀ k v (s : St), (kv_set k v s).1 = Ok tt.

(** ** Registration at a home that does not host the profile *)

Section server.
Context {BC : Bincode} {Dht Db Chans : Type}
        {DHT : KeyValueStore Dht ProfileId Profile}
        {DB : KeyValueStore Db ProfileId OwnProfile}
        {CH : Channels ChanMsg Chans}
        {DBL : KeyValueStoreLaws Db ProfileId OwnProfile any_key}.
Implicit Types (w : HomeServer Dht Db Chans) (conn : HomeConnectionServer).

Lemma countersigned_peers hp s p :
  sign_remaining_half hp s = Ok p →
  rp_relation_type p = hp_relation_type hp
  ∧ proof_peer_id p (hp_signer_id hp) = Ok (hp_peer_id hp)
  ∧ proof_peer_id p (hp_peer_id hp) = Ok (hp_signer_id hp).
Proof.
  unfold sign_remaining_half. case_decide as Hd; [done|]. intros [= <-]. rewrite <- Hd. split; [apply RelationProof_new_type|]. apply RelationProof_new_peer.
Qed.

Lemma register_new conn own hp inv w :
  registrable w conn own hp →
  is_err (kv_get (peer_id (context conn)) (hosted_profile_db w)) = true →
  never_fails Dht Profile → never_fails Db OwnProfile →
  ∃ own' proof f d1 d2,
    await (register conn own hp inv) w = (Ok own', set_db d2 (set_dht d1 w))
    ∧ sign_remaining_half hp (my_signer (context conn)) = Ok proof
    ∧ profile_facet (own_profile own) = Persona f
    ∧ profile_facet (own_profile own')
      = Persona (mkPersonaFacet (persona_homes f ++ [proof]) (persona_data f))
    ∧ profile_id (own_profile own') = peer_id (context conn)
    ∧ profile_public_key (own_profile own') = peer_pubkey (context conn)
    ∧ kv_get (peer_id (context conn)) d2 = Ok own'
    ∧ ∀ k, k ≠ peer_id (context conn) → kv_get k d2 = kv_get k (hosted_profile_db w).
Proof.
  intros Hr Hnew Hdht Hdb.
  destruct (register_registrable conn own hp inv w Hr) as (proof & own' & Hp & Hown & Heq).
  destruct Hr as [Hid Hkey _ _ _ _ [f Hf]].
  destruct (push_home_persona own proof f Hf) as (own2 & Ho & Hid2 & Hkey2 & _ & Hfacet).
  rewrite Ho in Hown. injection Hown as ->. rewrite Hid in Heq.
  destruct (kv_get (peer_id (context conn)) (hosted_profile_db w)); [done|].
  unfold dht_set, db_set in Heq.
  specialize (Hdht (peer_id (context conn)) (own_profile own') (public_profile_dht w)).
  destruct (kv_set _ _ (public_profile_dht w)) as [r1 d1]. simpl in Hdht. subst r1. simpl in Heq.
  specialize (Hdb (peer_id (context conn)) own' (hosted_profile_db w)).
  destruct (kv_set _ _ (hosted_profile_db w)) as [r2 d2] eqn:Hd2. simpl in Hdb. subst r2.
  exists own', proof, f, d1, d2. split_and!; try done; [congruence|congruence|by eapply kv_set_ok|].
  intros k Hk. by eapply kv_set_other.
Qed.
End server.

Section composition.
Context {BC : Bincode} {Dht Db Chans : Type}
        {DHT : KeyValueStore Dht ProfileId Profile}
        {DB : KeyValueStore Db ProfileId OwnProfile}
        {CH : Channels ChanMsg Chans}
        {DBL : KeyValueStoreLaws Db ProfileId OwnProfile any_key}
        {CHL : ChannelsLaws ChanMsg Chans}
        {Store CChans : Type}
        {KV : KeyValueStore Store ProfileId Profile}
        {KVL : KeyValueStoreLaws Store ProfileId Profile any_key}
        {CCH : Channels ProfileEvent CChans} {CCHL : ChannelsLaws ProfileEvent CChans}.
Abbreviation World := (HomeServer Dht Db Chans).
Abbreviation W := (Client World Store CChans).
Context (home_signer : Signer).
#[local] Instance to_home : HomeConnector World := local_connector home_signer.
Implicit Types (w : W) (e : World) (conn : HomeConnectionServer).

Definition my_id w : ProfileId := signer_profile_id (mp_signer (me w)).
Definition home_of_signer : ProfileId := signer_profile_id home_signer.

(** The connection the client gets. *)
Definition conn_for (s : Signer) : HomeConnectionServer :=
  mkConnection (mkPeerContext home_signer (signer_public_key s) (signer_profile_id s)).

(** A client with a persona of its own that knows the home and is new to it. *)
Record newcomer w : Prop := mkNewcomer
  { nc_knows : ∃ hp, kv_get home_of_signer (profiles (profile_repo w)) = Ok hp
      ∧ profile_id hp = home_of_signer;
    nc_id : profile_id (own_profile (mp_own_profile (me w))) = my_id w;
    nc_key : profile_public_key (own_profile (mp_own_profile (me w)))
             = signer_public_key (mp_signer (me w));
    nc_persona : ∃ f, profile_facet (own_profile (mp_own_profile (me w))) = Persona f
      ∧ Forall (λ proof, proof_peer_id proof (my_id w) ≠ Ok home_of_signer) (persona_homes f);
    nc_accepted : accepts (server_validator (env w)) (mp_signer (me w));
    nc_other : home_of_signer ≠ my_id w;
    nc_cache : session_cache (me w) !! home_of_signer = None;
    nc_session : sessions (env w) !! my_id w = None;
    nc_hosted : is_err (kv_get (my_id w) (hosted_profile_db (env w))) = true }.

Lemma connect_local w hp :
  kv_get home_of_signer (profiles (profile_repo w)) = Ok hp → profile_id hp = home_of_signer →
  await (connect_home home_of_signer) w = (Ok (local_home (conn_for (mp_signer (me w)))), w).
Proof.
  intros Hhp Hid. unfold await, connect_home, connect_home2, load_profile, repo_load. simpl.
  rewrite and_then_await. unfold future_map_err, future_result. rewrite Hhp. simpl. rewrite await_lift.
  unfold await, home_connect, to_home, local_connector. rewrite decide_True by done. simpl. by destruct w.
Qed.

(** The proof that was added last is found when no earlier one names the home. *)
Lemma find_last_proof id home profile homes data proof :
  profile_facet profile = Persona (mkPersonaFacet (homes ++ [proof]) data) →
  Forall (λ proof, proof_peer_id proof id ≠ Ok home) homes → proof_peer_id proof id = Ok home →
  find_home_proof id home profile = Ok proof.
Proof.
  intros Hf Hno Hp. unfold find_home_proof. rewrite Hf. simpl. clear Hf.
  induction Hno as [|q homes Hq _ IH]; simpl.
  - rewrite Hp. simpl. by rewrite decide_True.
  - destruct (proof_peer_id q id) as [p|]; simpl; [|done]. rewrite decide_False; [done|congruence].
Qed.

(** Registering a newcomer. *)
Lemma newcomer_registers w inv :
  newcomer w → never_fails Dht Profile → never_fails Db OwnProfile →
  ∃ own' e proof, await (register (conn_for (mp_signer (me w))) (mp_own_profile (me w))
      (RelationHalfProof_new RELATION_TYPE_HOSTED_ON_HOME home_of_signer (mp_signer (me w))) inv) (env w)
      = (Ok own', e)
    ∧ profile_id (own_profile own') = my_id w
    ∧ find_home_proof (my_id w) home_of_signer (own_profile own') = Ok proof
    ∧ rp_relation_type proof = RELATION_TYPE_HOSTED_ON_HOME
    ∧ proof_peer_id proof home_of_signer = Ok (my_id w)
    ∧ kv_get (my_id w) (hosted_profile_db e) = Ok own'
    ∧ sessions e = sessions (env w).
Proof.
  intros [_ Hid Hkey (f & Hf & Hno) Hacc Hne _ _ Hnew] Hdht Hdb.
  set (half := RelationHalfProof_new _ _ _).
  destruct (register_new (conn_for (mp_signer (me w))) (mp_own_profile (me w)) half inv (env w))
    as (own' & proof & f' & d1 & d2 & Heq & Hp & Hf' & Hfacet & Hid' & _ & Hget & _); try done.
  { split; try done; [|by exists f]. apply validate_half_proof_signed. eexists. apply Hacc. }
  rewrite Hf in Hf'. injection Hf' as <-. apply countersigned_peers in Hp as (Ht & Hp1 & Hp2).
  exists own'. eexists _, proof. split_and!; try done. by eapply find_last_proof.
Qed.

(** Logging in with a proof of the home, over the connection. *)
Lemma login_at_local w proof own :
  rp_relation_type proof = RELATION_TYPE_HOSTED_ON_HOME →
  proof_peer_id proof home_of_signer = Ok (my_id w) →
  kv_get (my_id w) (hosted_profile_db (env w)) = Ok own →
  sessions (env w) !! my_id w = None →
  ∃ ms stream sid s w2,
    await (login_at home_of_signer proof (local_home (conn_for (mp_signer (me w))))) w = (Ok ms, w2)
    ∧ session_cache (me w2) !! home_of_signer = Some ms
    ∧ ForwardEvents ms stream ∈ client_tasks (me w2)
    ∧ kv_get (my_id w) (hosted_profile_db (env w2)) = Ok own
    ∧ sessions (env w2) !! my_id w = Some sid ∧ session_heap (env w2) !! sid = Some s
    ∧ session_events s = Sender stream
    ∧ mpsc_received stream (chans (env w2)) = []
    ∧ spawned (env w2) = spawned (env w) ++ [SendAll stream []].
Proof.
  intros Ht Hp Hown Hs.
  destruct (login_hosted (conn_for (mp_signer (me w))) proof (my_id w) own (env w) Ht Hp Hown)
    as (e & Hlog & Hheap & Hsess & Hdb & Hch & Hsp). rewrite Hs in Hsess.
  erewrite login_at_await.
  2: { simpl. unfold await. unfold await in Hlog. destruct (login _ _ _) as [g e1].
       unfold future_map. rewrite Hlog. reflexivity. }
  unfold MyHomeSessionImpl_new. cbn [local_session cs_events]. unfold events.
  cbn [env set_env]. simpl.
  rewrite Hheap, lookup_insert_eq.
  destruct (mpsc_channel CHANNEL_CAPACITY (chans e)) as [stream c] eqn:Hc. simpl.
  apply mpsc_channel_new in Hc as [Hempty _].
  unfold start_event_handler, my_session_events. simpl.
  destruct (mpsc_channel CHANNEL_CAPACITY (listener_chans w)) as [l lc]. unfold add_listener. simpl.
  rewrite lookup_insert_eq. simpl.
  eexists _, stream, (next_session (env w)), _, _. split; [done|]. simpl.
  rewrite !lookup_insert_eq, Hsess, lookup_insert_eq, Hdb. split; [done|]. split; [set_solver|].
  split_and!; try done. by rewrite Hsp.
Qed.
(** What a peer's request comes to at a home with a listening session. *)
Lemma pair_request_heard conn hp own sid s stream e :
  hp_signer_id hp = peer_id (context conn) →
  validate_half_proof (server_validator e) hp (peer_pubkey (context conn)) = Ok tt →
  kv_get (hp_peer_id hp) (hosted_profile_db e) = Ok own →
  sessions e !! hp_peer_id hp = Some sid → session_heap e !! sid = Some s →
  session_events s = Sender stream →
  let '(r, e') := await (pair_request conn hp) e in
  match r with
  | Ok _ => mpsc_received stream (chans e')
            = mpsc_received stream (chans e) ++ [EventMsg (Ok (PairingRequest hp))]
  | Err err => proto_kind err = Proto.FailedToSend
      ∧ mpsc_received stream (chans e') = mpsc_received stream (chans e)
  end.
Proof.
  intros Hs Hv Hown Hsid Hheap Hev.
  assert (await (pair_request conn hp) e = await (push_event (hp_peer_id hp) (PairingRequest hp)) e)
    as ->.
  { unfold await, pair_request. rewrite decide_False by tauto. by rewrite Hv. }
  rewrite (push_event_live _ _ _ _ _ _ Hown Hsid Hheap).
  rewrite (session_push_sender _ _ _ _ _ Hheap Hev).
  destruct (mpsc_send stream _ (chans e)) as [[[]|d] c] eqn:Hsend; simpl.
  - by apply mpsc_send_ok in Hsend as [? _].
  - split; [done|]. by eapply mpsc_send_err.
Qed.

(** A user can be reached at the home she joins: a client that is new to
    a home it knows joins it, logs in to it, and has the new session cached; from
    then on the channel its forwarding loop reads gets every request for a
    relation that a peer of the home makes to the user with a properly signed
    half proof.  Only a channel that refuses to take the request makes it fail. *)
Theorem joined_client_is_reached w inv :
  newcomer w → never_fails Dht Profile → never_fails Db OwnProfile → never_fails Store Profile →
  ∃ w1 ms w2 stream,
    await (join_home home_of_signer inv) w = (Ok tt, w1)
    ∧ await (login_home home_of_signer) w1 = (Ok ms, w2)
    ∧ session_cache (me w2) !! home_of_signer = Some ms
    ∧ ForwardEvents ms stream ∈ client_tasks (me w2)
    ∧ mpsc_received stream (chans (env w2)) = []
    ∧ ∀ conn hp, hp_signer_id hp = peer_id (context conn) → hp_peer_id hp = my_id w →
        validate_half_proof (server_validator (env w2)) hp (peer_pubkey (context conn)) = Ok tt →
        let '(r, e) := await (pair_request conn hp) (env w2) in
        match r with
        | Ok _ => mpsc_received stream (chans e) = [EventMsg (Ok (PairingRequest hp))]
        | Err err => proto_kind err = Proto.FailedToSend ∧ mpsc_received stream (chans e) = []
        end.
Proof.
  intros Hnew Hdht Hdb Hrepo.
  destruct (newcomer_registers w inv Hnew Hdht Hdb)
    as (own & e & proof & Hreg & Hid & Hfind & Ht & Hpeer & Hhosted & Hsess).
  destruct Hnew as [(hp & Hhp & Hhpid) _ _ _ _ Hne Hcache Hnosess _].
  set (w0 := set_me (set_own_profile own (me w)) (set_env e w)).
  set (w1 := (repo_insert (own_profile own) w0).2).
  assert (await (join_home home_of_signer inv) w = (Ok tt, w1)) as Hjoin.
  { rewrite join_home_await, (connect_local w hp Hhp Hhpid). cbn [home_register local_home]. by rewrite Hreg. }
  destruct (kv_set (my_id w) (own_profile own) (profiles (profile_repo w))) as [r st] eqn:Hset.
  pose proof (Hrepo (my_id w) (own_profile own) (profiles (profile_repo w))) as Hr.
  rewrite Hset in Hr. simpl in Hr. subst r.
  assert (w1 = set_repo (mkSimpleProfileRepo st) w0) as Hw1.
  { unfold w1, repo_insert. simpl. by rewrite Hid, Hset. }
  assert (kv_get (my_id w) st = Ok (own_profile own)) as Hme by (by eapply kv_set_ok).
  assert (kv_get home_of_signer st = Ok hp) as Hhome.
  { by rewrite (kv_set_other _ _ _ _ _ _ I I Hset Hne). }
  destruct (login_at_local w1 proof own) as (ms & stream & sid & s & w2 & Hlog & H1 & H2 & H3 & H4 & H5 & H6 & H7 & _);
    [done|by rewrite Hw1|by rewrite Hw1|by rewrite Hw1; simpl; rewrite Hsess|].
  exists w1, ms, w2, stream. split; [done|]. split.
  { rewrite (login_home_await home_of_signer w1 (own_profile own) proof); [|by rewrite Hw1..].
    by rewrite (connect_local w1 hp) by (by rewrite ?Hw1). }
  do 3 (split; [done|]). intros conn hp' Hsig Hto Hval.
  assert (my_id w1 = my_id w) as Hmy by (by rewrite Hw1). rewrite Hmy in *. rewrite <- Hto in *.
  pose proof (pair_request_heard conn hp' own sid s stream (env w2) Hsig Hval H3 H4 H5 H6) as H.
  by rewrite H7 in H.
Qed.

End composition.
