(* ===== verification/Scenarios.v ===== *)
(** * The scenarios of the test crate ([test/src/home.rs])

    The tests of the repository go through what clients do at a home: they
    register, claim, log in, pair and call.  Here they are programs that can be
    run in either mode of the crate: what the modes provide is the class
    [TestMode].  In the direct mode clients hold the connection of the server
    itself, and a program is a function in which a failed assertion or [unwrap]
    is a panic; the theorems say that the tests pass for all keys, not only for
    those a test happens to generate.  The other mode is in [Memsocket.v]. *)

From S2P Require Import Prelude Errors External Storage Protocol Crypto Relation.
From S2P Require Import HomeServer HomeInvariants HomeServerProps Connect Config Startup Composition.

(** ** What the tests use of [TestClient] and the reactor

    [do_register] and the like are [reactor.run(..).unwrap()] on the method of
    the client's connection; [take_1] is [stream.take(1).collect()] on a stream
    of which nothing has been taken. *)

Class TestMode (M : Type → Type) : Type := {
  check {A} : Panicking A → M A;
  connect_home : PeerContext → M HomeConnectionServer;
  do_register : HomeConnectionServer → OwnProfile → RelationHalfProof → option HomeInvitation → M OwnProfile;
  do_claim : HomeConnectionServer → ProfileId → M OwnProfile;
  do_login : HomeConnectionServer → RelationProof → M SessionId;
  do_ping : HomeConnectionServer → string → M string;
  do_pair_request : HomeConnectionServer → RelationHalfProof → M unit;
  do_pair_response : HomeConnectionServer → RelationProof → M unit;
  session_events_of : SessionId → M SinkId;
  session_checkin : SessionId → ApplicationId → M SinkId;
  call_started : HomeConnectionServer → ApplicationId → CallRequestDetails → M OneshotId;
  call_finished : OneshotId → M (option SinkId);
  answer_call : Call → option SinkId → M CallRequestDetails;
  app_channel : nat → M SinkId;
  send_frame : SinkId → AppMessageFrame → M unit;
  take_1 : SinkId → M ChanMsg;
}.

Section programs.
Context {BC : Bincode} {MH : Multihash} {ED : Ed25519}.
Context {M : Type → Type} {RM : MRet M} {BM : MBind M} {TM : TestMode M}.

Definition expect {A} (o : option A) : M A :=
  check match o with Some a => Returns a | None => Panics end.
Definition assert_that (b : bool) : M unit := check (if b then Returns tt else Panics).
Definition assert_eq `{EqDecision A} (x y : A) : M unit := assert_that (bool_decide (x = y)).

(** ** [test/src/lib.rs] *)

Definition generate_persona (private_key : PrivateKey) : Panicking (OwnProfile * Signer) :=
  signer ← Ed25519Signer_new private_key;
  signer ← unwrap signer;
  let signer := Ed25519Signer_signer signer in
  Returns (OwnProfile_new (Profile_new (signer_profile_id signer) (signer_public_key signer)
             (Persona (mkPersonaFacet [] []))) [], signer).

Definition first_home_of (own_profile : OwnProfile) : M RelationProof :=
  expect (first_home own_profile).

(** ** [TestClient] *)

Record TestClient : Type := mkTestClient
  { ownprofile : OwnProfile; my_own_signer : Signer; home_signer : Signer;
    home_connection : HomeConnectionServer }.

(** [TestClient::direct] and [memsocket]: the server makes a connection for the
    client; in the second mode the client reaches it through a proxy. *)
Definition TestClient_new (client_ownprofile : OwnProfile) (client_signer home_signer : Signer)
  : M TestClient :=
  client_home_connection ← connect_home
    (mkPeerContext home_signer (profile_public_key (own_profile client_ownprofile))
       (profile_id (own_profile client_ownprofile)));
  mret (mkTestClient client_ownprofile client_signer home_signer client_home_connection).

(** A client with a generated persona. *)
Definition new_client (home_signer : Signer) (private_key : PrivateKey) : M TestClient :=
  '(own_profile, signer) ← check (generate_persona private_key);
  TestClient_new own_profile signer home_signer.

Definition register_client (client : TestClient) : M OwnProfile :=
  let half_proof := RelationHalfProof_new RELATION_TYPE_HOSTED_ON_HOME
                      (signer_profile_id (home_signer client)) (my_own_signer client) in
  do_register (home_connection client) (ownprofile client) half_proof None.

(** ** The tests *)

Definition test_home_register (testclient : TestClient) : M unit :=
  registered_ownprofile ← register_client testclient;
  home_proof ← first_home_of registered_ownprofile;
  assert_that (is_ok (validate_relation_proof CompositeValidator_default home_proof
    (signer_profile_id (home_signer testclient)) (signer_public_key (home_signer testclient))
    (profile_id (own_profile (ownprofile testclient)))
    (profile_public_key (own_profile (ownprofile testclient))))).

Definition test_home_claim (testclient : TestClient) : M unit :=
  registered_ownprofile ← register_client testclient;
  claimed_ownprofile ← do_claim (home_connection testclient)
                         (profile_id (own_profile (ownprofile testclient)));
  assert_eq registered_ownprofile claimed_ownprofile.

Definition login_client (testclient : TestClient) (own : OwnProfile) : M SessionId :=
  proof ← first_home_of own; do_login (home_connection testclient) proof.

Definition test_home_login (testclient : TestClient) : M unit :=
  ownprofile ← register_client testclient;
  _ ← login_client testclient ownprofile;
  pong ← do_ping (home_connection testclient) "ping";
  assert_eq "ping"%string pong.

Definition test_home_events (private_key2 : PrivateKey) (testclient : TestClient) : M unit :=
  ownprofile1 ← register_client testclient;
  testclient2 ← new_client (home_signer testclient) private_key2;
  ownprofile2 ← register_client testclient2;
  session1 ← login_client testclient ownprofile1;
  session2 ← login_client testclient2 ownprofile2;
  events1 ← session_events_of session1;
  events2 ← session_events_of session2;
  let half_proof := RelationHalfProof_new "friend" (profile_id (own_profile ownprofile2))
                      (my_own_signer testclient) in
  _ ← do_pair_request (home_connection testclient) half_proof;
  single_event ← take_1 events2;
  _ ← match single_event with
      | EventMsg (Ok (PairingRequest half_proof)) =>
          _ ← assert_eq (hp_peer_id half_proof) (profile_id (own_profile ownprofile2));
          proof ← check (unwrap (sign_remaining_half half_proof (my_own_signer testclient2)));
          do_pair_response (home_connection testclient2) proof
      | _ => check Panics
      end;
  single_event ← take_1 events1;
  match single_event with
  | EventMsg (Ok (PairingResponse proof)) =>
      assert_that (is_ok (validate_relation_proof CompositeValidator_default proof
        (profile_id (own_profile ownprofile1)) (profile_public_key (own_profile ownprofile1))
        (profile_id (own_profile ownprofile2)) (profile_public_key (own_profile ownprofile2))))
  | _ => check Panics
  end.

Definition expect_frame (stream : SinkId) (frame : AppMessageFrame) : M unit :=
  msg ← take_1 stream;
  match msg with FrameMsg (Ok msg) => assert_eq msg frame | _ => check Panics end.

(** The callee takes its first call, looks at it and answers it. *)
Definition take_call (callee_calls : SinkId) (relation_type : string) (init_payload : AppMessageFrame)
    (forward_sink : SinkId) : M SinkId :=
  call_res ← take_1 callee_calls;
  match call_res with
  | CallMsg (Ok call) =>
      _ ← assert_eq (rp_relation_type (cr_relation (call_request call))) relation_type;
      _ ← assert_eq (cr_init_payload (call_request call)) init_payload;
      details ← answer_call call (Some forward_sink);
      expect (cr_to_caller details)
  | _ => check Panics
  end.

(** The call and the callee are joined; the call is polled first. *)
Definition test_home_call (caller_key : PrivateKey) (testclient : TestClient) : M unit :=
  callee_ownprofile ← register_client testclient;
  caller_testclient ← new_client (home_signer testclient) caller_key;
  _ ← register_client caller_testclient;
  let app := mkApplicationId "chat" in
  callee_session ← login_client testclient callee_ownprofile;
  callee_calls ← session_checkin callee_session app;
  let relation_type := "friend" in
  let relation_half_proof := RelationHalfProof_new relation_type
    (profile_id (own_profile callee_ownprofile)) (my_own_signer caller_testclient) in
  relation ← check (unwrap (sign_remaining_half relation_half_proof (my_own_signer testclient)));
  let init_payload := mkAppMessageFrame (String.list_byte_of_string "hello") in
  forward ← app_channel 1;
  backwards ← app_channel 1;
  let call_details := mkCallRequest relation init_payload (Some backwards) in
  forward_sink_fut ← call_started (home_connection caller_testclient) app call_details;
  backwards_sink ← take_call callee_calls relation_type init_payload forward;
  answered ← call_finished forward_sink_fut;
  forward_sink ← expect answered;
  let banana := mkAppMessageFrame (String.list_byte_of_string "banana") in
  _ ← send_frame forward_sink banana;
  _ ← expect_frame forward banana;
  let orange := mkAppMessageFrame (String.list_byte_of_string "orange") in
  _ ← send_frame backwards_sink orange;
  expect_frame backwards orange.

(** [TestSetup::init] and a test. *)
Definition set_up_and_test (home_key client_key : PrivateKey) (test_fn : TestClient → M unit) : M unit :=
  signer ← check (signer ← Ed25519Signer_new home_key; unwrap signer);
  testclient ← new_client (Ed25519Signer_signer signer) client_key;
  test_fn testclient.

End programs.

(** ** The direct mode *)

Section direct.
Context {BC : Bincode} {MH : Multihash} {ED : Ed25519} {Chans : Type} {CH : Channels ChanMsg Chans}.
Abbreviation W :=
  (HomeServer (InMemoryStore ProfileId Profile) (InMemoryStore ProfileId OwnProfile) Chans).

Definition default_home_server (c : Chans) : W :=
  HomeServer_new CompositeValidator_default InMemoryStore_new InMemoryStore_new c.

Definition Test (A : Type) : Type := W → Panicking (A * W).
#[export] Instance Test_ret : MRet Test := λ _ a w, Returns (a, w).
#[export] Instance Test_bind : MBind Test := λ _ _ k m w, '(a, w) ← m w; k a w.

(** [reactor.run(fut).unwrap()]: the future is completed at its first poll. *)
Definition run {E A} (m : IO W (Future W E A)) : Test A := λ w,
  match await m w with (Ok a, w) => Returns (a, w) | (Err _, _) => Panics end.
Definition call_io {A} (m : IO W A) : Test A := λ w, Returns (m w).
Definition must {A} (r : Panicking A) : Test A := λ w, a ← r; Returns (a, w).
Definition must_exist {A} (o : option A) : Test A :=
  must match o with Some a => Returns a | None => Panics end.

Definition direct_connect (ctx : PeerContext) : Test HomeConnectionServer := λ w,
  client_home_connection ← unwrap (HomeConnectionServer_new ctx w);
  Returns (client_home_connection, w).
Definition direct_events (session : SessionId) : Test SinkId :=
  sink ← call_io (events session); must_exist sink.
Definition direct_checkin (session : SessionId) (app : ApplicationId) : Test SinkId :=
  sink ← call_io (checkin_app session app); must_exist sink.
Definition direct_finished (chan : OneshotId) : Test (option SinkId) :=
  answered ← (λ w, must_exist (poll_answer chan TimerRunning w) w); must (unwrap answered).
Definition direct_channel (capacity : nat) : Test SinkId := λ w,
  let '(sink, c) := mpsc_channel capacity (chans w) in Returns (sink, set_chans c w).
(** [sink.send(Ok(msg))]. *)
Definition direct_send (sink : SinkId) (msg : AppMessageFrame) : Test unit := λ w,
  let '(r, c) := mpsc_send sink (FrameMsg (Ok msg)) (chans w) in
  match r with Ok _ => Returns (tt, set_chans c w) | Err _ => Panics end.
Definition direct_take_1 (stream : SinkId) : Test ChanMsg := λ w,
  must_exist (head (mpsc_received stream (chans w))) w.

#[export] Instance direct_mode : TestMode Test :=
  {| check _ := must;
     connect_home := direct_connect;
     do_register conn own hp inv := run (register conn own hp inv);
     do_claim conn id := run (claim conn id);
     do_login conn proof := run (login conn proof);
     do_ping _ txt := run (ping txt);
     do_pair_request conn hp := run (pair_request conn hp);
     do_pair_response conn rp := run (pair_response conn rp);
     session_events_of := direct_events;
     session_checkin := direct_checkin;
     call_started conn app req := run (call conn app req (Ok tt));
     call_finished := direct_finished;
     answer_call c to_callee := call_io (answer c to_callee);
     app_channel := direct_channel;
     send_frame := direct_send;
     take_1 := direct_take_1 |}.

(** [do_test] in direct mode. *)
Definition do_test (home_key client_key : PrivateKey) (c : Chans) (test_fn : TestClient → Test unit)
  : Panicking unit :=
  '(_, _) ← set_up_and_test home_key client_key test_fn (default_home_server c); Returns tt.

End direct.

(** ** Theorems *)

#[local] Arguments kv_get : simpl never.
#[local] Arguments kv_set : simpl never.

Section steps.
Context {BC : Bincode} {MH : Multihash} {ED : Ed25519} {Chans : Type} {CH : Channels ChanMsg Chans}
        {MHL : MultihashLaws} {EDL : Ed25519Laws}.
Abbreviation W :=
  (HomeServer (InMemoryStore ProfileId Profile) (InMemoryStore ProfileId OwnProfile) Chans).
Implicit Types (w : W) (home s : Signer).

Lemma bind_run {A B} (m : Test A) (k : A → Test B) w a w' :
  m w = Returns (a, w') → (m ≫= k) w = k a w'.
Proof. intros Hm. unfold mbind, Test_bind. by rewrite Hm. Qed.

(** A signer whose id belongs to its key and whose signatures verify. *)
Definition genuine s : Prop :=
  validate_profile CompositeValidator_default (signer_public_key s) (signer_profile_id s) = Ok true
  ∧ accepts CompositeValidator_default s.

Lemma genuine_pairing ty s1 s2 :
  genuine s1 → genuine s2 → signer_profile_id s1 ≠ signer_profile_id s2 →
  ∃ proof, sign_remaining_half (RelationHalfProof_new ty (signer_profile_id s2) s1) s2 = Ok proof
    ∧ rp_relation_type proof = ty
    ∧ proof_peer_id proof (signer_profile_id s1) = Ok (signer_profile_id s2)
    ∧ proof_peer_id proof (signer_profile_id s2) = Ok (signer_profile_id s1)
    ∧ validate_relation_proof CompositeValidator_default proof (signer_profile_id s1)
        (signer_public_key s1) (signer_profile_id s2) (signer_public_key s2) = Ok tt
    ∧ validate_relation_proof CompositeValidator_default proof (signer_profile_id s2)
        (signer_public_key s2) (signer_profile_id s1) (signer_public_key s1) = Ok tt.
Proof.
  intros [_ H1] [_ H2] Hne. set (hp := RelationHalfProof_new _ _ _).
  assert (∃ p, sign_remaining_half hp s2 = Ok p) as [p Hp].
  { unfold sign_remaining_half. rewrite decide_False by (simpl; tauto). eauto. }
  exists p. split; [done|]. apply (countersigned_validates _ hp (signer_public_key s1) s2 p); try done.
  apply validate_half_proof_signed. eexists. apply H1.
Qed.

Definition client_of home s : TestClient :=
  mkTestClient (OwnProfile_new (empty_persona s) []) s home
    (mkConnection (mkPeerContext home (signer_public_key s) (signer_profile_id s))).

Lemma generate_persona_genuine k own s :
  generate_persona k = Returns (own, s) → own = OwnProfile_new (empty_persona s) [] ∧ genuine s.
Proof.
  unfold generate_persona.
  destruct (Ed25519Signer_new k) as [[sg|e]|] eqn:Hk; [|done..]. intros [= <- <-].
  split; [done|]. by apply own_signer_validates in Hk.
Qed.

Lemma new_client_ok home k own s w :
  generate_persona k = Returns (own, s) → server_validator w = CompositeValidator_default →
  new_client home k w = Returns (client_of home s, w).
Proof.
  intros Hk Hv. destruct (generate_persona_genuine k own s Hk) as [-> [Hval _]].
  unfold new_client. erewrite bind_run; [|simpl; unfold must; by rewrite Hk].
  unfold TestClient_new. erewrite bind_run; [reflexivity|].
  simpl. unfold direct_connect, HomeConnectionServer_new, PeerContext_validate. simpl. rewrite Hv.
  simpl in *. by rewrite Hval.
Qed.

(** What a client has after registering. *)
Record registered home s (own : OwnProfile) (proof : RelationProof) : Prop := mkRegistered
  { rd_id : profile_id (own_profile own) = signer_profile_id s;
    rd_key : profile_public_key (own_profile own) = signer_public_key s;
    rd_home : first_home own = Some proof;
    rd_facet : profile_facet (own_profile own) = Persona (mkPersonaFacet [proof] []);
    rd_proof : sign_remaining_half (RelationHalfProof_new RELATION_TYPE_HOSTED_ON_HOME
                 (signer_profile_id home) s) home = Ok proof }.

Lemma register_client_ok home s w :
  genuine s → server_validator w = CompositeValidator_default →
  is_err (kv_get (signer_profile_id s) (hosted_profile_db w)) = true →
  ∃ own proof d1 d2,
    register_client (client_of home s) w = Returns (own, set_db d2 (set_dht d1 w))
    ∧ registered home s own proof ∧ kv_get (signer_profile_id s) d2 = Ok own
    ∧ ∀ k, k ≠ signer_profile_id s → kv_get k d2 = kv_get k (hosted_profile_db w).
Proof.
  intros [_ Hacc] Hv Hnew. set (tc := client_of home s).
  destruct (register_new (home_connection tc) (ownprofile tc)
    (RelationHalfProof_new RELATION_TYPE_HOSTED_ON_HOME (signer_profile_id home) s) None w)
    as (own & proof & f & d1 & d2 & Hreg & Hp & Hf & Hfacet & Hid & Hkey & Hget & Hother); try done.
  { split; try done; [|by eexists]. apply validate_half_proof_signed. eexists. rewrite Hv. apply Hacc. }
  exists own, proof, d1, d2. split.
  { unfold register_client. cbn [do_register direct_mode]. unfold run. change (my_own_signer tc) with s.
    change (Scenarios.home_signer tc) with home. by rewrite Hreg. }
  simpl in Hf. injection Hf as <-. split; [|done]. split; try done.
  unfold first_home. by rewrite Hfacet.
Qed.

(** The state after a login of a profile that has no session. *)
Definition logged_in home s w : W :=
  set_sessions (<[signer_profile_id s := next_session w]> (sessions w))
    (set_next (Datatypes.S (next_session w))
       (set_heap (<[next_session w := HomeSessionServer_new
                      (context (home_connection (client_of home s)))]> (session_heap w)) w)).

Lemma login_client_ok home s own proof w :
  registered home s own proof → kv_get (signer_profile_id s) (hosted_profile_db w) = Ok own →
  sessions w !! signer_profile_id s = None →
  login_client (client_of home s) own w = Returns (next_session w, logged_in home s w).
Proof.
  intros [_ _ Hh _ Hp] Hget Hs. unfold login_client, first_home_of.
  erewrite bind_run; [|rewrite Hh; reflexivity]. apply countersigned_peers in Hp as (Ht & _ & Hp).
  simpl. unfold run, await, login. simpl in Ht, Hp. rewrite decide_False by (rewrite Ht; tauto).
  simpl. rewrite Hp. unfold future_map_err, and_then, future_result. rewrite Hget. simpl. by rewrite Hs.
Qed.

(** Of a session nobody listens to yet. *)
Definition listening (sid : SessionId) (ctx : PeerContext) (sink : SinkId) (c : Chans) w : W :=
  spawn (SendAll sink []) (put_session sid (mkSession ctx (Sender sink) ∅) (set_chans c w)).

Lemma session_events_ok sid ctx w :
  session_heap w !! sid = Some (HomeSessionServer_new ctx) →
  session_events_of sid w
  = let '(sink, c) := mpsc_channel CHANNEL_CAPACITY (chans w) in
    Returns (sink, listening sid ctx sink c w).
Proof.
  intros Hs. cbn [session_events_of direct_mode]. unfold direct_events, mbind, Test_bind, call_io, events. rewrite Hs.
  by destruct (mpsc_channel _ _).
Qed.

(** An event for a profile whose session is listened to. *)
Lemma push_event_listening p ev own sid ss w :
  kv_get p (hosted_profile_db w) = Ok own → sessions w !! p = Some sid →
  session_heap w !! sid = Some ss →
  ∀ sink c, session_events ss = Sender sink →
  mpsc_send sink (EventMsg (Ok ev)) (chans w) = (Ok tt, c) →
  run (push_event p ev) w = Returns (tt, set_chans c w).
Proof.
  intros Hown Hsid Hs sink c He Hsend. unfold run.
  by rewrite (push_event_live _ _ _ _ _ _ Hown Hsid Hs), (session_push_sender _ _ _ _ _ Hs He), Hsend.
Qed.

Lemma pair_request_served conn hp w :
  hp_signer_id hp = peer_id (context conn) →
  validate_half_proof (server_validator w) hp (peer_pubkey (context conn)) = Ok tt →
  run (pair_request conn hp) w = run (push_event (hp_peer_id hp) (PairingRequest hp)) w.
Proof.
  intros Hs Hv. unfold run, await, pair_request. rewrite decide_False by tauto. by rewrite Hv.
Qed.

Lemma pair_request_run home s hp w :
  hp_signer_id hp = signer_profile_id s →
  validate_half_proof (server_validator w) hp (signer_public_key s) = Ok tt →
  run (pair_request (home_connection (client_of home s)) hp) w
  = run (push_event (hp_peer_id hp) (PairingRequest hp)) w.
Proof. intros Hs Hv. by apply pair_request_served. Qed.

Lemma pair_response_served conn proof p own w :
  proof_peer_id proof (peer_id (context conn)) = Ok p →
  kv_get p (hosted_profile_db w) = Ok own →
  validate_relation_proof (server_validator w) proof (peer_id (context conn)) (peer_pubkey (context conn))
    (profile_id (own_profile own)) (profile_public_key (own_profile own)) = Ok tt →
  run (pair_response conn proof) w = run (push_event p (PairingResponse proof)) w.
Proof.
  intros Hp Hget Hval. unfold run. f_equal. unfold await at 1, pair_response. rewrite Hp.
  unfold and_then, validate_with_peer, future_result, future_map_err. rewrite Hget.
  cbn [map_err]. by rewrite Hval.
Qed.

Lemma pair_response_run home s proof p own w :
  proof_peer_id proof (signer_profile_id s) = Ok p →
  kv_get p (hosted_profile_db w) = Ok own →
  validate_relation_proof (server_validator w) proof (signer_profile_id s) (signer_public_key s)
    (profile_id (own_profile own)) (profile_public_key (own_profile own)) = Ok tt →
  run (pair_response (home_connection (client_of home s)) proof) w
  = run (push_event p (PairingResponse proof)) w.
Proof. intros Hp Hget Hval. by eapply pair_response_served. Qed.

End steps.

Section theorems.
Context {BC : Bincode} {MH : Multihash} {ED : Ed25519} {Chans : Type} {CH : Channels ChanMsg Chans}
        {MHL : MultihashLaws} {EDL : Ed25519Laws} {CHL : ChannelsLaws ChanMsg Chans}
        {open : SinkId → Chans → Prop} {KO : KeepsOpen (Msg:=ChanMsg) open}.
Abbreviation W :=
  (HomeServer (InMemoryStore ProfileId Profile) (InMemoryStore ProfileId OwnProfile) Chans).
Implicit Types (w : W) (home s : Signer).

(** Nobody has logged in, and the channels are [c]. *)
Definition quiet (c : Chans) w : Prop :=
  server_validator w = CompositeValidator_default ∧ sessions w = ∅ ∧ session_heap w = ∅
  ∧ next_session w = 0 ∧ chans w = c.

Lemma both_registered home s1 s2 c :
  genuine s1 → genuine s2 → signer_profile_id s1 ≠ signer_profile_id s2 →
  ∃ own1 proof1 own2 proof2 w1 w2,
    register_client (client_of home s1) (default_home_server c) = Returns (own1, w1)
    ∧ server_validator w1 = CompositeValidator_default
    ∧ register_client (client_of home s2) w1 = Returns (own2, w2)
    ∧ registered home s1 own1 proof1 ∧ registered home s2 own2 proof2
    ∧ kv_get (signer_profile_id s1) (hosted_profile_db w2) = Ok own1
    ∧ kv_get (signer_profile_id s2) (hosted_profile_db w2) = Ok own2
    ∧ quiet c w2.
Proof.
  intros Hs1 Hs2 Hne.
  destruct (register_client_ok home s1 (default_home_server c) Hs1 eq_refl eq_refl)
    as (own1 & proof1 & d1 & d2 & H1 & R1 & G1 & O1).
  set (w1 := set_db d2 (set_dht d1 (default_home_server c))) in *.
  destruct (register_client_ok home s2 w1 Hs2 eq_refl)
    as (own2 & proof2 & d3 & d4 & H2 & R2 & G2 & O2).
  { simpl. by rewrite O1. }
  exists own1, proof1, own2, proof2, w1. eexists. do 5 (split; [done|]).
  split; [|done]. simpl. by rewrite O2.
Qed.

(** Both logged in and listening to their events. *)
Definition both_listening home s1 s2 own1 own2 sink1 sink2 w : Prop :=
  server_validator w = CompositeValidator_default
  ∧ kv_get (signer_profile_id s1) (hosted_profile_db w) = Ok own1
  ∧ kv_get (signer_profile_id s2) (hosted_profile_db w) = Ok own2
  ∧ (∃ sid ss, sessions w !! signer_profile_id s1 = Some sid ∧ session_heap w !! sid = Some ss
       ∧ session_events ss = Sender sink1)
  ∧ (∃ sid ss, sessions w !! signer_profile_id s2 = Some sid ∧ session_heap w !! sid = Some ss
       ∧ session_events ss = Sender sink2).

Lemma both_listening_chans home s1 s2 own1 own2 sink1 sink2 c w :
  both_listening home s1 s2 own1 own2 sink1 sink2 w →
  both_listening home s1 s2 own1 own2 sink1 sink2 (set_chans c w).
Proof. done. Qed.

Lemma both_listen home s1 s2 own1 proof1 own2 proof2 c w :
  signer_profile_id s1 ≠ signer_profile_id s2 →
  registered home s1 own1 proof1 → registered home s2 own2 proof2 →
  kv_get (signer_profile_id s1) (hosted_profile_db w) = Ok own1 →
  kv_get (signer_profile_id s2) (hosted_profile_db w) = Ok own2 → quiet c w →
  ∃ sink1 sink2 w1 w2 w3 w4,
    login_client (client_of home s1) own1 w = Returns (0, w1)
    ∧ login_client (client_of home s2) own2 w1 = Returns (1, w2)
    ∧ session_events_of 0 w2 = Returns (sink1, w3) ∧ session_events_of 1 w3 = Returns (sink2, w4)
    ∧ both_listening home s1 s2 own1 own2 sink1 sink2 w4 ∧ sink1 ≠ sink2
    ∧ open sink1 (chans w4) ∧ open sink2 (chans w4)
    ∧ mpsc_received sink1 (chans w4) = [] ∧ mpsc_received sink2 (chans w4) = [].
Proof.
  intros Hne R1 R2 G1 G2 (Hv & Hs & Hh & Hn & Hc).
  pose proof (login_client_ok home s1 own1 proof1 w R1 G1) as L1. rewrite Hs in L1.
  specialize (L1 (lookup_empty _)). rewrite Hn in L1.
  pose proof (login_client_ok home s2 own2 proof2 (logged_in home s1 w) R2 G2) as L2.
  simpl in L2. rewrite Hs, Hn in L2. rewrite lookup_insert_ne in L2 by done. specialize (L2 (lookup_empty _)).
  set (w2 := logged_in home s2 (logged_in home s1 w)) in *.
  assert (sessions w2 = <[signer_profile_id s2 := 1]> (<[signer_profile_id s1 := 0]> ∅)) as Hs2
    by (simpl; by rewrite Hs, Hn).
  assert (session_heap w2 !! 0 = Some (HomeSessionServer_new (context (home_connection (client_of home s1))))
    ∧ session_heap w2 !! 1 = Some (HomeSessionServer_new (context (home_connection (client_of home s2)))))
    as [H0 H1].
  { simpl. rewrite Hn. split; [by rewrite lookup_insert_ne, lookup_insert_eq|by rewrite lookup_insert_eq]. }
  pose proof (session_events_ok 0 _ w2 H0) as E1.
  destruct (mpsc_channel CHANNEL_CAPACITY (chans w2)) as [sink1 c1] eqn:Hc1.
  set (w3 := listening 0 _ sink1 c1 w2) in *.
  assert (session_heap w3 !! 1 = Some (HomeSessionServer_new (context (home_connection (client_of home s2)))))
    as H1' by (simpl; by rewrite lookup_insert_ne).
  pose proof (session_events_ok 1 _ w3 H1') as E2.
  destruct (mpsc_channel CHANNEL_CAPACITY (chans w3)) as [sink2 c2] eqn:Hc2.
  pose proof (open_new (open:=open) CHANNEL_CAPACITY (chans w2)) as O1. rewrite Hc1 in O1. simpl in O1.
  pose proof (keep_after_channel (open:=open) sink1 CHANNEL_CAPACITY c1 O1) as [Hdiff O1'].
  pose proof (open_new (open:=open) CHANNEL_CAPACITY c1) as O2.
  change (chans w3) with c1 in Hc2. rewrite Hc2 in *. simpl in *.
  apply mpsc_channel_new in Hc1 as [E3 _]. apply mpsc_channel_new in Hc2 as [E4 E5].
  exists sink1, sink2, (logged_in home s1 w), w2, w3. eexists. do 4 (split; [done|]).
  split; [|split_and!; try done; by rewrite E5].
  split; [done|]. split; [done|]. split; [done|]. split.
  - exists 0. eexists. simpl. rewrite Hs, Hn, lookup_insert_ne, lookup_insert_eq by done.
    split; [done|]. by rewrite lookup_insert_ne, lookup_insert_eq.
  - exists 1. eexists. simpl. rewrite Hs, Hn, lookup_insert_eq. split; [done|]. by rewrite lookup_insert_eq.
Qed.

(** An event for one of two listening clients. *)
Lemma push_to_listener p own ev w sink :
  kv_get p (hosted_profile_db w) = Ok own →
  (∃ sid ss, sessions w !! p = Some sid ∧ session_heap w !! sid = Some ss
     ∧ session_events ss = Sender sink) →
  open sink (chans w) →
  ∃ c, run (push_event p ev) w = Returns (tt, set_chans c w)
    ∧ mpsc_received sink c = mpsc_received sink (chans w) ++ [EventMsg (Ok ev)]
    ∧ (∀ t, t ≠ sink → mpsc_received t c = mpsc_received t (chans w))
    ∧ ∀ t, open t (chans w) → open t c.
Proof.
  intros Hown (sid & ss & H1 & H2 & H3) Ho.
  pose proof (keep_send (open:=open) sink (EventMsg (Ok ev)) _ Ho) as Hok.
  destruct (mpsc_send sink (EventMsg (Ok ev)) (chans w)) as [r c] eqn:Hs. simpl in Hok. subst r.
  exists c. split; [by eapply push_event_listening|]. split_and!.
  - by eapply mpsc_send_ok.
  - by eapply mpsc_send_ok.
  - intros t Ht. pose proof (keep_after_send (open:=open) t sink (EventMsg (Ok ev)) _ Ht) as H.
    by rewrite Hs in H.
Qed.

Lemma take_1_ok stream m ms w :
  mpsc_received stream (chans w) = m :: ms → take_1 stream w = Returns (m, w).
Proof. intros H. simpl. unfold direct_take_1. by rewrite H. Qed.

Lemma events_pass home s1 k2 own s2 c :
  genuine s1 → generate_persona k2 = Returns (own, s2) → signer_profile_id s1 ≠ signer_profile_id s2 →
  ∃ w, test_home_events k2 (client_of home s1) (default_home_server c) = Returns (tt, w).
Proof.
  intros Hs1 Hk2 Hne. destruct (generate_persona_genuine _ _ _ Hk2) as [_ Hs2].
  destruct (both_registered home s1 s2 c Hs1 Hs2 Hne)
    as (own1 & pr1 & own2 & pr2 & w1 & w2 & Reg1 & Hv1 & Reg2 & R1 & R2 & G1 & G2 & Hq).
  destruct (both_listen home s1 s2 own1 pr1 own2 pr2 c w2 Hne R1 R2 G1 G2 Hq)
    as (sink1 & sink2 & w3 & w4 & w5 & w6 & L1 & L2 & E1 & E2 & Hon & Hd & O1 & O2 & M1 & M2).
  destruct Hon as (Hv & K1 & K2 & S1 & S2).
  destruct R1 as [Id1 Key1 _ _ _], R2 as [Id2 Key2 _ _ _].
  set (half := RelationHalfProof_new "friend" (signer_profile_id s2) s1).
  destruct (genuine_pairing "friend" s1 s2 Hs1 Hs2 Hne) as (proof & Hsign & _ & Hp1 & Hp2 & Hval1 & Hval2).
  fold half in Hsign.
  unfold test_home_events.
  rewrite (bind_run _ _ _ _ _ Reg1), (bind_run _ _ _ _ _ (new_client_ok home k2 own s2 w1 Hk2 Hv1)),
    (bind_run _ _ _ _ _ Reg2), (bind_run _ _ _ _ _ L1),
    (bind_run _ _ _ _ _ L2), (bind_run _ _ _ _ _ E1), (bind_run _ _ _ _ _ E2).
  cbv zeta. rewrite Id2. change (my_own_signer (client_of home s1)) with s1. fold half.
  destruct (push_to_listener (signer_profile_id s2) own2 (PairingRequest half) w6 sink2 K2 S2 O2)
    as (c1 & P1 & M3 & M4 & O3).
  cbn [do_pair_request do_pair_response direct_mode].
  erewrite (bind_run (run _)); [|rewrite pair_request_run; [exact P1|done|rewrite Hv]].
  2: { apply validate_half_proof_signed. eexists. apply (proj2 Hs1). }
  rewrite M2 in M3. simpl in M3. erewrite bind_run; [|by apply (take_1_ok sink2 (EventMsg (Ok (PairingRequest half))) [])].
  destruct (push_to_listener (signer_profile_id s1) own1 (PairingResponse proof) (set_chans c1 w6) sink1 K1 S1 (O3 _ O1))
    as (c2 & P2 & M5 & _ & _).
  set (w7 := set_chans c1 w6) in *.
  assert (mpsc_received sink1 c2 = [EventMsg (Ok (PairingResponse proof))]) as M6.
  { rewrite M5. change (chans w7) with c1. by rewrite M4, M1. }
  erewrite bind_run.
  2: { erewrite bind_run; [|unfold assert_eq; rewrite bool_decide_true by done; reflexivity].
       change (my_own_signer (client_of home s2)) with s2. rewrite Hsign.
       erewrite bind_run; [|reflexivity].
       erewrite pair_response_run; [exact P2|exact Hp2|exact K1|].
       rewrite Id1, Key1. change (server_validator w7) with (server_validator w6). by rewrite Hv. }
  erewrite bind_run; [|by apply (take_1_ok sink1 (EventMsg (Ok (PairingResponse proof))) [])].
  rewrite Id1, Key1, Key2, Hval1. by eexists.
Qed.

Lemma register_passes home s c :
  genuine home → genuine s → signer_profile_id home ≠ signer_profile_id s →
  ∃ w, test_home_register (client_of home s) (default_home_server c) = Returns (tt, w).
Proof.
  intros Hh Hs Hne.
  destruct (register_client_ok home s (default_home_server c) Hs eq_refl eq_refl)
    as (own & proof & d1 & d2 & Hreg & [_ _ Hhome _ Hproof] & _).
  unfold test_home_register. rewrite (bind_run _ _ _ _ _ Hreg). unfold first_home_of.
  erewrite bind_run; [|rewrite Hhome; reflexivity].
  destruct (genuine_pairing RELATION_TYPE_HOSTED_ON_HOME s home Hs Hh (not_eq_sym Hne))
    as (proof' & Hp & _ & _ & _ & _ & Hval).
  rewrite Hproof in Hp. injection Hp as <-. cbn [client_of ownprofile home_signer].
  cbn. rewrite Hval. by eexists.
Qed.

Lemma claim_passes home s c :
  genuine s → ∃ w, test_home_claim (client_of home s) (default_home_server c) = Returns (tt, w).
Proof.
  intros Hs.
  destruct (register_client_ok home s (default_home_server c) Hs eq_refl eq_refl)
    as (own & proof & d1 & d2 & Hreg & _ & Hget & _).
  unfold test_home_claim. rewrite (bind_run _ _ _ _ _ Hreg).
  erewrite (bind_run _ _ _ own).
  2: { cbn [do_claim direct_mode]. unfold run, await, claim. cbn. rewrite decide_False by tauto. cbn.
       unfold future_map_err, future_result. by rewrite Hget. }
  unfold assert_eq. rewrite bool_decide_true by done. by eexists.
Qed.

Lemma login_passes home s c :
  genuine s → ∃ w, test_home_login (client_of home s) (default_home_server c) = Returns (tt, w).
Proof.
  intros Hs.
  destruct (register_client_ok home s (default_home_server c) Hs eq_refl eq_refl)
    as (own & proof & d1 & d2 & Hreg & R & Hget & _).
  unfold test_home_login. rewrite (bind_run _ _ _ _ _ Hreg).
  erewrite bind_run; [|eapply (login_client_ok home s own proof); [done|done|apply lookup_empty]].
  erewrite bind_run; [|reflexivity]. by eexists.
Qed.

(** A channel on which nothing has been sent. *)
Definition unused (t : SinkId) (c : Chans) : Prop := open t c ∧ mpsc_received t c = [].

Lemma unused_new n c u c' :
  mpsc_channel n c = (u, c') → unused u c' ∧ ∀ t, unused t c → t ≠ u ∧ unused t c'.
Proof.
  intros Hc. pose proof (open_new (open:=open) n c) as Ho. rewrite Hc in Ho.
  pose proof (mpsc_channel_new _ _ _ _ Hc) as [Hs Hother]. split; [done|]. intros t [Hopen Hr].
  destruct (keep_after_channel (open:=open) t n c Hopen) as [Hne Ht]. rewrite Hc in Hne, Ht. simpl in *.
  split; [done|]. split; [done|]. by rewrite Hother.
Qed.

Lemma unused_send u m c :
  unused u c → ∃ c', mpsc_send u m c = (Ok tt, c') ∧ mpsc_received u c' = [m]
    ∧ ∀ t, t ≠ u → unused t c → unused t c'.
Proof.
  intros [Ho Hr]. pose proof (keep_send (open:=open) u m c Ho) as Hok.
  destruct (mpsc_send u m c) as [r c'] eqn:Hs. simpl in Hok. subst r. exists c'.
  pose proof (mpsc_send_ok _ _ _ _ Hs) as [H1 H2]. rewrite Hr in H1. do 2 (split; [done|]).
  intros t Ht [Hot Hrt]. split; [|by rewrite H2].
  pose proof (keep_after_send (open:=open) t u m c Hot) as H. by rewrite Hs in H.
Qed.

Lemma unused_oneshot t c o c' : oneshot_channel c = (o, c') → unused t c → unused t c'.
Proof.
  intros Hc [Ho Hr]. pose proof (keep_after_oneshot (open:=open) t c Ho) as H. rewrite Hc in H.
  split; [done|]. apply oneshot_channel_new in Hc as [_ Hrec]. by rewrite Hrec.
Qed.

Lemma unused_answer t o v c : unused t c → unused t (oneshot_send o v c).2.
Proof.
  intros [Ho Hr]. split; [by apply keep_after_answer|]. by rewrite oneshot_send_received.
Qed.

Lemma send_frame_ok sink frame w :
  unused sink (chans w) →
  ∃ c, send_frame sink frame w = Returns (tt, set_chans c w)
    ∧ expect_frame sink frame (set_chans c w) = Returns (tt, set_chans c w)
    ∧ ∀ t, t ≠ sink → unused t (chans w) → unused t c.
Proof.
  intros Hu. destruct (unused_send sink (FrameMsg (Ok frame)) (chans w) Hu) as (c & Hs & Hr & Hk).
  exists c. simpl. unfold direct_send. rewrite Hs. split; [done|]. split; [|done].
  unfold expect_frame. erewrite bind_run; [|by apply (take_1_ok sink (FrameMsg (Ok frame)) [])].
  unfold assert_eq. by rewrite bool_decide_true.
Qed.

(** A call for an application that listens. *)
Lemma call_sends home s p own app req sid ss sink w chan c1 c :
  proof_peer_id (cr_relation req) (signer_profile_id s) = Ok p →
  kv_get p (hosted_profile_db w) = Ok own →
  validate_relation_proof (server_validator w) (cr_relation req) (signer_profile_id s)
    (signer_public_key s) (profile_id (own_profile own)) (profile_public_key (own_profile own)) = Ok tt →
  sessions w !! p = Some sid → session_heap w !! sid = Some ss →
  session_apps ss !! app = Some (Sender sink) →
  oneshot_channel (chans w) = (chan, c1) →
  mpsc_send sink (CallMsg (Ok (Call_new req chan))) c1 = (Ok tt, c) →
  await (call (home_connection (client_of home s)) app req (Ok tt)) w = (Ok chan, set_chans c w).
Proof.
  intros Hp Hget Hval Hs Hh Happ Hc1 Hsend.
  destruct (call_valid (home_connection (client_of home s)) app req p own w Hp Hget Hval)
    as (chan' & c1' & Hc1' & Hcall). rewrite Hc1 in Hc1'. injection Hc1' as <- <-.
  rewrite Hcall. rewrite (push_call_live _ _ _ sid ss own) by done.
  unfold await, session_push_call. simpl. rewrite Hh, Happ. simpl. by rewrite Hsend.
Qed.

Lemma call_reaches home s p own app req sid ss sink w :
  proof_peer_id (cr_relation req) (signer_profile_id s) = Ok p →
  kv_get p (hosted_profile_db w) = Ok own →
  validate_relation_proof (server_validator w) (cr_relation req) (signer_profile_id s)
    (signer_public_key s) (profile_id (own_profile own)) (profile_public_key (own_profile own)) = Ok tt →
  sessions w !! p = Some sid → session_heap w !! sid = Some ss →
  session_apps ss !! app = Some (Sender sink) → unused sink (chans w) →
  ∃ chan c, run (call (home_connection (client_of home s)) app req (Ok tt)) w
            = Returns (chan, set_chans c w)
    ∧ mpsc_received sink c = [CallMsg (Ok (Call_new req chan))]
    ∧ ∀ t, t ≠ sink → unused t (chans w) → unused t c.
Proof.
  intros Hp Hget Hval Hs Hh Happ Hu. destruct (oneshot_channel (chans w)) as [chan c1] eqn:Hc1.
  destruct (unused_send sink (CallMsg (Ok (Call_new req chan))) c1 (unused_oneshot _ _ _ _ Hc1 Hu))
    as (c & Hsend & Hrec & Hk).
  exists chan, c. split; [|split; [done|]].
  - unfold run. by rewrite (call_sends home s p own app req sid ss sink w chan c1 c).
  - intros t Ht Hut. apply Hk; [done|]. by eapply unused_oneshot.
Qed.

(** The callee takes the call and answers, and the caller gets the answer. *)
Lemma take_call_ok calls req chan back forward w :
  mpsc_received calls (chans w) = [CallMsg (Ok (Call_new req chan))] → cr_to_caller req = Some back →
  (oneshot_send chan (Some forward) (chans w)).1 = Ok tt →
  ∃ c, take_call calls (rp_relation_type (cr_relation req)) (cr_init_payload req) forward w
       = Returns (back, set_chans c w)
    ∧ poll_answer chan TimerRunning (set_chans c w) = Some (Ok (Some forward))
    ∧ ∀ t, unused t (chans w) → unused t c.
Proof.
  intros Hrec Hback Hone. exists (oneshot_send chan (Some forward) (chans w)).2. split; [|split].
  - unfold take_call. erewrite bind_run; [|by apply (take_1_ok calls _ [])]. cbn [call_request].
    unfold assert_eq. rewrite !bool_decide_true by done.
    erewrite bind_run; [|reflexivity]. erewrite bind_run; [|reflexivity].
    erewrite (bind_run _ _ _ req (set_chans (oneshot_send chan (Some forward) (chans w)).2 w)).
    2: { simpl. unfold call_io, answer. by destruct (oneshot_send _ _ _). }
    by rewrite Hback.
  - destruct (oneshot_send chan (Some forward) (chans w)) as [r c] eqn:Hs. simpl in Hone. subst r.
    unfold poll_answer. simpl. by rewrite (oneshot_send_ok _ _ _ _ Hs).
  - intros t. apply unused_answer.
Qed.

Lemma call_finished_ok chan v w :
  poll_answer chan TimerRunning w = Some (Ok v) → call_finished chan w = Returns (v, w).
Proof.
  intros H. simpl. unfold direct_finished, mbind, Test_bind, must_exist, must. rewrite H. reflexivity.
Qed.

(** The application of a new session checks in. *)
Lemma checkin_ok sid ctx app w :
  session_heap w !! sid = Some (HomeSessionServer_new ctx) →
  ∃ sink c, session_checkin sid app w
      = Returns (sink, put_session sid (mkSession ctx (Buffer []) (<[app := Sender sink]> ∅))
                              (set_chans c w))
    ∧ unused sink c.
Proof.
  intros Hs. simpl. unfold direct_checkin, mbind, Test_bind, call_io, checkin_app. rewrite Hs.
  cbn [session_apps HomeSessionServer_new].
  destruct (mpsc_channel CHANNEL_CAPACITY (chans w)) as [sink c] eqn:Hc.
  exists sink, c. split; [done|]. exact (proj1 (unused_new _ _ _ _ Hc)).
Qed.

(** Two channels for a call, and the frames that go through them. *)
Lemma two_channels calls w :
  unused calls (chans w) →
  ∃ forward backwards c2 c3,
    app_channel 1 w = Returns (forward, set_chans c2 w)
    ∧ app_channel 1 (set_chans c2 w) = Returns (backwards, set_chans c3 (set_chans c2 w))
    ∧ calls ≠ forward ∧ calls ≠ backwards ∧ forward ≠ backwards
    ∧ unused calls c3 ∧ unused forward c3 ∧ unused backwards c3.
Proof.
  intros U1. simpl. unfold direct_channel. destruct (mpsc_channel 1 (chans w)) as [forward c2] eqn:Hc2.
  destruct (unused_new _ _ _ _ Hc2) as [U2 K2]. destruct (K2 _ U1) as [N12 U12].
  destruct (mpsc_channel 1 c2) as [backwards c3] eqn:Hc3.
  destruct (unused_new _ _ _ _ Hc3) as [U3 K3].
  destruct (K3 _ U12) as [N13 U13]. destruct (K3 _ U2) as [N23 U23].
  exists forward, backwards, c2, c3. simpl. rewrite Hc3. by split_and!.
Qed.

Lemma frames_exchanged forward backwards banana orange w :
  forward ≠ backwards → unused forward (chans w) → unused backwards (chans w) →
  ∃ w', (_ ← send_frame forward banana; _ ← expect_frame forward banana;
         _ ← send_frame backwards orange; expect_frame backwards orange) w = Returns (tt, w').
Proof.
  intros Hne Hf Hb. destruct (send_frame_ok forward banana w Hf) as (c1 & S1 & S2 & K1).
  destruct (send_frame_ok backwards orange (set_chans c1 w) (K1 _ (not_eq_sym Hne) Hb))
    as (c2 & S3 & S4 & _).
  rewrite (bind_run _ _ _ _ _ S1), (bind_run _ _ _ _ _ S2), (bind_run _ _ _ _ _ S3), S4. by eexists.
Qed.

Lemma call_passes home s1 k2 own s2 c :
  (∀ o v (c : Chans), (oneshot_send o v c).1 = Ok tt) →
  genuine s1 → generate_persona k2 = Returns (own, s2) → signer_profile_id s1 ≠ signer_profile_id s2 →
  ∃ w, test_home_call k2 (client_of home s1) (default_home_server c) = Returns (tt, w).
Proof.
  intros Hone Hs1 Hk2 Hne. destruct (generate_persona_genuine _ _ _ Hk2) as [_ Hs2].
  destruct (both_registered home s1 s2 c Hs1 Hs2 Hne)
    as (own1 & pr1 & own2 & pr2 & w1 & w2 & Reg1 & Hv1 & Reg2 & R1 & _ & G1 & _ & (Hv & Hs & Hh & Hn & _)).
  pose proof (login_client_ok home s1 own1 pr1 w2 R1 G1) as L1. rewrite Hs in L1.
  specialize (L1 (lookup_empty _)). rewrite Hn in L1. destruct R1 as [Id1 Key1 _ _ _].
  destruct (genuine_pairing "friend" s2 s1 Hs2 Hs1 (not_eq_sym Hne))
    as (proof & Hsign & Hty & Hp & _ & Hval & _).
  set (w3 := logged_in home s1 w2) in *.
  assert (session_heap w3 !! 0 = Some (HomeSessionServer_new (context (home_connection (client_of home s1)))))
    as Hh3 by (simpl; by rewrite Hn, lookup_insert_eq).
  assert (sessions w3 !! signer_profile_id s1 = Some 0) as Hs3 by (simpl; by rewrite Hn, lookup_insert_eq).
  destruct (checkin_ok 0 _ (mkApplicationId "chat") w3 Hh3) as (calls & c1 & Hcheck & U1).
  set (w4 := put_session 0 _ _) in Hcheck.
  destruct (two_channels calls w4 U1) as (forward & backwards & c2 & c3 & C1 & C2 & N1 & N2 & N3 & V1 & V2 & V3).
  unfold test_home_call. cbv zeta.
  rewrite (bind_run _ _ _ _ _ Reg1), (bind_run _ _ _ _ _ (new_client_ok home k2 own s2 w1 Hk2 Hv1)),
    (bind_run _ _ _ _ _ Reg2), (bind_run _ _ _ _ _ L1), (bind_run _ _ _ _ _ Hcheck).
  rewrite Id1. cbn [client_of my_own_signer].
  rewrite Hsign. erewrite bind_run; [|reflexivity].
  rewrite (bind_run _ _ _ _ _ C1), (bind_run _ _ _ _ _ C2).
  set (req := mkCallRequest proof _ _). set (w6 := set_chans c3 (set_chans c2 w4)) in *.
  destruct (call_reaches home s2 (signer_profile_id s1) own1 (mkApplicationId "chat") req 0
    (mkSession (context (home_connection (client_of home s1))) (Buffer [])
       (<[mkApplicationId "chat" := Sender calls]> ∅)) calls w6)
    as (chan & c4 & Hcall & Hrec & K4);
    [done|done|simpl; by rewrite Hv, Id1, Key1|done|simpl; apply lookup_insert_eq|apply lookup_insert_eq|done|].
  cbn [call_started direct_mode]. rewrite (bind_run _ _ _ _ _ Hcall).
  destruct (take_call_ok calls req chan backwards forward (set_chans c4 w6) Hrec eq_refl (Hone _ _ _))
    as (c5 & Htake & Hans & K5).
  replace (rp_relation_type (cr_relation req)) with "friend"%string in Htake by (by simpl; rewrite Hty).
  rewrite (bind_run _ _ _ _ _ Htake).
  rewrite (bind_run _ _ _ _ _ (call_finished_ok _ _ _ Hans)).
  erewrite bind_run; [|reflexivity].
  apply frames_exchanged; [done|apply K5, K4; done..].
Qed.

(** What the tests of the home node try out with generated keys holds for all
    of them: at a new home, for every home key and every two client keys that
    make signers with different profile ids, registration, claiming, logging in
    with a ping, pairing through events, and a call with frames in both
    directions pass every assertion, and nothing panics. *)
Theorem scenarios_pass home_key node k1 own1 s1 k2 own2 s2 c :
  Ed25519Signer_new home_key = Returns (Ok node) →
  generate_persona k1 = Returns (own1, s1) → generate_persona k2 = Returns (own2, s2) →
  eds_profile_id node ≠ signer_profile_id s1 → signer_profile_id s1 ≠ signer_profile_id s2 →
  (∀ o v (c : Chans), (oneshot_send o v c).1 = Ok tt) →
  do_test home_key k1 c test_home_register = Returns tt
  ∧ do_test home_key k1 c test_home_claim = Returns tt
  ∧ do_test home_key k1 c test_home_login = Returns tt
  ∧ do_test home_key k1 c (test_home_events k2) = Returns tt
  ∧ do_test home_key k1 c (test_home_call k2) = Returns tt.
Proof.
  intros Hhome Hk1 Hk2 Hne1 Hne2 Hone.
  assert (genuine (Ed25519Signer_signer node)) as Hh by by apply own_signer_validates in Hhome.
  destruct (generate_persona_genuine _ _ _ Hk1) as [_ Hs1].
  assert (∀ test, (∃ w, test (client_of (Ed25519Signer_signer node) s1) (default_home_server c)
                        = Returns (tt, w)) → do_test home_key k1 c test = Returns tt) as Hdo.
  { intros test [w Ht]. unfold do_test, set_up_and_test. erewrite bind_run; [|cbn; rewrite Hhome; reflexivity].
    erewrite bind_run; [|by eapply new_client_ok]. by rewrite Ht. }
  split_and!; apply Hdo.
  - by apply register_passes.
  - by apply claim_passes.
  - by apply login_passes.
  - by eapply events_pass.
  - by eapply call_passes.
Qed.

End theorems.
