(* ===== verification/Memsocket.v ===== *)
(** * The scenarios of the test crate over the wire ([test/src/home.rs])

    The second mode of the tests: client and home talk through the proxies and
    dispatchers of [Process.v], and what these spawn runs on the reactor in any
    order.  The tests are those of [Scenarios.v]; every schedule of the reactor
    completes them. *)

From S2P Require Import Prelude Errors External Storage Protocol Crypto Relation Capnp.
From S2P Require Import HomeServer HomeInvariants HomeServerProps Rpc RpcStreams Reactor Process ProcessProps.
From S2P Require Import Config Startup Composition Scenarios.

Section memsocket.
Context {BC : Bincode} {MH : Multihash} {ED : Ed25519} {Chans : Type} {CH : Channels ChanMsg Chans}.
Abbreviation P :=
  (HomeProcess (InMemoryStore ProfileId Profile) (InMemoryStore ProfileId OwnProfile) Chans).
Context (debug : ProtoError → string) (debug_reg : OwnProfile * ProtoError → string)
        (show : CapnpError → string).
Abbreviation Remote := (Prog P).

Definition lift_panicking {A} (r : Panicking A) : Remote A :=
  match r with Returns a => Done a | Panics => Failed end.

(** The server's half of [TestClient::memsocket]; the dispatcher is the stub of
    [Process.v] for the connection. *)
Definition memsocket_connect (ctx : PeerContext) : Remote HomeConnectionServer := perform (λ p,
  client_home_connection ← unwrap (HomeConnectionServer_new ctx (node p));
  Returns (client_home_connection, p)).

Definition run_io {A} (m : IO P A) : Remote A := perform (λ p, Returns (m p)).
Definition memsocket_send (sink : SinkId) (msg : AppMessageFrame) : Remote unit := perform (λ p,
  let '(r, p) := env_send sink (FrameMsg (Ok msg)) p in
  match r with Ok _ => Returns (tt, p) | Err _ => Panics end).

#[export] Instance memsocket_mode : TestMode Remote :=
  {| check _ := lift_panicking;
     connect_home := memsocket_connect;
     do_register conn own hp inv :=
       m ← lift_panicking (client_register (stub debug debug_reg conn) own hp inv); run_future m;
     do_claim conn id := run_future (client_claim (stub debug debug_reg conn) id);
     do_login conn proof := run_future (client_login (stub debug debug_reg conn) proof);
     do_ping conn txt := run_future (client_ping (session_stub debug (context conn)) txt);
     do_pair_request conn hp := run_future (client_pair_request (stub debug debug_reg conn) hp);
     do_pair_response conn rp := run_future (client_pair_response (stub debug debug_reg conn) rp);
     session_events_of sid := run_io (remote_events sid);
     session_checkin sid app := run_io (remote_checkin_app sid app);
     call_started conn app req := run_future (start_call debug conn app req);
     call_finished chan := run_until (poll_call debug chan TimerRunning);
     answer_call c to_callee := run_io (remote_answer c to_callee);
     app_channel n := run_io (env_channel n);
     send_frame := memsocket_send;
     take_1 := next_message |}.

(** [do_test] in memsocket mode, as a program and the state it starts in. *)
Definition memsocket_test (home_key client_key : PrivateKey) (test_fn : TestClient → Remote unit)
  : Remote unit := set_up_and_test home_key client_key test_fn.
Definition memsocket_start (c : Chans) : P := mkHomeProcess (default_home_server c) [].

(** One method of the home through stub and dispatcher. *)
Lemma at_node_fut_await {E A} (m : IO (HomeServer _ _ Chans) (Future _ E A)) (p : P) :
  await (at_node_fut m) p = let '(r, w) := await m (node p) in (r, set_node w p).
Proof.
  unfold await, at_node_fut, at_node. destruct (m (node p)) as [f w1]. simpl. by destruct (f w1).
Qed.

Lemma remote_ok {E A B C} k text (s : E → string) (fill : A → Panicking B) (decode : B → Field C)
    m (p : P) a w b c :
  await m (node p) = (Ok a, w) → fill a = Returns b → decode b = Ok c →
  await (decode_answer k decode (deliver (answer_with text s fill (at_node_fut m)))) p
  = (Ok c, set_node w p).
Proof.
  intros Hm Hf Hd. rewrite remote_call, at_node_fut_await, Hm. rewrite Hf. by rewrite Hd.
Qed.

End memsocket.

#[local] Arguments kv_get : simpl never.
#[local] Arguments kv_set : simpl never.

Section steps.
Context {BC : Bincode} {MH : Multihash} {ED : Ed25519} {Chans : Type} {CH : Channels ChanMsg Chans}
        {MHL : MultihashLaws} {EDL : Ed25519Laws} {CHL : ChannelsLaws ChanMsg Chans}
        {open : SinkId → Chans → Prop} {KO : KeepsOpen (Msg:=ChanMsg) open}
        {live : OneshotId → Chans → Prop} {KL : KeepsLive (Msg:=ChanMsg) live}.
Abbreviation P :=
  (HomeProcess (InMemoryStore ProfileId Profile) (InMemoryStore ProfileId OwnProfile) Chans).
Context (debug : ProtoError → string) (debug_reg : OwnProfile * ProtoError → string)
        (show : CapnpError → string).
Abbreviation Remote := (Prog P).
Abbreviation mode := (memsocket_mode debug debug_reg).
Abbreviation wired := (wired (open:=open) (live:=live)).
Abbreviation ends := (ends (poll_task show)).
Implicit Types (p : P) (home s : Signer).

Lemma run_returns {E A} (m : IO (HomeServer _ _ Chans) (Future _ E A)) w a w' :
  run m w = Returns (a, w') → await m w = (Ok a, w').
Proof. unfold run. by destruct (await m w) as [[?|?] ?]; intros [= <- <-]. Qed.

Lemma run_future_at_rest {E A} (post : A → P → Prop) (m : IO P (Future P E A)) p a p' :
  wired p → drained p → await m p = (Ok a, p') → post a p' → ends post (run_future m) p.
Proof. intros Hw Hd Hm Hp. eapply perform_at_rest; [done|done| |done]. by rewrite Hm. Qed.

(** Changes of the home that leave channels and spawned tasks alone. *)
Lemma at_rest_same p w :
  wired p → drained p → chans w = chans (node p) → spawned w = spawned (node p) →
  wired (set_node w p) ∧ drained (set_node w p).
Proof.
  intros Hw [Hd1 Hd2] Hc Hs. split.
  - apply wired_same_chans; [done..|]. rewrite Hs. apply Hw.
  - split; [by simpl; rewrite Hs|]. intros i l Hi. specialize (Hd2 i l Hi).
    destruct l; simpl in *; unfold received in *; simpl; rewrite ?Hc; done.
Qed.

Lemma new_client_remote (post : TestClient → P → Prop) home k own s p :
  generate_persona k = Returns (own, s) → server_validator (node p) = CompositeValidator_default →
  wired p → drained p → post (client_of home s) p → ends post (new_client (M:=Remote) (TM:=mode) home k) p.
Proof.
  intros Hk Hv Hw Hd Hp. destruct (generate_persona_genuine k own s Hk) as [-> [Hval _]].
  unfold new_client. simpl. rewrite Hk. simpl. unfold TestClient_new. apply ends_bind.
  eapply perform_at_rest; [done|done| |by constructor].
  unfold HomeConnectionServer_new, PeerContext_validate. simpl. rewrite Hv. simpl in *. by rewrite Hval.
Qed.

(** A registered profile survives the way back to the client. *)
Lemma registered_sent home s own proof :
  registered home s own proof →
  ∃ wire, own_profile_fill_from own = Returns wire ∧ own_profile_try_from wire = Ok own.
Proof.
  intros [_ _ _ Hf _]. destruct own as [[id pk f] priv]. simpl in Hf. subst f.
  apply (own_profile_trip (mkOwnProfile (mkProfile id pk (Persona (mkPersonaFacet [proof] []))) priv)).
  unfold fits. simpl. lia.
Qed.

Lemma register_remote home s p :
  genuine s → server_validator (node p) = CompositeValidator_default →
  is_err (kv_get (signer_profile_id s) (hosted_profile_db (node p))) = true →
  ∃ own proof d1 d2,
    registered home s own proof ∧ kv_get (signer_profile_id s) d2 = Ok own
    ∧ (∀ k, k ≠ signer_profile_id s → kv_get k d2 = kv_get k (hosted_profile_db (node p)))
    ∧ ∀ post : OwnProfile → P → Prop, wired p → drained p →
        post own (set_node (set_db d2 (set_dht d1 (node p))) p) →
        ends post (register_client (M:=Remote) (TM:=mode) (client_of home s)) p.
Proof.
  intros Hs Hv Hnew.
  destruct (register_client_ok home s (node p) Hs Hv Hnew)
    as (own & proof & d1 & d2 & Hreg & Hr & Hget & Hother).
  exists own, proof, d1, d2. do 3 (split; [done|]). intros post Hw Hd Hp.
  apply run_returns in Hreg.
  set (conn := home_connection (client_of home s)) in *.
  destruct (client_register_await debug debug_reg (server_home conn)
    (OwnProfile_new (empty_persona s) []) (OwnProfile_new (empty_persona s) [])
    (RelationHalfProof_new RELATION_TYPE_HOSTED_ON_HOME (signer_profile_id home) s) None)
    as (m & Hm & Hawait); [done|done|].
  unfold register_client. cbn [do_register memsocket_mode].
  change (client_register (stub debug debug_reg conn) (OwnProfile_new (empty_persona s) [])
    (RelationHalfProof_new RELATION_TYPE_HOSTED_ON_HOME (signer_profile_id home) s) None = Returns m) in Hm.
  change (home_connection (client_of home s)) with conn.
  change (Scenarios.home_signer (client_of home s)) with home. change (my_own_signer (client_of home s)) with s.
  change (ownprofile (client_of home s)) with (OwnProfile_new (empty_persona s) []).
  rewrite Hm. simpl. eapply run_future_at_rest; [done|done| |exact Hp].
  rewrite Hawait. cbn [home_register server_home]. rewrite at_node_fut_await.
  destruct (registered_sent _ _ _ _ Hr) as (wire & Hfill & Hdec).
  change (await (register conn _ _ (Some placeholder)) (node p))
    with (await (register conn (OwnProfile_new (empty_persona s) [])
      (RelationHalfProof_new RELATION_TYPE_HOSTED_ON_HOME (signer_profile_id home) s) None) (node p)).
  change (await (register conn (OwnProfile_new (empty_persona s) [])
      (RelationHalfProof_new RELATION_TYPE_HOSTED_ON_HOME (signer_profile_id home) s) None) (node p)
      = (Ok own, set_db d2 (set_dht d1 (node p)))) in Hreg.
  rewrite Hreg. by rewrite Hfill, Hdec.
Qed.

Lemma login_remote (post : SessionId → P → Prop) home s own proof p :
  registered home s own proof → kv_get (signer_profile_id s) (hosted_profile_db (node p)) = Ok own →
  sessions (node p) !! signer_profile_id s = None → wired p → drained p →
  post (next_session (node p)) (set_node (logged_in home s (node p)) p) →
  ends post (login_client (M:=Remote) (TM:=mode) (client_of home s) own) p.
Proof.
  intros Hr Hget Hs Hw Hd Hp. pose proof (login_client_ok home s own proof (node p) Hr Hget Hs) as Hl.
  unfold login_client, first_home_of in *. rewrite (rd_home _ _ _ _ Hr) in *.
  erewrite bind_run in Hl; [|reflexivity]. apply run_returns in Hl. cbn.
  eapply run_future_at_rest; [done|done| |exact Hp].
  destruct proof as [? [] [] [] []]. by eapply remote_ok.
Qed.

(** ** Events *)

(** The [i]-th loop carries the events of the stream [sink] of a session to the
    client's channel [send]; so far there are none. *)
Record listener p (i : nat) (sink send : SinkId) : Prop := mkListener
  { ls_shape : (shape <$> loops p) !! i = Some (Events, Some sink, Some send);
    ls_open : open sink (chans (node p));
    ls_source : ¬ is_target p sink;
    ls_empty : received sink p = [] }.

Lemma listener_later p p' i sink send :
  later (open:=open) (live:=live) p p' → listener p i sink send → listener p' i sink send.
Proof.
  intros [_ Hp] [H1 H2 H3 H4]. split.
  - by rewrite (pg_shape _ _ Hp).
  - by apply (pg_open _ _ Hp).
  - intros H. by eapply H3, is_target_shape, H; apply Hp.
  - by rewrite (pg_received _ _ Hp).
Qed.

Lemma events_listens p sid ctx :
  wired p → session_heap (node p) !! sid = Some (HomeSessionServer_new ctx) →
  ∃ sink send c p',
    remote_events sid p = (send, p') ∧ length (loops p') = S (length (loops p))
    ∧ wired p' ∧ node p' = listening sid ctx sink c (node p)
    ∧ listener p' (length (loops p)) sink send
    ∧ ∀ i sink' send', listener p i sink' send' → sink' ≠ sink ∧ listener p' i sink' send'.
Proof.
  intros Hw Hs. unfold remote_events. cbn [env_channel process_env]. unfold with_chans.
  destruct (mpsc_channel 1 (chans (node p))) as [send c1] eqn:Hc1.
  destruct (new_channel None p 1 send c1 Hw Hc1) as (Hw1 & Hsend & Hold1 & _).
  set (p1 := set_node (set_chans c1 (node p)) p) in *.
  unfold at_node, events. change (session_heap (node p1)) with (session_heap (node p)). rewrite Hs.
  destruct (mpsc_channel CHANNEL_CAPACITY (chans (node p1))) as [sink c2] eqn:Hc2.
  destruct (new_channel None p1 CHANNEL_CAPACITY sink c2 Hw1 Hc2) as (Hw2 & Hsink & Hold2 & _).
  destruct (Hold2 send (spare_open _ _ Hsend)) as (Hne & Hso & Hsr).
  set (p2 := set_node (listening sid ctx sink c2 (node p)) p).
  assert (wired p2) as Hw3.
  { apply (wired_ext None (set_node (set_chans c2 (node p1)) p1)); try done.
    simpl. apply Forall_app. split; [apply Hw|]. constructor; [by exists sink|done]. }
  set (l := FwdEvents sink 0 send).
  exists sink, send, c2, (add_loop l p2). split; [done|].
  split; [simpl; rewrite length_app; simpl; lia|]. split; [|split; [done|split]].
  - eapply (wired_add None p2 l sink send Hw3); try done.
    + intros i l' Hl. apply (spare_unused _ _ Hsink i l' Hl).
    + apply (spare_open _ _ Hsink).
    + apply (spare_not_target _ _ Hsend).
    + intros i l' Hl Hsrc. by destruct (spare_unused _ _ Hsend i l' Hl).
    + assert (received sink p2 = []) as Hr1 by apply (spare_empty _ _ Hsink).
      assert (received send p2 = []) as Hr2 by (unfold received in *; rewrite <- (spare_empty _ _ Hsend); apply Hsr).
      subst l. simpl. rewrite Hr1. split; [lia|]. split; [done|]. by intros t [= <-].
  - split.
    + simpl. rewrite fmap_app, lookup_app_r by (by rewrite length_fmap).
      by rewrite length_fmap, Nat.sub_diag.
    + apply (spare_open _ _ Hsink).
    + intros (i & l' & Hl & Ht). destruct (lookup_snoc_cases _ _ _ _ Hl) as [Hl'|[_ ->]].
      * by apply (spare_unused _ _ Hsink i l' Hl') in Ht.
      * injection Ht. congruence.
    + apply (spare_empty _ _ Hsink).
  - intros i sink' send' [H1 H2 H3 H4]. destruct (Hold1 sink' H2) as (N1 & O1 & R1).
    destruct (Hold2 sink' O1) as (N2 & O2 & R2). split; [done|]. split.
    + simpl. rewrite fmap_app, lookup_app_l; [done|]. by eapply lookup_lt_Some.
    + done.
    + intros (k & l' & Hl & Ht). destruct (lookup_snoc_cases _ _ _ _ Hl) as [Hl'|[_ ->]].
      * apply H3. by exists k, l'.
      * injection Ht. congruence.
    + change (received sink' (set_node (set_chans c2 (node p1)) p1) = []). by rewrite R2, R1.
Qed.

(** An event for a client that listens. *)
Lemma push_to_remote p pid own ev sid ss sink send i :
  wired p → kv_get pid (hosted_profile_db (node p)) = Ok own →
  sessions (node p) !! pid = Some sid → session_heap (node p) !! sid = Some ss →
  session_events ss = Sender sink → listener p i sink send → sent_event ev = ev →
  ∃ c, run (push_event pid ev) (node p) = Returns (tt, set_chans c (node p))
    ∧ let p' := set_node (set_chans c (node p)) p in
      wired p' ∧ due p' send [EventMsg (Ok ev)]
      ∧ (∀ k sink' send', sink' ≠ sink → listener p k sink' send' → listener p' k sink' send')
      ∧ ∀ t, t ≠ sink → received t p' = received t p.
Proof.
  intros Hw Hown Hsid Hss He [L1 L2 L3 L4] Hev.
  destruct (wired_send None p sink (EventMsg (Ok ev)) Hw L2) as (c & Hs & Hw' & Hr & Ho & Hop & _ & _).
  - intros k l Hl _ Ht. apply L3. by exists k, l.
  - intros k l Hl Hsrc _. pose proof (shape_lookup _ _ _ Hl) as Hk. unfold shape in Hk.
    destruct (wired_chained _ Hw k i _ _ _ _ _ _ sink Hk L1) as [Heq _].
    specialize (Heq Hsrc eq_refl). subst k. rewrite list_lookup_fmap, Hl in L1.
    injection L1 as Hkind _ _. by destruct l.
  - exists c. split; [by eapply push_event_listening|]. split; [done|]. split.
    + replace [EventMsg (Ok ev)] with (carried_by Events <$> [EventMsg (Ok ev)]).
      2: { simpl. unfold sent_item. simpl. by rewrite Hev. }
      apply (due_loop _ i _ sink); [done|by right|]. apply due_here; [done|].
      change (mpsc_received sink c = [EventMsg (Ok ev)]). by rewrite Hr, L4.
    + split; [|done]. intros k sink' send' Hne [K1 K2 K3 K4]. split; try done; [by apply Hop|].
      change (mpsc_received sink' c = []). by rewrite Ho.
Qed.

Lemma claim_remote conn id own wire p w :
  await (claim conn id) (node p) = (Ok own, w) →
  own_profile_fill_from own = Returns wire → own_profile_try_from wire = Ok own →
  await (client_claim (stub debug debug_reg conn) id) p = (Ok own, set_node w p).
Proof.
  intros H Hf Hd. destruct id as [id]. apply (remote_ok Proto.FailedToClaimProfile _ _ _
    (λ r, r ≫= own_profile_try_from) _ p own w (Ok wire) own H); [by rewrite Hf|done].
Qed.

Lemma pair_request_remote conn hp p w :
  run (pair_request conn hp) (node p) = Returns (tt, w) →
  await (client_pair_request (stub debug debug_reg conn) hp) p = (Ok tt, set_node w p).
Proof. intros H%run_returns. destruct hp as [? [] [] []]. by eapply remote_ok. Qed.

Lemma pair_response_remote conn rp p w :
  run (pair_response conn rp) (node p) = Returns (tt, w) →
  await (client_pair_response (stub debug debug_reg conn) rp) p = (Ok tt, set_node w p).
Proof. intros H%run_returns. destruct rp as [? [] [] [] []]. by eapply remote_ok. Qed.

(** A future that completes at once, among running loops. *)
Lemma run_future_later {E A} (post : A → P → Prop) (m : IO P (Future P E A)) p :
  wired p →
  (∀ p', later (open:=open) (live:=live) p p' → ∃ a p'', await m p' = (Ok a, p'') ∧ post a p'') →
  ends post (run_future m) p.
Proof.
  intros Hw Hm. apply wired_perform; [done|]. intros p' Hl.
  destruct (Hm p' Hl) as (a & p'' & Ha & Hp). exists a, p''. by rewrite Ha.
Qed.

(** What does not wait. *)
Lemma ends_check {A B} (post : B → P → Prop) (r : Panicking A) a (f : A → Remote B) p :
  r = Returns a → ends post (f a) p → ends post (check (TestMode:=mode) r ≫= f) p.
Proof. by intros ->. Qed.

Lemma ends_assert_eq {A B} `{EqDecision A} (post : B → P → Prop) (x y : A) (f : unit → Remote B) p :
  x = y → ends post (f tt) p → ends post (assert_eq (TM:=mode) x y ≫= f) p.
Proof. intros -> Hf. unfold assert_eq, assert_that. rewrite bool_decide_true by done. exact Hf. Qed.

(** ** Two clients *)

(** What holds of the home whatever has been sent. *)
Definition keeps_home (Q : HomeServer (InMemoryStore ProfileId Profile) (InMemoryStore ProfileId OwnProfile) Chans → Prop)
  : Prop := ∀ ts c w, Q w → Q (set_spawned ts (set_chans c w)).

Lemma later_home Q p p' :
  keeps_home Q → later (open:=open) (live:=live) p p' → Q (node p) → Q (node p').
Proof. intros HQ [_ Hp] Hq. destruct (pg_node _ _ Hp) as (ts & c & ->). by apply HQ. Qed.

Definition two_clients s1 s2 own1 own2 : P → Prop := λ p,
  server_validator (node p) = CompositeValidator_default
  ∧ kv_get (signer_profile_id s1) (hosted_profile_db (node p)) = Ok own1
  ∧ kv_get (signer_profile_id s2) (hosted_profile_db (node p)) = Ok own2.

(** The first part of the tests with two clients: both have registered. *)
Lemma two_registered_remote (post : unit → P → Prop) home s1 s2 own k2
    (next : OwnProfile → TestClient → OwnProfile → Remote unit) c :
  genuine s1 → generate_persona k2 = Returns (own, s2) → signer_profile_id s1 ≠ signer_profile_id s2 →
  (∀ own1 pr1 own2 pr2 p, registered home s1 own1 pr1 → registered home s2 own2 pr2 →
     wired p → drained p → loops p = [] →
     quiet c (node p) → two_clients s1 s2 own1 own2 p →
     ends post (next own1 (client_of home s2) own2) p) →
  ends post (own1 ← register_client (M:=Remote) (TM:=mode) (client_of home s1);
             tc2 ← new_client (M:=Remote) (TM:=mode) home k2;
             own2 ← register_client (M:=Remote) (TM:=mode) tc2; next own1 tc2 own2)
    (memsocket_start c).
Proof.
  intros Hs1 Hk2 Hne Hnext. destruct (generate_persona_genuine _ _ _ Hk2) as [_ Hs2].
  set (p0 := memsocket_start c).
  assert (wired p0) as Hw0 by (split; try done; by intros i j).
  assert (drained p0) as Hd0 by done.
  destruct (register_remote home s1 p0 Hs1 eq_refl eq_refl) as (own1 & pr1 & d1 & d2 & R1 & G1 & O1 & E1).
  apply ends_bind, E1; [done..|]. set (w1 := set_db d2 (set_dht d1 (node p0))) in *.
  destruct (at_rest_same p0 w1 Hw0 Hd0 eq_refl eq_refl) as [Hw1 Hd1].
  apply ends_bind. eapply new_client_remote; [done|done|done|done|].
  destruct (register_remote home s2 (set_node w1 p0) Hs2 eq_refl) as (own2 & pr2 & d3 & d4 & R2 & G2 & O2 & E2).
  { simpl. by rewrite O1. }
  apply ends_bind, E2; [done..|]. set (w2 := set_db d4 (set_dht d3 w1)) in *.
  destruct (at_rest_same (set_node w1 p0) w2 Hw1 Hd1 eq_refl eq_refl) as [Hw2 Hd2].
  apply (Hnext own1 pr1 own2 pr2); try done. split; [done|]. split; [|done]. simpl. by rewrite O2.
Qed.

(** Both clients listen to the events of their sessions. *)
Record both_listen_remote s1 s2 own1 own2 send1 send2 p : Prop := mkBothListen
  { bl_wired : wired p;
    bl_home : ∃ home sink1 sink2,
      both_listening home s1 s2 own1 own2 sink1 sink2 (node p) ∧ sink1 ≠ sink2
      ∧ listener p 0 sink1 send1 ∧ listener p 1 sink2 send2 }.

Lemma both_listen_ends (post : unit → P → Prop) home s1 s2 own1 pr1 own2 pr2
    (next : SinkId → SinkId → Remote unit) c p :
  signer_profile_id s1 ≠ signer_profile_id s2 →
  registered home s1 own1 pr1 → registered home s2 own2 pr2 →
  wired p → drained p → loops p = [] → quiet c (node p) → two_clients s1 s2 own1 own2 p →
  (∀ send1 send2 p', both_listen_remote s1 s2 own1 own2 send1 send2 p' → ends post (next send1 send2) p') →
  ends post (session1 ← login_client (M:=Remote) (TM:=mode) (client_of home s1) own1;
             session2 ← login_client (M:=Remote) (TM:=mode) (client_of home s2) own2;
             events1 ← session_events_of (TestMode:=mode) session1;
             events2 ← session_events_of (TestMode:=mode) session2;
             next events1 events2) p.
Proof.
  intros Hne R1 R2 Hw Hd Hl (Hv & Hs & Hh & Hn & _) (_ & G1 & G2) Hnext.
  apply ends_bind, (login_remote _ home s1 own1 pr1 p R1 G1); [by rewrite Hs|done|done|].
  set (w1 := logged_in home s1 (node p)).
  destruct (at_rest_same p w1 Hw Hd eq_refl eq_refl) as [Hw1 Hd1].
  apply ends_bind, (login_remote _ home s2 own2 pr2 (set_node w1 p) R2 G2); [|done|done|].
  { simpl. by rewrite Hs, lookup_insert_ne. }
  set (w2 := logged_in home s2 w1).
  destruct (at_rest_same (set_node w1 p) w2 Hw1 Hd1 eq_refl eq_refl) as [Hw2 Hd2].
  change (set_node w2 (set_node w1 p)) with (set_node w2 p) in *.
  set (ctx1 := context (home_connection (client_of home s1))).
  set (ctx2 := context (home_connection (client_of home s2))).
  assert (next_session (node p) = 0 ∧ next_session (node (set_node w1 p)) = 1) as [-> ->]
    by (simpl; by rewrite Hn).
  destruct (events_listens (set_node w2 p) 0 ctx1 Hw2) as (sink1 & send1 & c1 & p3 & E1 & Hlen & Hw3 & N3 & L1 & _).
  { simpl. by rewrite Hn, lookup_insert_ne, lookup_insert_eq. }
  apply ends_bind. eapply perform_at_rest; [done|done| |].
  { exact (f_equal Returns E1). }
  apply ends_bind, wired_perform; [done|]. intros p4 Hp4. destruct (pg_node _ _ (proj2 Hp4)) as (ts & c2 & N4).
  destruct (events_listens p4 1 ctx2 (proj1 Hp4)) as (sink2 & send2 & c3 & p5 & E2 & _ & Hw5 & N5 & L2 & Hold).
  { rewrite N4, N3. simpl. by rewrite Hn, lookup_insert_ne, lookup_insert_eq. }
  pose proof (listener_later _ _ _ _ _ Hp4 L1) as L1'. destruct (Hold _ _ _ L1') as [Hd12 L1''].
  assert (length (loops p4) = 1) as Hlen4.
  { pose proof (f_equal length (pg_shape _ _ (proj2 Hp4))) as Heq. rewrite !length_fmap in Heq.
    rewrite Heq, Hlen. simpl. by rewrite Hl. }
  simpl in L1''. rewrite Hl in L1''. rewrite Hlen4 in L2. exists send2, p5. split; [cbv beta; by rewrite E2|].
  apply Hnext. split; [done|]. exists home, sink1, sink2. split; [|by split].
  rewrite N5, N4, N3. split; [done|]. split; [done|]. split; [done|]. split.
  - exists 0. eexists. simpl. rewrite Hs, Hn, lookup_insert_ne, lookup_insert_eq by done.
    split; [done|]. by rewrite lookup_insert_ne, lookup_insert_eq.
  - exists 1. eexists. simpl. rewrite Hs, Hn, lookup_insert_eq. split; [done|]. by rewrite lookup_insert_eq.
Qed.

Lemma both_listen_later s1 s2 own1 own2 send1 send2 p p' :
  later (open:=open) (live:=live) p p' → both_listen_remote s1 s2 own1 own2 send1 send2 p →
  both_listen_remote s1 s2 own1 own2 send1 send2 p'.
Proof.
  intros Hl [Hw (home & sink1 & sink2 & Hb & Hne & L1 & L2)]. split; [apply Hl|].
  exists home, sink1, sink2. split; [|split; [done|split; by eapply listener_later]].
  eapply (later_home (both_listening home s1 s2 own1 own2 sink1 sink2)); [|done|done]. by intros ts c w.
Qed.

(** The pairing request of the first client reaches the second. *)
Lemma request_reaches (post : unit → P → Prop) home s1 s2 own1 own2 send1 send2 hp p :
  both_listen_remote s1 s2 own1 own2 send1 send2 p →
  hp_signer_id hp = signer_profile_id s1 → hp_peer_id hp = signer_profile_id s2 →
  validate_half_proof CompositeValidator_default hp (signer_public_key s1) = Ok tt →
  (∀ p' sink1, wired p' → due p' send2 [EventMsg (Ok (PairingRequest hp))] →
     listener p' 0 sink1 send1 →
     (∃ home sink2, both_listening home s1 s2 own1 own2 sink1 sink2 (node p')) → post tt p') →
  ends post (do_pair_request (TestMode:=mode) (home_connection (client_of home s1)) hp) p.
Proof.
  intros Hb Hsig Hpeer Hval Hpost. apply run_future_later; [apply Hb|]. intros p' Hl.
  destruct (both_listen_later _ _ _ _ _ _ _ _ Hl Hb)
    as [Hw (home' & sink1 & sink2 & (Hv & G1 & G2 & S1 & S2) & Hne & L1 & L2)].
  destruct S2 as (sid & ss & K1 & K2 & K3).
  destruct (push_to_remote p' (signer_profile_id s2) own2 (PairingRequest hp) sid ss sink2 send2 1)
    as (c & Hpush & Hw' & Hdue & Hother); try done.
  exists tt, (set_node (set_chans c (node p')) p'). split.
  - apply pair_request_remote. rewrite pair_request_run; [by rewrite Hpeer|done|by rewrite Hv].
  - apply (Hpost _ sink1); [done|done|by apply Hother|]. exists home', sink2. split; [done|].
    split; [done|]. split; [done|]. split; [done|]. by exists sid, ss.
Qed.

(** And the response of the second reaches the first. *)
Lemma response_reaches (post : unit → P → Prop) home home' s1 s2 own1 own2 sink1 sink2 send1 proof p :
  wired p → listener p 0 sink1 send1 → both_listening home' s1 s2 own1 own2 sink1 sink2 (node p) →
  proof_peer_id proof (signer_profile_id s2) = Ok (signer_profile_id s1) →
  validate_relation_proof CompositeValidator_default proof (signer_profile_id s2) (signer_public_key s2)
    (profile_id (own_profile own1)) (profile_public_key (own_profile own1)) = Ok tt →
  (∀ p', wired p' → due p' send1 [EventMsg (Ok (PairingResponse proof))] → post tt p') →
  ends post (do_pair_response (TestMode:=mode) (home_connection (client_of home s2)) proof) p.
Proof.
  intros Hw L1 Hb Hpeer Hval Hpost. apply run_future_later; [done|]. intros p' Hl.
  assert (both_listening home' s1 s2 own1 own2 sink1 sink2 (node p')) as (Hv & G1 & G2 & S1 & S2).
  { eapply (later_home (both_listening home' s1 s2 own1 own2 sink1 sink2)); [|done|done]. by intros ts c w. }
  destruct S1 as (sid & ss & K1 & K2 & K3). pose proof (listener_later _ _ _ _ _ Hl L1) as L1'.
  destruct (push_to_remote p' (signer_profile_id s1) own1 (PairingResponse proof) sid ss sink1 send1 0)
    as (c & Hpush & Hw' & Hdue & _); try done; [apply Hl|].
  exists tt, (set_node (set_chans c (node p')) p'). split; [|by apply Hpost].
  apply pair_response_remote. erewrite pair_response_run; [exact Hpush|done|exact G1|by rewrite Hv].
Qed.

Lemma events_pass_remote home s1 k2 own s2 c :
  genuine s1 → generate_persona k2 = Returns (own, s2) → signer_profile_id s1 ≠ signer_profile_id s2 →
  ends (λ _ _, True) (test_home_events (M:=Remote) (TM:=mode) k2 (client_of home s1)) (memsocket_start c).
Proof.
  intros Hs1 Hk2 Hne. destruct (generate_persona_genuine _ _ _ Hk2) as [_ Hs2].
  unfold test_home_events. eapply (two_registered_remote _ home s1 s2 own k2); [done..|].
  intros own1 pr1 own2 pr2 p R1 R2 Hw Hd Hl Hq Htc.
  destruct (genuine_pairing "friend" s1 s2 Hs1 Hs2 Hne) as (proof & Hsign & _ & Hp1 & Hp2 & Hval1 & Hval2).
  set (half := RelationHalfProof_new "friend" (signer_profile_id s2) s1) in *.
  eapply (both_listen_ends _ home s1 s2 own1 pr1 own2 pr2); [done..|].
  intros send1 send2 p1 Hb. destruct R1 as [Id1 Key1 _ _ _], R2 as [Id2 Key2 _ _ _].
  cbv beta zeta. rewrite Id2. change (my_own_signer (client_of home s1)) with s1. fold half.
  apply ends_bind, (request_reaches _ home s1 s2 own1 own2 send1 send2 half p1 Hb); try done.
  { apply validate_half_proof_signed. eexists. apply (proj2 Hs1). }
  intros p2 sink1 Hw2 Hdue L1 (home' & sink2 & Hbl).
  apply ends_bind. eapply next_message_due; [done|done|]. intros p3 Hp3.
  cbv beta iota. apply ends_bind, ends_assert_eq; [done|].
  eapply ends_check; [change (my_own_signer (client_of home s2)) with s2; by rewrite Hsign|].
  apply (response_reaches _ home home' s1 s2 own1 own2 sink1 sink2 send1 proof p3);
    [apply Hp3|by eapply listener_later| |done|by rewrite Id1, Key1|].
  { eapply (later_home (both_listening home' s1 s2 own1 own2 sink1 sink2)); [|done|done]. by intros ts c' w. }
  intros p4 Hw4 Hdue4. apply ends_bind. eapply next_message_due; [done|done|]. intros p5 Hp5.
  cbv beta iota. rewrite Id1, Key1, Key2, Hval1. by constructor.
Qed.

(** ** One client *)

Lemma start_at_rest c : wired (memsocket_start c) ∧ drained (memsocket_start c).
Proof. split; [|done]. split; try done; by intros i j. Qed.

(** After registering at a new home. *)
Lemma one_registered_remote (post : unit → P → Prop) home s (next : OwnProfile → Remote unit) c :
  genuine s →
  (∀ own pr p, registered home s own pr → wired p → drained p →
     kv_get (signer_profile_id s) (hosted_profile_db (node p)) = Ok own → sessions (node p) = ∅ →
     ends post (next own) p) →
  ends post (own ← register_client (M:=Remote) (TM:=mode) (client_of home s); next own)
    (memsocket_start c).
Proof.
  intros Hs Hnext. destruct (start_at_rest c) as [Hw Hd].
  destruct (register_remote home s (memsocket_start c) Hs eq_refl eq_refl)
    as (own & pr & d1 & d2 & R & G & _ & E).
  apply ends_bind, E; [done..|].
  destruct (at_rest_same _ (set_db d2 (set_dht d1 (node (memsocket_start c)))) Hw Hd eq_refl eq_refl).
  by apply (Hnext own pr).
Qed.

Lemma register_passes_remote home s c :
  genuine home → genuine s → signer_profile_id home ≠ signer_profile_id s →
  ends (λ _ _, True) (test_home_register (M:=Remote) (TM:=mode) (client_of home s)) (memsocket_start c).
Proof.
  intros Hh Hs Hne. apply one_registered_remote; [done|]. intros own pr p [_ _ Hhome _ Hproof] _ _ _ _.
  destruct (genuine_pairing RELATION_TYPE_HOSTED_ON_HOME s home Hs Hh (not_eq_sym Hne))
    as (proof' & Hp & _ & _ & _ & _ & Hval).
  rewrite Hproof in Hp. injection Hp as <-. unfold first_home_of, expect. rewrite Hhome.
  eapply ends_check; [done|]. cbn [client_of ownprofile Scenarios.home_signer]. cbn. rewrite Hval.
  by constructor.
Qed.

Lemma claim_passes_remote home s c :
  genuine s →
  ends (λ _ _, True) (test_home_claim (M:=Remote) (TM:=mode) (client_of home s)) (memsocket_start c).
Proof.
  intros Hs. apply one_registered_remote; [done|]. intros own pr p R Hw Hd G _.
  destruct (registered_sent _ _ _ _ R) as (wire & Hfill & Hdec).
  apply ends_bind. eapply (run_future_at_rest _ _ p own (set_node (node p) p)); [done|done| |].
  { eapply claim_remote; [|done|done]. unfold await, claim. cbn. rewrite decide_False by tauto. cbn.
    unfold future_map_err, future_result. by rewrite G. }
  unfold assert_eq, assert_that. rewrite bool_decide_true by done. by constructor.
Qed.

Lemma login_passes_remote home s c :
  genuine s →
  ends (λ _ _, True) (test_home_login (M:=Remote) (TM:=mode) (client_of home s)) (memsocket_start c).
Proof.
  intros Hs. apply one_registered_remote; [done|]. intros own pr p R Hw Hd G Hss.
  apply ends_bind. apply (login_remote _ home s own pr p R G); [by rewrite Hss|done|done|].
  destruct (at_rest_same p (logged_in home s (node p)) Hw Hd eq_refl eq_refl) as [Hw' Hd'].
  apply ends_bind. eapply run_future_at_rest; [done|done|reflexivity|]. by constructor.
Qed.

End steps.
