(* ===== verification/RemoteCalls.v ===== *)
(** * Calls over the wire, in any process

    A call goes from the caller's proxy through the home to the callee and its
    answer goes back, while the loops of everybody else run: the channels that
    are waiting to be used, the loops for frames that each dispatcher and proxy
    on the way adds, and the loop that offers the call and waits for the answer. *)

From S2P Require Import Prelude Errors External Storage Protocol Crypto Relation Capnp.
From S2P Require Import HomeServer HomeServerProps Rpc RpcStreams Reactor Process ProcessProps.
From stdpp Require Import relations.

#[local] Arguments kv_get : simpl never.
#[local] Arguments kv_set : simpl never.

Section calls.
Context {BC : Bincode} {Dht Db Chans : Type}
        {DHT : KeyValueStore Dht ProfileId Profile}
        {DB : KeyValueStore Db ProfileId OwnProfile}
        {CH : Channels ChanMsg Chans} {CHL : ChannelsLaws ChanMsg Chans}
        {open : SinkId → Chans → Prop} {KO : KeepsOpen (Msg:=ChanMsg) open}
        {live : OneshotId → Chans → Prop} {KL : KeepsLive (Msg:=ChanMsg) live}.
Abbreviation P := (HomeProcess Dht Db Chans).
Context (debug : ProtoError → string) (show : CapnpError → string).
Abbreviation step := (task_step (poll_task (Dht:=Dht) (Db:=Db) show)).
Abbreviation wired := (wired (open:=open) (live:=live)).
Abbreviation wired_but := (wired_but (open:=open) (live:=live)).
Abbreviation keeps := (keeps (open:=open) (live:=live)).
Abbreviation progress := (progress (open:=open) (live:=live)).
Implicit Types (p : P) (l : Loop) (i : nat) (s t u : SinkId) (o : OneshotId).

(** ** Channels and oneshots that wait to be used *)

(** Frames can be sent into [t]; [ms] have been. *)
Record entrance p t (ms : list ChanMsg) : Prop := mkEntrance
  { en_open : open t (chans (node p));
    en_received : received t p = ms;
    en_untargeted : ¬ is_target p t;
    en_readers i l : loops p !! i = Some l → loop_source l = Some t → kind l = Frames }.

(** A loop carries frames from [s] to [t]. *)
Definition route p s t : Prop := ∃ i, (shape <$> loops p) !! i = Some (Frames, Some s, Some t).

(** Nobody has answered [o] yet, and of the loops at most the [i]-th waits for it. *)
Record unanswered p i o : Prop := mkUnanswered
  { un_live : live o (chans (node p));
    un_poll : oneshot_poll o (chans (node p)) = NotReady;
    un_loops j s n t c : loops p !! j = Some (AwaitCallee s n t c o) → j = i }.

Lemma entrance_progress p p' t ms : progress p p' → entrance p t ms → entrance p' t ms.
Proof.
  intros Hp [H1 H2 H3 H4]. split.
  - by apply (pg_open _ _ Hp).
  - by rewrite (pg_received _ _ Hp).
  - intros Ht. by eapply H3, is_target_shape, Ht; apply Hp.
  - intros i l Hi Hs. apply shape_lookup in Hi. rewrite (pg_shape _ _ Hp), list_lookup_fmap in Hi.
    destruct (loops p !! i) as [l0|] eqn:Hl0; [|done]. injection Hi as Hk Hs0 _. rewrite <- Hk.
    apply (H4 i l0 Hl0). congruence.
Qed.

Lemma route_progress p p' s t : progress p p' → route p s t → route p' s t.
Proof. intros Hp [i Hi]. exists i. by rewrite (pg_shape _ _ Hp). Qed.

(** A loop over calls was there before. *)
Lemma calls_loop_before p p' j l :
  progress p p' → loops p' !! j = Some l → kind l = Calls → loops p !! j = Some l.
Proof.
  intros Hp Hj Hk. pose proof (shape_lookup _ _ _ Hj) as Hs. rewrite (pg_shape _ _ Hp), list_lookup_fmap in Hs.
  destruct (loops p !! j) as [l0|] eqn:Hl0; [|done]. injection Hs as Hk0 _ _.
  destruct (pg_calls _ _ Hp j l0 Hl0) as [Hj' _]; congruence.
Qed.

Lemma unanswered_progress p p' i o : progress p p' → unanswered p i o → unanswered p' i o.
Proof.
  intros Hp [H1 H2 H3]. split.
  - by apply (pg_live _ _ Hp).
  - by rewrite (pg_poll _ _ Hp).
  - intros j s n t c Hj. by eapply H3, calls_loop_before.
Qed.

(** ** A process in which the [i]-th loop handles a call *)

(** [b] says whether the loop is in the middle of it; frames are carried along
    [routes], [quiet] are entrances nothing has been sent into, and [os] are the
    oneshots that wait for an answer. *)
Record handling (b : option nat) p i (routes : list (SinkId * SinkId)) (quiet : list SinkId)
    (os : list OneshotId) : Prop := mkHandling
  { hd_wired : wired_but b p;
    hd_routes s t : (s, t) ∈ routes → route p s t;
    hd_quiet t : t ∈ quiet → entrance p t [];
    hd_unanswered o : o ∈ os → unanswered p i o }.

Lemma handling_progress b p p' i routes quiet os :
  wired_but b p' → progress p p' → handling b p i routes quiet os → handling b p' i routes quiet os.
Proof.
  intros Hw Hp [H1 H2 H3 H4]. split; [done|..].
  - intros s t Hst. eapply route_progress; [done|by apply H2].
  - intros t Ht. eapply entrance_progress; [done|by apply H3].
  - intros o Ho. eapply unanswered_progress; [done|by apply H4].
Qed.

(** More loops for frames, and channels used. *)
Lemma entrance_grow p p' new ts os t ms :
  keeps ts os p p' → loops p' = loops p ++ new → t ∉ ts →
  Forall (λ l, kind l = Frames ∧ loop_target l ≠ Some t) new → entrance p t ms → entrance p' t ms.
Proof.
  intros Hk Hl Hts Hnew [H1 H2 H3 H4]. split.
  - by apply Hk.
  - by rewrite (kp_received _ _ _ _ Hk).
  - intros (i & l & Hi & Ht). rewrite Hl in Hi. apply lookup_app_Some in Hi as [Hi|[_ Hi]].
    + apply H3. by exists i, l.
    + by destruct (Forall_lookup_1 _ _ _ _ Hnew Hi) as [_ ?].
  - intros i l Hi Hs. rewrite Hl in Hi. apply lookup_app_Some in Hi as [Hi|[_ Hi]]; [by eapply H4|].
    by destruct (Forall_lookup_1 _ _ _ _ Hnew Hi) as [? _].
Qed.

Lemma route_grow p p' new s t : loops p' = loops p ++ new → route p s t → route p' s t.
Proof.
  intros Hl [i Hi]. exists i. rewrite Hl, fmap_app, lookup_app_l; [done|]. by eapply lookup_lt_Some.
Qed.

Lemma unanswered_grow p p' new ts os i o :
  keeps ts os p p' → loops p' = loops p ++ new → o ∉ os → Forall (λ l, kind l = Frames) new →
  unanswered p i o → unanswered p' i o.
Proof.
  intros Hk Hl Hos Hnew [H1 H2 H3]. split.
  - by apply Hk.
  - by rewrite (kp_poll _ _ _ _ Hk).
  - intros j s n t c Hj. rewrite Hl in Hj. apply lookup_app_Some in Hj as [Hj|[_ Hj]]; [by eapply H3|].
    by pose proof (Forall_lookup_1 _ _ _ _ Hnew Hj).
Qed.

Lemma handling_grow b p p' i routes quiet os ts os' quiet' waiting :
  handling b p i routes quiet os → wired_but b p' → keeps ts os' p p' → loops p' = loops p →
  (∀ t, t ∈ quiet' → t ∈ quiet ∧ t ∉ ts) → (∀ o, o ∈ waiting → o ∈ os ∧ o ∉ os') →
  handling b p' i routes quiet' waiting.
Proof.
  intros [H1 H2 H3 H4] Hw Hk Hl Hq Hos. rewrite <- (app_nil_r (loops p)) in Hl. split; [done|..].
  - intros s t Hst. eapply route_grow; [done|by apply H2].
  - intros t Ht. destruct (Hq t Ht) as [Ht' Hts]. eapply entrance_grow; [done|done|done|done|by apply H3].
  - intros o Ho. destruct (Hos o Ho) as [Ho' Hno]. eapply unanswered_grow; [done|done|done|done|by apply H4].
Qed.

(** *** Operations of such a process *)

(** [fwd_appmsg] towards an entrance. *)
Lemma handling_route b p i routes quiet os t quiet' :
  handling b p i routes quiet os → t ∈ quiet → (∀ u, u ∈ quiet' → u ∈ quiet ∧ u ≠ t) →
  ∃ s p', fwd_appmsg (mkAppListener t) p = (s, p')
    ∧ handling b p' i ((s, t) :: routes) (s :: quiet') os ∧ keeps [] [] p p'
    ∧ loops p' = loops p ++ [FwdFrames s 0 (mkAppListener t)]
    ∧ (∃ c, node p' = set_chans c (node p)) ∧ (s ∉ quiet) ∧ s ≠ t.
Proof.
  intros [Hw Hr Hq Hos] Ht Hsub. destruct (Hq t Ht) as [O E N R].
  destruct (fwd_appmsg_wired b p t Hw O E N R) as (s & p' & Hf & Hw' & Hk & Hl & Hn & Hso & Hse & Hsn & Hne & Hsr).
  exists s, p'. split; [done|]. split; [|split; [done|split; [done|split; [done|split]]]].
  - split; [done|..].
    + intros s1 t1 [[= -> ->]|Hin]%elem_of_cons; [|by eapply route_grow, Hr].
      exists (length (loops p)). rewrite Hl, fmap_app, lookup_app_r by (by rewrite length_fmap).
      by rewrite length_fmap, Nat.sub_diag.
    + intros u [->|Hu]%elem_of_cons; [done|]. destruct (Hsub u Hu) as [Hu' Hut].
      eapply entrance_grow; [done|done|by apply not_elem_of_nil| |by apply Hq].
      constructor; [|done]. split; [done|]. simpl. congruence.
    + intros o Ho. eapply unanswered_grow; [done|done|by apply not_elem_of_nil| |by apply Hos].
      by constructor.
  - intros Hin. by apply (Hne s); [apply Hq|].
  - intros ->. by apply (Hne t O).
Qed.

(** A new oneshot. *)
Lemma handling_oneshot b p i routes quiet os o c :
  handling b p i routes quiet os → oneshot_channel (chans (node p)) = (o, c) →
  (∀ j s n t cl o', loops p !! j = Some (AwaitCallee s n t cl o') → live o' (chans (node p))) →
  let p' := set_node (set_chans c (node p)) p in
  handling b p' i routes quiet (o :: os) ∧ (o ∉ os) ∧ keeps [] [] p p'
  ∧ ∀ j s n t cl, loops p' !! j ≠ Some (AwaitCallee s n t cl o).
Proof.
  intros Hh Hc Hlive p'. destruct (oneshot_wired b p o c (hd_wired _ _ _ _ _ _ Hh) Hc) as (Hw & Hk & Hl & Hnr & Hne).
  assert (∀ j s n t cl, loops p' !! j ≠ Some (AwaitCallee s n t cl o)) as Hno.
  { intros j s n t cl Hj. by apply (Hne o); [eapply Hlive|]. }
  destruct (handling_grow b p p' i routes quiet os [] [] quiet os Hh Hw Hk eq_refl) as [H1 H2 H3 H4];
    [intros; split; [done|apply not_elem_of_nil]..|].
  split; [|split; [|by split]].
  - split; [done..|]. intros o' [->|Ho]%elem_of_cons; [|by apply H4]. split; [done|done|].
    intros j s n t cl Hj. by destruct (Hno j s n t cl).
  - intros Hin. by apply (Hne o); [apply (hd_unanswered _ _ _ _ _ _ Hh)|].
Qed.

(** A new channel. *)
Lemma handling_channel b p i routes quiet os n t c :
  handling b p i routes quiet os → mpsc_channel n (chans (node p)) = (t, c) →
  let p' := set_node (set_chans c (node p)) p in
  handling b p' i routes (t :: quiet) os ∧ (t ∉ quiet) ∧ keeps [] [] p p'.
Proof.
  intros Hh Hc p'. destruct (new_channel b p n t c (hd_wired _ _ _ _ _ _ Hh) Hc) as (Hw & Hs & Hold & Hlive).
  assert (keeps [] [] p p') as Hk.
  { split; try (intros; by apply Hold); intros; by apply Hlive. }
  destruct (handling_grow b p p' i routes quiet os [] [] quiet os Hh Hw Hk eq_refl) as [H1 H2 H3 H4];
    [intros; split; [done|apply not_elem_of_nil]..|].
  split; [|split; [|done]].
  - split; [done..| |done]. intros u [->|Hu]%elem_of_cons; [|by apply H3].
    destruct Hs as [S1 S2 S3]. split; [done|done| |].
    + intros (j & l & Hj & Ht). by destruct (S3 j l Hj).
    + intros j l Hj Hs. by destruct (S3 j l Hj).
  - intros Hin. by apply (Hold t); [apply (hd_quiet _ _ _ _ _ _ Hh)|].
Qed.

(** An answer. *)
Lemma handling_answer p i routes quiet os o v os' :
  handling (Some i) p i routes quiet os → o ∈ os → (∀ o', o' ∈ os' → o' ∈ os ∧ o' ≠ o) →
  ∃ c, oneshot_send o v (chans (node p)) = (Ok tt, c)
    ∧ let p' := set_node (set_chans c (node p)) p in
      handling (Some i) p' i routes quiet os' ∧ keeps [] [o] p p' ∧ oneshot_poll o c = Sent v.
Proof.
  intros Hh Ho Hsub. destruct (hd_unanswered _ _ _ _ _ _ Hh o Ho) as [Hl Hp Hj].
  destruct (answer_wired (Some i) p o v (hd_wired _ _ _ _ _ _ Hh) Hl Hp) as (c & Hs & Hw & Hk & Hsent).
  { intros j s n t cl Hjl. f_equal. symmetry. by eapply Hj. }
  exists c. split; [done|]. intros p'. split; [|done].
  eapply handling_grow; [done|done|done|done| |].
  - intros; split; [done|apply not_elem_of_nil].
  - intros o' Ho'. destruct (Hsub o' Ho'). split; [done|]. set_solver.
Qed.

(** A message of the loop that handles the call. *)
Lemma handling_send p i routes quiet os l s msg :
  handling (Some i) p i routes quiet os → loops p !! i = Some l → kind l = Calls →
  loop_source l = Some s ∨ loop_target l = Some s →
  ∃ c, mpsc_send s msg (chans (node p)) = (Ok tt, c)
    ∧ let p' := set_node (set_chans c (node p)) p in
      handling (Some i) p' i routes quiet os ∧ keeps [s] [] p p' ∧ received s p' = received s p ++ [msg].
Proof.
  intros Hh Hi Hk Hs. pose proof (hd_wired _ _ _ _ _ _ Hh) as Hw.
  assert (∀ j l', loops p !! j = Some l' → Some i ≠ Some j → loop_target l' ≠ Some s ∧ loop_source l' ≠ Some s) as Hothers.
  { intros j l' Hj Hne. apply shape_lookup in Hj, Hi. unfold shape in Hi, Hj.
    destruct (wb_chained _ _ Hw i j _ _ _ _ _ _ s Hi Hj) as (C1 & C2 & C3).
    destruct (wb_chained _ _ Hw j i _ _ _ _ _ _ s Hj Hi) as (_ & _ & C4).
    destruct Hs as [Hs|Hs]; split; intros Hs'; try (by destruct Hne; f_equal; auto).
    - destruct (C3 Hs Hs') as (_ & ? & _). congruence.
    - destruct (C4 Hs' Hs) as (_ & _ & ?). congruence. }
  destruct (wired_send (Some i) p s msg Hw) as (c & Hsend & Hw' & Hrec & Hother & Hop & Hlive & Hpoll).
  - by apply (wb_open _ _ Hw i l Hi).
  - intros j l' Hj Hne. by apply (Hothers j).
  - intros j l' Hj Hsrc Hne. by destruct (Hothers j l' Hj Hne).
  - exists c. split; [done|]. intros p'.
    assert (keeps [s] [] p p') as Hkeep.
    { split; try done. intros t _ Ht. apply Hother. set_solver. }
    split; [|by split]. eapply handling_grow; [done|done|done|done| |intros; split; [done|apply not_elem_of_nil]].
    intros t Ht. split; [done|]. intros ->%list_elem_of_singleton.
    destruct (hd_quiet _ _ _ _ _ _ Hh s Ht) as [_ _ E3 E4]. destruct Hs as [Hs|Hs].
    + specialize (E4 i l Hi Hs). congruence.
    + apply E3. by exists i, l.
Qed.

Lemma handling_except b p i routes quiet os :
  handling None p i routes quiet os → handling b p i routes quiet os.
Proof. intros [H1 H2 H3 H4]. split; try done. by apply wired_except. Qed.

(** The loop is done with its part. *)
Lemma handling_back p i routes quiet os l l' :
  handling (Some i) p i routes quiet os → loops p !! i = Some l → shape l' = shape l →
  loop_ok (live:=live) p l' → handling None (set_loop i l' p) i routes quiet os.
Proof.
  intros [Hw Hr Hq Hos] Hi Hsh Hok.
  assert (shape <$> loops (set_loop i l' p) = shape <$> loops p) as Hshape.
  { simpl. rewrite list_fmap_insert, Hsh. apply list_insert_id. by apply shape_lookup. }
  split.
  - by apply (wired_back i l).
  - intros s t [j Hj]%Hr. exists j. by rewrite Hshape.
  - intros t Ht. destruct (Hq t Ht) as [E1 E2 E3 E4]. split; try done.
    + intros H. by eapply E3, is_target_shape.
    + intros j l0 Hj Hs. apply shape_lookup in Hj. rewrite Hshape, list_lookup_fmap in Hj.
      destruct (loops p !! j) as [l1|] eqn:Hl1; [|done]. injection Hj as Hk Hs1 _. rewrite <- Hk.
      apply (E4 j l1 Hl1). congruence.
  - intros o Ho. destruct (Hos o Ho) as [U1 U2 U3]. split; try done.
    intros j s n t c Hj. destruct (decide (j = i)) as [->|Hne]; [done|].
    simpl in Hj. rewrite list_lookup_insert_ne in Hj by done. by eapply U3.
Qed.

(** ** The loop of a call *)

(** What the [i]-th loop does with the calls of a session: [ms] have come to it,
    [offers] have been made to the listener. *)
Record call_loop p i l (offers ms : list ChanMsg) : Prop := mkCallLoop
  { lp_loop : loops p !! i = Some l;
    lp_kind : kind l = Calls;
    lp_offers t : loop_target l = Some t → received t p = offers;
    lp_calls s : loop_source l = Some s → received s p = ms }.

Lemma calls_source b p i l s :
  wired_but b p → loops p !! i = Some l → kind l = Calls → loop_source l = Some s → ¬ is_target p s.
Proof.
  intros Hw Hi Hk Hs (j & l' & Hj & Ht). apply shape_lookup in Hi, Hj. unfold shape in Hi, Hj.
  destruct (wb_chained _ _ Hw i j _ _ _ _ _ _ s Hi Hj) as (_ & _ & H).
  destruct (H Hs Ht) as (_ & ? & _). congruence.
Qed.

Lemma call_loop_progress b p p' i l offers ms :
  wired_but b p → progress p p' → call_loop p i l offers ms → call_loop p' i l offers ms.
Proof.
  intros Hw Hp [H1 H2 H3 H4]. destruct (pg_calls _ _ Hp i l H1 H2) as [Hi Ht]. split; [done|done|..].
  - intros t Hl. rewrite Ht by done. by apply H3.
  - intros s Hs. rewrite (pg_received _ _ Hp); [by apply H4|]. by eapply calls_source.
Qed.

(** Other operations leave it alone. *)
Lemma call_loop_keeps b p p' new ts os i l offers ms :
  wired_but b p → keeps ts os p p' → loops p' = loops p ++ new →
  (∀ s, loop_source l = Some s ∨ loop_target l = Some s → s ∉ ts) →
  call_loop p i l offers ms → call_loop p' i l offers ms.
Proof.
  intros Hw Hk Hl Hts [H1 H2 H3 H4]. split; [rewrite Hl; by apply lookup_app_l_Some|done|..].
  - intros t Ht. rewrite (kp_received _ _ _ _ Hk); [by apply H3| |by apply Hts; right].
    apply (wb_open _ _ Hw i l H1). by right.
  - intros s Hs. rewrite (kp_received _ _ _ _ Hk); [by apply H4| |by apply Hts; left].
    apply (wb_open _ _ Hw i l H1). by left.
Qed.

(** ** The stages of a call *)

(** What either end passes on in place of the channel to the caller it got. *)
Definition with_caller (req : CallRequestDetails) t : CallRequestDetails :=
  mkCallRequest (cr_relation req) (cr_init_payload req) (Some t).

Section stages.
Context (i n : nat) (calls listener : SinkId) (cl : Call) (to_caller : SinkId)
        (offers ms : list ChanMsg) (routes : list (SinkId * SinkId)) (quiet : list SinkId).
Context (Hcaller : cr_to_caller (call_request cl) = Some to_caller)
        (Hnew : ms !! n = Some (CallMsg (Ok cl))) (Hlast : length ms = S n)
        (Hquiet : to_caller ∉ quiet).
Implicit Types (one forward back : SinkId).

(** The call has come to the session of the callee, *)
Record offering p : Prop := mkOffering
  { of_handling : handling (Some i) p i routes (to_caller :: quiet) [call_sender cl];
    of_loop : call_loop p i (OfferCalls calls n listener) offers ms }.

(** it has been offered to the listener, with a channel [t] towards the caller, *)
Definition offer t one : ChanMsg := CallMsg (Ok (Call_new (with_caller (call_request cl) t) one)).
Record offered t one p : Prop := mkOffered
  { od_handling : handling None p i ((t, to_caller) :: routes) (t :: quiet) [one; call_sender cl];
    od_new : (t ∉ quiet) ∧ one ≠ call_sender cl;
    od_loop : call_loop p i (AwaitCallee calls n listener cl one) (offers ++ [offer t one]) ms }.

(** the listener has answered with its channel, *)
Record answered t one forward p : Prop := mkAnswered
  { an_handling : handling (Some i) p i ((t, to_caller) :: routes) (forward :: t :: quiet) [call_sender cl];
    an_new : forward ∉ t :: quiet;
    an_loop : call_loop p i (AwaitCallee calls n listener cl one) (offers ++ [offer t one]) ms;
    an_answer : oneshot_poll one (chans (node p)) = Sent (Some forward) }.

(** and the answer has come back to the caller. *)
Record returned t one forward back p : Prop := mkReturned
  { rt_handling : handling None p i ((back, forward) :: (t, to_caller) :: routes) (back :: t :: quiet) [];
    rt_new : back ∉ t :: quiet;
    rt_loop : call_loop p i (OfferCalls calls (S n) listener) (offers ++ [offer t one]) ms;
    rt_answer : oneshot_poll (call_sender cl) (chans (node p)) = Sent (Some back) }.

(** *** From one to the next *)

Lemma offered_item req t :
  cr_to_caller req = Some t →
  wcr_toCaller (checkin_item req) = Ok (mkAppListener t)
  ∧ call_request_try_from (checkin_item req) = Ok (mkCallRequest (cr_relation req) (cr_init_payload req) None).
Proof.
  destruct req as [rel [payload] t']; simpl. intros ->. split; [done|].
  by destruct rel as [? [] [] [] []].
Qed.

Lemma offering_next p :
  offering p →
  ∃ l' p1 t one, loop_step show (OfferCalls calls n listener) p = Some (l', p1)
    ∧ offered t one (set_loop i l' p1).
Proof.
  intros [Hh Hl]. set (l := OfferCalls calls n listener) in *.
  destruct (handling_route _ _ _ _ _ _ to_caller quiet Hh) as (t & p1 & Hf & Hh1 & Hk1 & Hl1 & _ & Ht & Htc);
    [by left|set_solver|].
  assert (call_loop p1 i l offers ms) as Hc1.
  { eapply call_loop_keeps; [apply Hh|exact Hk1|exact Hl1| |done]. intros; apply not_elem_of_nil. }
  destruct (oneshot_channel (chans (node p1))) as [one c2] eqn:Hone.
  destruct (handling_oneshot _ _ _ _ _ _ one c2 Hh1 Hone) as (Hh2 & Hno & Hk2 & _).
  { intros j s m u c o Hj. destruct (decide (j = i)) as [->|Hne].
    - rewrite (lp_loop _ _ _ _ _ Hc1) in Hj. done.
    - apply (wb_ok _ _ (hd_wired _ _ _ _ _ _ Hh1) j _ Hj). congruence. }
  set (p2 := set_node (set_chans c2 (node p1)) p1) in *.
  assert (call_loop p2 i l offers ms) as Hc2.
  { eapply (call_loop_keeps _ p1 p2 []); [apply Hh1|exact Hk2|by rewrite app_nil_r| |done].
    intros; apply not_elem_of_nil. }
  destruct (handling_send p2 i _ _ _ l listener (offer t one) Hh2 (lp_loop _ _ _ _ _ Hc2) eq_refl)
    as (c3 & Hsend & Hh3 & Hk3 & Hrec); [by right|].
  set (p3 := set_node (set_chans c3 (node p2)) p2) in *.
  pose proof (lp_loop _ _ _ _ _ Hc2) as Hloop2.
  eexists (AwaitCallee calls n listener cl one), p3, t, one. split; [|split].
  - unfold loop_step, l. rewrite (lp_calls _ _ _ _ _ Hl calls eq_refl), Hnew.
    unfold await, call_receive, request_details. destruct (offered_item _ _ Hcaller) as [Hto Hdec]. cbn [pry].
    rewrite Hdec. cbn [pry]. rewrite Hto, Hf. cbn [env_oneshot process_env]. unfold with_chans.
    rewrite Hone. cbn [pry]. unfold io_ret. cbn [env_send process_env]. unfold with_chans.
    fold p2. unfold offer, with_caller in Hsend. cbn [cr_relation cr_init_payload]. by rewrite Hsend.
  - apply (handling_back p3 i _ _ _ l); [done|done|done|].
    destruct (hd_unanswered _ _ _ _ _ _ Hh3 one) as [? ? _]; [by left|done].
  - split; [set_solver|]. set_solver.
  - split.
    + simpl. apply list_lookup_insert_eq. by eapply lookup_lt_Some.
    + done.
    + intros u [= <-]. change (received listener p3 = offers ++ [offer t one]).
      rewrite Hrec. f_equal. by apply (lp_offers _ _ _ _ _ Hc2).
    + intros s [= <-]. change (received calls p3 = ms).
      rewrite (kp_received _ _ _ _ Hk3); [by apply (lp_calls _ _ _ _ _ Hc2)| |].
      * apply (wb_open _ _ (hd_wired _ _ _ _ _ _ Hh2) i l Hloop2). by left.
      * intros ->%list_elem_of_singleton. pose proof (lp_calls _ _ _ _ _ Hc2 listener eq_refl) as H1.
        apply (calls_source _ p2 i l listener (hd_wired _ _ _ _ _ _ Hh2) Hloop2 eq_refl eq_refl).
        by exists i, l.
Qed.

Lemma answered_next t one forward p :
  answered t one forward p →
  ∃ l' p1 back, loop_step show (AwaitCallee calls n listener cl one) p = Some (l', p1)
    ∧ returned t one forward back (set_loop i l' p1).
Proof.
  intros [Hh Hf Hl Ha]. set (l := AwaitCallee calls n listener cl one) in *.
  destruct (handling_route _ _ _ _ _ _ forward (t :: quiet) Hh) as (back & p1 & Hfwd & Hh1 & Hk1 & Hl1 & _ & Hb & Hbf);
    [by left|intros u Hu; split; [by right|by intros ->]|].
  assert (call_loop p1 i l (offers ++ [offer t one]) ms) as Hc1.
  { eapply call_loop_keeps; [apply Hh|exact Hk1|exact Hl1| |done]. intros; apply not_elem_of_nil. }
  destruct (handling_answer p1 i _ _ _ (call_sender cl) (Some back) [] Hh1) as (c & Hsend & Hh2 & Hk2 & Hsent);
    [by left|set_solver|].
  set (p2 := set_node (set_chans c (node p1)) p1) in *.
  assert (call_loop p2 i l (offers ++ [offer t one]) ms) as Hc2.
  { eapply (call_loop_keeps _ p1 p2 []); [apply Hh1|exact Hk2|by rewrite app_nil_r| |done].
    intros; apply not_elem_of_nil. }
  pose proof (lp_loop _ _ _ _ _ Hc2) as Hloop2.
  exists (OfferCalls calls (S n) listener), p2, back. split; [|split].
  - unfold loop_step, l, call_poll_answer. cbn [env_oneshot_poll process_env]. rewrite Ha.
    cbn [checkin_answer]. rewrite Hfwd. unfold at_node, answer. by rewrite Hsend.
  - apply (handling_back p2 i _ _ _ l); [done|done|done|].
    simpl. by rewrite (lp_calls _ _ _ _ _ Hc2 calls eq_refl).
  - set_solver.
  - split; [|done|apply Hc2..]. simpl. apply list_lookup_insert_eq. by eapply lookup_lt_Some.
  - exact Hsent.
Qed.

(** *** Whatever else runs *)

Lemma offering_step p p' :
  offering p → step p p' → (offering p' ∧ measure p' < measure p) ∨ ∃ t one, offered t one p'.
Proof.
  intros Ho Hs. pose proof Ho as [Hh Hl].
  destruct (wired_but_step show _ p p' (hd_wired _ _ _ _ _ _ Hh) Hs)
    as [(Hw & Hp & Hm)|(j & l & l' & p1 & [= <-] & Hj & Hstep & ->)].
  - left. split; [|done]. split; [by eapply handling_progress|]. eapply call_loop_progress; [apply Hh|done..].
  - right. destruct (offering_next p Ho) as (l2 & p2 & t & one & Hstep2 & Hd).
    rewrite (lp_loop _ _ _ _ _ Hl) in Hj. injection Hj as <-. rewrite Hstep in Hstep2. injection Hstep2 as <- <-.
    by exists t, one.
Qed.

Lemma loop_moves p j l l' p1 : loops p !! j = Some l → loop_step show l p = Some (l', p1) → ∃ p', step p p'.
Proof. intros Hj Hl. eexists. exists (PollLoop j). simpl. rewrite Hj. simpl. by rewrite Hl. Qed.

Lemma offering_moves p : offering p → ∃ p', step p p'.
Proof.
  intros Ho. destruct (offering_next p Ho) as (l' & p1 & t & one & Hstep & _).
  eapply loop_moves; [apply (lp_loop _ _ _ _ _ (of_loop _ Ho))|done].
Qed.

Lemma offered_step t one p p' : offered t one p → step p p' → offered t one p' ∧ measure p' < measure p.
Proof.
  intros [Hh Hn Hl] Hs. destruct (wired_step show p p' (hd_wired _ _ _ _ _ _ Hh) Hs) as (Hw & Hp & Hm).
  split; [|done]. split; [by eapply handling_progress|done|]. eapply call_loop_progress; [apply Hh|done..].
Qed.

Lemma offered_leads t one p : offered t one p → inevitably step (offered t one) p.
Proof.
  apply (inevitably_phase step (offered t one) _ measure); [|done]. intros p1 p2 H Hs. left. by eapply offered_step.
Qed.

Lemma offering_leads p : offering p → inevitably step (λ p', ∃ t one, offered t one p') p.
Proof.
  apply (inevitably_phase step offering _ measure).
  - intros p1 p2 Ho Hs. destruct (offering_step p1 p2 Ho Hs) as [?|(t & one & Hd)]; [by left|right].
    eapply inevitably_mono, offered_leads, Hd. eauto.
  - intros p1 Ho Hno. by destruct Hno; apply offering_moves.
Qed.

Lemma offering_steps p p' : offering p → rtc step p p' → offering p' ∨ ∃ t one, offered t one p'.
Proof.
  intros Ho Hs. induction Hs as [p|p p1 p' Hs Hs' IH]; [by left|].
  destruct (offering_step p p1 Ho Hs) as [[Ho1 _]|(t & one & Hd)]; [by apply IH|right]. exists t, one.
  clear -Hd Hs' CHL KO KL Hquiet. induction Hs' as [p1|p1 p2 p' Hs _ IH]; [done|]. by apply IH, (offered_step t one p1).
Qed.

Lemma answered_step t one forward p p' :
  answered t one forward p → step p p' →
  (answered t one forward p' ∧ measure p' < measure p) ∨ ∃ back, returned t one forward back p'.
Proof.
  intros Ho Hs. pose proof Ho as [Hh Hf Hl Ha].
  destruct (wired_but_step show _ p p' (hd_wired _ _ _ _ _ _ Hh) Hs)
    as [(Hw & Hp & Hm)|(j & l & l' & p1 & [= <-] & Hj & Hstep & ->)].
  - left. split; [|done]. split; [by eapply handling_progress|done| |by rewrite (pg_poll _ _ Hp)].
    eapply call_loop_progress; [apply Hh|done..].
  - right. destruct (answered_next t one forward p Ho) as (l2 & p2 & back & Hstep2 & Hd).
    rewrite (lp_loop _ _ _ _ _ Hl) in Hj. injection Hj as <-. rewrite Hstep in Hstep2. injection Hstep2 as <- <-.
    by exists back.
Qed.

Lemma returned_step t one forward back p p' :
  returned t one forward back p → step p p' → returned t one forward back p' ∧ measure p' < measure p.
Proof.
  intros [Hh Hn Hl Ha] Hs. destruct (wired_step show p p' (hd_wired _ _ _ _ _ _ Hh) Hs) as (Hw & Hp & Hm).
  split; [|done]. split; [by eapply handling_progress|done| |by rewrite (pg_poll _ _ Hp)].
  eapply call_loop_progress; [apply Hh|done..].
Qed.

Lemma answered_leads t one forward p :
  answered t one forward p → inevitably step (λ p', ∃ back, returned t one forward back p') p.
Proof.
  apply (inevitably_phase step (answered t one forward) _ measure).
  - intros p1 p2 Ho Hs. destruct (answered_step t one forward p1 p2 Ho Hs) as [?|(back & Hd)]; [by left|right].
    eapply (inevitably_phase step (returned t one forward back) _ measure); [|eauto|done].
    intros p3 p4 H Hs'. left. by eapply returned_step.
  - intros p1 Ho Hno. destruct Hno. destruct (answered_next t one forward p1 Ho) as (l' & p2 & back & Hstep & _).
    eapply loop_moves; [apply (lp_loop _ _ _ _ _ (an_loop _ _ _ _ Ho))|done].
Qed.

(** *** What the ends do *)

(** The caller gets the answer. *)
Lemma caller_gets_answer t one forward back p timer :
  returned t one forward back p →
  ∃ front p', poll_call debug (call_sender cl) timer p = Some (Ok (Some front), p')
    ∧ handling None p' i ((front, back) :: (back, forward) :: (t, to_caller) :: routes) (front :: t :: quiet) []
    ∧ (front ∉ t :: quiet).
Proof.
  intros [Hh Hn Hl Ha]. unfold poll_call, poll_answer. rewrite Ha. simpl.
  destruct (handling_route _ _ _ _ _ _ back (t :: quiet) Hh) as (front & p1 & Hf & Hh1 & _ & _ & _ & Hfr & Hne);
    [by left|intros u Hu; split; [by right|by intros ->]|].
  rewrite Hf. exists front, p1. split; [done|]. split; [done|]. set_solver.
Qed.
Lemma answered_steps t one forward p p' :
  answered t one forward p → rtc step p p' → answered t one forward p' ∨ ∃ back, returned t one forward back p'.
Proof.
  intros Ho Hs. induction Hs as [p|p p1 p' Hs Hs' IH]; [by left|].
  destruct (answered_step t one forward p p1 Ho Hs) as [[Ho1 _]|(back & Hd)]; [by apply IH|right]. exists back.
  clear -Hd Hs' CHL KO KL. induction Hs' as [p1|p1 p2 p' Hs _ IH]; [done|]. by apply IH, (returned_step t one forward back p1).
Qed.

Lemma offered_later t one p p' :
  offered t one p → later (open:=open) (live:=live) p p' → offered t one p'.
Proof.
  intros [Hh Hn Hl] [Hw Hp]. split; [by eapply handling_progress|done|]. eapply call_loop_progress; [apply Hh|done..].
Qed.
End stages.

(** ** Before and after *)

(** The callee takes the call and answers with a channel it has, *)
Lemma callee_answers_with i n calls listener cl to_caller offers ms routes quiet quiet' t one forward p req :
  offered i n calls listener cl to_caller offers ms routes quiet t one p →
  forward ∈ quiet → (∀ u, u ∈ quiet' → u ∈ quiet ∧ u ≠ forward) →
  answered i n calls listener cl to_caller offers ms routes quiet' t one forward
    (remote_answer (Call_new req one) (Some forward) p).2.
Proof.
  intros [Hh [Ht Hne] Hl] Hf Hq. apply (handling_except (Some i)) in Hh.
  destruct (handling_answer p i _ _ _ one (Some forward) [call_sender cl] Hh) as (c & Hsend & [H1 H2 H3 H4] & Hk & Hsent);
    [by left|set_solver|].
  unfold remote_answer, IncomingCall_answer, with_chans. cbn [call_sender snd]. rewrite Hsend. cbn [snd].
  set (p' := set_node (set_chans c (node p)) p) in *. split; [|set_solver| |done].
  - split; [done|done| |done]. intros u Hu. apply H3. set_solver.
  - eapply (call_loop_keeps _ p p' []); [apply Hh|exact Hk|by rewrite app_nil_r|intros; apply not_elem_of_nil|done].
Qed.

(** or makes. *)
Lemma callee_answers i n calls listener cl to_caller offers ms routes t one p forward p1 req :
  offered i n calls listener cl to_caller offers ms routes [] t one p → env_channel 1 p = (forward, p1) →
  answered i n calls listener cl to_caller offers ms routes [] t one forward
    (remote_answer (Call_new req one) (Some forward) p1).2.
Proof.
  intros [Hh [Ht Hne] Hl] Hc. cbn [env_channel process_env] in Hc. unfold with_chans in Hc.
  destruct (mpsc_channel 1 (chans (node p))) as [u c] eqn:Hch. injection Hc as -> <-.
  destruct (handling_channel _ _ _ _ _ _ 1 forward c Hh Hch) as ([H1 H2 H3 H4] & Hf & Hk1).
  apply (callee_answers_with _ _ _ _ _ _ _ _ _ [forward]); [|by left|by intros v ?%elem_of_nil].
  split; [|set_solver|].
  - split; [done|done| |done]. intros v Hv. apply H3. set_solver.
  - eapply (call_loop_keeps _ p _ []); [apply Hh|exact Hk1|by rewrite app_nil_r|intros; apply not_elem_of_nil|done].
Qed.

(** The callee: hosted and logged in, with an application that has checked in. *)
Record expects_calls p (callee : ProfileId) (app : ApplicationId) i n calls listener : Prop := mkExpectsCalls
  { ec_hosted : ∃ own, kv_get callee (hosted_profile_db (node p)) = Ok own;
    ec_session : ∃ sid ss, sessions (node p) !! callee = Some sid ∧ session_heap (node p) !! sid = Some ss
      ∧ session_apps ss !! app = Some (Sender calls);
    ec_loop : loops p !! i = Some (OfferCalls calls n listener) }.

(** Whom the home lets call. *)
Definition may_call p (conn : HomeConnectionServer) (relation : RelationProof) (callee : ProfileId) : Prop :=
  proof_peer_id relation (peer_id (context conn)) = Ok callee
  ∧ ∀ own, kv_get callee (hosted_profile_db (node p)) = Ok own →
      validate_relation_proof (server_validator (node p)) relation (peer_id (context conn)) (peer_pubkey (context conn))
        (profile_id (own_profile own)) (profile_public_key (own_profile own)) = Ok tt.

Lemma start_call_route conn app req back p t p1 chan w :
  cr_to_caller req = Some back → fwd_appmsg (mkAppListener back) p = (t, p1) →
  await (call conn app (with_caller req t) (Ok tt)) (node p1) = (Ok chan, w) →
  await (start_call debug conn app req) p = (Ok chan, set_node w p1).
Proof.
  intros Hback Hf Hcall. destruct app as [app], req as [rel [payload] back']. simpl in Hback. subst back'.
  unfold await, start_call, dispatch_call_with, call_params.
  cbn [clp_relation clp_app clp_initPayload clp_toCaller pry callee_listener cr_to_caller app_str
       cr_relation cr_init_payload frame_bytes].
  cbv beta iota. rewrite Hf, relation_proof_roundtrip. cbn [pry]. unfold answer_with, server_call, at_node_fut, at_node.
  unfold with_caller, await in Hcall. cbn [cr_relation cr_init_payload] in Hcall.
  destruct (call conn _ _ _ (node p1)) as [f w1]. unfold future_map_err, future_map. simpl. by rewrite Hcall.
Qed.

(** The two parts of a call make up [HomeClientCapnProto::call]: a call that is
    polled once is given up unless it is answered by then. *)
Lemma client_call_parts debug_reg conn app req p :
  await (client_call (stub debug debug_reg conn) app req) p
  = match await (start_call debug conn app req) p with
    | (Ok chan, p1) => default (Ok None, p1) (poll_call debug chan TimerFired p1)
    | (Err e, p1) => (Err e, p1)
    end.
Proof.
  unfold await, client_call, start_call, stub. 
  cbn [m_call connect HomeDispatcher]. unfold deliver, dispatch_call, dispatch_call_with, call_params.
  destruct app as [app], req as [rel [payload] back].
  cbn [clp_relation clp_app clp_initPayload clp_toCaller pry cr_to_caller app_str cr_relation cr_init_payload frame_bytes].
  rewrite relation_proof_roundtrip. cbn [pry]. unfold answer_with. cbn [home_call server_home].
  destruct (match callee_listener back with Ok _ => _ | Err _ => _ end) as [to_caller p1].
  destruct (server_call conn _ _ p1) as [fut p2].
  unfold future_map_err, future_map, and_then, disconnected. destruct (fut p2) as [[chan|e] p3]; simpl; [|done].
  unfold finish_call, poll_call, poll_answer.
  destruct (oneshot_poll chan (chans (node p3))); simpl; [done| |done].
  by destruct (checkin_answer _ _).
Qed.

(** The call reaches the session of the callee. *)
Lemma call_starts p conn app req back callee i n calls listener quiet :
  handling None p i [] (back :: quiet) [] → back ∉ quiet →
  expects_calls p callee app i n calls listener → may_call p conn (cr_relation req) callee →
  cr_to_caller req = Some back →
  ∃ t chan p1, let cl := Call_new (with_caller req t) chan in
    await (start_call debug conn app req) p = (Ok chan, p1)
    ∧ offering i n calls listener cl t (received listener p) (received calls p ++ [CallMsg (Ok cl)])
        [(t, back)] quiet p1 ∧ (t ∉ quiet).
Proof.
  intros Hh Hbq [(own & Hown) (sid & ss & H1 & H2 & H3) Hi] [Hpeer Hval] Hback.
  pose proof (hd_wired _ _ _ _ _ _ Hh) as Hw.
  destruct (handling_route _ _ _ _ _ _ back quiet Hh) as (t & p1 & Hf & Hh1 & Hk1 & Hl1 & [c1 N1] & Ht & _);
    [by left|intros u Hu; split; [by right|by intros ->]|].
  set (l := OfferCalls calls n listener) in *.
  assert (call_loop p1 i l (received listener p) (received calls p)) as Hc1.
  { eapply (call_loop_keeps None p); [done|exact Hk1|exact Hl1|intros; apply not_elem_of_nil|].
    split; [done|done|by intros u [= <-]|by intros s [= <-]]. }
  destruct (oneshot_channel (chans (node p1))) as [chan c2] eqn:Hone.
  destruct (handling_oneshot _ _ _ _ _ _ chan c2 Hh1 Hone) as (Hh2 & _ & Hk2 & _).
  { intros j s m u c o Hj. by apply (wb_ok _ _ (hd_wired _ _ _ _ _ _ Hh1) j _ Hj). }
  set (p2 := set_node (set_chans c2 (node p1)) p1) in *.
  assert (call_loop p2 i l (received listener p) (received calls p)) as Hc2.
  { eapply (call_loop_keeps None p1 p2 []); [apply Hh1|exact Hk2|by rewrite app_nil_r| |done].
    intros; apply not_elem_of_nil. }
  set (cl := Call_new (with_caller req t) chan).
  pose proof (lp_loop _ _ _ _ _ Hc2) as Hloop2.
  destruct (handling_send p2 i _ _ _ l calls (CallMsg (Ok cl)) (handling_except (Some i) _ _ _ _ _ Hh2) Hloop2 eq_refl)
    as (c3 & Hsend & Hh3 & Hk3 & Hrec); [by left|].
  set (p3 := set_node (set_chans c3 (node p2)) p2) in *.
  exists t, chan, p3. split.
  - replace p3 with (set_node (set_chans c3 (node p1)) p1) by done.
    apply (start_call_route conn app req back p t p1 chan); [done|done|].
    destruct (call_valid conn app (with_caller req t) callee own (node p1)) as (chan' & c' & Hone' & ->);
      [done|by rewrite N1|rewrite N1; by apply Hval|].
    rewrite Hone in Hone'. injection Hone' as <- <-.
    rewrite (push_call_live _ _ _ sid ss own) by (by rewrite N1).
    unfold await, session_push_call. simpl. rewrite N1. simpl. rewrite H2, H3. simpl.
    change (chans (node p2)) with c2 in Hsend. unfold cl in Hsend. by rewrite Hsend.
  - split; [|set_solver]. split; [done|]. split; [done|done| |].
    + intros u [= <-]. rewrite (kp_received _ _ _ _ Hk3); [by apply (lp_offers _ _ _ _ _ Hc2)| |].
      * apply (wb_open _ _ (hd_wired _ _ _ _ _ _ Hh2) i l Hloop2). by right.
      * intros ->%list_elem_of_singleton.
        apply (calls_source _ p2 i l calls (hd_wired _ _ _ _ _ _ Hh2) Hloop2 eq_refl eq_refl). by exists i, l.
    + intros u [= <-]. rewrite Hrec. f_equal. by apply (lp_calls _ _ _ _ _ Hc2).
Qed.

(** An application checks in over the wire. *)
Lemma checks_in p callee sid ss app quiet :
  wired p → is_Some (ok (kv_get callee (hosted_profile_db (node p)))) →
  sessions (node p) !! callee = Some sid → session_heap (node p) !! sid = Some ss → session_apps ss !! app = None →
  (∀ t, t ∈ quiet → entrance p t []) →
  ∃ listener calls c p', let i := length (loops p) in
    remote_checkin_app sid app p = (listener, p')
    ∧ handling None p' i [] quiet [] ∧ expects_calls p' callee app i 0 calls listener
    ∧ received listener p' = []
    ∧ node p' = put_session sid (mkSession (session_context ss) (session_events ss)
                  (<[app := Sender calls]> (session_apps ss))) (set_chans c (node p))
    ∧ loops p' = loops p ++ [OfferCalls calls 0 listener].
Proof.
  intros Hw [own Hown] Hsid Hs Happ Hq. unfold remote_checkin_app. cbn [env_channel process_env]. unfold with_chans.
  assert (handling None p (length (loops p)) [] quiet []) as Hh.
  { split; [done|by intros s t ?%elem_of_nil|done|by intros o ?%elem_of_nil]. }
  destruct (mpsc_channel 1 (chans (node p))) as [listener c1] eqn:Hc1.
  destruct (handling_channel _ _ _ _ _ _ 1 listener c1 Hh Hc1) as (Hh1 & Hl1 & _).
  set (p1 := set_node (set_chans c1 (node p)) p) in *.
  unfold at_node, checkin_app. change (session_heap (node p1)) with (session_heap (node p)). rewrite Hs.
  replace (mkApplicationId (app_str app)) with app by by destruct app.
  destruct (mpsc_channel CHANNEL_CAPACITY (chans (node p1))) as [calls c2] eqn:Hc2.
  destruct (handling_channel _ _ _ _ _ _ CHANNEL_CAPACITY calls c2 Hh1 Hc2) as ([Hw2 _ Hq2 _] & Hl2 & _).
  destruct (new_channel None p1 CHANNEL_CAPACITY calls c2 (hd_wired _ _ _ _ _ _ Hh1) Hc2) as (_ & Hsc & Hold & _).
  set (p2 := set_node (set_chans c2 (node p1)) p1) in *. rewrite Happ.
  set (w := put_session _ _ _). set (l := OfferCalls calls 0 listener).
  assert (wired (set_node w p2)) as Hw3 by (apply wired_same_chans; [done|done|apply Hw2]).
  destruct (Hq2 listener ltac:(set_solver)) as [L1 L2 L3 L4]. destruct Hsc as [S1 S2 S3].
  assert (∀ j l', loops p2 !! j = Some l' → loop_source l' ≠ Some listener) as Hlsrc.
  { intros j l' Hj Hsrc. destruct (new_channel None p 1 listener c1 Hw Hc1) as (_ & [_ _ Hun] & _).
    by destruct (Hun j l' Hj). }
  exists listener, calls, c2, (add_loop l (set_node w p2)). split; [reflexivity|]. split; [|split; [|split; [done|by split]]].
  - split; [|by intros s t ?%elem_of_nil| |by intros o ?%elem_of_nil].
    + apply (wired_add None _ l calls listener Hw3); try done; try exact S3.
      * intros ->. set_solver.
      * intros j l' Hj Hsrc. by destruct (Hlsrc j l' Hj).
      * change (0 = length (received calls p2)). by rewrite S2.
    + intros t Ht. destruct (Hq2 t ltac:(set_solver)) as [E1 E2 E3 E4]. split; [done|done| |].
      * intros (j & l' & Hj & Ht'). destruct (lookup_snoc_cases _ _ _ _ Hj) as [Hj'|[_ ->]].
        -- apply E3. by exists j, l'.
        -- injection Ht' as <-. done.
      * intros j l' Hj Ht'. destruct (lookup_snoc_cases _ _ _ _ Hj) as [Hj'|[_ ->]]; [by apply (E4 j)|].
        injection Ht' as <-. set_solver.
  - split.
    + exists own. simpl. by destruct (kv_get callee _); simplify_eq/=.
    + exists sid. eexists. split; [done|]. simpl. rewrite lookup_insert_eq. split; [done|]. simpl. apply lookup_insert_eq.
    + simpl. rewrite lookup_app_r by lia. by rewrite Nat.sub_diag.
Qed.

(** ** Frames *)

(** Sending [fs] into [s], one after the other. *)
Fixpoint send_frames s (fs : list AppMessageFrame) p : option P :=
  match fs with
  | [] => Some p
  | f :: fs => match env_send s (FrameMsg (Ok f)) p with
               | (Ok _, p) => send_frames s fs p
               | (Err _, _) => None
               end
  end.
Definition frames (fs : list AppMessageFrame) : list ChanMsg := (λ f, FrameMsg (Ok f)) <$> fs.

Lemma frames_sent s fs p ms :
  wired p → entrance p s ms →
  ∃ p', send_frames s fs p = Some p' ∧ wired p' ∧ entrance p' s (ms ++ frames fs)
    ∧ keeps [s] [] p p' ∧ loops p' = loops p.
Proof.
  revert p ms; induction fs as [|f fs IH]; intros p ms Hw He.
  { exists p. split; [done|]. split; [done|]. split; [by rewrite app_nil_r|]. by split. }
  destruct (wired_send None p s (FrameMsg (Ok f)) Hw) as (c & Hsend & Hw1 & Hrec & Hother & Hop & Hlive & Hpoll).
  - apply He.
  - intros i l Hi _ Ht. apply (en_untargeted _ _ _ He). by exists i, l.
  - intros i l Hi Hs _. pose proof (en_readers _ _ _ He i l Hi Hs). by destruct l.
  - set (p1 := set_node (set_chans c (node p)) p) in *.
    assert (keeps [s] [] p p1) as Hk1.
    { split; try done. intros t _ Ht. apply Hother. set_solver. }
    destruct (IH p1 (ms ++ [FrameMsg (Ok f)]) Hw1) as (p' & Hs & Hw' & He' & Hk & Hl).
    { destruct He as [E1 E2 E3 E4]. split; [by apply Hk1|by rewrite <- E2|done|done]. }
    exists p'. split; [cbn [send_frames env_send process_env]; unfold with_chans; by rewrite Hsend|].
    split; [done|]. split; [by rewrite <- app_assoc in He'|]. split; [|done].
    pose proof (keeps_trans _ _ _ _ _ _ _ Hk1 Hk) as [K1 K2 K3 K4]. split; try done. intros t Ht Hts. apply K2; set_solver.
Qed.

(** Over two loops. *)
Lemma due_over p s u t ms : entrance p s ms → route p s u → route p u t → due p t ms.
Proof.
  intros He [i Hi] [j Hj].
  assert (∀ k s t, (shape <$> loops p) !! k = Some (Frames, Some s, Some t) → due p s ms → due p t ms) as Hover.
  { intros k s' t' Hk Hd. rewrite <- (list_fmap_id ms). apply (due_loop p k Frames s' t'); [done|by left|done]. }
  eapply Hover, Hover; [exact Hj|exact Hi|]. apply due_here; apply He.
Qed.

Lemma handling_steps p p' i routes quiet os :
  handling None p i routes quiet os → rtc step p p' → handling None p' i routes quiet os.
Proof.
  intros Hh Hs. destruct (wired_steps show p p' (hd_wired _ _ _ _ _ _ Hh) Hs) as [Hw Hp].
  by eapply handling_progress.
Qed.

(** Two connected ends talk: whatever either sends, the other gets. *)
Lemma ends_talk p i routes s u t s' u' t' fs gs :
  handling None p i routes [s; s'] [] → s ≠ s' →
  (s, u) ∈ routes → (u, t) ∈ routes → (s', u') ∈ routes → (u', t') ∈ routes →
  ∃ p1 p2, send_frames s fs p = Some p1 ∧ send_frames s' gs p1 = Some p2
    ∧ inevitably step (λ p', received t p' = frames fs ∧ received t' p' = frames gs) p2.
Proof.
  intros [Hw Hr Hq _] Hne R1 R2 R3 R4.
  pose proof (Hq s ltac:(set_solver)) as E1. pose proof (Hq s' ltac:(set_solver)) as E2.
  destruct (frames_sent s fs p [] Hw E1) as (p1 & Hs1 & Hw1 & He1 & Hk1 & Hl1).
  rewrite <- (app_nil_r (loops p)) in Hl1.
  assert (entrance p1 s' []) as E2'.
  { eapply entrance_grow; [exact Hk1|exact Hl1| |done|exact E2]. set_solver. }
  destruct (frames_sent s' gs p1 [] Hw1 E2') as (p2 & Hs2 & Hw2 & He2 & Hk2 & Hl2).
  rewrite <- (app_nil_r (loops p1)) in Hl2.
  assert (entrance p2 s (frames fs)) as He1'.
  { eapply entrance_grow; [exact Hk2|exact Hl2| |done|exact He1]. set_solver. }
  assert (∀ s t, (s, t) ∈ routes → route p2 s t) as Hr2.
  { intros s0 t0 H. eapply route_grow, route_grow, Hr; done. }
  assert (due p2 t (frames fs)) as D1 by (by eapply due_over; [|apply Hr2|apply Hr2]).
  assert (due p2 t' (frames gs)) as D2 by (by eapply due_over; [|apply Hr2|apply Hr2]).
  exists p1, p2. split; [done|]. split; [done|]. split; [by apply wired_acc|]. intros p' Hs Hno.
  pose proof (wired_steps show p2 p' Hw2 Hs) as Hl.
  destruct (wired_progresses show p' (proj1 Hl)) as [[Hd _]|?]; [|done].
  split; (apply (due_drained (open:=open) (live:=live)); [apply Hl|done|]; by eapply due_later).
Qed.

(** C8: a call connects the two applications, whatever else goes on in the
    process: a caller whom the home lets call a user, and an application of the
    user that has checked in and takes calls from its [listener].  Asking the
    home succeeds, and inevitably, under every schedule of the loops, the
    listener is given one more call, while the caller waits for the answer.
    When the listener has it, it has the relation and the first message as the
    caller sent them, and a channel.  Whenever the callee then answers with a
    channel of its own, inevitably the caller gets the answer, with a channel as
    well.  From then on the two can talk: whatever frames either sends into its
    channel, and whenever, inevitably the other one gets them, all of them and in
    order. *)
Theorem call_connects p conn app req backwards callee i n calls listener :
  wired p → expects_calls p callee app i n calls listener → may_call p conn (cr_relation req) callee →
  cr_to_caller req = Some backwards → entrance p backwards [] →
  ∃ chan p1, await (start_call debug conn app req) p = (Ok chan, p1)
    ∧ inevitably step (λ p2, ∃ call, received listener p2 = received listener p ++ [CallMsg (Ok call)]
          ∧ poll_call debug chan TimerRunning p2 = None) p1
    ∧ ∀ p2 call, rtc step p1 p2 → received listener p2 = received listener p ++ [CallMsg (Ok call)] →
        cr_relation (call_request call) = cr_relation req
        ∧ cr_init_payload (call_request call) = cr_init_payload req
        ∧ ∃ behind, cr_to_caller (call_request call) = Some behind
        ∧ ∀ forward p3, env_channel 1 p2 = (forward, p3) →
            inevitably step (λ p5, ∃ front p6, poll_call debug chan TimerRunning p5 = Some (Ok (Some front), p6)
              ∧ ∀ p7 fs gs, rtc step p6 p7 → ∃ p8 p9,
                  send_frames front fs p7 = Some p8 ∧ send_frames behind gs p8 = Some p9
                  ∧ inevitably step (λ p', received forward p' = frames fs ∧ received backwards p' = frames gs) p9)
              (remote_answer call (Some forward) p3).2.
Proof.
  intros Hw Hec Hmay Hback Hb.
  assert (handling None p i [] [backwards] []) as Hh0.
  { split; [done|by intros s t ?%elem_of_nil|by intros t ->%list_elem_of_singleton|by intros o ?%elem_of_nil]. }
  destruct (call_starts p conn app req backwards callee i n calls listener [] Hh0 (not_elem_of_nil _) Hec Hmay Hback)
    as (t & chan & p1 & Hstart & Hof & Hq).
  set (cl := Call_new (with_caller req t) chan) in *. set (ms := received calls p ++ [_]) in *.
  assert (n = length (received calls p)) as Hn.
  { apply (wired_ok _ Hw i _ (ec_loop _ _ _ _ _ _ _ Hec)). }
  assert (ms !! n = Some (CallMsg (Ok cl))) as Hnew by (subst n ms; by apply list_lookup_middle).
  assert (length ms = S n) as Hlast by (subst n ms; rewrite length_app; simpl; lia).
  exists chan, p1. split; [done|]. split.
  - eapply inevitably_mono, (offering_leads i n calls listener cl t); [|done..]. intros p2 (t2 & one & Hd).
    exists (Call_new (with_caller (call_request cl) t2) one). split.
    + exact (lp_offers _ _ _ _ _ (od_loop _ _ _ _ _ _ _ _ _ _ _ _ _ Hd) listener eq_refl).
    + pose proof (hd_unanswered _ _ _ _ _ _ (od_handling _ _ _ _ _ _ _ _ _ _ _ _ _ Hd) chan) as [_ Hnr _];
        [set_solver|]. unfold poll_call, poll_answer. by rewrite Hnr.
  - intros p2 call Hs Hrec.
    destruct (offering_steps i n calls listener cl t _ _ _ _ eq_refl Hnew Hlast Hq p1 p2 Hof Hs) as [Ho|(t2 & one & Hd)].
    { pose proof (lp_offers _ _ _ _ _ (of_loop _ _ _ _ _ _ _ _ _ _ _ Ho) listener eq_refl) as H.
      rewrite H in Hrec. apply (f_equal length) in Hrec. rewrite length_app in Hrec. simpl in Hrec. lia. }
    pose proof (lp_offers _ _ _ _ _ (od_loop _ _ _ _ _ _ _ _ _ _ _ _ _ Hd) listener eq_refl) as H.
    rewrite H in Hrec. apply app_inj_2 in Hrec as [_ Hrec]; [|done]. injection Hrec as <-.
    split; [done|]. split; [done|]. exists t2. split; [done|]. intros forward p3 Hch.
    pose proof (callee_answers i n calls listener cl t _ _ _ t2 one p2 forward p3 (with_caller (call_request cl) t2) Hd Hch) as Ha.
    eapply inevitably_mono, (answered_leads i n calls listener cl t); [|done..]. intros p5 (back & Hret).
    destruct (caller_gets_answer i n calls listener cl t _ _ _ _ eq_refl Hnew Hlast Hq t2 one forward back p5 TimerRunning Hret)
      as (front & p6 & Hpoll & Hh & Hnf).
    exists front, p6. split; [exact Hpoll|]. intros p7 fs gs Hs7.
    eapply (ends_talk _ i _ front back forward t2 t backwards); [by eapply handling_steps|set_solver| | | |].
    all: set_solver.
Qed.
End calls.
