(* ===== verification/MemsocketCall.v ===== *)
(** * Calls over the wire ([test/src/home.rs], [test_home_call])

    The last of the scenarios in the second mode of the tests: the call goes
    through its stages ([RemoteCalls.v]) while the program waits for it.  With it
    all scenarios pass. *)

From S2P Require Import Prelude Errors External Storage Protocol Crypto Relation Capnp.
From S2P Require Import HomeServer HomeInvariants HomeServerProps Rpc RpcStreams Reactor Process ProcessProps.
From S2P Require Import Config Startup Composition Scenarios Memsocket RemoteCalls.
From stdpp Require Import relations.

#[local] Arguments kv_get : simpl never.
#[local] Arguments kv_set : simpl never.

Section calls.
Context {BC : Bincode} {MH : Multihash} {ED : Ed25519} {Chans : Type} {CH : Channels ChanMsg Chans}
        {MHL : MultihashLaws} {EDL : Ed25519Laws} {CHL : ChannelsLaws ChanMsg Chans}
        {open : SinkId → Chans → Prop} {KO : KeepsOpen (Msg:=ChanMsg) open}
        {live : OneshotId → Chans → Prop} {KL : KeepsLive (Msg:=ChanMsg) live}.
Abbreviation P :=
  (HomeProcess (InMemoryStore ProfileId Profile) (InMemoryStore ProfileId OwnProfile) Chans).
Context (debug : ProtoError → string) (debug_reg : OwnProfile * ProtoError → string)
        (show : CapnpError → string).
Abbreviation Remote := (Prog P).
Abbreviation mode := (memsocket_mode debug debug_reg).
Abbreviation wired := (wired (open:=open) (live:=live)).
Abbreviation ends := (ends (poll_task show)).
Implicit Types (p : P).

(** A frame goes over two loops. *)
Lemma frame_passes p i routes quiet s u t frame :
  handling (open:=open) (live:=live) None p i routes (s :: quiet) [] → s ∉ quiet →
  (s, u) ∈ routes → (u, t) ∈ routes →
  ends (λ _ p1, ends (λ _ p2, handling (open:=open) (live:=live) None p2 i routes quiet [])
                  (expect_frame (TM:=mode) t frame) p1)
    (send_frame (TestMode:=mode) s frame) p.
Proof.
  intros Hh Hs R1 R2. apply wired_perform; [apply Hh|]. intros p1 [Hw1 Hp1].
  apply (handling_progress _ _ p1) in Hh; [|done..]. destruct Hh as [_ Hr Hq _].
  destruct (frames_sent s [frame] p1 [] Hw1 (Hq s ltac:(by left))) as (p2 & Hsend & Hw2 & He & Hk & Hl).
  rewrite <- (app_nil_r (loops p1)) in Hl.
  exists tt, p2. split.
  { cbn [send_frames] in Hsend. destruct (env_send s _ p1) as [[[]|] p3]; [|done]. by injection Hsend as <-. }
  assert (handling (open:=open) (live:=live) None p2 i routes quiet []) as Hh2.
  { split; [done| | |by intros o ?%elem_of_nil].
    - intros s0 t0 H. by eapply route_grow, Hr.
    - intros t0 H. eapply entrance_grow; [done|exact Hl| |done|apply Hq; by right].
      by intros ->%list_elem_of_singleton. }
  unfold expect_frame. apply ends_bind. eapply next_message_due; [done| |].
  { eapply (due_over p2 s u t); [exact He|apply Hh2..]; done. }
  intros p3 Hl3. unfold assert_eq, assert_that. rewrite bool_decide_true by done. apply ends_done.
  eapply handling_progress; [apply Hl3|apply Hl3|done].
Qed.

Lemma frames_exchanged_remote p i routes s u t s' u' t' banana orange :
  handling (open:=open) (live:=live) None p i routes [s; s'] [] → s ≠ s' →
  (s, u) ∈ routes → (u, t) ∈ routes → (s', u') ∈ routes → (u', t') ∈ routes →
  ends (λ _ _, True)
    (_ ← send_frame (TestMode:=mode) s banana; _ ← expect_frame (TM:=mode) t banana;
     _ ← send_frame (TestMode:=mode) s' orange; expect_frame (TM:=mode) t' orange) p.
Proof.
  intros Hh Hne R1 R2 R3 R4.
  apply ends_bind. eapply ends_weaken; [apply (frame_passes p i routes [s'] s u); [done|set_solver|done..]|].
  intros ? p1 H1. apply ends_bind. eapply ends_weaken; [exact H1|]. intros ? p2 Hh2.
  apply ends_bind. eapply ends_weaken; [apply (frame_passes p2 i routes [] s' u'); [done|set_solver|done..]|].
  intros ? p3 H3. eapply ends_weaken; [exact H3|done].
Qed.

(** ** The test *)

Abbreviation step := (task_step (poll_task show)).

(** The callee expects calls, and the caller may make one. *)
Record ready p i conn relation callee app calls listener (quiet : list SinkId) : Prop := mkReady
  { rd_handling : handling (open:=open) (live:=live) None p i [] quiet [];
    rd_callee : expects_calls p callee app i 0 calls listener;
    rd_caller : may_call p conn relation callee;
    rd_listener : received listener p = [] }.

Lemma ready_later p p' i conn relation callee app calls listener quiet :
  later (open:=open) (live:=live) p p' →
  ready p i conn relation callee app calls listener quiet → ready p' i conn relation callee app calls listener quiet.
Proof.
  intros [Hw Hp] [Hh [H1 H2 H3] Hm Hr]. destruct (pg_node _ _ Hp) as (ts & c & Hn).
  destruct (pg_calls _ _ Hp i _ H3 eq_refl) as [Hi Hrec]. unfold may_call in *. split.
  - by eapply handling_progress.
  - by split; rewrite ?Hn.
  - unfold may_call. by rewrite Hn.
  - by rewrite Hrec.
Qed.

Lemma channel_made (post : SinkId → P → Prop) p i conn relation callee app calls listener quiet :
  ready p i conn relation callee app calls listener quiet →
  (∀ t p', ready p' i conn relation callee app calls listener (t :: quiet) → t ∉ quiet → post t p') →
  ends post (app_channel (TestMode:=mode) 1) p.
Proof.
  intros Hrd Hpost. apply wired_perform; [apply Hrd|]. intros p' Hl. eapply ready_later in Hrd; [|done].
  destruct Hrd as [Hh [H1 H2 H3] Hm Hr]. cbn [env_channel process_env]. unfold with_chans.
  destruct (mpsc_channel 1 (chans (node p'))) as [t c] eqn:Hc.
  destruct (handling_channel _ _ _ _ _ _ 1 t c Hh Hc) as (Hh' & Ht & Hk).
  eexists t, _. split; [done|]. apply Hpost; [|done]. split; [done|by split|done|].
  rewrite (kp_received _ _ _ _ Hk); [done| |apply not_elem_of_nil].
  apply (wb_open _ _ (hd_wired _ _ _ _ _ _ Hh) i _ H3). by right.
Qed.

(** The callee takes the call it is offered. *)
Lemma take_call_remote (post : SinkId → P → Prop) p i calls listener cl to_caller ms routes quiet forward :
  cr_to_caller (call_request cl) = Some to_caller → ms !! 0 = Some (CallMsg (Ok cl)) → length ms = 1 →
  to_caller ∉ quiet → forward ∈ quiet →
  offering (open:=open) (live:=live) i 0 calls listener cl to_caller [] ms routes quiet p →
  (∀ t one p', answered (open:=open) (live:=live) i 0 calls listener cl to_caller [] ms routes [] t one forward p' →
     post t p') →
  ends post (take_call (TM:=mode) listener (rp_relation_type (cr_relation (call_request cl)))
               (cr_init_payload (call_request cl)) forward) p.
Proof.
  intros Hcaller Hnew Hlast Hq Hf Hof Hpost. unfold take_call. apply ends_bind.
  apply (ends_inevitably _ _ _ _ p (step_decided show) (offering_leads show i 0 calls listener cl to_caller [] ms
    routes quiet Hcaller Hnew Hlast Hq p Hof)).
  - intros p' (t & one & Hd).
    by rewrite (lp_offers _ _ _ _ _ (od_loop _ _ _ _ _ _ _ _ _ _ _ _ _ Hd) listener eq_refl).
  - intros p' m p'' Hs Hr.
    destruct (offering_steps show i 0 calls listener cl to_caller [] ms routes quiet Hcaller Hnew Hlast Hq p p' Hof Hs)
      as [Ho|(t & one & Hd)].
    { by rewrite (lp_offers _ _ _ _ _ (of_loop _ _ _ _ _ _ _ _ _ _ _ Ho) listener eq_refl) in Hr. }
    rewrite (lp_offers _ _ _ _ _ (od_loop _ _ _ _ _ _ _ _ _ _ _ _ _ Hd) listener eq_refl) in Hr.
    injection Hr as <- <-. apply ends_done. cbn beta iota. do 2 (apply ends_assert_eq; [done|]).
    apply ends_bind. apply wired_perform; [apply Hd|]. intros p2 Hl2.
    eexists _, _. split; [reflexivity|]. apply ends_done, (Hpost t one).
    eapply callee_answers_with; [by eapply offered_later|done|by intros u ?%elem_of_nil].
Qed.

(** The answer reaches the caller, and frames go both ways. *)
Lemma call_finishes p i calls listener cl to_caller ms backwards t one forward banana orange :
  cr_to_caller (call_request cl) = Some to_caller → ms !! 0 = Some (CallMsg (Ok cl)) → length ms = 1 →
  answered (open:=open) (live:=live) i 0 calls listener cl to_caller [] ms [(to_caller, backwards)] [] t one forward p →
  ends (λ _ _, True)
    (answered ← call_finished (TestMode:=mode) (call_sender cl);
     forward_sink ← expect (TM:=mode) answered;
     _ ← send_frame (TestMode:=mode) forward_sink banana; _ ← expect_frame (TM:=mode) forward banana;
     _ ← send_frame (TestMode:=mode) t orange; expect_frame (TM:=mode) backwards orange) p.
Proof.
  intros Hcaller Hnew Hlast Ha. pose proof (not_elem_of_nil to_caller) as Hq. apply ends_bind.
  apply (ends_inevitably _ _ _ _ p (step_decided show) (answered_leads show i 0 calls listener cl to_caller [] ms
    _ [] Hcaller Hnew Hlast Hq t one forward p Ha)).
  - intros p' (back & Hret). destruct (caller_gets_answer debug i 0 calls listener cl to_caller [] ms _ []
      Hcaller Hnew Hlast Hq t one forward back p' TimerRunning Hret) as (front & p2 & Hpoll & _). by rewrite Hpoll.
  - intros p' m p'' Hs Hr.
    destruct (answered_steps show i 0 calls listener cl to_caller [] ms _ [] Hcaller Hnew Hlast Hq t one forward
      p p' Ha Hs) as [Ho|(back & Hret)].
    { pose proof (hd_unanswered _ _ _ _ _ _ (an_handling _ _ _ _ _ _ _ _ _ _ _ _ _ _ Ho) (call_sender cl)
        ltac:(by left)) as [_ Hnr _]. unfold poll_call, poll_answer in Hr. by rewrite Hnr in Hr. }
    destruct (caller_gets_answer debug i 0 calls listener cl to_caller [] ms _ []
      Hcaller Hnew Hlast Hq t one forward back p' TimerRunning Hret) as (front & p2 & Hpoll & Hh & Hne).
    rewrite Hpoll in Hr. injection Hr as <- <-. apply ends_done.
    change (ends (λ _ _, True)
      (_ ← send_frame (TestMode:=mode) front banana; _ ← expect_frame (TM:=mode) forward banana;
       _ ← send_frame (TestMode:=mode) t orange; expect_frame (TM:=mode) backwards orange) p2).
    apply (frames_exchanged_remote p2 i _ front back forward t to_caller backwards _ _ Hh); set_solver.
Qed.

Lemma call_passes_remote home s1 k2 own s2 c :
  genuine s1 → generate_persona k2 = Returns (own, s2) → signer_profile_id s1 ≠ signer_profile_id s2 →
  ends (λ _ _, True) (test_home_call (M:=Remote) (TM:=mode) k2 (client_of home s1)) (memsocket_start c).
Proof.
  intros Hs1 Hk2 Hne. destruct (generate_persona_genuine _ _ _ Hk2) as [_ Hs2].
  unfold test_home_call. eapply (two_registered_remote (open:=open) (live:=live) _ _ _ _ home s1 s2 own k2 (λ own1 _ _, _)); [done..|].
  intros own1 pr1 own2 pr2 p R1 R2 Hw Hd Hl Hq Htc.
  destruct Hq as (Hv & Hs & Hh & Hn & _), Htc as (_ & G1 & _).
  destruct (genuine_pairing "friend" s2 s1 Hs2 Hs1 (not_eq_sym Hne)) as (proof & Hsign & Hty & Hp & _ & Hval & _).
  cbv zeta. apply ends_bind, (login_remote (open:=open) (live:=live) _ _ _ _ home s1 own1 pr1 p R1 G1); [by rewrite Hs|done|done|].
  destruct R1 as [Id1 Key1 _ _ _]. set (w1 := logged_in home s1 (node p)).
  destruct (at_rest_same p w1 Hw Hd eq_refl eq_refl) as [Hw1 _]. rewrite Hn.
  set (ctx1 := context (home_connection (client_of home s1))). set (app := mkApplicationId "chat").
  (* the application checks in *)
  apply ends_bind, wired_perform; [done|]. intros p2 Hl2. destruct (pg_node _ _ (proj2 Hl2)) as (ts2 & c2 & N2).
  destruct (checks_in p2 (signer_profile_id s1) 0 (HomeSessionServer_new ctx1) app [])
    as (listener & calls & c3 & p3 & E & Hh3 & Hec3 & Hrec3 & N3 & _); [apply Hl2|rewrite N2; simpl; by rewrite G1| | |done
    |by intros t ?%elem_of_nil|]; [by rewrite N2; simpl; rewrite Hn, lookup_insert_eq..|].
  eexists _, p3. split; [exact (f_equal Returns E)|].
  cbv beta. rewrite Id1. change (my_own_signer (client_of home s2)) with s2.
  change (my_own_signer (client_of home s1)) with s1. eapply ends_check; [by rewrite Hsign|].
  set (conn := home_connection (client_of home s2)).
  assert (ready p3 (length (loops p2)) conn proof (signer_profile_id s1) app calls listener []) as Hrd.
  { split; [done|done| |done]. split; [done|]. intros own3 Hown3.
    rewrite N3, N2 in Hown3 |- *. simpl in Hown3 |- *. rewrite G1 in Hown3. injection Hown3 as <-.
    by rewrite Hv, Id1, Key1. }
  (* the channels of the two, and the call *)
  apply ends_bind, (channel_made _ _ _ _ _ _ _ _ _ _ Hrd). intros forward p4 Hrd4 _.
  apply ends_bind, (channel_made _ _ _ _ _ _ _ _ _ _ Hrd4). intros backwards p5 Hrd5 Hb.
  rewrite <- Hty. set (req := mkCallRequest _ _ _).
  apply ends_bind, wired_perform; [apply Hrd5|]. intros p6 Hl6.
  destruct (ready_later _ _ _ _ _ _ _ _ _ _ Hl6 Hrd5) as [Hh6 Hec6 Hm6 Hr6].
  destruct (call_starts debug p6 conn app req backwards _ _ 0 calls listener [forward] Hh6 Hb Hec6 Hm6 eq_refl)
    as (t & chan & p7 & Hstart & Hof & Ht).
  eexists chan, p7. split; [by rewrite Hstart|]. set (cl := Call_new (with_caller req t) chan) in *.
  assert (received calls p6 = []) as Hcalls.
  { pose proof (wired_ok _ (hd_wired _ _ _ _ _ _ Hh6) _ _ (ec_loop _ _ _ _ _ _ _ Hec6)) as Hlen.
    simpl in Hlen. by destruct (received calls p6). }
  rewrite Hr6, Hcalls in Hof.
  apply ends_bind, (take_call_remote _ p7 _ calls listener cl t [CallMsg (Ok cl)] _ [forward] forward eq_refl eq_refl eq_refl Ht
    ltac:(by left) Hof).
  intros t2 one p8 Ha. exact (call_finishes p8 _ calls listener cl t [CallMsg (Ok cl)] backwards t2 one forward _ _ eq_refl eq_refl eq_refl Ha).
Qed.

(** ** Theorem *)

(** C13: the scenarios through the remote home: for every home key and every two
    client keys that make signers with different profile ids, the same tests pass
    when client and home talk through proxies and dispatchers over a connection
    in memory.  Whatever order the reactor chooses for the loops that carry
    events, calls and frames, no assertion fails, nothing panics, no run goes on
    for ever, and no run waits for what never comes. *)
Theorem scenarios_pass_remote home_key node k1 own1 s1 k2 own2 s2 c :
  Ed25519Signer_new home_key = Returns (Ok node) →
  generate_persona k1 = Returns (own1, s1) → generate_persona k2 = Returns (own2, s2) →
  eds_profile_id node ≠ signer_profile_id s1 → signer_profile_id s1 ≠ signer_profile_id s2 →
  let test_passes test :=
    passes (poll_task show) (memsocket_test debug debug_reg home_key k1 test) (memsocket_start c) in
  test_passes (test_home_register (TM:=mode))
  ∧ test_passes (test_home_claim (TM:=mode))
  ∧ test_passes (test_home_login (TM:=mode))
  ∧ test_passes (test_home_events (TM:=mode) k2)
  ∧ test_passes (test_home_call (TM:=mode) k2).
Proof.
  intros Hhome Hk1 Hk2 Hne1 Hne2 test_passes.
  assert (genuine (Ed25519Signer_signer node)) as Hh by by apply own_signer_validates in Hhome.
  destruct (generate_persona_genuine _ _ _ Hk1) as [_ Hs1].
  assert (∀ test, ends (λ _ _, True) (test (client_of (Ed25519Signer_signer node) s1)) (memsocket_start c) →
                  test_passes test) as Hdo.
  { intros test Ht. apply (ends_passes _ (λ _ _, True)). unfold memsocket_test, set_up_and_test.
    eapply ends_check; [cbn; rewrite Hhome; reflexivity|].
    destruct (start_at_rest (open:=open) (live:=live) c) as [Hw Hd].
    by eapply ends_bind, new_client_remote. }
  split_and!; apply Hdo.
  - by apply (register_passes_remote (open:=open) (live:=live)).
  - by apply (claim_passes_remote (open:=open) (live:=live)).
  - by apply (login_passes_remote (open:=open) (live:=live)).
  - by eapply (events_pass_remote (open:=open) (live:=live)).
  - by eapply call_passes_remote.
Qed.

End calls.
