(* ===== verification/RemoteClient.v ===== *)
(** * A client whose home is reached over the wire

    The client of [Connect.v] with the home of [Process.v] behind proxies and
    dispatchers: what it is to join a home and to log in to it there, and that a
    peer's request then comes all the way to the stream the client reads,
    whatever else the reactor does.  A panic ends the process: its state is
    [Panicking], and nothing can be called any more. *)

From S2P Require Import Prelude Errors External Storage Protocol Crypto Relation Capnp.
From S2P Require Import HomeServer HomeServerProps Rpc RpcStreams Reactor Process ProcessProps.
From S2P Require Import Scenarios Memsocket Connect ConnectProps EndToEnd Composition.
From stdpp Require Import relations.

(** ** A process that may have panicked *)

Section lifting.
Context {P : Type}.

Definition in_process {A} (dead : A) (m : IO P A) : IO (Panicking P) A := λ w,
  match w with
  | Returns p => let '(a, p) := m p in (a, Returns p)
  | Panics => (dead, Panics)
  end.

(** A method: its call and its poll run in the process. *)
Definition method {E A} (dead : E) (m : IO P (Future P E A))
  : IO (Panicking P) (Future (Panicking P) E A) :=
  in_process (future_err dead) (λ p, let '(fut, p) := m p in (in_process (Err dead) fut, p)).

(** A method that may panic before anything is sent. *)
Definition panicking_method {E A} (dead : E) (m : Panicking (IO P (Future P E A)))
  : IO (Panicking P) (Future (Panicking P) E A) :=
  match m with
  | Returns m => method dead m
  | Panics => λ _, (future_err dead, Panics)
  end.

Lemma method_await {E A} (dead : E) (m : IO P (Future P E A)) p :
  await (method dead m) (Returns p) = let '(r, p') := await m p in (r, Returns p').
Proof.
  unfold await, method, in_process. destruct (m p) as [fut p1]. by destruct (fut p1).
Qed.
End lifting.

Section remote.
Context {BC : Bincode} {Dht Db Chans : Type}
        {DHT : KeyValueStore Dht ProfileId Profile}
        {DB : KeyValueStore Db ProfileId OwnProfile}
        {CH : Channels ChanMsg Chans}.
Abbreviation P := (HomeProcess Dht Db Chans).
Context (debug : ProtoError → string) (debug_reg : OwnProfile * ProtoError → string).

(** What a method of a process that is gone would return: nobody sees it. *)
Definition gone : ProtoError := proto_from Proto.ConnectionToHomeFailed.

(** [HomeSessionClientCapnProto] as the trait object a client sees. *)
Definition remote_session (ctx : PeerContext) (sid : SessionId) : ClientSession (Panicking P) :=
  mkClientSession
    (mkHomeSession (λ own, panicking_method gone (client_update (session_stub debug ctx) own))
       (λ new_home, panicking_method gone (client_unregister (session_stub debug ctx) new_home))
       (λ txt, method gone (client_ping (session_stub debug ctx) txt)))
    (in_process 0 (remote_events sid))
    (λ app, in_process 0 (remote_checkin_app sid app)).

(** [HomeClientCapnProto] as the trait object a client sees, on a connection
    that the home serves as [conn]. *)
Definition remote_home (conn : HomeConnectionServer) : ClientHome (Panicking P) :=
  let stub := stub debug debug_reg conn in
  mkHome (λ id, method gone (client_load stub id)) (λ id, method gone (client_claim stub id))
    (λ own hp inv, panicking_method (own, gone) (client_register stub own hp inv))
    (λ proof w, let '(fut, w) := method gone (client_login stub proof) w in
                (future_map (remote_session (context conn)) fut, w))
    (λ hp, method gone (client_pair_request stub hp))
    (λ rp, method gone (client_pair_response stub rp))
    (λ app req, method gone (client_call stub app req)).

(** The home validates the client before it serves the connection.  A client
    that is refused is told so here; over TCP its first request fails. *)
Definition remote_connect (home_signer signer : Signer) : Future P ConnError (ClientHome (Panicking P)) := λ p,
  (match HomeConnectionServer_new
           (mkPeerContext home_signer (signer_public_key signer) (signer_profile_id signer)) (node p) with
   | Ok conn => Ok (remote_home conn)
   | Err e => Err (conn_context Conn.ConnectionToHomeFailed e)
   end, p).

Definition remote_connector (home_signer : Signer) : HomeConnector (Panicking P) :=
  {| home_connect home_profile signer :=
       method (conn_from Conn.ConnectionFailed)
         (if decide (profile_id home_profile = signer_profile_id home_signer)
          then io_ret (remote_connect home_signer signer)
          else io_ret (future_err (conn_from Conn.ConnectionFailed))) |}.
End remote.

(** ** Theorems *)

#[local] Arguments kv_get : simpl never.
#[local] Arguments kv_set : simpl never.

Section theorems.
Context {BC : Bincode} {Chans : Type} {CH : Channels ChanMsg Chans} {CHL : ChannelsLaws ChanMsg Chans}
        {open : SinkId → Chans → Prop} {KO : KeepsOpen (Msg:=ChanMsg) open}
        {live : OneshotId → Chans → Prop} {KL : KeepsLive (Msg:=ChanMsg) live}
        {Store CChans : Type}
        {KV : KeyValueStore Store ProfileId Profile}
        {KVL : KeyValueStoreLaws Store ProfileId Profile any_key}
        {CCH : Channels ProfileEvent CChans} {CCHL : ChannelsLaws ProfileEvent CChans}.
Abbreviation P :=
  (HomeProcess (InMemoryStore ProfileId Profile) (InMemoryStore ProfileId OwnProfile) Chans).
Abbreviation HomeNode := (HomeServer (InMemoryStore ProfileId Profile) (InMemoryStore ProfileId OwnProfile) Chans).
Abbreviation W := (Client (Panicking P) Store CChans).
Context (debug : ProtoError → string) (debug_reg : OwnProfile * ProtoError → string)
        (show : CapnpError → string) (home_signer : Signer).
#[local] Instance to_remote_home : HomeConnector (Panicking P) :=
  remote_connector debug debug_reg home_signer.
Abbreviation wired := (wired (open:=open) (live:=live)).
Abbreviation later := (later (open:=open) (live:=live)).
Abbreviation step := (task_step (poll_task show)).
Abbreviation home_id := (home_of_signer home_signer).
Abbreviation conn_of s := (conn_for home_signer s).
Definition user_id (w : W) : ProfileId := signer_profile_id (mp_signer (me w)).
Implicit Types (w : W) (p : P) (conn : HomeConnectionServer).

(** A client with a persona of its own that knows the home and is new to it. *)
Record remote_newcomer (homes : list RelationProof) w p : Prop := mkRemoteNewcomer
  { rn_running : env w = Returns p;
    rn_knows : ∃ hp, kv_get home_id (profiles (profile_repo w)) = Ok hp ∧ profile_id hp = home_id;
    rn_id : profile_id (own_profile (mp_own_profile (me w))) = user_id w;
    rn_key : profile_public_key (own_profile (mp_own_profile (me w))) = signer_public_key (mp_signer (me w));
    rn_persona : ∃ data, profile_facet (own_profile (mp_own_profile (me w))) = Persona (mkPersonaFacet homes data);
    rn_fits : fits (own_profile (mp_own_profile (me w)));
    rn_accepted : accepts (server_validator (node p)) (mp_signer (me w));
    rn_valid : PeerContext_validate (context (conn_of (mp_signer (me w)))) (server_validator (node p)) = Ok tt;
    rn_other : home_id ≠ user_id w;
    rn_cache : session_cache (me w) !! home_id = None;
    rn_session : sessions (node p) !! user_id w = None;
    rn_hosted : is_err (kv_get (user_id w) (hosted_profile_db (node p))) = true }.

Lemma connect_remote w p hp :
  env w = Returns p → kv_get home_id (profiles (profile_repo w)) = Ok hp → profile_id hp = home_id →
  PeerContext_validate (context (conn_of (mp_signer (me w)))) (server_validator (node p)) = Ok tt →
  await (connect_home home_id) w = (Ok (remote_home debug debug_reg (conn_of (mp_signer (me w)))), w).
Proof.
  intros He Hhp Hid Hval. unfold await, connect_home, connect_home2, load_profile, repo_load. simpl.
  rewrite and_then_await. unfold future_map_err, future_result. rewrite Hhp. simpl. rewrite await_lift.
  rewrite He. cbn [home_connect to_remote_home remote_connector]. rewrite method_await.
  rewrite decide_True by done. unfold await, io_ret, remote_connect, HomeConnectionServer_new.
  change (mkPeerContext _ _ _) with (context (conn_of (mp_signer (me w)))). rewrite Hval. simpl.
  destruct w. simpl in *. by subst.
Qed.

Lemma remote_home_register conn own hp inv (m : IO P (Future P (OwnProfile * ProtoError) OwnProfile)) :
  client_register (stub debug debug_reg conn) own hp inv = Returns m →
  home_register (remote_home debug debug_reg conn) own hp inv = method (own, gone) m.
Proof. intros Hm. unfold remote_home. cbn [home_register]. by rewrite Hm. Qed.

(** Registering over the wire: the home gets the first of the user's homes only,
    and the user the first of what the home answers. *)
Lemma registers_remote homes w p inv :
  remote_newcomer homes w p →
  ∃ own proof d1 d2 hosted,
    await (home_register (remote_home debug debug_reg (conn_of (mp_signer (me w)))) (mp_own_profile (me w))
      (RelationHalfProof_new RELATION_TYPE_HOSTED_ON_HOME home_id (mp_signer (me w))) inv) (Returns p)
      = (Ok own, Returns (set_node (set_db d2 (set_dht d1 (node p))) p))
    ∧ profile_id (own_profile own) = user_id w
    ∧ profile_facet (own_profile own) = Persona (mkPersonaFacet (take 1 (take 1 homes ++ [proof])) [])
    ∧ rp_relation_type proof = RELATION_TYPE_HOSTED_ON_HOME
    ∧ proof_peer_id proof home_id = Ok (user_id w) ∧ proof_peer_id proof (user_id w) = Ok home_id
    ∧ kv_get (user_id w) d2 = Ok hosted
    ∧ profile_id (own_profile hosted) = user_id w
    ∧ profile_public_key (own_profile hosted) = signer_public_key (mp_signer (me w))
    ∧ ∀ k, k ≠ user_id w → kv_get k d2 = kv_get k (hosted_profile_db (node p)).
Proof.
  intros [_ _ Hid Hkey (data & Hf) Hfits Hacc _ Hne _ _ Hnew].
  set (half := RelationHalfProof_new _ _ _). set (conn := conn_of _). set (own := mp_own_profile (me w)) in *.
  set (own' := mkOwnProfile (mkProfile (user_id w) (signer_public_key (mp_signer (me w)))
                               (Persona (mkPersonaFacet (take 1 homes) []))) (own_priv_data own)).
  assert (sent_own_profile own = Some own') as Hsent.
  { unfold sent_own_profile, sent_profile. rewrite Hf. simpl. by rewrite Hid, Hkey. }
  destruct (client_register_await debug debug_reg (server_home conn : Home P SessionId) own own' half inv Hfits Hsent)
    as (m & Hm & Hawait).
  destruct (register_new conn own' half (Some placeholder) (node p))
    as (own2 & proof & f & d1 & d2 & Heq & Hp & [= <-] & Hfacet & Hid2 & Hkey2 & Hget & Hother); try done.
  { split; try done; [|by eexists]. apply validate_half_proof_signed. eexists. apply Hacc. }
  pose proof Hp as (Ht & Hp1 & Hp2)%countersigned_peers.
  assert (fits (own_profile own2)) as Htrip.
  { unfold fits. rewrite Hfacet. by destruct homes. }
  apply own_profile_trip in Htrip.
  unfold sent_own_profile, sent_profile in Htrip. rewrite Hfacet in Htrip. simpl in Htrip.
  destruct Htrip as (wire & Hwire & Hdec). rewrite Hid2 in Hdec.
  eexists (mkOwnProfile (mkProfile _ _ _) _), proof, d1, d2, own2. split; [|split_and!; try done].
  rewrite (remote_home_register conn own half inv m Hm), method_await, Hawait. cbn [home_register server_home].
  rewrite at_node_fut_await, Heq. rewrite Hwire, Hdec. done.
Qed.

Lemma login_rest conn proof (n : HomeNode) :
  server_validator (await (login conn proof) n).2 = server_validator n
  ∧ next_session (await (login conn proof) n).2
    = match (await (login conn proof) n).1 with Ok _ => S (next_session n) | Err _ => next_session n end.
Proof.
  unfold await, login. case_decide; [done|]. destruct (proof_peer_id _ _) as [id|]; [|done].
  unfold future_map_err, and_then, future_result. destruct (kv_get _ _); [|done]. simpl.
  by destruct (sessions n !! id).
Qed.

(** The home hosts the user [s], whose session listens: what is sent into [sink]
    is carried to the client's [stream]. *)
Record served p (s : Signer) (sink stream : SinkId) : Prop := mkServed
  { sv_hosted : ∃ own, kv_get (signer_profile_id s) (hosted_profile_db (node p)) = Ok own
      ∧ profile_id (own_profile own) = signer_profile_id s
      ∧ profile_public_key (own_profile own) = signer_public_key s;
    sv_session : ∃ sid ss, sessions (node p) !! signer_profile_id s = Some sid
      ∧ session_heap (node p) !! sid = Some ss ∧ session_events ss = Sender sink
      ∧ sid < next_session (node p);
    sv_listener : ∃ i, listener (open:=open) p i sink stream }.

Lemma served_later p p' s sink stream : later p p' → served p s sink stream → served p' s sink stream.
Proof.
  intros Hl [Hh Hs [i L]]. destruct (pg_node _ _ (proj2 Hl)) as (ts & c & Hnode).
  split; [by rewrite Hnode|by rewrite Hnode|]. exists i. by eapply listener_later.
Qed.

(** What other requests leave alone. *)
Lemma served_same p (n : HomeNode) s sink stream :
  kv_get (signer_profile_id s) (hosted_profile_db n)
    = kv_get (signer_profile_id s) (hosted_profile_db (node p)) →
  sessions n !! signer_profile_id s = sessions (node p) !! signer_profile_id s →
  (∀ sid, sid < next_session (node p) → session_heap n !! sid = session_heap (node p) !! sid) →
  next_session (node p) ≤ next_session n → chans n = chans (node p) →
  served p s sink stream → served (set_node n p) s sink stream.
Proof.
  intros Hd Hs Hheap Hn Hc [Hh (sid & ss & H1 & H2 & H3 & H4) (i & [L1 L2 L3 L4])]. split.
  - simpl. by rewrite Hd.
  - exists sid, ss. simpl. rewrite Hs, Hheap by done. split_and!; try done. lia.
  - exists i. split; [done|simpl; by rewrite Hc|done|]. unfold received in *. simpl. by rewrite Hc.
Qed.

(** What logging in has opened at the client: the session, the loop that forwards
    its events, and the one that stores relations, with its listener [l]. *)
Record opened w (ms : MySessionId) (stream l : SinkId) w2 : Prop := mkOpened
  { op_tasks : client_tasks (me w2) = client_tasks (me w) ++ [ForwardEvents ms stream; StoreRelations l];
    op_session : ∃ s, my_sessions (me w2) !! ms = Some (mkMyHomeSession s [l]);
    op_listener : mpsc_channel CHANNEL_CAPACITY (listener_chans w) = (l, listener_chans w2) }.

Lemma opened_forwards w ms stream l w2 : opened w ms stream l w2 → ForwardEvents ms stream ∈ client_tasks (me w2).
Proof. intros [-> _ _]. set_solver. Qed.

(** Logging in over the wire with a proof of the home. *)
Lemma login_at_remote w p proof own :
  env w = Returns p → wired p →
  rp_relation_type proof = RELATION_TYPE_HOSTED_ON_HOME →
  proof_peer_id proof home_id = Ok (user_id w) →
  kv_get (user_id w) (hosted_profile_db (node p)) = Ok own →
  profile_id (own_profile own) = user_id w →
  profile_public_key (own_profile own) = signer_public_key (mp_signer (me w)) →
  sessions (node p) !! user_id w = None →
  ∃ ms stream l sink w2 p2,
    await (login_at home_id proof (remote_home debug debug_reg (conn_of (mp_signer (me w))))) w = (Ok ms, w2)
    ∧ env w2 = Returns p2
    ∧ session_cache (me w2) !! home_id = Some ms
    ∧ opened w ms stream l w2
    ∧ wired p2 ∧ served p2 (mp_signer (me w)) sink stream
    ∧ server_validator (node p2) = server_validator (node p)
    ∧ (∀ s sink' stream', signer_profile_id s ≠ user_id w → served p s sink' stream' →
         sink' ≠ sink ∧ served p2 s sink' stream')
    ∧ hosted_profile_db (node p2) = hosted_profile_db (node p)
    ∧ (∀ id, id ≠ user_id w → sessions (node p2) !! id = sessions (node p) !! id)
    ∧ mp_signer (me w2) = mp_signer (me w) ∧ mp_own_profile (me w2) = mp_own_profile (me w)
    ∧ relations (me w2) = relations (me w) ∧ profile_repo w2 = profile_repo w.
Proof.
  intros He Hw Ht Hp Hown Hid Hkey Hs. set (conn := conn_of (mp_signer (me w))).
  destruct (login_hosted conn proof (user_id w) own (node p) Ht Hp Hown)
    as (e & Hlog & Hheap & Hsess & Hdb & Hch & Hsp). rewrite Hs in Hsess.
  destruct (login_rest conn proof (node p)) as [Hv Hnext]. rewrite Hlog in Hv, Hnext. simpl in Hv, Hnext.
  assert (await (client_login (stub debug debug_reg conn) proof) p = (Ok (next_session (node p)), set_node e p))
    as Hlogin by (destruct proof as [? [] [] [] []]; by eapply remote_ok).
  assert (wired (set_node e p)) as Hw1 by (apply wired_same_chans; [done|done|rewrite Hsp; apply Hw]).
  destruct (events_listens (set_node e p) (next_session (node p)) (context conn) Hw1)
    as (sink & stream & c & p2 & Hev & _ & Hw2 & Hnode & Hlist & Hothers).
  { simpl. by rewrite Hheap, lookup_insert_eq. }
  erewrite login_at_await.
  2: { rewrite He. cbn [home_login remote_home]. unfold await.
       pose proof (method_await gone (client_login (stub debug debug_reg conn) proof) p) as Hm.
       unfold await in Hm at 1. destruct (method _ _ _) as [fut w1]. unfold future_map.
       rewrite Hm, Hlogin. reflexivity. }
  unfold MyHomeSessionImpl_new. cbn [remote_session cs_events env set_env set_me in_process]. rewrite Hev.
  unfold start_event_handler, my_session_events. simpl.
  destruct (mpsc_channel CHANNEL_CAPACITY (listener_chans w)) as [l lc] eqn:Hchan. unfold add_listener. simpl.
  rewrite lookup_insert_eq. simpl. simpl in Hnode.
  eexists _, stream, l, sink, _, p2. split; [done|]. simpl.
  split; [done|]. rewrite !lookup_insert_eq. split; [done|].
  split; [by split; simpl; [rewrite <- app_assoc|rewrite lookup_insert_eq; eexists|]|]. split; [done|].
  split.
  { split; [exists own; by rewrite Hnode; simpl; rewrite Hdb| |by eexists].
    exists (next_session (node p)). eexists. rewrite Hnode. simpl. fold (user_id w).
    rewrite Hsess, !lookup_insert_eq, Hnext. split_and!; try done. lia. }
  split; [by rewrite Hnode|]. split.
  2: { split; [by rewrite Hnode; simpl; rewrite Hdb|]. split; [|done].
       intros id Hne. rewrite Hnode. simpl. by rewrite Hsess, lookup_insert_ne. }
  intros s sink' stream' Hne Hsv.
  assert (served (set_node e p) s sink' stream') as [Hh (sid & ss & H1 & H2 & H3 & H4) [i L]].
  { apply served_same; [by rewrite Hdb|by rewrite Hsess, lookup_insert_ne| |lia|done|done].
    intros sid Hlt. by rewrite Hheap, lookup_insert_ne by lia. }
  destruct (Hothers i sink' stream' L) as [Hnes L2]. split; [done|].
  destruct Hsv as [_ (sid' & ss' & K1 & _ & _ & K4) _].
  assert (sid' = sid) as ->. { simpl in H1. rewrite Hsess, lookup_insert_ne in H1 by done. congruence. }
  split; [by rewrite Hnode| |by exists i]. exists sid, ss. rewrite Hnode. simpl in *.
  rewrite lookup_insert_ne by lia. done.
Qed.

(** Joining over the wire. *)
Lemma joins_remote homes w p inv :
  remote_newcomer homes w p → wired p → never_fails Store Profile →
  ∃ w1 p1 own proof hosted hp,
    await (join_home home_id inv) w = (Ok tt, w1) ∧ env w1 = Returns p1 ∧ wired p1
    ∧ me w1 = set_own_profile own (me w) ∧ listener_chans w1 = listener_chans w
    ∧ profile_facet (own_profile own) = Persona (mkPersonaFacet (take 1 (take 1 homes ++ [proof])) [])
    ∧ rp_relation_type proof = RELATION_TYPE_HOSTED_ON_HOME
    ∧ proof_peer_id proof home_id = Ok (user_id w) ∧ proof_peer_id proof (user_id w) = Ok home_id
    ∧ kv_get (user_id w) (profiles (profile_repo w1)) = Ok (own_profile own)
    ∧ kv_get home_id (profiles (profile_repo w1)) = Ok hp ∧ profile_id hp = home_id
    ∧ kv_get (user_id w) (hosted_profile_db (node p1)) = Ok hosted
    ∧ sessions (node p1) = sessions (node p) ∧ server_validator (node p1) = server_validator (node p)
    ∧ profile_id (own_profile own) = user_id w
    ∧ profile_id (own_profile hosted) = user_id w
    ∧ profile_public_key (own_profile hosted) = signer_public_key (mp_signer (me w))
    ∧ (∃ d1 d2, p1 = set_node (set_db d2 (set_dht d1 (node p))) p
         ∧ ∀ k, k ≠ user_id w → kv_get k d2 = kv_get k (hosted_profile_db (node p))).
Proof.
  intros Hnew Hw Hrepo.
  destruct (registers_remote homes w p inv Hnew)
    as (own & proof & d1 & d2 & hosted & Hreg & Hid & Hfacet & Ht & Hp1 & Hp2 & Hhosted & Hhid & Hhkey & Hother).
  destruct Hnew as [He (hp & Hhp & Hhpid) _ _ _ _ _ Hval Hne _ _ _].
  set (p1 := set_node (set_db d2 (set_dht d1 (node p))) p) in *.
  set (w0 := set_me (set_own_profile own (me w)) (set_env (Returns p1) w)).
  destruct (kv_set (user_id w) (own_profile own) (profiles (profile_repo w))) as [r st] eqn:Hset.
  pose proof (Hrepo (user_id w) (own_profile own) (profiles (profile_repo w))) as Hr.
  rewrite Hset in Hr. simpl in Hr. subst r.
  exists (set_repo (mkSimpleProfileRepo st) w0), p1, own, proof, hosted, hp. split.
  { rewrite join_home_await, (connect_remote w p hp He Hhp Hhpid Hval). rewrite He, Hreg.
    unfold repo_insert. simpl. by rewrite Hid, Hset. }
  split; [done|]. split; [apply wired_same_chans; [done|done|apply Hw]|].
  split_and!; try done; [by eapply kv_set_ok| |by exists d1, d2].
  simpl. by rewrite (kv_set_other _ _ _ _ _ _ I I Hset Hne).
Qed.

(** *** Members of the home: users who have joined it and are logged in to it *)

(** What the client brings, *)
Record reaches w p : Prop := mkReaches
  { rc_id : profile_id (own_profile (mp_own_profile (me w))) = user_id w;
    rc_knows : ∃ hp, kv_get home_id (profiles (profile_repo w)) = Ok hp ∧ profile_id hp = home_id;
    rc_valid : PeerContext_validate (context (conn_of (mp_signer (me w)))) (server_validator (node p)) = Ok tt;
    rc_accepted : accepts (server_validator (node p)) (mp_signer (me w)) }.

(** and what the home does for it. *)
Record member w p (sink stream : SinkId) : Prop := mkMember
  { mb_reaches : reaches w p; mb_served : served p (mp_signer (me w)) sink stream }.

Lemma reaches_later w p p' : later p p' → reaches w p → reaches (set_env (Returns p') w) p'.
Proof.
  intros Hl [H1 H2 H3 H4]. destruct (pg_node _ _ (proj2 Hl)) as (ts & c & Hnode).
  split; simpl; try done; by rewrite Hnode.
Qed.

Lemma becomes_member w p inv :
  remote_newcomer [] w p → wired p → never_fails Store Profile →
  ∃ w1 ms w2 sink stream l p2,
    await (join_home home_id inv) w = (Ok tt, w1) ∧ await (login_home home_id) w1 = (Ok ms, w2)
    ∧ env w2 = Returns p2 ∧ session_cache (me w2) !! home_id = Some ms
    ∧ opened w ms stream l w2
    ∧ wired p2 ∧ member w2 p2 sink stream
    ∧ server_validator (node p2) = server_validator (node p)
    ∧ mp_signer (me w2) = mp_signer (me w) ∧ relations (me w2) = relations (me w)
    ∧ (∃ proof, profile_facet (own_profile (mp_own_profile (me w2))) = Persona (mkPersonaFacet [proof] [])
         ∧ proof_peer_id proof (user_id w) = Ok home_id)
    ∧ (∀ s sink' stream', signer_profile_id s ≠ user_id w → served p s sink' stream' →
        sink' ≠ sink ∧ served p2 s sink' stream')
    ∧ ∀ id, id ≠ user_id w → kv_get id (hosted_profile_db (node p2)) = kv_get id (hosted_profile_db (node p))
        ∧ sessions (node p2) !! id = sessions (node p) !! id.
Proof.
  intros Hnew Hw Hrepo.
  destruct (joins_remote [] w p inv Hnew Hw Hrepo)
    as (w1 & p1 & own & proof & hosted & hp & Hjoin & He1 & Hw1 & Hme & Hchans & Hfacet & Ht & Hp1 & Hp2 & Hget
        & Hhp & Hhpid & Hhosted & Hsess & Hv & Hoid & Hhid & Hhkey & (d1 & d2 & Hnode & Hothers)).
  destruct Hnew as [_ _ _ _ _ _ Hacc Hval _ Hcache Hnosess _].
  assert (mp_signer (me w1) = mp_signer (me w)) as Hsigner by by rewrite Hme.
  assert (user_id w1 = user_id w) as Hid by (unfold user_id; by rewrite Hsigner).
  destruct (login_at_remote w1 p1 proof hosted He1 Hw1 Ht) as
    (ms & stream & l & sink & w2 & p2 & Hlog & He2 & Hc2 & [Ho1 Ho2' Ho3] & Hw2 & Hsv & Hv2 & Hrest & Hdb2 & Hss2 & Hs2 & Ho2 & Hr2 & Hp2');
    [by rewrite Hid|by rewrite Hid|by rewrite Hid|by rewrite Hsigner|by rewrite Hid, Hsess|].
  exists w1, ms, w2, sink, stream, l, p2. split; [done|]. split.
  { rewrite (login_home_await home_id w1 (own_profile own) proof).
    - rewrite (connect_remote w1 p1 hp); [done|done..|]. by rewrite Hv, Hsigner.
    - by rewrite Hme.
    - unfold user_id in Hget. by rewrite Hsigner.
    - rewrite Hsigner. by eapply (find_last_proof _ _ _ []). }
  split; [done|]. split; [done|].
  split; [split; [by rewrite Ho1, Hme|done|by rewrite <- Hchans]|]. split; [done|].
  assert (mp_own_profile (me w1) = own) as Hown by by rewrite Hme.
  split; [split|split; [by rewrite Hv2, Hv|split; [congruence|split; [|split; [|split]]]]].
  - split; [|by exists hp; rewrite Hp2'|by rewrite Hs2, Hsigner, Hv2, Hv|by rewrite Hs2, Hsigner, Hv2, Hv].
    unfold user_id. by rewrite Ho2, Hown, Hs2, Hsigner.
  - by rewrite Hs2.
  - by rewrite Hr2, Hme.
  - exists proof. by rewrite Ho2, Hown.
  - intros s sink' stream' Hne Hs. apply Hrest; [by rewrite Hid|]. rewrite Hnode.
    apply served_same; try done. simpl. by apply Hothers.
  - intros id Hne. rewrite Hdb2, Hss2 by (by rewrite Hid). rewrite Hsess, Hnode. split; [by apply Hothers|done].
Qed.

(** A request of a peer that reaches the home: the stream gets it, however the
    reactor schedules the rest. *)
Lemma request_delivered p2 p3 s sink stream conn hp :
  wired p2 → served p2 s sink stream →
  hp_signer_id hp = peer_id (context conn) → hp_peer_id hp = signer_profile_id s →
  validate_half_proof (server_validator (node p2)) hp (peer_pubkey (context conn)) = Ok tt →
  rtc step p2 p3 →
  ∃ p4, await (client_pair_request (stub debug debug_reg conn) hp) p3 = (Ok tt, p4)
    ∧ Acc (flip step) p4
    ∧ ∀ p5, rtc step p4 p5 →
        received stream p5 `prefix_of` [EventMsg (Ok (PairingRequest hp))]
        ∧ ((¬ ∃ p6, step p5 p6) → received stream p5 = [EventMsg (Ok (PairingRequest hp))]).
Proof.
  intros Hw Hsv Hsig Hto Hval Hsteps.
  pose proof (wired_steps show p2 p3 Hw Hsteps) as Hl. destruct (pg_node _ _ (proj2 Hl)) as (ts & c0 & Hnode).
  destruct (served_later _ _ _ _ _ Hl Hsv) as [(own & Hown & _) (sid & ss & H1 & H2 & H3 & _) [i L]].
  destruct (push_to_remote p3 _ own (PairingRequest hp) sid ss sink stream i (proj1 Hl) Hown H1 H2 H3 L eq_refl)
    as (c & Hpush & Hw4 & Hdue & _).
  exists (set_node (set_chans c (node p3)) p3). split.
  { apply pair_request_remote. rewrite Scenarios.pair_request_served by (try done; by rewrite Hnode).
    by rewrite Hto. }
  split; [by eapply wired_acc|]. intros p5 H5. destruct (wired_steps show _ _ Hw4 H5) as [Hw5 Hp5].
  assert (due p5 stream [EventMsg (Ok (PairingRequest hp))]) as Hdue5 by (by eapply due_later).
  split; [by eapply due_prefix|]. intros Hno.
  destruct (wired_progresses show p5 Hw5) as [[Hd _]|?]; [by eapply due_drained|done].
Qed.

(** C9: a user can be reached over the wire at the home she joins: a client
    without a home that joins one through proxy and dispatcher and logs in to it
    there has the session cached, and its forwarding loop reads a stream that
    gets every properly signed request of a peer of that home, who may be
    connected over the wire as well: the request succeeds at any later time,
    whatever the loops of the process do in between, the loops then come to rest
    under every schedule, before that the stream has nothing else, and after
    that exactly the request.  Nothing on the way panics. *)
Theorem joined_client_is_reached_remote w p inv :
  remote_newcomer [] w p → wired p → never_fails Store Profile →
  ∃ w1 ms w2 stream p2,
    await (join_home home_id inv) w = (Ok tt, w1)
    ∧ await (login_home home_id) w1 = (Ok ms, w2)
    ∧ env w2 = Returns p2
    ∧ session_cache (me w2) !! home_id = Some ms
    ∧ ForwardEvents ms stream ∈ client_tasks (me w2)
    ∧ ∀ conn hp p3, hp_signer_id hp = peer_id (context conn) → hp_peer_id hp = user_id w →
        validate_half_proof (server_validator (node p)) hp (peer_pubkey (context conn)) = Ok tt →
        rtc step p2 p3 →
        ∃ p4, await (client_pair_request (stub debug debug_reg conn) hp) p3 = (Ok tt, p4)
          ∧ Acc (flip step) p4
          ∧ ∀ p5, rtc step p4 p5 →
              received stream p5 `prefix_of` [EventMsg (Ok (PairingRequest hp))]
              ∧ ((¬ ∃ p6, step p5 p6) → received stream p5 = [EventMsg (Ok (PairingRequest hp))]).
Proof.
  intros Hnew Hw Hrepo.
  destruct (becomes_member w p inv Hnew Hw Hrepo)
    as (w1 & ms & w2 & sink & stream & l & p2 & Hjoin & Hlog & He & Hc & Htask%opened_forwards & Hw2 & Hmb & Hv & Hs & _).
  exists w1, ms, w2, stream, p2. do 5 (split; [done|]). intros conn hp p3 Hsig Hto Hval Hsteps.
  eapply request_delivered; [done|apply Hmb|done|by rewrite Hs|by rewrite Hv|done].
Qed.

(** C36: a second home is lost over the wire: a user that has a home joins
    another through proxy and dispatcher, and it succeeds, the new home hosting
    the profile.  But the user's own profile afterwards lists the first of the
    old homes alone, without public data, and logging in to the home just joined
    fails for want of its proof. *)
Theorem second_home_lost h homes w p inv :
  remote_newcomer (h :: homes) w p → wired p → never_fails Store Profile →
  proof_peer_id h (user_id w) ≠ Ok home_id →
  ∃ w1 p1 hosted e,
    await (join_home home_id inv) w = (Ok tt, w1) ∧ env w1 = Returns p1
    ∧ kv_get (user_id w) (hosted_profile_db (node p1)) = Ok hosted
    ∧ profile_facet (own_profile (mp_own_profile (me w1))) = Persona (mkPersonaFacet [h] [])
    ∧ (await (login_home home_id) w1).1 = Err e ∧ conn_kind e = Conn.HomeProofNotFound.
Proof.
  intros Hnew Hw Hrepo Hh.
  destruct (joins_remote (h :: homes) w p inv Hnew Hw Hrepo)
    as (w1 & p1 & own & proof & hosted & hp & Hjoin & He1 & Hw1 & Hme & _ & Hfacet & _ & _ & _ & Hget
        & _ & _ & Hhosted & _).
  destruct Hnew as [_ _ _ _ _ _ _ _ _ Hcache _ _]. cbn in Hfacet.
  exists w1, p1, hosted, (conn_from Conn.HomeProofNotFound). split; [done|]. split; [done|]. split; [done|].
  split; [by rewrite Hme|]. split; [|done].
  assert (find_home_proof (user_id w) home_id (own_profile own) = Err (conn_from Conn.HomeProofNotFound)) as Hf.
  { unfold find_home_proof. rewrite Hfacet. simpl. destruct (proof_peer_id h (user_id w)) as [id|]; simpl; [|done].
    by rewrite decide_False by congruence. }
  assert (mp_signer (me w1) = mp_signer (me w)) as Hsigner by by rewrite Hme.
  unfold await, login_home. rewrite Hsigner. fold (user_id w). rewrite Hme. cbn [session_cache set_own_profile].
  rewrite Hcache. unfold load_profile, repo_load. rewrite Hget. simpl.
  unfold and_then, future_map_err, future_result, io_ret. simpl. by rewrite Hf.
Qed.

End theorems.
