(* ===== verification/RemotePairing.v ===== *)
(** * Pairing over the wire

    Two users of one home, both of whom reach it over the wire ([RemoteClient.v]):
    one asks the other for a relation, the other accepts, and both end up with
    the proof, whatever the reactor does in between. *)

From S2P Require Import Prelude Errors External Storage Protocol Crypto Relation Capnp.
From S2P Require Import HomeServer HomeServerProps Rpc RpcStreams Reactor Process ProcessProps.
From S2P Require Import Scenarios Memsocket Connect ConnectFrame ConnectProps EndToEnd Composition RemoteClient.
From stdpp Require Import relations.

#[local] Arguments kv_get : simpl never.
#[local] Arguments kv_set : simpl never.

Section pairing.
Context {BC : Bincode} {Chans : Type} {CH : Channels ChanMsg Chans} {CHL : ChannelsLaws ChanMsg Chans}
        {open : SinkId → Chans → Prop} {KO : KeepsOpen (Msg:=ChanMsg) open}
        {live : OneshotId → Chans → Prop} {KL : KeepsLive (Msg:=ChanMsg) live}
        {Store CChans : Type}
        {KV : KeyValueStore Store ProfileId Profile}
        {KVL : KeyValueStoreLaws Store ProfileId Profile any_key}
        {CCH : Channels ProfileEvent CChans} {CCHL : ChannelsLaws ProfileEvent CChans}.
Abbreviation P :=
  (HomeProcess (InMemoryStore ProfileId Profile) (InMemoryStore ProfileId OwnProfile) Chans).
Abbreviation W := (Client (Panicking P) Store CChans).
Context {SO : SelectOk W} {SOL : SelectOkLaws W}.
Context (debug : ProtoError → string) (debug_reg : OwnProfile * ProtoError → string)
        (show : CapnpError → string) (home_signer : Signer).
#[local] Hint Extern 0 (HomeConnector _) =>
  exact (to_remote_home debug debug_reg home_signer) : typeclass_instances.
Abbreviation wired := (wired (open:=open) (live:=live)).
Abbreviation later := (later (open:=open) (live:=live)).
Abbreviation step := (task_step (poll_task show)).
Abbreviation home_id := (home_of_signer home_signer).
Abbreviation conn_of s := (conn_for home_signer s).
Abbreviation member := (member (open:=open) home_signer).
Abbreviation reaches := (reaches home_signer).
Abbreviation served := (served (open:=open)).
Implicit Types (w wa wb : W) (p : P).

(** The profile of [peer] is in the client's repository, with this home. *)
Definition knows w (peer : ProfileId) : Prop :=
  ∃ profile proof data, kv_get peer (profiles (profile_repo w)) = Ok profile
    ∧ profile_id profile = peer ∧ profile_facet profile = Persona (mkPersonaFacet [proof] data)
    ∧ proof_peer_id proof peer = Ok home_id.

(** The only home of a profile is found. *)
Lemma any_home_remote w w2 p profile proof data hp signer :
  profile_facet profile = Persona (mkPersonaFacet [proof] data) →
  proof_peer_id proof (profile_id profile) = Ok home_id →
  kv_get home_id (profiles (profile_repo w)) = Ok hp → profile_id hp = home_id →
  env w2 = Returns p →
  PeerContext_validate (context (conn_of signer)) (server_validator (node p)) = Ok tt →
  (any_home_of2 profile signer w).1 w2
  = (Ok (proof, remote_home debug debug_reg (conn_of signer)), w2).
Proof.
  intros Hf Hp Hhp Hid He Hval. unfold any_home_of2. rewrite Hf. cbn [persona_homes home_conn_futs].
  unfold home_conn_fut. rewrite Hp.
  assert ((connect_home2 home_id signer w).1 w2
    = (Ok (remote_home debug debug_reg (conn_of signer)), w2)) as Hconn.
  { unfold connect_home2, load_profile, repo_load. simpl. rewrite and_then_await.
    unfold future_map_err, future_result. rewrite Hhp. simpl. rewrite await_lift, He.
    cbn [home_connect to_remote_home remote_connector]. rewrite method_await, decide_True by done.
    unfold await, io_ret, remote_connect, HomeConnectionServer_new.
    change (mkPeerContext _ _ _) with (context (conn_of signer)). rewrite Hval. simpl.
    destruct w2. simpl in *. by subst. }
  destruct (connect_home2 home_id signer w) as [fut w1]. simpl in Hconn |- *.
  match goal with |- select_ok ?f _ _ = _ => destruct (select_ok_order _ _ f [] w2) as (g & gs & Hperm & ->) end.
  apply Permutation_singleton_r in Hperm. injection Hperm as -> ->. simpl. unfold future_map. by rewrite Hconn.
Qed.

Lemma any_home_await w p profile proof data hp signer :
  profile_facet profile = Persona (mkPersonaFacet [proof] data) →
  proof_peer_id proof (profile_id profile) = Ok home_id →
  kv_get home_id (profiles (profile_repo w)) = Ok hp → profile_id hp = home_id →
  env w = Returns p →
  PeerContext_validate (context (conn_of signer)) (server_validator (node p)) = Ok tt →
  await (any_home_of2 profile signer) w = (Ok (proof, remote_home debug debug_reg (conn_of signer)), w).
Proof.
  intros. unfold await. pose proof (any_home_of2_call profile signer w) as Hcall.
  pose proof (any_home_remote w w p profile proof data hp signer) as Hany.
  destruct (any_home_of2 profile signer w) as [fut w1]. simpl in Hcall, Hany. subst w1. by apply Hany.
Qed.

(** [initiate_relation] and [accept_relation] of a member, as requests to the
    home. *)
Lemma initiate_remote ty peer w p p' :
  env w = Returns p → reaches w p → knows w peer →
  await (client_pair_request (stub debug debug_reg (conn_of (mp_signer (me w))))
           (RelationHalfProof_new ty peer (mp_signer (me w)))) p = (Ok tt, p') →
  await (initiate_relation ty peer) w = (Ok tt, set_env (Returns p') w).
Proof.
  intros He [_ (hp & Hhp & Hhid) Hval _] (profile & proof & data & Hget & Hid & Hf & Hp) Hreq.
  unfold await at 1, initiate_relation, load_profile, repo_load. cbv zeta. rewrite and_then_await.
  unfold future_map_err at 1, future_map_err at 1, future_result. rewrite Hget. cbn [map_err].
  pose proof (any_home_await w p profile proof data hp (mp_signer (me w)) Hf) as Hany.
  rewrite Hid in *. specialize (Hany Hp Hhp Hhid He Hval).
  rewrite await_and_then, Hany. cbn [home_pair_request remote_home].
  pose proof (await_lift (method gone (client_pair_request
    (stub debug debug_reg (conn_of (mp_signer (me w)))) (RelationHalfProof_new ty peer (mp_signer (me w))))) w)
    as Hlift.
  rewrite He, method_await, Hreq in Hlift. unfold await in Hlift |- *.
  destruct (lift _ w) as [g w1]. unfold future_map_err. by rewrite Hlift.
Qed.

Lemma accept_remote hp proof w p p' rs :
  env w = Returns p → reaches w p → knows w (hp_signer_id hp) →
  hp_peer_id hp = user_id w → sign_remaining_half hp (mp_signer (me w)) = Ok proof →
  relations (me w) = Some rs →
  await (client_pair_response (stub debug debug_reg (conn_of (mp_signer (me w)))) proof) p = (Ok tt, p') →
  await (accept_relation hp) w
  = (Ok proof, set_me (set_relations (Some (rs ++ [proof])) (me w)) (set_env (Returns p') w)).
Proof.
  intros He [Hown (hhp & Hhp & Hhid) Hval _] (profile & hproof & data & Hget & Hid & Hf & Hp) Hto Hsign Hrs Hreq.
  unfold await at 1, accept_relation. rewrite decide_False by (rewrite Hown; tauto). rewrite Hsign.
  unfold load_profile, repo_load. rewrite !and_then_await.
  unfold future_map_err at 1, future_map_err at 1, future_result. rewrite Hget. cbn [map_err].
  pose proof (any_home_await w p profile hproof data hhp (mp_signer (me w)) Hf) as Hany.
  rewrite Hid in Hany. specialize (Hany Hp Hhp Hhid He Hval).
  rewrite Hany. cbn [home_pair_response remote_home].
  pose proof (await_lift (method gone (client_pair_response
    (stub debug debug_reg (conn_of (mp_signer (me w)))) proof)) w) as Hlift.
  rewrite He, method_await, Hreq in Hlift. unfold await in Hlift |- *.
  destruct (lift _ w) as [g w1]. unfold future_map_err. rewrite Hlift. simpl.
  unfold on_new_relation. cbn [me set_env]. by rewrite Hrs.
Qed.

(** The signed relation of two members. *)
Lemma members_sign ty wa wb p :
  reaches wa p → reaches wb p → user_id wa ≠ user_id wb →
  let hp := RelationHalfProof_new ty (user_id wa) (mp_signer (me wb)) in
  validate_half_proof (server_validator (node p)) hp (signer_public_key (mp_signer (me wb))) = Ok tt
  ∧ ∃ proof, sign_remaining_half hp (mp_signer (me wa)) = Ok proof
    ∧ rp_relation_type proof = ty
    ∧ proof_peer_id proof (user_id wb) = Ok (user_id wa) ∧ proof_peer_id proof (user_id wa) = Ok (user_id wb)
    ∧ validate_relation_proof (server_validator (node p)) proof (user_id wb) (signer_public_key (mp_signer (me wb)))
        (user_id wa) (signer_public_key (mp_signer (me wa))) = Ok tt
    ∧ validate_relation_proof (server_validator (node p)) proof (user_id wa) (signer_public_key (mp_signer (me wa)))
        (user_id wb) (signer_public_key (mp_signer (me wb))) = Ok tt.
Proof.
  intros [_ _ _ Ha] [_ _ _ Hb] Hne hp.
  assert (validate_half_proof (server_validator (node p)) hp (signer_public_key (mp_signer (me wb))) = Ok tt)
    as Hval by (apply validate_half_proof_signed; eexists; apply Hb).
  split; [done|].
  assert (∃ proof, sign_remaining_half hp (mp_signer (me wa)) = Ok proof) as [proof Hp].
  { unfold sign_remaining_half. rewrite decide_False by (simpl; tauto). eauto. }
  exists proof. split; [done|].
  by apply (countersigned_validates (server_validator (node p)) hp (signer_public_key (mp_signer (me wb)))
    (mp_signer (me wa)) proof).
Qed.

(** An event pushed to a user who is served: only the channel of her session has
    changed. *)
Lemma pushed_to_member p (s : Signer) sink stream ev :
  wired p → served p s sink stream → sent_event ev = ev →
  ∃ c, run (push_event (signer_profile_id s) ev) (node p) = Returns (tt, set_chans c (node p))
    ∧ let p' := set_node (set_chans c (node p)) p in
      wired p' ∧ due p' stream [EventMsg (Ok ev)]
      ∧ (∀ s' sink' stream', sink' ≠ sink → served p s' sink' stream' → served p' s' sink' stream')
      ∧ ∀ t, t ≠ sink → received t p' = received t p.
Proof.
  intros Hw [(own & Hown & _) (sid & ss & S1 & S2 & S3 & _) [i L]] Hev.
  destruct (push_to_remote p _ own ev sid ss sink stream i Hw Hown S1 S2 S3 L Hev)
    as (c & Hpush & Hw' & Hdue & Hothers & Hrec).
  exists c. split; [done|]. split; [done|]. split; [done|]. split; [|done].
  intros s' sink' stream' Hne [Hh Hs [k K]]. split; [done|done|]. exists k. by apply Hothers.
Qed.

(** Asking a member, and accepting the request of one. *)
Lemma member_asks ty wa wb p sinka sa :
  wired p → reaches wb p → env wb = Returns p → knows wb (user_id wa) → served p (mp_signer (me wa)) sinka sa →
  let hp := RelationHalfProof_new ty (user_id wa) (mp_signer (me wb)) in
  ∃ c, let p' := set_node (set_chans c (node p)) p in
    await (initiate_relation ty (user_id wa)) wb = (Ok tt, set_env (Returns p') wb)
    ∧ wired p' ∧ due p' sa [EventMsg (Ok (PairingRequest hp))]
    ∧ (∀ s' sink' stream', sink' ≠ sinka → served p s' sink' stream' → served p' s' sink' stream')
    ∧ ∀ t, t ≠ sinka → received t p' = received t p.
Proof.
  intros Hw Rb He Kb Sa hp.
  destruct (pushed_to_member p _ sinka sa (PairingRequest hp) Hw Sa eq_refl) as (c & Hpush & Hrest).
  exists c. split; [|done]. apply (initiate_remote ty (user_id wa) wb p _ He Rb Kb).
  apply pair_request_remote. rewrite Scenarios.pair_request_served; [done|done|].
  apply validate_half_proof_signed. eexists. apply Rb.
Qed.

Lemma member_accepts hp proof sb_signer wa p sinkb sb rs :
  wired p → reaches wa p → env wa = Returns p → knows wa (hp_signer_id hp) → relations (me wa) = Some rs →
  hp_peer_id hp = user_id wa → sign_remaining_half hp (mp_signer (me wa)) = Ok proof →
  served p sb_signer sinkb sb → proof_peer_id proof (user_id wa) = Ok (signer_profile_id sb_signer) →
  validate_relation_proof (server_validator (node p)) proof (user_id wa) (signer_public_key (mp_signer (me wa)))
    (signer_profile_id sb_signer) (signer_public_key sb_signer) = Ok tt →
  ∃ c, let p' := set_node (set_chans c (node p)) p in
    await (accept_relation hp) wa
    = (Ok proof, set_me (set_relations (Some (rs ++ [proof])) (me wa)) (set_env (Returns p') wa))
    ∧ wired p' ∧ due p' sb [EventMsg (Ok (PairingResponse proof))]
    ∧ (∀ s' sink' stream', sink' ≠ sinkb → served p s' sink' stream' → served p' s' sink' stream')
    ∧ ∀ t, t ≠ sinkb → received t p' = received t p.
Proof.
  intros Hw Ra He Ka Hrs Hto Hsign Sb Hpeer Hval.
  destruct (pushed_to_member p _ sinkb sb (PairingResponse proof) Hw Sb eq_refl) as (c & Hpush & Hrest).
  exists c. split; [|done]. destruct (sv_hosted _ _ _ _ Sb) as (ownb & Hostb & Idb & Keyb).
  apply (accept_remote hp proof wa p _ rs); try done. apply pair_response_remote.
  rewrite (Scenarios.pair_response_served _ _ (signer_profile_id sb_signer) ownb); try done.
  by rewrite Idb, Keyb.
Qed.

Lemma reaches_same_home w w' p p' :
  mp_signer (me w') = mp_signer (me w) → mp_own_profile (me w') = mp_own_profile (me w) →
  profile_repo w' = profile_repo w → server_validator (node p') = server_validator (node p) →
  reaches w p → reaches w' p'.
Proof. intros Hs Ho Hr Hv [H1 H2 H3 H4]. split; unfold user_id; rewrite ?Hs, ?Ho, ?Hr, ?Hv; done. Qed.
End pairing.
