(* ===== verification/ProcessSafety.v ===== *)
(** * What never reaches a client over the wire

    The invariant of the home node ([HomeInvariants.v]) is kept by everything a
    process does around it: the proxies and dispatchers of its clients, their
    streams and calls, and the loops between them, whatever they are polled for.
    So the homes that clients reach over the wire are safe ([ClientSafety.v]). *)

From S2P Require Import Prelude Errors External Storage Protocol Crypto Relation Capnp Hoare.
From S2P Require Import HomeServer HomeInvariants Rpc RpcStreams Reactor Process Connect ClientSafety.
From S2P Require Import RemoteClient.

(** ** Proxy and dispatcher around a method *)

Section rpc.
Context {W : Type} (I : W → Prop).

Lemma pry_triple {A B} (r : Field A) (k : A → IO W (Future W CapnpError B)) Q :
  (∀ a, r = Ok a → call_triple I (k a) Q) → call_triple I (pry r k) Q.
Proof. intros Hk. destruct r as [a|e]; [by apply Hk|]. by apply call_io_ret, fut_err. Qed.

Lemma answer_with_triple {E A B} text (show : E → string) (fill : A → B) m P (Q : B → Prop) :
  call_triple I m P → (∀ a, P a → Q (fill a)) → call_triple I (answer_with text show fill m) Q.
Proof.
  intros Hm HPQ w Hw. unfold answer_with. destruct (Hm w Hw) as [H1 H2]. destruct (m w) as [f w1].
  simpl in *. split; [done|]. eapply fut_map; [by apply fut_map_err|done].
Qed.

Lemma deliver_triple {A} (m : IO W (Future W CapnpError (Panicking A))) (Q : A → Prop) :
  call_triple I m (λ r, ∀ a, r = Returns a → Q a) → call_triple I (deliver m) Q.
Proof.
  intros Hm w Hw. unfold deliver. destruct (Hm w Hw) as [H1 H2]. destruct (m w) as [f w1].
  simpl in *. split; [done|]. intros w2 Hw2. unfold disconnected. destruct (H2 w2 Hw2) as [H3 H4].
  destruct (f w2) as [[[a|]|e] w3]; simpl in *; (split; [done|]); intros b [= <-]. by eapply H4.
Qed.

Lemma decode_answer_triple {A B} k (decode : A → Field B) m P (Q : B → Prop) :
  call_triple I m P → (∀ a b, P a → decode a = Ok b → Q b) → call_triple I (decode_answer k decode m) Q.
Proof.
  intros Hm HPQ w Hw. unfold decode_answer. destruct (Hm w Hw) as [H1 H2]. destruct (m w) as [f w1].
  simpl in *. split; [done|]. apply fut_map_err. eapply fut_and_then; [exact H2|].
  intros a Ha. apply call_io_ret, fut_result. eauto.
Qed.

Lemma call_weaken {E A} (m : IO W (Future W E A)) (P Q : A → Prop) :
  call_triple I m P → (∀ a, P a → Q a) → call_triple I m Q.
Proof.
  intros Hm HPQ w Hw. destruct (Hm w Hw) as [H1 H2]. split; [done|].
  intros w1 Hw1. destruct (H2 w1 Hw1) as [H3 H4]. split; [done|]. intros a Ha. auto.
Qed.

Lemma call_await {E A} (m : IO W (Future W E A)) (P : A → Prop) :
  call_triple I m P → fut_triple I (await m) P.
Proof.
  intros Hm w Hw. unfold await. destruct (Hm w Hw) as [H1 H2]. destruct (m w) as [f w1]. by apply H2.
Qed.

End rpc.

Section process.
Context {BC : Bincode} {Dht Db Chans : Type}
        {DHT : KeyValueStore Dht ProfileId Profile}
        {DB : KeyValueStore Db ProfileId OwnProfile}
        {CH : Channels ChanMsg Chans}
        {DHTL : KeyValueStoreLaws Dht ProfileId Profile any_key}
        {DBL : KeyValueStoreLaws Db ProfileId OwnProfile any_key}
        {CHL : ChannelsLaws ChanMsg Chans}.
Abbreviation P := (HomeProcess Dht Db Chans).
Context (v : Validator) (debug : ProtoError → string)
        (debug_reg : OwnProfile * ProtoError → string) (show : CapnpError → string).
Implicit Types p : P.

Definition proc_inv p : Prop := Inv v (node p).

(** ** Code of the node and of the channels *)

Lemma at_node_triple {A} (m : IO (HomeServer Dht Db Chans) A) Q :
  triple (Inv v) m Q → triple proc_inv (at_node m) Q.
Proof.
  intros Hm p Hp. unfold at_node. destruct (Hm (node p) Hp) as [H1 H2]. by destruct (m (node p)).
Qed.

Lemma at_node_fut_triple {E A} (m : IO (HomeServer Dht Db Chans) (Future _ E A)) Q :
  call_triple (Inv v) m Q → call_triple proc_inv (at_node_fut m) Q.
Proof.
  intros Hm p Hp. unfold at_node_fut. destruct (Hm (node p) Hp) as [H1 H2].
  destruct (m (node p)) as [f w]. simpl in *. split; [done|]. by apply at_node_triple.
Qed.

Lemma with_chans_triple {A} (f : Chans → A * Chans) :
  (∀ c, chans_inv v c → chans_inv v (f c).2) → triple proc_inv (with_chans f) anything.
Proof.
  intros Hf p Hp. unfold with_chans. pose proof (Hf _ (inv_chans _ _ Hp)) as H.
  destruct (f (chans (node p))) as [a c]. split; [|done]. by apply Inv_set_chans.
Qed.

Lemma env_send_triple s m :
  authentic_msg v m → triple proc_inv (env_send s m) anything.
Proof. intros Hm. apply with_chans_triple. intros c Hc. by apply chans_inv_send. Qed.

Lemma env_channel_triple n : triple proc_inv (env_channel n) anything.
Proof. apply with_chans_triple. intros c Hc. by apply chans_inv_channel. Qed.

Lemma env_oneshot_triple : triple proc_inv env_oneshot anything.
Proof.
  apply with_chans_triple. intros c Hc. destruct (oneshot_channel c) as [o c'] eqn:Ho.
  apply oneshot_channel_new in Ho as [_ Ho]. by eapply chans_inv_same.
Qed.

(** A method that ends in a send. *)
Lemma send_triple {E} s m (f : string → E) :
  authentic_msg v m →
  fut_triple proc_inv (λ p, let '(r, p) := env_send s m p in (map_err f r, p)) anything.
Proof.
  intros Hm p Hp. destruct (env_send_triple s m Hm p Hp) as [H _]. by destruct (env_send s m p).
Qed.

Lemma fwd_appmsg_triple l : triple proc_inv (fwd_appmsg l) anything.
Proof.
  intros p Hp. split; [|done]. unfold fwd_appmsg. destruct (env_channel_triple 1 p Hp) as [H _].
  by destruct (env_channel 1 p).
Qed.

Lemma checkin_answer_triple resp : triple proc_inv (checkin_answer resp) anything.
Proof.
  intros p Hp. split; [|done]. unfold checkin_answer. destruct resp as [l|]; [|done].
  destruct (fwd_appmsg_triple l p Hp) as [H _]. by destruct (fwd_appmsg l p).
Qed.

(** ** The loops *)

Lemma fwd_message_triple l msg : call_triple proc_inv (fwd_message l msg) anything.
Proof.
  unfold fwd_message, app_receive, app_error. destruct msg; cbn [pry]; by apply call_io_ret, send_triple.
Qed.

Lemma events_item_triple t item :
  authentic_msg v (EventMsg item) → call_triple proc_inv (events_item t item) anything.
Proof.
  intros Hm. unfold events_item, event_receive, event_error. destruct item as [ev|e]; cbn [pry].
  - rewrite event_trip. cbn [pry]. apply call_io_ret, send_triple. by destruct ev.
  - by apply call_io_ret, send_triple.
Qed.

Lemma call_receive_triple t timeout c :
  authentic_call v c →
  call_triple proc_inv (call_receive t timeout (Ok (checkin_item (request_details c)))) anything.
Proof.
  intros Hc. unfold call_receive. cbn [pry]. apply pry_triple. intros req Hreq p Hp.
  assert (cr_relation req = cr_relation (call_request c)) as Hrel.
  { revert Hreq. unfold request_details, checkin_item.
    destruct (call_request c) as [[? [] [] [] []] [payload] [back|]]; by intros [= <-]. }
  match goal with |- context [match ?o with Ok _ => _ | Err _ => (None, p) end] =>
    change (match o with Ok l => let '(s, p) := fwd_appmsg l p in (Some s, p) | Err _ => (None, p) end)
      with (checkin_answer o p); destruct (checkin_answer_triple o p Hp) as [H1 _];
    destruct (checkin_answer o p) as [to_caller p1] end.
  destruct (env_oneshot_triple p1 H1) as [H2 _]. destruct (env_oneshot p1) as [one p2]. simpl in H2.
  revert p2 H2. apply pry_triple. intros [] _. apply call_io_ret. intros p3 Hp3.
  destruct (env_send_triple t (CallMsg (Ok (Call_new (mkCallRequest (cr_relation req)
    (cr_init_payload req) to_caller) one)))) with p3 as [H4 _]; [|done|].
  - simpl. unfold authentic_call. simpl. by rewrite Hrel.
  - by destruct (env_send _ _ p3) as [[]].
Qed.

Lemma loop_failed_inv text wrap t e p :
  (∀ s, authentic_msg v (wrap s)) → proc_inv p → proc_inv (loop_failed show text wrap t e p).2.
Proof.
  intros Hw Hp. unfold loop_failed, or_send, future_err. simpl.
  destruct (env_send_triple t (wrap (text +:+ show e)) (Hw _) p Hp) as [H _].
  simpl in H. by destruct (with_chans _ p).
Qed.

Lemma loop_step_inv l p l' p' :
  proc_inv p → loop_step show l p = Some (l', p') → proc_inv p'.
Proof.
  intros Hp. assert (∀ s i msg, received s p !! i = Some msg → authentic_msg v msg) as Hauth.
  { intros s i msg Hl. apply (inv_chans _ _ Hp s). by eapply list_elem_of_lookup_2. }
  destruct l as [s n t|s n t|s n t|s n t c one|]; simpl.
  - destruct (received s p !! n) as [[| |r]|]; try done.
    destruct (call_await _ _ _ (fwd_message_triple t r) p Hp) as [H _].
    destruct (await _ p) as [r' p1]. by intros [= _ <-].
  - destruct (received s p !! n) as [[item| |]|] eqn:Hm; try done.
    destruct (call_await _ _ _ (events_item_triple t item (Hauth _ _ _ Hm)) p Hp) as [H _].
    destruct (await _ p) as [[[]|e] p1]; intros [= _ <-]; [done|by apply loop_failed_inv].
  - destruct (received s p !! n) as [[|[c|e]|]|] eqn:Hm; try done.
    + destruct (call_await _ _ _ (call_receive_triple t (Ok tt) c (Hauth _ _ _ Hm)) p Hp) as [H _].
      destruct (await _ p) as [[one|e] p1]; intros [= _ <-]; [done|by apply loop_failed_inv].
    + assert (call_triple proc_inv (call_error t (Ok e)) anything) as Hc.
      { unfold call_error. cbn [pry]. by apply call_io_ret, send_triple. }
      destruct (call_await _ _ _ Hc p Hp) as [H _].
      destruct (await _ p) as [[[]|e'] p1]; intros [= _ <-]; [done|by apply loop_failed_inv].
  - destruct (call_poll_answer one TimerRunning p) as [[resp|e]|]; [| |done].
    + destruct (checkin_answer_triple resp p Hp) as [H _].
      destruct (checkin_answer resp p) as [answered p1]. simpl in H.
      pose proof (Inv_answer v (node p1) c answered H) as Ha. unfold at_node.
      destruct (answer c answered (node p1)). by intros [= _ <-].
    + intros [= _ <-]. by apply loop_failed_inv.
  - done.
Qed.

Lemma poll_task_inv c p p' : proc_inv p → poll_task show c p = Some p' → proc_inv p'.
Proof.
  intros Hp. destruct c as [i|i]; simpl.
  - destruct (loops p !! i) as [l|]; simpl; [|done].
    destruct (loop_step show l p) as [[l' p1]|] eqn:Hl; simpl; [|done]. intros [= <-].
    by eapply (loop_step_inv l p l' p1).
  - unfold poll_spawned. destruct (spawned (node p) !! i) as [t|] eqn:Ht; simpl; [|done].
    assert (tasks_inv v (delete i (spawned (node p)))) as Hrest.
    { intros t' m Ht'. apply (inv_tasks _ _ Hp). by eapply elem_of_sublist, sublist_delete. }
    destruct (Inv_run_task v (set_spawned (delete i (spawned (node p))) (node p)) t) as (H1 & H2 & H3).
    + by apply Inv_set_spawned.
    + intros m Hm. apply (inv_tasks _ _ Hp t); [by eapply list_elem_of_lookup_2|done].
    + destruct (run_task t _) as [rest w]. simpl in *. intros [= <-]. unfold proc_inv. simpl.
      destruct rest as [t'|]; [|done]. apply Inv_spawn; [done|]. intros m Hm.
      apply (H3 t'); [by left|done].
Qed.
End process.

(** ** The methods of the home, through dispatcher and proxy *)

Section remote.
Context {BC : Bincode} {Dht Db Chans : Type}
        {DHT : KeyValueStore Dht ProfileId Profile}
        {DB : KeyValueStore Db ProfileId OwnProfile}
        {CH : Channels ChanMsg Chans}
        {DHTL : KeyValueStoreLaws Dht ProfileId Profile any_key}
        {DBL : KeyValueStoreLaws Db ProfileId OwnProfile any_key}
        {CHL : ChannelsLaws ChanMsg Chans}.
Abbreviation P := (HomeProcess Dht Db Chans).
Context (v : Validator) (debug : ProtoError → string)
        (debug_reg : OwnProfile * ProtoError → string).
Abbreviation proc_inv := (proc_inv (Dht:=Dht) (Db:=Db) (Chans:=Chans) v).

(** A request that is decoded, served and answered. *)
Lemma served_triple {E A B C} text k (show_err : E → string) (fill : A → Panicking B)
    (decode : B → Field C) (m : IO P (Future P E A)) Q (R : C → Prop) :
  call_triple proc_inv m Q →
  (∀ a b c, Q a → fill a = Returns b → decode b = Ok c → R c) →
  call_triple proc_inv (decode_answer k decode (deliver (answer_with text show_err fill m))) R.
Proof.
  intros Hm HQ. apply (decode_answer_triple _ _ _ _ (λ b, ∃ a, Q a ∧ fill a = Returns b)).
  - apply deliver_triple. eapply answer_with_triple; [exact Hm|]. eauto.
  - intros b c (a & Ha & Hb) Hc. eauto.
Qed.

Section home.
Context (conn : HomeConnectionServer) (Hconn : valid_connection v conn).
Abbreviation home_stub := (stub (Dht:=Dht) (Db:=Db) (Chans:=Chans) debug debug_reg conn).

Lemma client_load_triple id : call_triple proc_inv (client_load home_stub id) anything.
Proof. by eapply served_triple; [apply at_node_fut_triple, (call_load v conn)|]. Qed.

Lemma client_claim_triple id : call_triple proc_inv (client_claim home_stub id) anything.
Proof. by eapply served_triple; [apply at_node_fut_triple, (call_claim v conn)|]. Qed.

Lemma client_register_triple own half invite m :
  client_register home_stub own half invite = Returns m → call_triple proc_inv m anything.
Proof.
  unfold client_register. destruct (own_profile_fill_from own) as [wire|]; simpl; [|done].
  intros [= <-] p Hp.
  match goal with |- context [let '(_, _) := ?m p in _] =>
    assert (call_triple proc_inv m anything) as Hm end.
  { apply deliver_triple. unfold dispatch_register. cbn [rgp_ownProfile rgp_halfProof pry].
    apply pry_triple. intros own' _. apply pry_triple. intros half' _.
    eapply answer_with_triple; [by apply at_node_fut_triple, call_register|done]. }
  destruct (Hm p Hp) as [H1 H2]. destruct (deliver _ p) as [f p1]. simpl in *. split; [done|].
  apply fut_map_err. eapply fut_and_then; [exact H2|]. intros r _. by apply call_io_ret, fut_result.
Qed.

Lemma client_login_triple proof : call_triple proc_inv (client_login home_stub proof) anything.
Proof.
  destruct proof as [? [] [] [] []].
  by eapply served_triple; [by apply at_node_fut_triple, call_login|].
Qed.

Lemma client_pair_request_triple half :
  call_triple proc_inv (client_pair_request home_stub half) anything.
Proof.
  destruct half as [? [] [] []].
  by eapply served_triple; [by apply at_node_fut_triple, call_pair_request|].
Qed.

Lemma client_pair_response_triple rp :
  call_triple proc_inv (client_pair_response home_stub rp) (λ _, authentic_relation v rp).
Proof.
  destruct rp as [? [] [] [] []].
  by eapply served_triple; [by apply at_node_fut_triple, call_pair_response|].
Qed.

Lemma client_call_triple app req : call_triple proc_inv (client_call home_stub app req) anything.
Proof.
  assert (call_triple proc_inv (m_call home_stub (call_params app req)) anything) as Hm.
  { apply deliver_triple. cbn [m_call HomeDispatcher]. unfold dispatch_call, dispatch_call_with.
    cbn [call_params clp_relation clp_app clp_initPayload clp_toCaller pry]. intros p Hp.
    match goal with |- context [match ?o with Ok _ => _ | Err _ => (None, p) end] =>
      change (match o with Ok l => let '(s, p) := fwd_appmsg l p in (Some s, p) | Err _ => (None, p) end)
        with (checkin_answer o p); destruct (checkin_answer_triple v o p Hp) as [H1 _];
      destruct (checkin_answer o p) as [to_caller p1] end.
    revert p1 H1. apply pry_triple. intros rp _.
    apply (answer_with_triple _ _ _ _ _ anything); [|done].
    intros p2 Hp2. cbn [home_call server_home]. unfold server_call.
    pose proof (at_node_fut_triple v _ _ (call_call v conn (mkApplicationId (app_str app))
      (mkCallRequest rp (mkAppMessageFrame (frame_bytes (cr_init_payload req))) to_caller) (Ok tt) Hconn)
      p2 Hp2) as [H2 H3].
    destruct (at_node_fut _ p2) as [f p3]. simpl in *. split; [done|].
    eapply fut_and_then; [exact H3|]. intros chan _. apply call_io_ret.
    intros p4 Hp4. by split. }
  intros p Hp. unfold client_call. destruct (Hm p Hp) as [H1 H2].
  destruct (m_call _ _ p) as [f p1]. simpl in *. split; [done|]. apply fut_map_err.
  eapply fut_and_then; [exact H2|]. intros res _ p2 Hp2.
  destruct (checkin_answer_triple v res p2 Hp2) as [H3 _].
  destruct (checkin_answer res p2) as [to_callee p3]. split; [done|]. by apply fut_ok.
Qed.

End home.

(** ** What a client sees of them *)

Definition process_ok (pp : Panicking P) : Prop :=
  match pp with Returns p => proc_inv p | Panics => True end.

Lemma in_process_triple {A} (dead : A) (m : IO P A) (Q : A → Prop) :
  triple proc_inv m Q → Q dead → triple process_ok (in_process dead m) Q.
Proof.
  intros Hm Hd [p|] Hp; [|done]. unfold in_process. destruct (Hm p Hp) as [H1 H2]. by destruct (m p).
Qed.

Lemma method_triple {E A} (dead : E) (m : IO P (Future P E A)) Q :
  call_triple proc_inv m Q → call_triple process_ok (method dead m) Q.
Proof.
  intros Hm. apply in_process_triple; [|by apply fut_err]. intros p Hp.
  destruct (Hm p Hp) as [H1 H2]. destruct (m p) as [f p1]. simpl in *. split; [done|].
  by apply in_process_triple.
Qed.

Lemma panicking_method_triple {E A} (dead : E) (m : Panicking (IO P (Future P E A))) Q :
  (∀ m', m = Returns m' → call_triple proc_inv m' Q) →
  call_triple process_ok (panicking_method dead m) Q.
Proof.
  intros Hm. destruct m as [m|]; [by apply method_triple, Hm|].
  intros pp _. split; [done|by apply fut_err].
Qed.

(** Methods of sessions: the proxy decodes the answer, the dispatcher calls. *)
Lemma session_method_triple {A B C} k text (fill : A → B) (decode : B → Field C) m Q :
  call_triple proc_inv m Q →
  call_triple proc_inv (decode_answer k decode (answer_with text debug fill m)) anything.
Proof.
  intros Hm. eapply (decode_answer_triple _ _ _ _ anything); [|done].
  eapply answer_with_triple; [exact Hm|done].
Qed.

Lemma remote_session_safe ctx sid :
  certified v (peer_pubkey ctx) (peer_id ctx) →
  safe_session process_ok (remote_session (Dht:=Dht) (Db:=Db) (Chans:=Chans) debug ctx sid).
Proof.
  intros Hctx. split; cbn [cs_session cs_events cs_checkin_app remote_session session_update
    session_unregister session_ping].
  - intros own. apply panicking_method_triple. intros m. unfold client_update.
    destruct (own_profile_fill_from own) as [wire|]; simpl; [|done]. intros [= <-].
    eapply (decode_answer_triple _ _ _ _ anything); [|done]. apply pry_triple. intros own' _.
    eapply answer_with_triple; [by apply at_node_fut_triple, call_update|done].
  - intros newhome. apply panicking_method_triple. intros m. unfold client_unregister.
    destruct (match newhome with Some p => _ | None => _ end) as [wire|]; simpl; [|done]. intros [= <-].
    eapply session_method_triple, at_node_fut_triple, call_unregister.
  - intros txt. apply method_triple. eapply session_method_triple, at_node_fut_triple.
    by apply call_io_ret, (fut_ok _ _ anything).
  - apply in_process_triple; [|done]. intros p Hp. split; [|done]. unfold remote_events.
    destruct (env_channel_triple v 1 p Hp) as [H _]. destruct (env_channel 1 p) as [send p1].
    destruct (at_node_triple v _ _ (triple_events v sid) p1 H) as [H2 _].
    by destruct (at_node (events sid) p1) as [[s|] p2].
  - intros app. apply in_process_triple; [|done]. intros p Hp. split; [|done]. unfold remote_checkin_app.
    destruct (env_channel_triple v 1 p Hp) as [H _]. destruct (env_channel 1 p) as [send p1].
    destruct (at_node_triple v _ _ (triple_checkin_app v sid (mkApplicationId (app_str app))) p1 H) as [H2 _].
    by destruct (at_node (checkin_app sid _) p1) as [[s|] p2].
Qed.

Lemma remote_home_safe conn :
  valid_connection v conn →
  safe_home process_ok (authentic_event v) (remote_home (Dht:=Dht) (Db:=Db) (Chans:=Chans) debug debug_reg conn).
Proof.
  intros Hconn. split; cbn [home_load home_claim home_register home_login home_pair_request
    home_pair_response home_call remote_home].
  - intros id. apply method_triple, client_load_triple.
  - intros id. apply method_triple, client_claim_triple.
  - intros own half invite. apply panicking_method_triple. intros m. by apply client_register_triple.
  - intros proof pp Hpp.
    destruct (method_triple gone _ _ (client_login_triple conn Hconn proof) pp Hpp) as [H1 H2].
    destruct (method gone _ pp) as [f pp1]. simpl in *. split; [done|].
    eapply fut_map; [exact H2|]. intros sid _. by apply remote_session_safe.
  - intros half. by apply method_triple, client_pair_request_triple.
  - intros rp. by apply method_triple, client_pair_response_triple.
  - intros app req. by apply method_triple, client_call_triple.
Qed.

(** Every home a client connects to over the wire is safe. *)
Lemma remote_connector_safe home_signer :
  @SafeConnector _ (remote_connector debug debug_reg home_signer) process_ok (authentic_event v).
Proof.
  split. intros hp signer. cbn [home_connect remote_connector]. apply method_triple.
  case_decide; [|by apply call_io_ret, fut_err]. apply call_io_ret. intros p Hp. unfold remote_connect.
  split; [done|]. intros h. cbn [fst].
  destruct (HomeConnectionServer_new _ _) as [conn|] eqn:Hnew; [|done]. intros [= <-].
  apply remote_home_safe. apply new_connection_valid in Hnew as [Hctx Hc]. unfold valid_connection.
  by rewrite Hctx, <- (inv_validator _ _ Hp).
Qed.
End remote.
