(* ===== verification/Network.v ===== *)
(** * A home and its users

    The process of a home ([Process.v]), any number of users whose clients
    ([Connect.v]) reach it over the wire and whose loops run on the events that
    come to them, and everybody else the home serves ([HomeInvariants.v]).  They
    share the process only; a step of the network is a step of one of them. *)

From S2P Require Import Prelude Errors External FutureUtil Storage Protocol Crypto Relation Capnp Hoare.
From S2P Require Import HomeServer HomeInvariants Rpc RpcStreams Reactor Process Connect ConnectFrame Forwarding.
From S2P Require Import ClientSafety RemoteClient ProcessSafety.
From stdpp Require Import relations.

Section network.
Context {BC : Bincode} {Dht Db Chans : Type}
        {DHT : KeyValueStore Dht ProfileId Profile}
        {DB : KeyValueStore Db ProfileId OwnProfile}
        {CH : Channels ChanMsg Chans}
        {Store CChans : Type}
        {KV : KeyValueStore Store ProfileId Profile}
        {CCH : Channels ProfileEvent CChans} {BCH : BoundedChannels ProfileEvent CChans}
        {SO : SelectOk (Client (Panicking (HomeProcess Dht Db Chans)) Store CChans)}
        {HV : HashValues ProfileId}.
Abbreviation P := (HomeProcess Dht Db Chans).
Abbreviation W := (Client (Panicking P) Store CChans).
Context (debug : ProtoError → string) (debug_reg : OwnProfile * ProtoError → string)
        (show : CapnpError → string) (home_signer : Signer).
#[local] Instance to_the_home : HomeConnector (Panicking P) := remote_connector debug debug_reg home_signer.
Context (select_all : list (nat * (SinkId * Result string SinkId)) →
           (nat * Result string SinkId) * list (nat * (SinkId * Result string SinkId))).

(** ** The loops of a client

    [ForwardEvents] and [StoreRelations] are the [for_each] loops of
    [Forwarding.v]; the first takes its items from a channel of the home's
    process.  [choice] is the send that is polled while it forwards. *)

Definition client_loop_step (t : ClientTask) (st : LoopState) (choice : nat) (w : W)
  : option (LoopState * W) :=
  match t, st with
  | ForwardEvents ms stream, Taking pos =>
      match env w with
      | Returns p =>
          match received stream p !! pos with
          | Some (EventMsg item) => Some (forward_start ms item pos w)
          | _ => None
          end
      | Panics => None
      end
  | ForwardEvents ms _, Sending pos event send_futs => forward_poll select_all choice ms pos event send_futs w
  | StoreRelations events, Taking pos => store_poll events pos w
  | _, _ => None
  end.

(** A user: the client without the world it shares, how far its loops have come,
    the futures it has not dropped, and the event streams its applications hold. *)
Record User : Type := mkUser
  { user_me : MyProfileImpl (Panicking P);
    user_repo : SimpleProfileRepo Store;
    user_chans : CChans;
    user_progress : gmap nat LoopState;
    user_futures : list (IO W unit);
    user_streams : list SinkId }.

Definition progress_of (u : User) (k : nat) : LoopState := default (Taking 0) (user_progress u !! k).

Record Network : Type := mkNetwork
  { the_process : Panicking P;
    users : list User;
    others_connections : list HomeConnectionServer;
    others_pending : list (IO (HomeServer Dht Db Chans) Response);
    others_responses : list Response }.

Definition client_at (pp : Panicking P) (u : User) : W :=
  mkClient (user_me u) (user_repo u) (user_chans u) pp.
Definition user_of (w : W) (progress : gmap nat LoopState) (futures : list (IO W unit))
    (streams : list SinkId) : User :=
  mkUser (me w) (profile_repo w) (listener_chans w) progress futures streams.

(** User [i] has changed, and with it the process. *)
Definition set_user (i : nat) (w : W) progress futures streams (n : Network) : Network :=
  mkNetwork (env w) (<[i := user_of w progress futures streams]> (users n)) (others_connections n)
    (others_pending n) (others_responses n).
Definition set_process (pp : Panicking P) (n : Network) : Network :=
  mkNetwork pp (users n) (others_connections n) (others_pending n) (others_responses n).

(** Polling a future whose result nobody looks at any more. *)
Definition unobserved {E A} (f : Future W E A) : IO W unit := λ w, let '(_, w) := f w in (tt, w).

(** The polls of the loops, which need nobody's request. *)
Inductive loops_step : Network → Network → Prop :=
| step_process_loop c p p' n :
    the_process n = Returns p → poll_task show c p = Some p' → loops_step n (set_process (Returns p') n)
| step_client_loop i k u t choice st w n :
    users n !! i = Some u → client_tasks (user_me u) !! k = Some t →
    client_loop_step t (progress_of u k) choice (client_at (the_process n) u) = Some (st, w) →
    loops_step n (set_user i w (<[k := st]> (user_progress u)) (user_futures u) (user_streams u) n).

(** An application takes the next event from a stream it holds. *)
Inductive reads_step : Network → Network → Prop :=
| step_user_reads i u listener event c n :
    users n !! i = Some u → listener ∈ user_streams u →
    mpsc_recv listener (user_chans u) = (Some event, c) →
    reads_step n (set_user i (set_listener_chans c (client_at (the_process n) u)) (user_progress u)
                    (user_futures u) (user_streams u) n).

(** A user asks for something, polls what she has asked for or drops it, listens
    to a session, reads what she listens to, or lets an application check in;
    somebody else uses the home.  The future of a call is polled once, and gives
    up unless the call has been answered by then; [RemoteCalls.v] has calls that
    are waited for. *)
Inductive net_step : Network → Network → Prop :=
| step_loops n n' : loops_step n n' → net_step n n'
| step_reads n n' : reads_step n n' → net_step n n'
| step_user_op i u E A m fut w n :
    users n !! i = Some u → user_op E A m → m (client_at (the_process n) u) = (fut, w) →
    net_step n (set_user i w (user_progress u) (user_futures u ++ [unobserved fut]) (user_streams u) n)
| step_user_poll i u fs1 f fs2 w n :
    users n !! i = Some u → user_futures u = fs1 ++ f :: fs2 →
    f (client_at (the_process n) u) = (tt, w) →
    net_step n (set_user i w (user_progress u) (fs1 ++ fs2) (user_streams u) n)
| step_user_cancel i u fs1 f fs2 n :
    users n !! i = Some u → user_futures u = fs1 ++ f :: fs2 →
    net_step n (set_user i (client_at (the_process n) u) (user_progress u) (fs1 ++ fs2) (user_streams u) n)
| step_user_listens i u ms listener w n :
    users n !! i = Some u → my_session_events ms (client_at (the_process n) u) = (listener, w) →
    net_step n (set_user i w (user_progress u) (user_futures u) (user_streams u ++ [listener]) n)
| step_user_checks_in i u ms s app calls pp n :
    users n !! i = Some u → my_sessions (user_me u) !! ms = Some s →
    cs_checkin_app (session s) app (the_process n) = (calls, pp) →
    net_step n (set_process pp n)
| step_others p s' n :
    the_process n = Returns p →
    step (mkSystem (node p) (others_connections n) (others_pending n) (others_responses n)) s' →
    net_step n (mkNetwork (Returns (set_node (world s') p)) (users n) (connections s') (pending s') (responses s')).

(** ** The beginning *)

(** A user who has done nothing yet with a profile that may have relations. *)
Definition new_user (own : OwnProfile) (signer : Signer) (rs : list RelationProof)
    (repo : SimpleProfileRepo Store) (c : CChans) : User :=
  mkUser (set_relations (Some rs) (MyProfileImpl_new own signer)) repo c ∅ [] [].

(** A home over given databases that nobody is connected to. *)
Definition new_network (v : Validator) (dht : Dht) (db : Db) (c : Chans) (us : list User) : Network :=
  mkNetwork (Returns (mkHomeProcess (HomeServer_new v dht db c) [])) us [] [] [].

End network.
Arguments User : clear implicits.
Arguments Network : clear implicits.

(** ** Nobody has a relation that was not signed by both sides *)

Section safety.
Context {BC : Bincode} {Dht Db Chans : Type}
        {DHT : KeyValueStore Dht ProfileId Profile}
        {DB : KeyValueStore Db ProfileId OwnProfile}
        {CH : Channels ChanMsg Chans}
        {DHTL : KeyValueStoreLaws Dht ProfileId Profile any_key}
        {DBL : KeyValueStoreLaws Db ProfileId OwnProfile any_key}
        {CHL : ChannelsLaws ChanMsg Chans}
        {Store CChans : Type}
        {KV : KeyValueStore Store ProfileId Profile}
        {CCH : Channels ProfileEvent CChans} {CCHL : ChannelsLaws ProfileEvent CChans}
        {BCH : BoundedChannels ProfileEvent CChans} {BL : BoundedLaws ProfileEvent CChans}
        {SO : SelectOk (Client (Panicking (HomeProcess Dht Db Chans)) Store CChans)}
        {SOL : SelectOkLaws (Client (Panicking (HomeProcess Dht Db Chans)) Store CChans)}
        {HV : HashValues ProfileId}.
Abbreviation P := (HomeProcess Dht Db Chans).
Abbreviation W := (Client (Panicking P) Store CChans).
Abbreviation Network := (Network Dht Db Chans Store CChans).
Context (debug : ProtoError → string) (debug_reg : OwnProfile * ProtoError → string)
        (show : CapnpError → string) (home_signer : Signer)
        (select_all : list (nat * (SinkId * Result string SinkId)) →
           (nat * Result string SinkId) * list (nat * (SinkId * Result string SinkId)))
        (v : Validator).
#[local] Hint Extern 0 (HomeConnector _) =>
  exact (to_the_home debug debug_reg home_signer) : typeclass_instances.
Abbreviation net_step := (net_step debug debug_reg show home_signer select_all).
Implicit Types (n : Network) (w : W).

Abbreviation ok_process := (process_ok (Dht:=Dht) (Db:=Db) (Chans:=Chans) v).
Abbreviation ok_client := (client_inv ok_process (authentic_event v)).

#[local] Instance the_homes_are_safe : SafeConnector ok_process (authentic_event v).
Proof. apply remote_connector_safe. Qed.

(** The events a loop waits to send on are authentic as well. *)
Definition ok_state (st : LoopState) : Prop :=
  match st with Sending _ event _ => authentic_event v event | _ => True end.

Record user_inv (pp : Panicking P) (u : User Dht Db Chans Store CChans) : Prop := mkUserInv
  { ui_client : ok_client (client_at pp u);
    ui_progress k : ok_state (progress_of u k);
    ui_futures : Forall (λ f, triple ok_client f anything) (user_futures u) }.

Record net_inv n : Prop := mkNetInv
  { ni_process : ok_process (the_process n);
    ni_users : Forall (user_inv (the_process n)) (users n);
    ni_connections : Forall (valid_connection v) (others_connections n);
    ni_pending : Forall (λ fut, triple (Inv v) fut anything) (others_pending n) }.

(** What one of them does to the process does not matter to the others. *)
Lemma user_inv_process pp pp' u : user_inv pp u → ok_process pp' → user_inv pp' u.
Proof. intros [H1 H2 H3] Hpp. split; [|done|done]. exact (client_inv_env _ _ _ pp' H1 Hpp). Qed.

Lemma net_inv_process n pp : net_inv n → ok_process pp → net_inv (set_process pp n).
Proof.
  intros [H1 H2 H3 H4] Hpp. split; try done. eapply Forall_impl; [exact H2|].
  intros u Hu. by eapply user_inv_process.
Qed.

Lemma net_inv_user n i w progress futures streams :
  net_inv n → ok_client w → (∀ k, ok_state (default (Taking 0) (progress !! k))) →
  Forall (λ f, triple ok_client f anything) futures →
  net_inv (set_user i w progress futures streams n).
Proof.
  intros Hn Hw Hp Hf. pose proof (net_inv_process n (env w) Hn (cv_env _ _ _ Hw)) as [H1 H2 H3 H4].
  split; try done. apply Forall_insert; [done|]. split; [|done|done]. unfold client_at. by destruct w.
Qed.

Lemma net_inv_lookup n i u :
  net_inv n → users n !! i = Some u → user_inv (the_process n) u.
Proof. intros Hn Hu. by apply (Forall_lookup_1 _ _ _ _ (ni_users _ Hn) Hu). Qed.

Lemma send_futs_keep j event futs w futs' c :
  authentic_event v event → ok_client w → send_poll j event futs (listener_chans w) = Some (futs', c) →
  ok_client (set_listener_chans c w).
Proof.
  intros Hg Hw. unfold send_poll. destruct (futs !! j) as [[l [r|]]|]; try done.
  destruct (mpsc_ready l _); [|done]. pose proof (client_inv_send _ _ l event w Hw Hg) as H.
  destruct (mpsc_send l event (listener_chans w)) as [r c']. by intros [= _ <-].
Qed.

Lemma client_loop_step_inv t st choice w st' w' :
  ok_client w → ok_state st → client_loop_step select_all t st choice w = Some (st', w') →
  ok_client w' ∧ ok_state st'.
Proof.
  intros Hw Hst. unfold client_loop_step. destruct t as [ms stream|events], st as [pos|pos event futs|]; try done.
  - destruct (env w) as [p|] eqn:He; [|done].
    destruct (received stream p !! pos) as [[item| |]|] eqn:Hi; try done.
    assert (∀ event, item = Ok event → authentic_event v event) as Hg.
    { intros event ->. pose proof (cv_env _ _ _ Hw) as Hp. rewrite He in Hp.
      apply (inv_chans _ _ Hp stream (EventMsg (Ok event))). by eapply list_elem_of_lookup_2. }
    unfold forward_start. destruct (my_sessions (me w) !! ms) as [s|] eqn:Hms; [|by intros [= <- <-]].
    destruct item as [event|e]; intros [= <- <-]; [|done]. split; [|by apply Hg].
    by apply (ci_listeners (J:=ok_client)).
  - unfold forward_poll. destruct (send_poll _ _ _ _) as [[futs' c]|] eqn:Hp.
    { intros [= <- <-]. split; [by eapply send_futs_keep|done]. }
    destruct (mapM send_result futs) as [done_futs|]; [|done].
    destruct (collect_results _ _) as [rs|]; intros [= <- <-]; split; try done.
    by apply (listeners_notified_keeps (J:=ok_client)).
  - unfold store_poll. pose proof (bounded_recv events (listener_chans w)) as Hr.
    pose proof (client_inv_recv _ _ events w Hw) as Hw1.
    destruct (mpsc_recv events (listener_chans w)) as [[event|] c]; [|done]. simpl in Hr, Hw1.
    assert (authentic_event v event) as Hg.
    { apply (cv_events _ _ _ Hw events). by eapply list_elem_of_lookup_2. }
    destruct (call_await _ _ _ (handle_event_keeps (J:=ok_client) event Hg) _ Hw1) as [H _].
    destruct (await _ _) as [r w2]. intros [= <- <-]. by destruct r.
Qed.
Lemma unobserved_keeps {E A} (f : Future W E A) :
  fut_triple ok_client f anything → triple ok_client (unobserved f) anything.
Proof.
  intros Hf w Hw. unfold unobserved. destruct (Hf w Hw) as [H _]. by destruct (f w).
Qed.

Lemma loops_step_keeps n n' : net_inv n → loops_step show select_all n n' → net_inv n'.
Proof.
  intros Hn. destruct 1 as [c p p' n Hp Hc|i k u t choice st w n Hu Ht Hs].
  - apply net_inv_process; [done|]. pose proof (ni_process _ Hn) as H. rewrite Hp in H.
    by eapply (poll_task_inv v show c p).
  - destruct (net_inv_lookup n i u Hn Hu) as [H1 H2 H3].
    destruct (client_loop_step_inv t _ choice _ _ _ H1 (H2 k) Hs) as [H4 H5].
    apply net_inv_user; [done|done| |done]. intros k'.
    destruct (decide (k' = k)) as [->|Hne]; [by rewrite lookup_insert_eq|].
    rewrite lookup_insert_ne by done. apply H2.
Qed.

Lemma net_step_keeps n n' : net_inv n → net_step n n' → net_inv n'.
Proof.
  intros Hn Hs. destruct Hs as [n n' Hs|n n' Hs|i u E A m fut w n Hu Hm Hrun|i u fs1 f fs2 w n Hu Hf Hrun
    |i u fs1 f fs2 n Hu Hf|i u ms l w n Hu Hrun|i u ms s app calls pp n Hu Hms Hrun|p s' n Hp Hs].
  - by eapply loops_step_keeps.
  - destruct Hs as [i u l event c n Hu _ Hrun]. destruct (net_inv_lookup n i u Hn Hu) as [H1 H2 H3].
    pose proof (client_inv_recv _ _ l _ H1) as H. simpl in H. rewrite Hrun in H. by apply net_inv_user.
  - destruct (net_inv_lookup n i u Hn Hu) as [H1 H2 H3].
    destruct (user_op_keeps (J:=ok_client) E A m Hm _ H1) as [H4 H5]. rewrite Hrun in H4, H5.
    apply net_inv_user; [done|done|done|]. apply Forall_app. split; [done|]. constructor; [|done].
    by apply unobserved_keeps.
  - destruct (net_inv_lookup n i u Hn Hu) as [H1 H2 H3]. rewrite Hf in H3.
    apply Forall_app in H3 as [H3 [H4 H5]%Forall_cons_1]. destruct (H4 _ H1) as [H6 _]. rewrite Hrun in H6.
    apply net_inv_user; [done|done|done|]. by apply Forall_app.
  - destruct (net_inv_lookup n i u Hn Hu) as [H1 H2 H3]. rewrite Hf in H3.
    apply Forall_app in H3 as [H3 [H4 H5]%Forall_cons_1].
    apply net_inv_user; [done|done|done|]. by apply Forall_app.
  - destruct (net_inv_lookup n i u Hn Hu) as [H1 H2 H3].
    destruct (my_session_events_keeps (J:=ok_client) ms _ H1) as [H4 _]. rewrite Hrun in H4.
    by apply net_inv_user.
  - destruct (net_inv_lookup n i u Hn Hu) as [H1 H2 H3]. apply net_inv_process; [done|].
    destruct (ss_checkin_app _ _ (cv_sessions _ _ _ H1 ms s Hms) app (the_process n) (ni_process _ Hn)) as [H _].
    by rewrite Hrun in H.
  - destruct Hn as [H1 H2 H3 H4]. rewrite Hp in H1, H2.
    destruct (step_keeps v (mkSystem (node p) (others_connections n) (others_pending n) (others_responses n)) s')
      as [K1 K2 K3]; [by split|done|]. split; try done.
    eapply Forall_impl; [exact H2|]. intros u Hu. by eapply user_inv_process.
Qed.

(** A relation of which each side signed that it wants it with the other. *)
Definition signed_by_both (rp : RelationProof) : Prop :=
  ∃ pk_a pk_b, certified v pk_a (rp_a_id rp) ∧ certified v pk_b (rp_b_id rp)
    ∧ signed_by v pk_a (rp_relation_type rp) (rp_a_id rp) (rp_b_id rp) (rp_a_signature rp)
    ∧ signed_by v pk_b (rp_relation_type rp) (rp_b_id rp) (rp_a_id rp) (rp_b_signature rp).

Lemma authentic_signed rp : authentic_relation v rp → signed_by_both rp.
Proof.
  intros (id1 & pk1 & id2 & pk2 & H1 & H2 & [(-> & -> & Ha & Hb)|(-> & -> & _ & Hb & Ha)]%validate_relation_proof_iff).
  - by exists pk1, pk2.
  - by exists pk2, pk1.
Qed.

Lemma signed_authentic rp : signed_by_both rp → authentic_relation v rp.
Proof.
  intros (pk_a & pk_b & Ha & Hb & Sa & Sb). exists (rp_a_id rp), pk_a, (rp_b_id rp), pk_b.
  split_and!; [done..|]. apply validate_relation_proof_iff. by left.
Qed.

(** A user at the beginning: no sessions, no loop that has begun, no futures, no
    events, and only signed relations. *)
Record user_starts (u : User Dht Db Chans Store CChans) : Prop := mkUserStarts
  { us_relations rs : relations (user_me u) = Some rs → Forall signed_by_both rs;
    us_sessions : my_sessions (user_me u) = ∅;
    us_progress : user_progress u = ∅;
    us_chans s : mpsc_received s (user_chans u) = [];
    us_futures : user_futures u = [] }.

Lemma user_starts_inv pp u : ok_process pp → user_starts u → user_inv pp u.
Proof.
  intros Hpp [H1 H2 H5 H3 H4]. split; [|intros k; unfold progress_of; by rewrite H5|by rewrite H4]. split; simpl.
  - done.
  - intros rs Hrs. eapply Forall_impl; [by apply H1|]. apply signed_authentic.
  - intros s event. rewrite H3. by intros ?%elem_of_nil.
  - intros ms s. by rewrite H2.
Qed.

(** C1: in every state that a home and its users reach, whatever the users ask
    for, however the loops are scheduled and whatever anybody else sends to the
    home, every relation a user has stored is signed by both of its sides with
    keys that belong to their ids, although no client ever checks a pairing
    response: a home passes on none it has not validated.  The events a user's
    listeners have been given are authentic as well, and the databases of the
    home hold what belongs there. *)
Theorem network_relations_signed dht db c us n :
  store_inv v id dht → store_inv v own_profile db → (∀ s, mpsc_received s c = []) →
  Forall user_starts us → rtc net_step (new_network v dht db c us) n →
  (∀ i u rs rp, users n !! i = Some u → relations (user_me u) = Some rs → rp ∈ rs → signed_by_both rp)
  ∧ (∀ i u listener event, users n !! i = Some u → event ∈ mpsc_received listener (user_chans u) →
       authentic_event v event)
  ∧ match the_process n with Returns p => Inv v (node p) | Panics => True end.
Proof.
  intros Hdht Hdb Hc Hus Hn.
  assert (net_inv (new_network v dht db c us)) as Hstart.
  { assert (ok_process (Returns (mkHomeProcess (HomeServer_new v dht db c) []))) as Hp.
    { destruct (initial_inv v dht db c Hdht Hdb) as [H _ _]; [|done].
      intros s m. rewrite Hc. by intros ?%elem_of_nil. }
    split; try done. eapply Forall_impl; [exact Hus|]. intros u. by apply user_starts_inv. }
  assert (net_inv n) as Hinv.
  { clear Hdht Hdb Hc Hus. induction Hn as [|n1 n2 n3 Hs _ IH]; [done|]. by apply IH, (net_step_keeps n1). }
  split; [|split].
  - intros i u rs rp Hu Hrs Hin. destruct (net_inv_lookup n i u Hinv Hu) as [H _].
    pose proof (cv_relations _ _ _ H rs Hrs) as Hall.
    apply authentic_signed. by apply (proj1 (list.Forall_forall _ _) Hall rp).
  - intros i u l event Hu. destruct (net_inv_lookup n i u Hinv Hu) as [H _]. apply (cv_events _ _ _ H l).
  - exact (ni_process _ Hinv).
Qed.
End safety.
