(* ===== verification/NetworkLoops.v ===== *)
(** * The loops of a network come to rest

    Everything the reactors of a home and of its users do by themselves
    ([loops_step] of [Network.v]) ends, under every schedule.  If the applications
    read the events they listen to, every user has then stored the relations of
    the pairing responses that were on their way; an application that does not
    read holds up the others of its user. *)

From S2P Require Import Prelude Errors External FutureUtil Storage Protocol Crypto Relation Capnp Hoare.
From S2P Require Import HomeServer HomeServerProps Rpc RpcStreams Reactor Process ProcessProps.
From S2P Require Import Connect ConnectFrame ConnectProps Forwarding RemoteClient Network.
From stdpp Require Import relations.

(** Changing one element of a list changes its sum by as much. *)
Lemma sum_list_insert (l : list nat) i a b :
  l !! i = Some a → sum_list (<[i := b]> l) + a = sum_list l + b.
Proof.
  revert i; induction l as [|x l IH]; intros [|i] Hi; simplify_eq/=; [lia|]. specialize (IH i Hi). lia.
Qed.

Section loops.
Context {BC : Bincode} {Dht Db Chans : Type}
        {DHT : KeyValueStore Dht ProfileId Profile}
        {DB : KeyValueStore Db ProfileId OwnProfile}
        {CH : Channels ChanMsg Chans} {CHL : ChannelsLaws ChanMsg Chans}
        {open : SinkId → Chans → Prop} {KO : KeepsOpen (Msg:=ChanMsg) open}
        {live : OneshotId → Chans → Prop} {KL : KeepsLive (Msg:=ChanMsg) live}
        {Store CChans : Type}
        {KV : KeyValueStore Store ProfileId Profile}
        {CCH : Channels ProfileEvent CChans} {CCHL : ChannelsLaws ProfileEvent CChans}
        {BCH : BoundedChannels ProfileEvent CChans} {BL : BoundedLaws ProfileEvent CChans}
        {copen : SinkId → CChans → Prop} {CKO : KeepsOpen (Msg:=ProfileEvent) copen}
        {CKR : KeepsReading (Msg:=ProfileEvent) copen}.
Abbreviation P := (HomeProcess Dht Db Chans).
Abbreviation W := (Client (Panicking P) Store CChans).
Abbreviation User := (User Dht Db Chans Store CChans).
Abbreviation Network := (Network Dht Db Chans Store CChans).
Context (show : CapnpError → string)
        (select_all : list (nat * (SinkId * Result string SinkId)) →
           (nat * Result string SinkId) * list (nat * (SinkId * Result string SinkId)))
        (Hsel : select_all_ok snd select_all).
Abbreviation step := (task_step (poll_task show)).
Abbreviation wired := (wired (open:=open) (live:=live)).
Abbreviation later := (later (open:=open) (live:=live)).
Abbreviation loops_step := (loops_step show select_all).
Implicit Types (p : P) (w : W) (u : User) (nw : Network).

(** ** One poll of a loop *)

Lemma handle_stores event rs w :
  relations (me w) = Some rs →
  await (handle_event event) w
  = (Ok tt, set_me (set_relations (Some (rs ++ omap pairing_of [event])) (me w)) w).
Proof.
  intros Hrs. pose proof (relations_task_run [event] w rs Hrs) as H. unfold relations_task in H.
  cbn [for_each] in H. rewrite and_then_await in H.
  destruct (await (handle_event event) w) as [[[]|] w1] eqn:E; [|done].
  unfold await, io_ret in H. by injection H as ->.
Qed.

(** ** Users whose loops work *)

(** How events come to a user who is logged in: the session, its stream, the
    listener that feeds the relations, and the other listeners. *)
Record Feed : Set := mkFeed
  { fd_session : MySessionId; fd_stream : SinkId; fd_relations : SinkId; fd_listeners : list SinkId }.

(** What a user has to come: the events of her stream, and the relations she has
    besides those that come with them. *)
Record Outlook : Set := mkOutlook
  { ol_feed : option Feed; ol_events : list ProfileEvent; ol_relations : list RelationProof }.
Definition ol_final (o : Outlook) : list RelationProof := ol_relations o ++ omap pairing_of (ol_events o).

Definition feed_listeners (fd : Feed) : list SinkId := fd_relations fd :: fd_listeners fd.

(** A send of the [n]-th event: as long as it waits, its listener has been given
    the events before. *)
Definition fut_ok (evs : list ProfileEvent) (n : nat) (c : CChans) (f : SendFuture) : Prop :=
  match f.2 with
  | None => mpsc_received f.1 c = take n evs
  | Some r => r = Ok f.1 ∧ mpsc_received f.1 c = take (S n) evs
  end.

(** The loop that forwards is at the [n]-th event: it has not begun with it, or
    some of the listeners have been given it already. *)
Definition forwarding (st : LoopState) (u : User) (fd : Feed) (evs : list ProfileEvent) (n : nat) : Prop :=
  match st with
  | Taking pos => pos = n
      ∧ (∃ s, my_sessions (user_me u) !! fd_session fd = Some (mkMyHomeSession s (feed_listeners fd)))
      ∧ ∀ l, l ∈ feed_listeners fd → mpsc_received l (user_chans u) = take n evs
  | Sending pos event futs => pos = n ∧ evs !! n = Some event
      ∧ (∃ s, my_sessions (user_me u) !! fd_session fd = Some (mkMyHomeSession s []))
      ∧ futs.*1 = feed_listeners fd ∧ Forall (fut_ok evs n (user_chans u)) futs
  | Ended => False
  end.

(** A listener whose receiver is there, and which has not been given more than
    fits into its channel. *)
Record listening (c : CChans) (l : SinkId) : Prop := mkListening
  { li_open : copen l c;
    li_capacity : mpsc_capacity l c = CHANNEL_CAPACITY;
    li_taken : mpsc_taken l c ≤ length (mpsc_received l c);
    li_room : length (mpsc_received l c) ≤ mpsc_taken l c + CHANNEL_CAPACITY + 1 }.

(** The only session of a user forwards the events of its stream, [evs] once all
    have arrived, to the listener that stores relations and to those her
    applications read.  The loop that forwards is at event [n], and [m] events
    have been handled. *)
Record storing (p : P) (u : User) (fd : Feed) (evs : list ProfileEvent) (rs : list RelationProof)
    (n m : nat) : Prop := mkStoring
  { st_tasks : client_tasks (user_me u) = [ForwardEvents (fd_session fd) (fd_stream fd); StoreRelations (fd_relations fd)];
    st_streams : user_streams u = fd_listeners fd;
    st_forwarded : forwarding (progress_of u 0) u fd evs n;
    st_handled : progress_of u 1 = Taking m ∧ mpsc_taken (fd_relations fd) (user_chans u) = m;
    st_nodup : NoDup (feed_listeners fd);
    st_listening l : l ∈ feed_listeners fd → listening (user_chans u) l;
    st_due : due p (fd_stream fd) ((λ ev, EventMsg (Ok ev)) <$> evs);
    st_bounds : n ≤ length evs;
    st_relations : relations (user_me u) = Some (rs ++ omap pairing_of (take m evs)) }.

Definition settling (p : P) (u : User) (o : Outlook) : Prop :=
  match ol_feed o with
  | None => client_tasks (user_me u) = [] ∧ user_streams u = [] ∧ ol_events o = []
            ∧ relations (user_me u) = Some (ol_relations o)
  | Some fd => ∃ n m, storing p u fd (ol_events o) (ol_relations o) n m
  end.

(** How much there is to do: an event has to be taken and sent to every listener,
    which has to read it. *)
Definition waiting (futs : list SendFuture) : nat :=
  sum_list ((λ f, match f.2 with None => 1 | Some _ => 0 end) <$> futs).

Definition forward_measure (st : LoopState) (events listeners : nat) : nat :=
  match st with
  | Taking n => (events - n) * (listeners + 2)
  | Sending n _ futs => (events - S n) * (listeners + 2) + 1 + waiting futs
  | Ended => 0
  end.

Definition unread (events : nat) (c : CChans) (ls : list SinkId) : nat :=
  sum_list ((λ l, events - mpsc_taken l c) <$> ls).

Definition user_measure (u : User) (o : Outlook) : nat :=
  match ol_feed o with
  | Some fd =>
      forward_measure (progress_of u 0) (length (ol_events o)) (length (feed_listeners fd))
      + unread (length (ol_events o)) (user_chans u) (feed_listeners fd)
  | None => 0
  end.

(** What the loops leave alone of a user. *)
Record same_user (u u' : User) : Prop := mkSameUser
  { su_signer : mp_signer (user_me u') = mp_signer (user_me u);
    su_own : mp_own_profile (user_me u') = mp_own_profile (user_me u);
    su_repo : user_repo u' = user_repo u }.

#[export] Instance same_user_preorder : PreOrder same_user.
Proof. split; [done|]. intros u1 u2 u3 [H1 H2 H3] [H4 H5 H6]. split; congruence. Qed.

Lemma storing_later p p' u fd evs rs n m :
  later p p' → storing p u fd evs rs n m → storing p' u fd evs rs n m.
Proof. intros Hl [H1 H2 H3 H4 H5 H6 H7 H8 H9]. split; try done. by eapply due_later. Qed.

Lemma settling_later p p' u o : later p p' → settling p u o → settling p' u o.
Proof.
  intros Hl. unfold settling. destruct (ol_feed o) as [fd|]; [|done]. intros (n & m & H).
  exists n, m. by eapply storing_later.
Qed.

Lemma progress_of_insert u w k st fs ss :
  progress_of (user_of w (<[k := st]> (user_progress u)) fs ss) k = st.
Proof. unfold progress_of. simpl. by rewrite lookup_insert_eq. Qed.

Lemma progress_of_other u w k k' st fs ss :
  k ≠ k' → progress_of (user_of w (<[k := st]> (user_progress u)) fs ss) k' = progress_of u k'.
Proof. intros Hne. unfold progress_of. simpl. by rewrite lookup_insert_ne. Qed.

(** How many events a listener has been given. *)
Lemma given_to st u fd evs n l :
  forwarding st u fd evs n → l ∈ feed_listeners fd →
  ∃ k, k ≤ S n ∧ mpsc_received l (user_chans u) = take k evs.
Proof.
  destruct st as [pos|pos event futs|]; simpl; [| |done].
  - intros (-> & _ & Hrec) Hl. exists n. split; [lia|]. by apply Hrec.
  - intros (-> & _ & _ & Hfst & Hok) Hl. rewrite <- Hfst in Hl.
    apply list_elem_of_fmap in Hl as ([l' o] & -> & Hin).
    apply (proj1 (list.Forall_forall _ _) Hok) in Hin. unfold fut_ok in Hin. simpl in *.
    destruct o as [r|]; [destruct Hin as [_ Hin]; by exists (S n)|]. exists n. split; [lia|done].
Qed.

(** ** The polls of a user *)

Lemma unread_same events c c' ls :
  (∀ l, mpsc_taken l c' = mpsc_taken l c) → unread events c' ls = unread events c ls.
Proof. intros Heq. unfold unread. f_equal. apply list_fmap_ext. intros i l _. by rewrite Heq. Qed.

Lemma unread_take events c c' ls l :
  l ∈ ls → mpsc_taken l c < events → mpsc_taken l c' = S (mpsc_taken l c) →
  (∀ l', l' ≠ l → mpsc_taken l' c' = mpsc_taken l' c) → unread events c' ls < unread events c ls.
Proof.
  intros Hl Hlt Heq Hother. unfold unread.
  assert (∀ l', events - mpsc_taken l' c' ≤ events - mpsc_taken l' c) as Hle.
  { intros l'. destruct (decide (l' = l)) as [->|Hne]; [lia|]. rewrite Hother by done. lia. }
  assert (∀ ls, sum_list ((λ l, events - mpsc_taken l c') <$> ls) ≤ sum_list ((λ l, events - mpsc_taken l c) <$> ls)) as Hs.
  { clear -Hle. intros ls. induction ls as [|y ls IH]; [done|]. rewrite !fmap_cons. cbn [sum_list_with id].
    specialize (Hle y). lia. }
  induction ls as [|x ls IH]; [by apply elem_of_nil in Hl|]. rewrite !fmap_cons. cbn [sum_list_with id].
  specialize (Hle x). specialize (Hs ls).
  apply elem_of_cons in Hl as [<-|Hl]; [lia|]. specialize (IH Hl). lia.
Qed.

(** Taking the next event out of a channel. *)
Lemma recv_some l event (c c' : CChans) :
  mpsc_recv l c = (Some event, c') →
  mpsc_received l c !! mpsc_taken l c = Some event
  ∧ mpsc_taken l c' = S (mpsc_taken l c)
  ∧ (∀ l', l' ≠ l → mpsc_taken l' c' = mpsc_taken l' c)
  ∧ (∀ l', mpsc_received l' c' = mpsc_received l' c ∧ mpsc_capacity l' c' = mpsc_capacity l' c)
  ∧ (∀ l', copen l' c → copen l' c').
Proof.
  intros Hr. pose proof (bounded_recv l c) as H1. pose proof (bounded_recv_after l c) as H2.
  pose proof (λ l', keep_after_recv (open:=copen) l' l c) as H3. rewrite Hr in H1, H2, H3. simpl in H1, H2, H3.
  split; [done|]. split; [|split; [|split; [|done]]].
  - destruct (H2 l) as (_ & _ & ->). by rewrite decide_True by by split.
  - intros l' Hne. destruct (H2 l') as (_ & _ & ->). by rewrite decide_False by by intros [? _].
  - intros l'. by destruct (H2 l') as (? & ? & _).
Qed.

Lemma recv_listening l event (c c' : CChans) l' :
  mpsc_recv l c = (Some event, c') → listening c l' → listening c' l'.
Proof.
  intros (Hev & Ht & Hto & Hrc & Hop)%recv_some [H1 H2 H3 H4]. destruct (Hrc l') as [Hr Hc].
  split; [by apply Hop|by rewrite Hc| |]; rewrite Hr; destruct (decide (l' = l)) as [->|Hne].
  - rewrite Ht. by apply lookup_lt_Some in Hev.
  - by rewrite Hto.
  - rewrite Ht. lia.
  - by rewrite Hto.
Qed.

Lemma forwarding_chans st u u' fd evs n :
  (∀ l, mpsc_received l (user_chans u') = mpsc_received l (user_chans u)) →
  my_sessions (user_me u') = my_sessions (user_me u) →
  forwarding st u fd evs n → forwarding st u' fd evs n.
Proof.
  intros Hr Hs. destruct st as [pos|pos event futs|]; simpl; [| |done].
  - intros (-> & Hms & Hl). rewrite Hs. split; [done|]. split; [done|]. intros l ?. rewrite Hr. by apply Hl.
  - intros (-> & Hev & Hms & Hf & Hok). rewrite Hs. do 4 (split; [done|]).
    eapply Forall_impl; [exact Hok|]. intros [l o]. unfold fut_ok. by rewrite Hr.
Qed.

(** What a poll of a settling user does: she goes on settling, with less to do. *)
Record advances (p : P) (o : Outlook) (u : User) (w : W) (u' : User) : Prop := mkAdvances
  { ad_env : env w = Returns p;
    ad_settling : settling p u' o;
    ad_same : same_user u u';
    ad_measure : user_measure u' o < user_measure u o }.

Section poll.
Context (p : P) (u : User) (fd : Feed) (evs : list ProfileEvent) (rs : list RelationProof) (n m : nat).
Context (Hw : wired p) (Hst : storing p u fd evs rs n m).
Abbreviation after w k st := (user_of w (<[k := st]> (user_progress u)) (user_futures u) (user_streams u)).
Abbreviation outlook := (mkOutlook (Some fd) evs rs).

(** The client of the user with other channels and another list of listeners. *)
Lemma after_storing w st n' :
  client_tasks (me w) = client_tasks (user_me u) → relations (me w) = relations (user_me u) →
  (∀ l, mpsc_taken l (listener_chans w) = mpsc_taken l (user_chans u)) →
  (∀ l, l ∈ feed_listeners fd → listening (listener_chans w) l) →
  forwarding st (after w 0 st) fd evs n' → n' ≤ length evs →
  storing p (after w 0 st) fd evs rs n' m.
Proof.
  destruct Hst as [S1 S2 S3 [S4 S4'] S5 S6 S7 S8 S9]. intros Ht Hr Htk Hli Hf Hn. split; simpl; try done.
  - by rewrite Ht.
  - by rewrite progress_of_insert.
  - rewrite progress_of_other by done. by rewrite Htk.
  - by rewrite Hr.
Qed.

Lemma after_measure w st :
  (∀ l, mpsc_taken l (listener_chans w) = mpsc_taken l (user_chans u)) →
  forward_measure st (length evs) (length (feed_listeners fd))
    < forward_measure (progress_of u 0) (length evs) (length (feed_listeners fd)) →
  user_measure (after w 0 st) outlook < user_measure u outlook.
Proof.
  intros Htk Hlt. unfold user_measure. cbn [ol_feed ol_events user_chans user_of].
  rewrite progress_of_insert, (unread_same _ _ _ _ Htk). lia.
Qed.

Lemma start_advances pos item st w :
  progress_of u 0 = Taking pos → received (fd_stream fd) p !! pos = Some (EventMsg item) →
  forward_start (fd_session fd) item pos (client_at (Returns p) u) = (st, w) →
  advances p outlook u w (after w 0 st).
Proof.
  intros Hpos Hmsg. destruct Hst as [S1 S2 S3 S4 S5 S6 S7 S8 S9]. rewrite Hpos in S3.
  destruct S3 as (-> & (s & Hms) & Hrec).
  destruct (due_prefix (open:=open) (live:=live) p _ _ Hw S7) as [more Hmore].
  pose proof (lookup_app_l_Some _ more _ _ Hmsg) as Hl. rewrite <- Hmore, list_lookup_fmap in Hl.
  destruct (evs !! n) as [event|] eqn:Hev; [|done]. injection Hl as <-.
  pose proof (lookup_lt_Some _ _ _ Hev) as Hlt.
  unfold forward_start. cbn [me client_at]. rewrite Hms. intros [<- <-]%pair_equal_spec.
  assert ((start_sends (feed_listeners fd)).*1 = feed_listeners fd) as Hfst.
  { unfold start_sends. rewrite <- list_fmap_compose. apply list_fmap_id. }
  split; [done| |done|].
  - exists n, m. apply after_storing; try done. cbn [forwarding]. split; [done|]. split; [done|]. split.
    { exists s. simpl. by rewrite lookup_insert_eq. }
    split; [exact Hfst|]. apply Forall_fmap, list.Forall_forall. intros l Hl. unfold fut_ok. simpl.
    by apply Hrec.
  - apply after_measure; [done|]. rewrite Hpos. cbn [forward_measure event_listeners].
    assert (waiting (start_sends (feed_listeners fd)) = length (feed_listeners fd)) as ->.
    { generalize (feed_listeners fd). intros ls. unfold waiting, start_sends. induction ls as [|l ls IH]; [done|].
      rewrite !fmap_cons. cbn [sum_list_with id snd length]. by rewrite IH. }
    replace (length evs - n) with (S (length evs - S n)) by lia. simpl. lia.
Qed.

(** A send that goes through. *)
Lemma send_advances j pos event futs futs' c :
  progress_of u 0 = Sending pos event futs → send_poll j event futs (user_chans u) = Some (futs', c) →
  let w := set_listener_chans c (client_at (Returns p) u) in
  advances p outlook u w (after w 0 (Sending pos event futs')).
Proof.
  intros Hpos. pose proof Hst as [S1 S2 S3 S4 S5 S6 S7 S8 S9]. rewrite Hpos in S3.
  destruct S3 as (-> & Hev & Hms & Hfst & Hok). unfold send_poll.
  destruct (futs !! j) as [[l [r|]]|] eqn:Hj; [done| |done].
  destruct (mpsc_ready l (user_chans u)) eqn:Hready; [|done].
  pose proof (list_lookup_fmap fst futs j) as Hlj. rewrite Hj, Hfst in Hlj. simpl in Hlj.
  pose proof (S6 l (list_elem_of_lookup_2 _ _ _ Hlj)) as [L1 L2 L3 L4].
  pose proof (keep_send l event _ L1) as Hsend.
  pose proof (bounded_ready_send l event _ Hready Hsend) as Hroom.
  pose proof (λ l', bounded_send l event (user_chans u) l') as Hb.
  pose proof (λ l', keep_after_send l' l event (user_chans u)) as Hkeep.
  destruct (mpsc_send l event (user_chans u)) as [r c'] eqn:Hs. simpl in Hsend, Hb, Hkeep. subst r.
  apply mpsc_send_ok in Hs as [Hrl Hro]. intros [= <- <-].
  pose proof (Forall_lookup_1 _ _ _ _ Hok Hj) as Hl0. unfold fut_ok in Hl0. simpl in Hl0.
  split; [done| |done|].
  - exists n, m. apply after_storing; simpl; try done.
    + intros l'. apply Hb.
    + intros l' [K1 K2 K3 K4]%S6. destruct (Hb l') as [Hbc Hbt].
      split; [by apply Hkeep|by rewrite Hbc| |]; rewrite Hbt; destruct (decide (l' = l)) as [->|Hne].
      * rewrite Hrl, length_app. lia.
      * by rewrite Hro.
      * rewrite Hrl, length_app. simpl. lia.
      * by rewrite Hro.
    + split; [done|]. split; [done|]. split; [done|]. split.
      { rewrite list_fmap_insert. simpl. rewrite list_insert_id by by rewrite Hfst. done. }
      apply Forall_lookup_2. intros i f [(<- & <- & _)|[Hne Hi]]%list_lookup_insert_Some.
      * unfold fut_ok. simpl. split; [done|]. rewrite Hrl, Hl0. symmetry. by apply take_S_r.
      * pose proof (Forall_lookup_1 _ _ _ _ Hok Hi) as Hf. destruct f as [l' o].
        assert (l' ≠ l) as Hll.
        { intros ->. apply Hne. eapply (NoDup_lookup (feed_listeners fd)); [done|done|].
          rewrite <- Hfst, list_lookup_fmap, Hi. done. }
        unfold fut_ok in *. simpl in *. by rewrite Hro.
  - apply after_measure; [intros l'; apply Hb|]. rewrite Hpos. cbn [forward_measure].
    pose proof (sum_list_insert ((λ f : SendFuture, match f.2 with None => 1 | Some _ => 0 end) <$> futs) j 1 0) as Hsum.
    rewrite list_lookup_fmap, Hj in Hsum. specialize (Hsum eq_refl).
    unfold waiting. rewrite list_fmap_insert. simpl. lia.
Qed.

(** All sends are done. *)
Lemma sends_done futs completed :
  Forall (fut_ok evs n (user_chans u)) futs → mapM send_result futs = Some completed →
  completed = (λ l, (l, Ok l)) <$> futs.*1 ∧ Forall (λ f, mpsc_received f.1 (user_chans u) = take (S n) evs) futs.
Proof.
  intros Hok Hm. apply mapM_Some in Hm. revert Hok.
  induction Hm as [|[l o] [l' r] futs done Hf _ IH]; intros Hok; [by repeat constructor|].
  inversion Hok as [|? ? H1 H2]; subst. destruct (IH H2) as [-> H3].
  destruct o as [r'|]; [|done]. injection Hf as -> ->. destruct H1 as [H1 H4]. simpl in *. subst r.
  split; [done|]. by constructor.
Qed.

Lemma finish_advances pos event futs completed rs' :
  progress_of u 0 = Sending pos event futs → mapM send_result futs = Some completed →
  collect_results select_all completed = Some rs' →
  let w := listeners_notified (fd_session fd) (omap ok rs') (client_at (Returns p) u) in
  advances p outlook u w (after w 0 (Taking (S pos))).
Proof.
  intros Hpos Hm. pose proof Hst as [S1 S2 S3 S4 S5 S6 S7 S8 S9]. rewrite Hpos in S3.
  destruct S3 as (-> & Hev & (s & Hms) & Hfst & Hok).
  destruct (sends_done futs completed Hok Hm) as [-> Hrec].
  rewrite (collect_results_total snd select_all Hsel). rewrite Hfst. intros <-%(inj Some).
  assert (omap ok ((λ l : SinkId, (l, Ok (E:=string) l)) <$> feed_listeners fd).*2 = feed_listeners fd) as ->.
  { generalize (feed_listeners fd). intros ls. induction ls as [|l ls IH]; [done|]. simpl. by f_equal. }
  unfold listeners_notified. cbn [me client_at]. rewrite Hms. pose proof (lookup_lt_Some _ _ _ Hev) as Hlt.
  split; [done| |done|].
  - exists (S n), m. apply after_storing; try done. simpl. split; [done|]. split.
    { exists s. by rewrite lookup_insert_eq. }
    intros l Hl. rewrite <- Hfst in Hl. apply list_elem_of_fmap in Hl as (f & -> & Hin).
    by apply (proj1 (list.Forall_forall _ _) Hrec f).
  - apply after_measure; [done|]. rewrite Hpos. cbn [forward_measure]. lia.
Qed.

(** The user after one of her channels has been read. *)
Lemma read_storing l event c u' m' :
  mpsc_recv l (user_chans u) = (Some event, c) → user_chans u' = c →
  my_sessions (user_me u') = my_sessions (user_me u) → client_tasks (user_me u') = client_tasks (user_me u) →
  user_streams u' = user_streams u → progress_of u' 0 = progress_of u 0 →
  progress_of u' 1 = Taking m' → mpsc_taken (fd_relations fd) c = m' →
  relations (user_me u') = Some (rs ++ omap pairing_of (take m' evs)) →
  storing p u' fd evs rs n m'.
Proof.
  destruct Hst as [S1 S2 S3 S4 S5 S6 S7 S8 S9]. intros Hr <- Hms Ht Hss Hp0 Hp1 Htk Hrel.
  split; try done.
  - by rewrite Ht.
  - by rewrite Hss.
  - rewrite Hp0. eapply forwarding_chans; [|done|exact S3]. intros l'.
    by destruct (recv_some _ _ _ _ Hr) as (_ & _ & _ & H & _); apply H.
  - intros l' Hl'. eapply recv_listening; [exact Hr|]. by apply S6.
Qed.

Lemma read_measure l event c u' :
  mpsc_recv l (user_chans u) = (Some event, c) → user_chans u' = c → l ∈ feed_listeners fd →
  progress_of u' 0 = progress_of u 0 → user_measure u' outlook < user_measure u outlook.
Proof.
  intros (Hev & Ht & Hto & _ & _)%recv_some <- Hl Hp. unfold user_measure. cbn [ol_feed ol_events].
  rewrite Hp. apply Nat.add_lt_mono_l. apply (unread_take _ _ _ _ l); try done.
  destruct Hst as [S1 S2 S3 S4 S5 S6 S7 S8 S9]. destruct (given_to _ _ _ _ _ l S3 Hl) as (k & Hk & Hrec).
  rewrite Hrec in Hev. apply lookup_lt_Some in Hev. rewrite length_take in Hev. lia.
Qed.

Lemma store_advances pos st w :
  progress_of u 1 = Taking pos →
  store_poll (fd_relations fd) pos (client_at (Returns p) u) = Some (st, w) →
  advances p outlook u w (after w 1 st).
Proof.
  intros Hpos. pose proof Hst as [S1 S2 S3 [S4 S4'] S5 S6 S7 S8 S9]. rewrite Hpos in S4.
  injection S4 as ->. unfold store_poll. cbn [listener_chans client_at].
  assert (fd_relations fd ∈ feed_listeners fd) as Hin by by left.
  destruct (mpsc_recv (fd_relations fd) (user_chans u)) as [[event|] c] eqn:Hr; [|done].
  destruct (recv_some _ _ _ _ Hr) as (Hev & Ht & _). rewrite S4' in Hev, Ht.
  destruct (given_to _ _ _ _ _ _ S3 Hin) as (k & _ & Hrec). rewrite Hrec in Hev.
  pose proof (lookup_lt_Some _ _ _ Hev) as Hlt. rewrite length_take in Hlt.
  rewrite lookup_take_lt in Hev by lia.
  rewrite (handle_stores event _ (set_listener_chans c (client_at (Returns p) u)) S9). intros [= <- <-].
  split; [done| |done|].
  - exists n, (S m). eapply read_storing; try done.
    + by rewrite progress_of_other.
    + by rewrite progress_of_insert.
    + simpl. rewrite (take_S_r _ _ _ Hev), omap_app. by rewrite <- app_assoc.
  - eapply read_measure; [exact Hr|done|done|]. by rewrite progress_of_other.
Qed.

Lemma read_advances l event c :
  l ∈ user_streams u → mpsc_recv l (user_chans u) = (Some event, c) →
  let w := set_listener_chans c (client_at (Returns p) u) in
  advances p outlook u w (user_of w (user_progress u) (user_futures u) (user_streams u)).
Proof.
  intros Hl Hr w. pose proof Hst as [S1 S2 S3 [S4 S4'] S5 S6 S7 S8 S9]. rewrite S2 in Hl.
  assert (l ∈ feed_listeners fd) as Hin by by right.
  split; [done| |done|].
  - exists n, m. eapply read_storing; try done. simpl.
    destruct (recv_some _ _ _ _ Hr) as (_ & _ & Hto & _). rewrite Hto; [done|].
    intros Heq. inversion S5 as [|? ? Hni _]; subst. by apply Hni.
  - by eapply read_measure.
Qed.
End poll.

(** One poll of a loop of such a user, *)
Lemma settling_step p u o k t choice st w :
  wired p → settling p u o → client_tasks (user_me u) !! k = Some t →
  client_loop_step select_all t (progress_of u k) choice (client_at (Returns p) u) = Some (st, w) →
  advances p o u w (user_of w (<[k := st]> (user_progress u)) (user_futures u) (user_streams u)).
Proof.
  intros Hw Hset Ht Hstep. destruct o as [[fd|] evs rs]; unfold settling in Hset; simpl in Hset.
  2: { destruct Hset as [Hno _]. by rewrite Hno in Ht. }
  destruct Hset as (n & m & Hst). rewrite (st_tasks _ _ _ _ _ _ _ Hst) in Ht.
  destruct k as [|[|k]]; simplify_eq/=; unfold client_loop_step in Hstep.
  - destruct (progress_of u 0) as [pos|pos event futs|] eqn:Hpos; [| |done].
    + cbn [env client_at] in Hstep. destruct (received (fd_stream fd) p !! pos) as [[item| |]|] eqn:Hmsg; try done.
      injection Hstep as Hstep. by eapply start_advances.
    + unfold forward_poll in Hstep. cbn [listener_chans client_at] in Hstep.
      destruct (send_poll choice event futs (user_chans u)) as [[futs' c]|] eqn:Hsp.
      { injection Hstep as <- <-. by eapply send_advances. }
      destruct (mapM send_result futs) as [completed|] eqn:Hm; [|done].
      pose proof (collect_results_total snd select_all Hsel completed) as Hc. rewrite Hc in Hstep.
      injection Hstep as <- <-. by eapply finish_advances.
  - destruct (progress_of u 1) as [pos|pos event futs|] eqn:Hpos; try done. by eapply store_advances.
Qed.

(** and one event taken by an application of hers. *)
Lemma settling_read p u o l event c :
  settling p u o → l ∈ user_streams u → mpsc_recv l (user_chans u) = (Some event, c) →
  let w := set_listener_chans c (client_at (Returns p) u) in
  advances p o u w (user_of w (user_progress u) (user_futures u) (user_streams u)).
Proof.
  intros Hset Hl Hr. destruct o as [[fd|] evs rs]; unfold settling in Hset; simpl in Hset.
  2: { destruct Hset as (_ & Hno & _). rewrite Hno in Hl. by apply elem_of_nil in Hl. }
  destruct Hset as (n & m & Hst). by eapply read_advances.
Qed.

(** ** Users at rest *)

Lemma waiting_send (futs : list SendFuture) :
  mapM send_result futs = None → ∃ j l, futs !! j = Some (l, None).
Proof.
  induction futs as [|[l [r|]] futs IH]; simpl; [done| |by exists 0, l].
  destruct (mapM send_result futs); [done|]. intros _. destruct IH as (j & l' & Hj); [done|]. by exists (S j), l'.
Qed.

(** When no loop of a user can do anything, all she was given has been handled,
    and either all the events have been forwarded, or a listener that an
    application does not read holds them up: all others have been given one more. *)
Lemma storing_stuck p u fd evs rs n m :
  wired p → drained p → storing p u fd evs rs n m →
  (∀ k t choice, client_tasks (user_me u) !! k = Some t →
     client_loop_step select_all t (progress_of u k) choice (client_at (Returns p) u) = None) →
  m = length (mpsc_received (fd_relations fd) (user_chans u))
  ∧ ((n = length evs ∧ ∀ l, l ∈ feed_listeners fd → mpsc_received l (user_chans u) = evs)
     ∨ (∃ l, l ∈ fd_listeners fd ∧ mpsc_received l (user_chans u) = take n evs
          ∧ mpsc_taken l (user_chans u) + CHANNEL_CAPACITY < n ∧ n < length evs
          ∧ mpsc_received (fd_relations fd) (user_chans u) = take (S n) evs)).
Proof.
  intros Hw Hd [S1 S2 S3 [S4 S4'] S5 S6 S7 S8 S9] Hrest.
  pose proof (due_drained (open:=open) (live:=live) p _ _ Hw Hd S7) as Hrec. rewrite S1 in Hrest.
  pose proof (S6 (fd_relations fd) ltac:(by left)) as [_ R2 R3 _].
  assert (m = length (mpsc_received (fd_relations fd) (user_chans u))) as Hm.
  { specialize (Hrest 1 _ 0 eq_refl). rewrite S4 in Hrest. unfold client_loop_step, store_poll in Hrest.
    cbn [listener_chans client_at] in Hrest. pose proof (bounded_recv (fd_relations fd) (user_chans u)) as Hr.
    destruct (mpsc_recv (fd_relations fd) (user_chans u)) as [[event|] c]; [by destruct (await _ _)|].
    simpl in Hr. symmetry in Hr. apply lookup_ge_None in Hr. lia. }
  split; [done|]. pose proof (λ choice, Hrest 0 _ choice eq_refl) as H0. clear Hrest.
  destruct (progress_of u 0) as [pos|pos event futs|]; [| |done]; unfold client_loop_step in H0.
  - left. destruct S3 as (-> & _ & Hl). specialize (H0 0). cbn [env client_at] in H0.
    rewrite Hrec, list_lookup_fmap in H0. destruct (evs !! n) as [event|] eqn:Hev; [done|].
    apply lookup_ge_None in Hev. split; [lia|]. intros l Hin. rewrite Hl by done. by apply take_ge.
  - right. destruct S3 as (-> & Hev & _ & Hfst & Hok). unfold forward_poll in H0.
    cbn [listener_chans client_at] in H0.
    destruct (mapM send_result futs) as [completed|] eqn:Hmm.
    { specialize (H0 0). by destruct (send_poll _ _ _ _) as [[??]|]. }
    assert (∀ j l, futs !! j = Some (l, None) →
      l ∈ feed_listeners fd ∧ mpsc_received l (user_chans u) = take n evs
      ∧ mpsc_taken l (user_chans u) + CHANNEL_CAPACITY < length (mpsc_received l (user_chans u))) as Hwait.
    { intros j l Hj. assert (l ∈ feed_listeners fd) as Hl.
      { rewrite <- Hfst. apply list_elem_of_fmap. exists (l, None). split; [done|]. by eapply list_elem_of_lookup_2. }
      split; [done|]. split; [exact (Forall_lookup_1 _ _ _ _ Hok Hj)|].
      specialize (H0 j). unfold send_poll in H0. rewrite Hj in H0. destruct (S6 l Hl) as [_ L2 _ _]. rewrite <- L2.
      destruct (mpsc_ready l (user_chans u)) eqn:Hready; [by destruct (mpsc_send _ _ _)|].
      destruct (decide (length (mpsc_received l (user_chans u))
        ≤ mpsc_taken l (user_chans u) + mpsc_capacity l (user_chans u))) as [Hle|]; [|lia].
      apply bounded_ready in Hle. congruence. }
    destruct (waiting_send futs Hmm) as (j & l & Hj). destruct (Hwait j l Hj) as (Hl & Hgot & Hfull).
    pose proof (lookup_lt_Some _ _ _ Hev) as Hlt. exists l.
    split; [|split; [done|split; [|split; [done|]]]].
    + apply elem_of_cons in Hl as [->|Hl]; [lia|done].
    + rewrite Hgot, length_take in Hfull. lia.
    + assert (fd_relations fd ∈ futs.*1) as Hin by (rewrite Hfst; by left).
      apply list_elem_of_fmap in Hin as ([l' o] & Heq & Hin). simpl in Heq. subst l'.
      pose proof Hin as [i Hi]%list_elem_of_lookup_1. pose proof (Forall_lookup_1 _ _ _ _ Hok Hi) as Hf.
      destruct o as [r|]; [by destruct Hf|]. destruct (Hwait i _ Hi) as (_ & _ & Hfull'). lia.
Qed.

(** Everything a user was to get has come to her. *)
Definition settled (u : User) (o : Outlook) : Prop :=
  relations (user_me u) = Some (ol_final o)
  ∧ ∀ fd l, ol_feed o = Some fd → l ∈ feed_listeners fd →
      mpsc_received l (user_chans u) = ol_events o.

(** A user whom no unread listener holds up is settled. *)
Lemma settling_rest p u o :
  wired p → drained p → settling p u o →
  (∀ k t choice, client_tasks (user_me u) !! k = Some t →
     client_loop_step select_all t (progress_of u k) choice (client_at (Returns p) u) = None) →
  (∀ l, l ∈ user_streams u → length (mpsc_received l (user_chans u)) < length (ol_events o) →
     length (mpsc_received l (user_chans u)) ≤ mpsc_taken l (user_chans u) + CHANNEL_CAPACITY) →
  settled u o.
Proof.
  intros Hw Hd Hset Hrest Hread. destruct o as [[fd|] evs rs]; unfold settling in Hset; unfold settled, ol_final; simpl in *.
  2: { destruct Hset as (_ & _ & -> & Hr). simpl. by rewrite app_nil_r. }
  destruct Hset as (n & m & Hst).
  destruct (storing_stuck p u fd evs rs n m Hw Hd Hst Hrest) as [Hm [[-> Hall]|(l & Hl & Hrec & Hfull & Hlt & _)]].
  - rewrite (st_relations _ _ _ _ _ _ _ Hst), Hm, Hall, firstn_all by by left.
    split; [done|]. intros fd' l [= <-]. apply Hall.
  - specialize (Hread l). rewrite (st_streams _ _ _ _ _ _ _ Hst), Hrec, length_take in Hread.
    specialize (Hread Hl ltac:(lia)). lia.
Qed.

(** ** The network *)

(** What is on its way to every user of a network. *)
Record net_settling nw (p : P) (os : list Outlook) : Prop := mkNetSettling
  { ns_process : the_process nw = Returns p;
    ns_wired : wired p;
    ns_users : Forall2 (settling p) (users nw) os }.

Definition net_measure nw (p : P) (os : list Outlook) : nat :=
  measure p + sum_list (zip_with user_measure (users nw) os).

(** The loops, and applications that read. *)
Definition works_step nw nw' : Prop := loops_step nw nw' ∨ reads_step nw nw'.

Lemma loops_works nw nw' : rtc loops_step nw nw' → rtc works_step nw nw'.
Proof. apply rtc_subrel. intros x y H. by left. Qed.

Lemma user_advances nw p os i u o w u' :
  net_settling nw p os → users nw !! i = Some u → os !! i = Some o → advances p o u w u' →
  let nw' := mkNetwork (env w) (<[i := u']> (users nw)) (others_connections nw) (others_pending nw) (others_responses nw) in
  net_settling nw' p os ∧ Forall2 same_user (users nw) (users nw') ∧ net_measure nw' p os < net_measure nw p os.
Proof.
  intros [Hp Hw Hu] Hui Ho [He Hset Hsame Hm] nw'. split; [|split].
  - split; [done|done|]. simpl. rewrite <- (list_insert_id os i o Ho). by apply Forall2_insert.
  - simpl. rewrite <- (list_insert_id (users nw) i u Hui) at 1. by apply Forall2_insert.
  - unfold net_measure. simpl.
    assert (zip_with user_measure (users nw) os !! i = Some (user_measure u o)) as Hz.
    { apply lookup_zip_with_Some. eauto. }
    pose proof (sum_list_insert _ i _ (user_measure u' o) Hz) as Hsum.
    rewrite insert_zip_with, (list_insert_id os i o Ho) in Hsum. lia.
Qed.

Lemma net_step_settles nw nw' p os :
  net_settling nw p os → works_step nw nw' →
  ∃ p', net_settling nw' p' os ∧ rtc step p p' ∧ Forall2 same_user (users nw) (users nw')
    ∧ net_measure nw' p' os < net_measure nw p os.
Proof.
  intros Hn [Hs|Hs]; pose proof Hn as [Hp Hw Hu].
  - destruct Hs as [c p0 p' nw Hp0 Hc|i k u t choice st w nw Hui Ht Hstep].
    + assert (p0 = p) as -> by congruence.
      assert (step p p') as Hst by by exists c.
      destruct (wired_step show p p' Hw Hst) as (Hw' & Hprog & Hm). exists p'. split; [|split; [|split]].
      * split; [done|done|]. eapply Forall2_impl; [exact Hu|]. intros u o. apply settling_later. by split.
      * by apply rtc_once.
      * done.
      * unfold net_measure. simpl. lia.
    + rewrite Hp in Hstep. destruct (Forall2_lookup_l _ _ _ _ _ Hu Hui) as (o & Ho & Hset).
      pose proof (settling_step p u o k t choice st w Hw Hset Ht Hstep) as Hadv.
      destruct (user_advances nw p os i u o w _ Hn Hui Ho Hadv) as (? & ? & ?).
      exists p. by split; [|split; [apply rtc_refl|split]].
  - destruct Hs as [i u l event c nw Hui Hl Hr].
    destruct (Forall2_lookup_l _ _ _ _ _ Hu Hui) as (o & Ho & Hset).
    pose proof (settling_read p u o l event c Hset Hl Hr) as Hadv. rewrite Hp.
    destruct (user_advances nw p os i u o _ _ Hn Hui Ho Hadv) as (? & ? & ?).
    exists p. by split; [|split; [apply rtc_refl|split]].
Qed.

Lemma net_settling_acc nw p os : net_settling nw p os → Acc (flip works_step) nw.
Proof.
  remember (net_measure nw p os) as k eqn:Hk. revert nw p Hk.
  induction k as [k IH] using lt_wf_ind. intros nw p -> Hn. constructor. intros nw' Hs.
  destruct (net_step_settles nw nw' p os Hn Hs) as (p' & Hn' & _ & _ & Hlt). by eapply IH.
Qed.

Lemma net_loops_acc nw p os : net_settling nw p os → Acc (flip loops_step) nw.
Proof.
  intros Hn%net_settling_acc. induction Hn as [nw _ IH]. constructor. intros nw' Hs. apply IH. by left.
Qed.

Lemma net_settling_steps nw nw' p os :
  net_settling nw p os → rtc works_step nw nw' →
  ∃ p', net_settling nw' p' os ∧ rtc step p p' ∧ Forall2 same_user (users nw) (users nw').
Proof.
  intros Hn Hs. revert p Hn. induction Hs as [nw|nw1 nw2 nw3 Hs _ IH]; intros p Hn.
  { by exists p. }
  destruct (net_step_settles nw1 nw2 p os Hn Hs) as (p2 & Hn2 & Hp2 & Hu2 & _).
  destruct (IH p2 Hn2) as (p3 & Hn3 & Hp3 & Hu3). exists p3. split; [done|]. split; by etrans.
Qed.

(** When the loops are at rest, so is the process and so are those of each user. *)
Lemma net_loops_rest nw p os :
  net_settling nw p os → ¬ (∃ nw', loops_step nw nw') →
  drained p ∧ ∀ i u, users nw !! i = Some u → ∀ k t choice, client_tasks (user_me u) !! k = Some t →
     client_loop_step select_all t (progress_of u k) choice (client_at (Returns p) u) = None.
Proof.
  intros [Hp Hw Hu] Hno. split.
  - destruct (wired_progresses show p Hw) as [[Hd _]|(p' & c & Hc)]; [done|]. destruct Hno.
    eexists. by apply (step_process_loop show select_all c p p').
  - intros i u Hui k t choice Ht. destruct (client_loop_step _ _ _ _ _) as [[st w]|] eqn:Hs; [|done].
    destruct Hno. eexists. eapply step_client_loop; [done|done|]. by rewrite Hp.
Qed.

Lemma net_settling_rest nw p os :
  net_settling nw p os → ¬ (∃ nw', loops_step nw nw') →
  (∀ i u o, users nw !! i = Some u → os !! i = Some o → ∀ l, l ∈ user_streams u →
     length (mpsc_received l (user_chans u)) < length (ol_events o) →
     length (mpsc_received l (user_chans u)) ≤ mpsc_taken l (user_chans u) + CHANNEL_CAPACITY) →
  drained p ∧ Forall2 settled (users nw) os.
Proof.
  intros Hn Hno Hread. destruct (net_loops_rest nw p os Hn Hno) as [Hd Hrest]. split; [done|].
  destruct Hn as [Hp Hw Hu]. apply Forall2_same_length_lookup. split; [by eapply Forall2_length|].
  intros i u o Hui Ho. destruct (Forall2_lookup_l _ _ _ _ _ Hu Hui) as (o' & Ho' & Hset).
  assert (o' = o) as -> by congruence.
  apply (settling_rest p u o Hw Hd Hset); [by apply (Hrest i)|by apply (Hread i)].
Qed.

(** Where no more events are to come than fit into a channel, nobody has to read. *)
Definition few_events (o : Outlook) : Prop := length (ol_events o) ≤ CHANNEL_CAPACITY + 1.

Lemma net_settling_few nw p os :
  net_settling nw p os → ¬ (∃ nw', loops_step nw nw') → Forall few_events os →
  drained p ∧ Forall2 settled (users nw) os.
Proof.
  intros Hn Hno Hfew. apply (net_settling_rest nw p os Hn Hno). intros i u o _ Ho l _ Hlt.
  pose proof (Forall_lookup_1 _ _ _ _ Hfew Ho) as Hf. unfold few_events in Hf. lia.
Qed.

(** C7: whatever is under way in a network arrives and is stored, if every user
    has at most one session and her applications read what they listen to: the
    loops of the home's process and of its users' clients, and the applications,
    come to rest under every schedule, and then every user's listeners have been
    given the events that were on their way to her, in order, her relations are
    those she had and after them those of the pairing responses among these
    events, and the channels of the home have what was sent.  Where at most
    [CHANNEL_CAPACITY] events and one more are to come to each user, this is so
    even if no application reads anything. *)
Theorem network_settles nw p os :
  net_settling nw p os →
  inevitably works_step (λ nw', (∃ p', the_process nw' = Returns p' ∧ rtc step p p' ∧ drained p')
                           ∧ Forall2 settled (users nw') os) nw
  ∧ (Forall few_events os →
     inevitably loops_step (λ nw', (∃ p', the_process nw' = Returns p' ∧ rtc step p p' ∧ drained p')
                              ∧ Forall2 settled (users nw') os) nw).
Proof.
  intros Hn. split; [|intros Hfew]; (split; [|intros nw' Hs Hno]).
  - by eapply net_settling_acc.
  - destruct (net_settling_steps nw nw' p os Hn Hs) as (p' & Hn' & Hp' & _).
    destruct (net_settling_rest nw' p' os Hn') as [Hd Hr].
    + intros [nw2 H2]. apply Hno. exists nw2. by left.
    + intros i u o Hui _ l Hl _. pose proof (bounded_recv l (user_chans u)) as Hrec.
      destruct (mpsc_recv l (user_chans u)) as [[event|] c] eqn:Hr.
      * destruct Hno. eexists. right. by eapply step_user_reads.
      * simpl in Hrec. symmetry in Hrec. apply lookup_ge_None in Hrec. lia.
    + split; [|done]. exists p'. split; [apply Hn'|done].
  - by eapply net_loops_acc.
  - destruct (net_settling_steps nw nw' p os Hn (loops_works _ _ Hs)) as (p' & Hn' & Hp' & _).
    destruct (net_settling_few nw' p' os Hn' Hno Hfew) as [Hd Hr]. split; [|done].
    exists p'. split; [apply Hn'|done].
Qed.

(** *** An application that does not read

    All listeners of a session are given an event before the next one is taken.
    So an application that holds a stream of events without reading it stops the
    other listeners, and with them the storing of relations. *)

Lemma send_poll_taken j event futs (c : CChans) futs' c' l :
  send_poll j event futs c = Some (futs', c') → mpsc_taken l c' = mpsc_taken l c.
Proof.
  unfold send_poll. destruct (futs !! j) as [[l' [r|]]|]; [done| |done]. destruct (mpsc_ready l' c); [|done].
  destruct (bounded_send l' event c l) as [_ Hb]. destruct (mpsc_send l' event c) as [r c2]. by intros [= _ <-].
Qed.

(** The loops take nothing from the streams of the applications. *)
Lemma loop_takes_nothing p u o k t choice st w fd l :
  settling p u o → ol_feed o = Some fd → l ∈ fd_listeners fd → client_tasks (user_me u) !! k = Some t →
  client_loop_step select_all t (progress_of u k) choice (client_at (Returns p) u) = Some (st, w) →
  mpsc_taken l (listener_chans w) = mpsc_taken l (user_chans u).
Proof.
  intros Hset Hfd Hl Ht. unfold settling in Hset. rewrite Hfd in Hset. destruct Hset as (n & m & Hst).
  rewrite (st_tasks _ _ _ _ _ _ _ Hst) in Ht. pose proof (st_nodup _ _ _ _ _ _ _ Hst) as Hnd.
  destruct k as [|[|k]]; simplify_eq/=; unfold client_loop_step; destruct (progress_of u _) as [pos|pos event futs|]; try done.
  - destruct (received _ p !! pos) as [[item| |]|]; try done. unfold forward_start.
    destruct (my_sessions _ !! _); [|by intros [= _ <-]]. destruct item; by intros [= _ <-].
  - unfold forward_poll. cbn [listener_chans client_at].
    destruct (send_poll choice event futs (user_chans u)) as [[futs' c]|] eqn:Hsp.
    { intros [= _ <-]. by apply (send_poll_taken _ _ _ _ _ _ _ Hsp). }
    destruct (mapM _ _); [|done]. destruct (collect_results _ _); intros [= _ <-]; [|done].
    unfold listeners_notified. by destruct (my_sessions _ !! _).
  - unfold store_poll. cbn [listener_chans client_at].
    destruct (mpsc_recv (fd_relations fd) (user_chans u)) as [[event|] c] eqn:Hr; [|done].
    destruct (recv_some _ _ _ _ Hr) as (_ & _ & Hto & _).
    rewrite (handle_stores event _ (set_listener_chans c (client_at (Returns p) u)) (st_relations _ _ _ _ _ _ _ Hst)).
    intros [= _ <-]. simpl. apply Hto. intros ->. inversion Hnd; by subst.
Qed.

Definition unread_at (i : nat) (l : SinkId) nw : Prop :=
  ∃ u, users nw !! i = Some u ∧ mpsc_taken l (user_chans u) = 0.

Lemma loops_leave_unread nw nw' p os i o fd l :
  net_settling nw p os → os !! i = Some o → ol_feed o = Some fd → l ∈ fd_listeners fd →
  loops_step nw nw' → unread_at i l nw → unread_at i l nw'.
Proof.
  intros [Hp Hw Hu] Ho Hfd Hl Hs (u & Hui & Hzero).
  destruct Hs as [c p0 p' nw _ _|j k u2 t choice st w nw Huj Ht Hstep]; [by exists u|].
  destruct (decide (j = i)) as [->|Hne].
  - assert (u2 = u) as -> by congruence. eexists. split; [apply list_lookup_insert_eq; by eapply lookup_lt_Some|].
    rewrite Hp in Hstep. destruct (Forall2_lookup_l _ _ _ _ _ Hu Hui) as (o' & Ho' & Hset).
    assert (o' = o) as -> by congruence. simpl.
    by rewrite (loop_takes_nothing p u o k t choice st w fd l Hset Hfd Hl Ht Hstep).
  - exists u. simpl. by rewrite list_lookup_insert_ne.
Qed.

(** If a user's application holds a stream of the session and reads nothing from
    it, the pairing responses that come after [CHANNEL_CAPACITY] events and two
    more are never stored. *)
Theorem unread_stream_stops_pairing nw p os i fd evs rs l :
  net_settling nw p os → os !! i = Some (mkOutlook (Some fd) evs rs) →
  l ∈ fd_listeners fd → unread_at i l nw →
  inevitably loops_step (λ nw', ∃ u, users nw' !! i = Some u
    ∧ relations (user_me u) = Some (rs ++ omap pairing_of (take (CHANNEL_CAPACITY + 2) evs))) nw.
Proof.
  intros Hn Ho Hl Hzero. split; [by eapply net_loops_acc|]. intros nw' Hs Hno.
  assert (∃ p', net_settling nw' p' os ∧ unread_at i l nw') as (p' & Hn' & u & Hui & Hz).
  { clear Hno. revert p Hn Hzero. induction Hs as [nw|nw1 nw2 nw3 Hs _ IH]; intros p Hn Hzero; [by exists p|].
    destruct (net_step_settles nw1 nw2 p os Hn (or_introl Hs)) as (p2 & Hn2 & _).
    apply (IH p2 Hn2). by eapply (loops_leave_unread nw1 nw2 p os i _ fd l). }
  exists u. split; [done|]. destruct (net_loops_rest nw' p' os Hn' Hno) as [Hd Hrest].
  destruct Hn' as [Hp Hw Hu]. destruct (Forall2_lookup_lr _ _ _ _ _ _ Hu Hui Ho) as (n & m & Hst). simpl in Hst.
  pose proof (st_listening _ _ _ _ _ _ _ Hst l ltac:(by right)) as [_ _ _ Hroom].
  destruct (storing_stuck p' u fd evs rs n m Hw Hd Hst (Hrest i u Hui)) as [Hm Hcase].
  rewrite (st_relations _ _ _ _ _ _ _ Hst), Hm. do 3 f_equal. rewrite Hz in Hroom.
  destruct Hcase as [[_ Hall]|(l' & Hl' & _ & Hfull & Hlt & Hrec)].
  - rewrite Hall in Hroom by by right. rewrite Hall by by left. rewrite firstn_all. symmetry. apply take_ge. lia.
  - pose proof (st_forwarded _ _ _ _ _ _ _ Hst) as Hf.
    assert (n ≤ length (mpsc_received l (user_chans u))) as Hn'.
    { destruct (progress_of u 0) as [pos|pos event futs|]; [| |done].
      - destruct Hf as (-> & _ & Hf). rewrite Hf, length_take by by right. lia.
      - destruct Hf as (-> & _ & _ & Hfst & Hok).
        assert (l ∈ futs.*1) as Hin by (rewrite Hfst; by right).
        apply list_elem_of_fmap in Hin as ([l2 r] & -> & Hin).
        apply (proj1 (list.Forall_forall _ _) Hok) in Hin. unfold fut_ok in Hin. simpl in *.
        destruct r; [destruct Hin as [_ Hin]|]; rewrite Hin, length_take; lia. }
    rewrite Hrec, length_take. f_equal. lia.
Qed.
End loops.
