(* ===== verification/NetworkPairing.v ===== *)
(** * Pairing in a network

    [RemotePairing.v] with the loops of the clients: one user asks another for a
    relation, the other accepts when the request has come, or at any other time,
    and when the network has come to rest both have stored the proof. *)

From S2P Require Import Prelude Errors External FutureUtil Storage Protocol Crypto Relation Capnp.
From S2P Require Import HomeServer HomeServerProps Rpc RpcStreams Reactor Process ProcessProps.
From S2P Require Import Scenarios Memsocket Connect ConnectFrame ConnectProps Forwarding EndToEnd Composition.
From S2P Require Import RemoteClient RemotePairing Network NetworkLoops.
From stdpp Require Import relations.

#[local] Arguments kv_get : simpl never.
#[local] Arguments kv_set : simpl never.

Section pairing.
Context {BC : Bincode} {Chans : Type} {CH : Channels ChanMsg Chans} {CHL : ChannelsLaws ChanMsg Chans}
        {open : SinkId → Chans → Prop} {KO : KeepsOpen (Msg:=ChanMsg) open}
        {live : OneshotId → Chans → Prop} {KL : KeepsLive (Msg:=ChanMsg) live}
        {Store CChans : Type}
        {KV : KeyValueStore Store ProfileId Profile}
        {KVL : KeyValueStoreLaws Store ProfileId Profile any_key}
        {CCH : Channels ProfileEvent CChans} {CCHL : ChannelsLaws ProfileEvent CChans}
        {BCH : BoundedChannels ProfileEvent CChans} {BL : BoundedLaws ProfileEvent CChans}
        {copen : SinkId → CChans → Prop} {CKO : KeepsOpen (Msg:=ProfileEvent) copen}
        {CKR : KeepsReading (Msg:=ProfileEvent) copen}.
Abbreviation Dht := (InMemoryStore ProfileId Profile).
Abbreviation Db := (InMemoryStore ProfileId OwnProfile).
Abbreviation P := (HomeProcess Dht Db Chans).
Abbreviation W := (Client (Panicking P) Store CChans).
Abbreviation User := (User Dht Db Chans Store CChans).
Abbreviation Network := (Network Dht Db Chans Store CChans).
Context {SO : SelectOk W} {SOL : SelectOkLaws W}.
Context (debug : ProtoError → string) (debug_reg : OwnProfile * ProtoError → string)
        (show : CapnpError → string) (home_signer : Signer)
        (select_all : list (nat * (SinkId * Result string SinkId)) →
           (nat * Result string SinkId) * list (nat * (SinkId * Result string SinkId)))
        (Hsel : select_all_ok snd select_all).
#[local] Hint Extern 0 (HomeConnector _) =>
  exact (to_remote_home debug debug_reg home_signer) : typeclass_instances.
Abbreviation wired := (wired (open:=open) (live:=live)).
Abbreviation later := (later (open:=open) (live:=live)).
Abbreviation step := (task_step (poll_task show)).
Abbreviation loops_step := (loops_step show select_all).
Abbreviation works_step := (works_step show select_all).
Abbreviation served := (served (open:=open)).
Abbreviation reaches := (reaches home_signer).
Abbreviation knows := (knows home_signer).
Abbreviation storing := (storing (copen:=copen)).
Abbreviation net_settling := (net_settling (open:=open) (live:=live) (copen:=copen)).
Implicit Types (p : P) (u : User) (nw : Network).

Definition id_of u : ProfileId := signer_profile_id (mp_signer (user_me u)).

(** A user who is logged in to the home, and to whom nothing has come yet. *)
Record online p u (fd : Feed) (sink : SinkId) (rs : list RelationProof) : Prop := mkOnline
  { on_reaches : reaches (client_at (Returns p) u) p;
    on_served : served p (mp_signer (user_me u)) sink (fd_stream fd);
    on_storing : storing p u fd [] rs 0 0 }.

(** What such a user expects now is what is due to her stream. *)
Lemma storing_expects p p' u fd evs rs n m :
  storing p u fd [] rs n m → due p' (fd_stream fd) ((λ ev, EventMsg (Ok ev)) <$> evs) →
  storing p' u fd evs rs n m.
Proof.
  intros [H1 H2 H3 [H4 H4'] H5 H6 H7 H8 H9] Hdue. simpl in H8. assert (n = 0) as -> by lia.
  assert (forwarding (progress_of u 0) u fd evs 0 ∧ mpsc_received (fd_relations fd) (user_chans u) = []) as [Hf Hr].
  { destruct (progress_of u 0) as [pos|pos event futs|]; [|by destruct H3 as (-> & [=] & _)|done].
    destruct H3 as (-> & Hms & Hl). split; [|by apply (Hl (fd_relations fd)); left]. split; [done|]. by split. }
  pose proof (H6 (fd_relations fd) ltac:(by left)) as [_ _ Ht _]. rewrite Hr in Ht. simpl in Ht.
  assert (m = 0) as -> by lia. split; try done. lia.
Qed.

Lemma storing_due p p' u fd evs rs n m :
  storing p u fd evs rs n m → due p' (fd_stream fd) ((λ ev, EventMsg (Ok ev)) <$> evs) →
  storing p' u fd evs rs n m.
Proof. intros [H1 H2 H3 H4 H5 H6 H7 H8 H9] Hdue. by split. Qed.

(** A user who has learnt of more profiles. *)
Definition with_repo (repo : SimpleProfileRepo Store) u : User :=
  mkUser (user_me u) repo (user_chans u) (user_progress u) (user_futures u) (user_streams u).

Lemma storing_with_repo repo p u fd evs rs n m :
  storing p u fd evs rs n m → storing p (with_repo repo u) fd evs rs n m.
Proof. intros [H1 H2 H3 H4 H5 H6 H7 H8 H9]. by split. Qed.

Lemma served_due p s sink stream : served p s sink stream → due p stream [].
Proof.
  intros [_ _ [i [L1 L2 L3 L4]]].
  exact (due_loop p i Events sink stream [] L1 (or_intror eq_refl) (due_here _ _ _ L3 L4)).
Qed.

(** The stream of a user gets what has been sent into the channel of her session,
    and is due nothing else. *)
Lemma due_through p p' s sink stream :
  served p s sink stream → shape <$> loops p' = shape <$> loops p →
  due p' stream (carried_by Events <$> received sink p').
Proof.
  intros [_ _ [i [L1 L2 L3 L4]]] Hl. apply (due_loop p' i Events sink stream); [by rewrite Hl|by right|].
  apply due_here; [|done]. intros Ht. by eapply L3, is_target_shape.
Qed.

Lemma due_only p p' s sink stream ms :
  served p s sink stream → wired p' → shape <$> loops p' = shape <$> loops p → due p' stream ms →
  ms = carried_by Events <$> received sink p'.
Proof.
  intros [_ _ [i [L1 L2 L3 L4]]] Hw Hl Hdue. rewrite <- Hl in L1.
  assert (¬ is_target p' sink) as Hnt by (intros Ht; by eapply L3, is_target_shape).
  inversion Hdue as [t ms' Hno Hr|j k s' t ms' Hj Hk Hs']; subst.
  - destruct Hno. rewrite list_lookup_fmap in L1. destruct (loops p' !! i) as [l|] eqn:E; [|done].
    exists i, l. split; [done|]. by injection L1.
  - destruct (wired_chained _ Hw j i _ _ _ _ _ _ stream Hj L1) as [_ [Heq _]].
    specialize (Heq eq_refl eq_refl). subst j. rewrite L1 in Hj. injection Hj as <- <-.
    inversion Hs' as [t ms Hno Hr|j k s' t ms Hj _ _]; subst; [done|].
    destruct Hnt. rewrite list_lookup_fmap in Hj. destruct (loops p' !! j) as [l|] eqn:E; [|done].
    exists j, l. split; [done|]. by injection Hj.
Qed.

Lemma due_unchanged p p2 p3 s sink stream ms :
  served p s sink stream → wired p2 → shape <$> loops p2 = shape <$> loops p → shape <$> loops p3 = shape <$> loops p →
  received sink p3 = received sink p2 → due p2 stream ms → due p3 stream ms.
Proof.
  intros Hs Hw Hl2 Hl3 Hr Hdue. rewrite (due_only p p2 s sink stream ms Hs Hw Hl2 Hdue), <- Hr.
  by apply (due_through p p3 s).
Qed.

Lemma offline_settling p p' u o :
  ol_feed o = None → settling (copen:=copen) p u o → settling (copen:=copen) p' u o.
Proof. unfold settling. by intros ->. Qed.

Lemma same_reaches u u' p p' :
  same_user u u' → server_validator (node p') = server_validator (node p) →
  reaches (client_at (Returns p) u) p → reaches (client_at (Returns p') u') p'.
Proof. intros [H1 H2 H3] Hv. by apply reaches_same_home. Qed.

Lemma same_knows u u' pp pp' peer :
  same_user u u' → knows (client_at pp u) peer → knows (client_at pp' u') peer.
Proof. intros [H1 H2 H3]. unfold RemotePairing.knows. simpl. by rewrite H3. Qed.

(** A user who joins the home and logs in to it comes online, *)
Lemma becomes_online (w : W) p inv rs :
  remote_newcomer home_signer [] w p → wired p → never_fails Store Profile →
  client_tasks (me w) = [] → relations (me w) = Some rs →
  ∃ w1 ms w2 fd sink p2,
    await (join_home (home_of_signer home_signer) inv) w = (Ok tt, w1)
    ∧ await (login_home (home_of_signer home_signer)) w1 = (Ok ms, w2)
    ∧ env w2 = Returns p2 ∧ wired p2 ∧ online p2 (user_of w2 ∅ [] []) fd sink rs ∧ fd_session fd = ms
    ∧ mp_signer (me w2) = mp_signer (me w)
    ∧ server_validator (node p2) = server_validator (node p)
    ∧ (∃ proof, profile_facet (own_profile (mp_own_profile (me w2))) = Persona (mkPersonaFacet [proof] [])
         ∧ proof_peer_id proof (user_id w) = Ok (home_of_signer home_signer))
    ∧ (∀ s sink' stream', signer_profile_id s ≠ user_id w → served p s sink' stream' →
        sink' ≠ sink ∧ served p2 s sink' stream')
    ∧ ∀ id, id ≠ user_id w → kv_get id (hosted_profile_db (node p2)) = kv_get id (hosted_profile_db (node p))
        ∧ sessions (node p2) !! id = sessions (node p) !! id.
Proof.
  intros Hnew Hw Hrepo Htasks Hrs.
  destruct (becomes_member (open:=open) (live:=live) debug debug_reg home_signer w p inv Hnew Hw Hrepo)
    as (w1 & ms & w2 & sink & stream & l & p2 & Hjoin & Hlog & He & _ & [O1 O2 O3] & Hw2 & [R2 S2] & Hv & Hs & Hr & Hrest).
  exists w1, ms, w2, (mkFeed ms stream l []), sink, p2.
  do 4 (split; [done|]). split; [|by do 3 (split; [done|])]. rewrite Htasks in O1. rewrite Hrs in Hr.
  pose proof (mpsc_channel_new _ _ _ _ O3) as [Hempty _].
  pose proof (open_new (open:=copen) CHANNEL_CAPACITY (listener_chans w)) as Hopen. rewrite O3 in Hopen.
  destruct (bounded_new _ _ _ _ O3) as (Hcap & Htaken & _).
  split; [by destruct R2; split|done|]. split; try done; simpl.
  - split; [done|]. split; [done|]. by intros l' ->%list_elem_of_singleton.
  - apply NoDup_singleton.
  - intros l' ->%list_elem_of_singleton. split; simpl; try done; rewrite Hempty; simpl; lia.
  - by eapply served_due.
  - by rewrite app_nil_r.
Qed.

(** and stays online while others do. *)
Lemma online_same_home p p' u fd sink sink' rs :
  online p u fd sink rs → server_validator (node p') = server_validator (node p) →
  served p' (mp_signer (user_me u)) sink' (fd_stream fd) → online p' u fd sink' rs.
Proof.
  intros [H1 H2 H3] Hv Hs. split; [by apply (same_reaches u u p)|done|].
  apply (storing_expects p); [done|]. by eapply served_due.
Qed.

(** A network in which two users are online, the others offline. *)
Record two_online nw p (ia ib : nat) ua ub fda fdb (sinka sinkb : SinkId) rsa rsb (os : list Outlook) : Prop := mkTwoOnline
  { to_settling : net_settling nw p os;
    to_users : ia ≠ ib ∧ users nw !! ia = Some ua ∧ users nw !! ib = Some ub;
    to_outlook : os !! ia = Some (mkOutlook (Some fda) [] rsa) ∧ os !! ib = Some (mkOutlook (Some fdb) [] rsb);
    to_online : online p ua fda sinka rsa ∧ online p ub fdb sinkb rsb;
    to_sinks : sinka ≠ sinkb;
    to_ids : id_of ua ≠ id_of ub;
    to_knows : knows (client_at (Returns p) ub) (id_of ua) ∧ knows (client_at (Returns p) ua) (id_of ub);
    to_others j o : j ≠ ia → j ≠ ib → os !! j = Some o → ol_feed o = None }.

(** A network with a change to one user and the process. *)
Lemma settling_change p p' us os i u' o' :
  Forall2 (settling (copen:=copen) p) us os →
  (∀ j u o, j ≠ i → us !! j = Some u → os !! j = Some o → settling (copen:=copen) p' u o) →
  settling (copen:=copen) p' u' o' → Forall2 (settling (copen:=copen) p') (<[i := u']> us) (<[i := o']> os).
Proof.
  intros Hall Hothers Hi. apply Forall2_same_length_lookup. split.
  { rewrite !length_insert. by eapply Forall2_length. }
  intros j u o Hu Ho. apply list_lookup_insert_Some in Hu as [(-> & -> & Hlt)|[Hne Hu]].
  - apply list_lookup_insert_Some in Ho as [(_ & -> & _)|[? _]]; done.
  - apply list_lookup_insert_Some in Ho as [(-> & _ & _)|[_ Ho]]; [done|]. by eapply Hothers.
Qed.

(** The process has gone on, and user [i] is due something else for it, user [k]
    the same: no one else is online. *)
Lemma settling_two p p' (us : list User) os i k ui uk oi ok :
  Forall2 (settling (copen:=copen) p) us os → us !! i = Some ui → us !! k = Some uk → os !! k = Some ok →
  (∀ j o, j ≠ i → j ≠ k → os !! j = Some o → ol_feed o = None) →
  settling (copen:=copen) p' ui oi → settling (copen:=copen) p' uk ok →
  Forall2 (settling (copen:=copen) p') us (<[i := oi]> os).
Proof.
  intros Hall Hi Hk Hok Hoff Hsi Hsk. rewrite <- (list_insert_id us i ui Hi).
  apply (settling_change p); [done| |done]. intros j u o Hj Hju Hjo.
  destruct (decide (j = k)) as [->|Hne]; [by simplify_eq|].
  apply (offline_settling p); [by eapply Hoff|]. by eapply Forall2_lookup_lr.
Qed.

(** Asking: what the network has to do afterwards. *)
Lemma network_asked ty nw p ia ib ua ub fda fdb sinka sinkb rsa rsb os :
  two_online nw p ia ib ua ub fda fdb sinka sinkb rsa rsb os →
  let hp := RelationHalfProof_new ty (id_of ua) (mp_signer (user_me ub)) in
  ∃ c w1, let p1 := set_node (set_chans c (node p)) p in
    await (initiate_relation ty (id_of ua)) (client_at (Returns p) ub) = (Ok tt, w1)
    ∧ net_settling (set_user ib w1 (user_progress ub) (user_futures ub) (user_streams ub) nw) p1
        (<[ia := mkOutlook (Some fda) [PairingRequest hp] rsa]> os)
    ∧ users (set_user ib w1 (user_progress ub) (user_futures ub) (user_streams ub) nw) = users nw
    ∧ served p1 (mp_signer (user_me ub)) sinkb (fd_stream fdb).
Proof.
  intros [[Hp Hw Hu] (Hi & Hua & Hub) (Hoa & Hob) ([Ra Sa Fa] & [Rb Sb Fb]) Hsinks Hids (Kb & Ka) Hothers] hp.
  destruct (member_asks debug debug_reg home_signer ty (client_at (Returns p) ua) (client_at (Returns p) ub)
    p sinka (fd_stream fda) Hw Rb eq_refl Kb Sa) as (c & Hask & Hw1 & Hdue & Hkeep & _).
  eexists c, _. set (p1 := set_node (set_chans c (node p)) p) in *. split; [exact Hask|].
  assert (served p1 (mp_signer (user_me ub)) sinkb (fd_stream fdb)) as Sb1
    by (apply Hkeep; [by apply not_eq_sym|done]).
  set (nw1 := set_user _ _ _ _ _ nw).
  assert (users nw1 = users nw) as Hus.
  { subst nw1. simpl. unfold user_of. simpl. apply list_insert_id. rewrite Hub. by destruct ub. }
  split; [|done]. split; [done|exact Hw1|]. rewrite Hus.
  apply (settling_two p p1 _ _ ia ib ua ub _ _ Hu Hua Hub Hob Hothers); exists 0, 0; apply (storing_expects p); try done.
  by eapply served_due.
Qed.

(** Accepting: in any state the network has come to in between. *)
Lemma network_accepted ty nw p ia ib ua ub fda fdb sinka sinkb rsa rsb os p1 nw1 nw2 :
  two_online nw p ia ib ua ub fda fdb sinka sinkb rsa rsb os →
  let hp := RelationHalfProof_new ty (id_of ua) (mp_signer (user_me ub)) in
  let os1 := <[ia := mkOutlook (Some fda) [PairingRequest hp] rsa]> os in
  (∃ c, p1 = set_node (set_chans c (node p)) p) → net_settling nw1 p1 os1 → users nw1 = users nw →
  served p1 (mp_signer (user_me ub)) sinkb (fd_stream fdb) → rtc works_step nw1 nw2 →
  ∃ ua2 proof w3 p3,
    users nw2 !! ia = Some ua2
    ∧ sign_remaining_half hp (mp_signer (user_me ua)) = Ok proof
    ∧ await (accept_relation hp) (client_at (the_process nw2) ua2) = (Ok proof, w3)
    ∧ net_settling (set_user ia w3 (user_progress ua2) (user_futures ua2) (user_streams ua2) nw2) p3
        (<[ib := mkOutlook (Some fdb) [PairingResponse proof] rsb]>
           (<[ia := mkOutlook (Some fda) [PairingRequest hp] (rsa ++ [proof])]> os)).
Proof.
  intros [[Hp Hw Hu] (Hi & Hua & Hub) (Hoa & Hob) ([Ra Sa Fa] & [Rb Sb Fb]) Hsinks Hids (Kb & Ka) Hothers]
    hp os1 (c1 & Hp1) Hn1 Hus1 Sb1 Hsteps.
  destruct (members_sign debug_reg home_signer ty (client_at (Returns p) ua) (client_at (Returns p) ub) p Ra Rb Hids)
    as (_ & proof & Hsign & _ & Hpeer1 & Hpeer2 & _ & Hval).
  destruct (net_settling_steps show select_all Hsel nw1 nw2 p1 os1 Hn1 Hsteps) as (p2 & [Hp2 Hw2 Hu2] & Hs2 & Hsame).
  pose proof (wired_steps show p1 p2 (ns_wired _ _ _ Hn1) Hs2) as Hl2.
  destruct (pg_node _ _ (proj2 Hl2)) as (ts & c2 & Hnode2).
  assert (server_validator (node p2) = server_validator (node p)) as Hv2 by by rewrite Hnode2, Hp1.
  rewrite Hus1 in Hsame.
  destruct (Forall2_lookup_l _ _ _ _ _ Hsame Hua) as (ua2 & Hua2 & Hsa).
  destruct (Forall2_lookup_l _ _ _ _ _ Hsame Hub) as (ub2 & Hub2 & Hsb).
  assert (os1 !! ia = Some (mkOutlook (Some fda) [PairingRequest hp] rsa)) as Hoa1.
  { apply list_lookup_insert_eq. by eapply lookup_lt_Some. }
  assert (os1 !! ib = Some (mkOutlook (Some fdb) [] rsb)) as Hob1 by (by (unfold os1; rewrite list_lookup_insert_ne)).
  destruct (Forall2_lookup_lr _ _ _ _ _ _ Hu2 Hua2 Hoa1) as (n & m & Fa2).
  destruct (Forall2_lookup_lr _ _ _ _ _ _ Hu2 Hub2 Hob1) as (nb & mb & Fb2).
  assert (∀ k, omap pairing_of (take k [PairingRequest hp]) = []) as Hnone by by intros [|[|k]].
  assert (relations (user_me ua2) = Some rsa) as Hrs2.
  { rewrite (st_relations _ _ _ _ _ _ _ Fa2), Hnone. by rewrite app_nil_r. }
  assert (id_of ua2 = id_of ua) as Hid2 by (unfold id_of; by rewrite (su_signer _ _ Hsa)).
  destruct (member_accepts debug debug_reg home_signer hp proof (mp_signer (user_me ub)) (client_at (Returns p2) ua2)
    p2 sinkb (fd_stream fdb) rsa) as (c3 & Hacc & Hw3 & Hdue3 & _ & Hrec3).
  - exact Hw2.
  - by apply (same_reaches ua ua2 p p2).
  - done.
  - by apply (same_knows ua ua2 (Returns p)).
  - exact Hrs2.
  - exact (eq_sym Hid2).
  - simpl. by rewrite (su_signer _ _ Hsa).
  - by apply (served_later (live:=live) p1).
  - change (proof_peer_id proof (id_of ua2) = Ok (id_of ub)). rewrite Hid2. exact Hpeer2.
  - rewrite Hv2. unfold user_id. simpl. rewrite (su_signer _ _ Hsa). exact Hval.
  - set (p3 := set_node (set_chans c3 (node p2)) p2) in *.
    exists ua2, proof. eexists _, p3. split; [done|]. split; [done|]. rewrite Hp2. split; [exact Hacc|].
    assert (shape <$> loops p2 = shape <$> loops p) as Hshape.
    { rewrite (pg_shape _ _ (proj2 Hl2)). by rewrite Hp1. }
    assert (due p3 (fd_stream fda) [EventMsg (Ok (PairingRequest hp))]) as Hduea.
    { apply (due_unchanged p p2 p3 _ sinka _ _ Sa Hw2 Hshape Hshape (Hrec3 sinka Hsinks) (st_due _ _ _ _ _ _ _ Fa2)). }
    assert (Forall2 (settling (copen:=copen) p3) (users nw2)
      (<[ib := mkOutlook (Some fdb) [PairingResponse proof] rsb]> os1)) as Hu3.
    { apply (settling_two p2 p3 _ _ ib ia ub2 ua2 _ _ Hu2 Hub2 Hua2 Hoa1).
      - intros j o Hjb Hja Hjo. apply (Hothers j); [done|done|]. unfold os1 in Hjo. by rewrite list_lookup_insert_ne in Hjo.
      - exists nb, mb. by apply (storing_expects p2).
      - exists n, m. by apply (storing_due p2). }
    split; [done|exact Hw3|]. simpl.
    rewrite <- (list_insert_insert_eq os ia _ (mkOutlook (Some fda) [PairingRequest hp] rsa)).
    change (<[ia := mkOutlook (Some fda) [PairingRequest hp] rsa]> os) with os1.
    rewrite list_insert_insert_ne by done. apply Forall2_insert; [exact Hu3|].
    exists n, m. destruct (storing_due p2 p3 _ _ _ _ _ _ Fa2 Hduea) as [F1 F2 F3 F4 F5 F6 F7 F8 F9].
    split; try done. simpl. by rewrite Hnone, app_nil_r.
Qed.

Lemma settling_inevitably Q nw p os :
  net_settling nw p os → Forall few_events os →
  (∀ nw', Forall2 (settled (Dht:=Dht) (Db:=Db)) (users nw') os → Q nw') → inevitably loops_step Q nw.
Proof.
  intros Hn Hfew HQ. split; [by eapply (net_loops_acc show select_all Hsel)|]. intros nw' Hs Hno.
  destruct (net_settling_steps show select_all Hsel nw nw' p os Hn (loops_works _ _ _ _ Hs)) as (p' & Hn' & _).
  apply HQ. by destruct (net_settling_few (open:=open) show select_all nw' p' os Hn' Hno Hfew).
Qed.

(** Nobody is to be told of more than a channel holds. *)
Lemma two_online_few nw p ia ib ua ub fda fdb sinka sinkb rsa rsb os :
  two_online nw p ia ib ua ub fda fdb sinka sinkb rsa rsb os → Forall few_events os.
Proof.
  intros [[_ _ Hu] _ (Hoa & Hob) _ _ _ _ Hothers]. apply Forall_lookup_2. intros j o Ho. unfold few_events.
  destruct (decide (j = ia)) as [->|Ha]; [simplify_eq; simpl; lia|].
  destruct (decide (j = ib)) as [->|Hb]; [simplify_eq; simpl; lia|].
  destruct (Forall2_lookup_r _ _ _ _ _ Hu Ho) as (u & _ & Hset). unfold settling in Hset.
  rewrite (Hothers j o Ha Hb Ho) in Hset. destruct Hset as (_ & _ & -> & _). simpl. lia.
Qed.

Definition has_relations (i : nat) (rs : list RelationProof) nw : Prop :=
  ∃ u, users nw !! i = Some u ∧ relations (user_me u) = Some rs.
Definition was_told (i : nat) (fd : Feed) (told : list ProfileEvent → Prop) nw : Prop :=
  ∃ u, users nw !! i = Some u ∧ ∀ l, l ∈ feed_listeners fd → told (mpsc_received l (user_chans u)).

Lemma settled_user us os i o :
  Forall2 (settled (Dht:=Dht) (Db:=Db) (Chans:=Chans) (Store:=Store) (CChans:=CChans)) us os →
  os !! i = Some o → ∃ u, us !! i = Some u ∧ settled u o.
Proof. intros Hall Ho. by destruct (Forall2_lookup_r _ _ _ _ _ Hall Ho) as (u & ? & ?); eauto. Qed.

(** Until then, a listener has been told of some of the events. *)
Lemma told_so_far nw p os i fd evs rs :
  net_settling nw p os → os !! i = Some (mkOutlook (Some fd) evs rs) →
  ∃ u, users nw !! i = Some u
    ∧ ∀ l, l ∈ feed_listeners fd → mpsc_received l (user_chans u) `prefix_of` evs.
Proof.
  intros Hn Ho. destruct (Forall2_lookup_r _ _ _ _ _ (ns_users _ _ _ Hn) Ho) as (u & Hu & n & m & Hst).
  exists u. split; [done|]. intros l Hl.
  destruct (given_to _ _ _ _ _ l (st_forwarded _ _ _ _ _ _ _ Hst) Hl) as (k & _ & ->). apply prefix_take.
Qed.

(** C6: two users pair over the network whatever the order in which the loops of
    the home and of the clients run, and whenever the second answers.  The first
    asks the home for a relation with the second: the call succeeds, the loops
    come to rest under every schedule, and the listeners of the second have then
    been told of the request, and of nothing else.  At any time in between,
    whatever applications have read by then, she may accept: that call succeeds and gives a proof of the relation that
    validates against both profiles, the loops come to rest again, and then both
    have stored this proof, after the relations they had, and the listeners of
    the first have been told of the response. *)
Theorem members_pair_in_the_network ty nw p ia ib ua ub fda fdb sinka sinkb rsa rsb os :
  two_online nw p ia ib ua ub fda fdb sinka sinkb rsa rsb os →
  let hp := RelationHalfProof_new ty (id_of ua) (mp_signer (user_me ub)) in
  let v := server_validator (node p) in
  ∃ proof w1,
    rp_relation_type proof = ty
    ∧ validate_relation_proof v proof (id_of ub) (signer_public_key (mp_signer (user_me ub)))
        (id_of ua) (signer_public_key (mp_signer (user_me ua))) = Ok tt
    ∧ validate_relation_proof v proof (id_of ua) (signer_public_key (mp_signer (user_me ua)))
        (id_of ub) (signer_public_key (mp_signer (user_me ub))) = Ok tt
    ∧ await (initiate_relation ty (id_of ua)) (client_at (the_process nw) ub) = (Ok tt, w1)
    ∧ let nw1 := set_user ib w1 (user_progress ub) (user_futures ub) (user_streams ub) nw in
      inevitably loops_step (was_told ia fda (eq [PairingRequest hp])) nw1
      ∧ ∀ nw2, rtc works_step nw1 nw2 → was_told ia fda (λ evs, evs `prefix_of` [PairingRequest hp]) nw2 ∧ ∃ ua2 w3,
          users nw2 !! ia = Some ua2
          ∧ await (accept_relation hp) (client_at (the_process nw2) ua2) = (Ok proof, w3)
          ∧ inevitably loops_step (λ nw', has_relations ia (rsa ++ [proof]) nw' ∧ has_relations ib (rsb ++ [proof]) nw'
                          ∧ was_told ib fdb (eq [PairingResponse proof]) nw')
              (set_user ia w3 (user_progress ua2) (user_futures ua2) (user_streams ua2) nw2).
Proof.
  intros H hp v. pose proof H as [[Hp Hw Hu] (Hi & Hua & Hub) (Hoa & Hob) ([Ra Sa Fa] & [Rb Sb Fb]) _ Hids _ _].
  destruct (members_sign debug_reg home_signer ty (client_at (Returns p) ua) (client_at (Returns p) ub) p Ra Rb Hids)
    as (_ & proof & Hsign & Hty & _ & _ & Hval1 & Hval2).
  destruct (network_asked ty nw p ia ib ua ub fda fdb sinka sinkb rsa rsb os H) as (c & w1 & Hask & Hn1 & Hus1 & Sb1).
  pose proof (two_online_few _ _ _ _ _ _ _ _ _ _ _ _ _ H) as Hfew.
  exists proof, w1. rewrite Hp. split; [done|]. split; [exact Hval1|].
  split; [exact Hval2|]. split; [exact Hask|]. intros nw1.
  apply lookup_lt_Some in Hoa as Hla. apply lookup_lt_Some in Hob as Hlb. split.
  - apply (settling_inevitably _ _ _ _ Hn1 ltac:(apply Forall_insert; [exact Hfew|vm_compute; lia])). intros nw' Hall.
    destruct (settled_user _ _ ia _ Hall (list_lookup_insert_eq _ _ _ Hla)) as (u & Hu' & _ & Htold).
    exists u. split; [done|]. intros l Hl. by rewrite (Htold fda l eq_refl).
  - intros nw2 Hs. split.
    { destruct (net_settling_steps show select_all Hsel _ nw2 _ _ Hn1 Hs) as (p2 & Hn2 & _).
      by eapply told_so_far, list_lookup_insert_eq. }
    destruct (network_accepted ty nw p ia ib ua ub fda fdb sinka sinkb rsa rsb os
      (set_node (set_chans c (node p)) p) nw1 nw2 H) as (ua2 & proof' & w3 & p3 & Hua2 & Hsign' & Hacc & Hn3);
      [by exists c|done|done|done|done|].
    assert (proof' = proof) as ->.
    { change (sign_remaining_half hp (mp_signer (user_me ua)) = Ok proof') in Hsign'.
      change (sign_remaining_half hp (mp_signer (user_me ua)) = Ok proof) in Hsign. congruence. }
    exists ua2, w3. split; [done|]. split; [exact Hacc|].
    apply (settling_inevitably _ _ _ _ Hn3 ltac:(repeat apply Forall_insert; [exact Hfew|vm_compute; lia..])). intros nw' Hall.
    assert (ib < length (<[ia := mkOutlook (Some fda) [PairingRequest hp] (rsa ++ [proof])]> os)) as Hlb'
      by by rewrite length_insert.
    destruct (settled_user _ _ ib _ Hall (list_lookup_insert_eq _ _ _ Hlb')) as (u & Hu' & Hr & Htold).
    destruct (settled_user _ _ ia (mkOutlook (Some fda) [PairingRequest hp] (rsa ++ [proof])) Hall)
      as (u2 & Hu2' & Hr2 & _).
    { rewrite list_lookup_insert_ne by done. by apply list_lookup_insert_eq. }
    split; [|split].
    + exists u2. split; [done|]. rewrite Hr2. unfold ol_final. simpl. by rewrite app_nil_r.
    + by exists u.
    + exists u. split; [done|]. intros l Hl. by rewrite (Htold fdb l eq_refl).
Qed.
End pairing.
