(* ===== verification/Samples.v ===== *)
(** * Sample runs

    Concrete instances for the programs around the home: the applications, the
    JSON-RPC interface, the start-up of clients and of the home node.  The
    properties of these components are applied to them. *)

From S2P Require Import Prelude Errors External Storage Protocol Crypto Relation Handshake Hoare Capnp.
From S2P Require Import HomeServer Rpc RpcStreams HomeInvariants HomeServerProps Connect Net Service.
From S2P Require Import ServiceProps JsonRpc JsonRpcServer Config HomeNode Startup TheButton ButtonRun EndToEnd.
From S2P Require Import Composition Scenarios.

Module Apps.
Import HomeServerProps.Demo Run.
#[export] Existing Instance Sample.bincode.
#[export] Existing Instance Sample.multihash.
#[export] Existing Instance Sample.ed25519.
#[export] Existing Instance Sample.multibase.
#[export] Existing Instance sample_json.
#[export] Existing Instance sample_json_laws.
#[export] Existing Instance process_env.

(** Channels of one kind of message among those of two. *)
Section sum_channels.
Context {A B : Type}.
Definition left_msg (m : A + B) : option A := match m with inl a => Some a | inr _ => None end.
Definition right_msg (m : A + B) : option B := match m with inr b => Some b | inl _ => None end.

Definition project {M} (wrap : M → A + B) (unwrap : A + B → option M)
  : Channels M (Sample.chans (A + B)) :=
  {| mpsc_channel := mpsc_channel; mpsc_send s m := mpsc_send s (wrap m);
     mpsc_received s c := omap unwrap (mpsc_received s c);
     oneshot_channel := oneshot_channel; oneshot_send := oneshot_send;
     oneshot_drop := oneshot_drop; oneshot_poll := oneshot_poll |}.
End sum_channels.

Abbreviation ServiceChans := (Sample.chans (ProfileEvent + AppMessageFrame)).
#[export] Instance event_channels : Channels ProfileEvent ServiceChans := project inl left_msg.
#[export] Instance frame_channels : Channels AppMessageFrame ServiceChans := project inr right_msg.

Abbreviation DemoService :=
  (ConnectService World (InMemoryStore ProfileId Profile) (InMemoryStore ProfileId OwnProfile)
     ServiceChans).

#[export] Instance user : UserInterface DemoService :=
  DummyUserInterface [signer_profile_id Actors.alice].

(** The service of a user of whom the store has the profile. *)
Definition demo_service : DemoService :=
  ConnectService_new [signer_profile_id Actors.alice]
    (mkInMemoryStore {[ signer_profile_id Actors.alice := own_of Actors.alice ]})
    {[ signer_profile_id Actors.alice := Actors.alice ]}
    (mkSimpleProfileRepo InMemoryStore_new) Sample.chans_empty empty_world.

(** *** JSON-RPC *)

(** A request of one kind; the only values are strings and booleans. *)
#[export] Instance values : JsonValues :=
  {| JsonMap := Request; JsonValue := string + bool; json_string := inl; json_bool := inr;
     request_from_value := Ok; response_to_value r := Ok (inl (response_profile_id r)) |}.

(** The transport keeps what is sent. *)
#[export] Instance pubsub : PubSub (list Params) :=
  {| Subscriber := unit; PubSubSink := unit; assign_id _ _ t := (Ok tt, t);
     sink_send _ p t := (Ok tt, t ++ [p]) |}.

Record CancelTable : Set := mkCancelTable
  { ct_next : nat; ct_states : gmap nat CancelState; ct_gone : gset nat }.

Definition ct_poll (i : nat) (c : CancelTable) : CancelState :=
  default CancelDropped (ct_states c !! i).
Definition ct_set (i : nat) (s : CancelState) (c : CancelTable) : CancelTable :=
  mkCancelTable (ct_next c) (<[i := s]> (ct_states c)) (ct_gone c).

#[export] Instance cancels : CancelChannels CancelTable :=
  {| cancel_channel c :=
       (ct_next c, mkCancelTable (Datatypes.S (ct_next c))
                     (<[ct_next c := CancelPending]> (ct_states c)) (ct_gone c ∖ {[ct_next c]}));
     cancel_send i c :=
       if decide (i < ct_next c ∧ i ∉ ct_gone c) then (Ok tt, ct_set i CancelSent c) else (Err tt, c);
     cancel_drop i c :=
       match ct_poll i c with CancelPending => ct_set i CancelDropped c | _ => c end;
     cancel_drop_receiver i c := mkCancelTable (ct_next c) (ct_states c) ({[i]} ∪ ct_gone c);
     cancel_poll := ct_poll |}.

#[export] Instance cancels_laws : CancelChannelsLaws CancelTable.
Proof.
  refine {| cancel_known i c := i < ct_next c; cancel_open i c := i < ct_next c ∧ i ∉ ct_gone c |};
    simpl; unfold ct_poll, ct_set.
  - intros c i c' [= <- <-]. simpl. rewrite lookup_insert_eq. split_and!; [lia|lia|set_solver|done| |].
    + intros j. lia.
    + intros j Hj. rewrite lookup_insert_ne by done. split; [done|]. intros [??]. split; [lia|set_solver].
  - intros i c. split_and!.
    + intros Ho. rewrite decide_True by done. simpl. by rewrite lookup_insert_eq.
    + intros Ho. by rewrite decide_False.
    + intros j Hj. case_decide; [|done]. simpl. by rewrite lookup_insert_ne.
    + intros j Hj. by case_decide.
    + intros j Hj. by case_decide.
  - intros i c. split_and!.
    + destruct (default CancelDropped (ct_states c !! i)) eqn:Hi; [|by rewrite Hi..].
      simpl. by rewrite lookup_insert_eq.
    + intros j Hj. destruct (default CancelDropped (ct_states c !! i)); [|done..].
      simpl. by rewrite lookup_insert_ne.
    + intros j Hj. by destruct (default CancelDropped (ct_states c !! i)).
    + intros j Hj. by destruct (default CancelDropped (ct_states c !! i)).
  - intros i c. split_and!; [set_solver|done|done|]. intros j Hj [??]. split; [done|set_solver].
Qed.

Abbreviation DemoRpc :=
  (@RpcState World (InMemoryStore ProfileId Profile) (InMemoryStore ProfileId OwnProfile)
     ServiceChans CancelTable (list Params) values pubsub).

Definition rpc0 : DemoRpc := mkRpcState demo_service ∅ 0 (mkCancelTable 0 ∅ ∅) [] [].
Definition rpc1 : DemoRpc := (Session_new 7 rpc0).2.
Definition ask : Params := ParamsMap (mkRequest calls_app.(ds_app_id) None : JsonMap).
Definition rpc2 : DemoRpc := ((get_session ask 0 rpc1).1 rpc1).2.
Definition rpc3 : DemoRpc := subscribe_events ParamsNone 0 (tt : Subscriber) rpc2.
Definition rpc4 : DemoRpc := subscribe_events ParamsNone 0 (tt : Subscriber) rpc3.

Lemma rpc3_reachable : rpc_reachable rpc3.
Proof.
  eapply reach_step; [|by apply step_subscribe]. eapply reach_step; [|by apply step_get_session_poll].
  eapply reach_step; [|by apply step_connect]. apply reach_start.
Qed.
Lemma rpc4_reachable : rpc_reachable rpc4.
Proof. eapply reach_step; [apply rpc3_reachable|by apply step_subscribe]. Qed.

(** *** A connection *)

(** Requests are echoed; the state of the service is a counter of them. *)
Definition echo (line : string) (_ : unit) : IO nat (Future nat unit (option string)) := λ n,
  (λ n, (Ok (Some line), Datatypes.S n), n).
Definition new_unit (_ : SinkId) : IO nat unit := λ n, (tt, n).

Definition asked : Duplex nat unit :=
  arrive (Frame "b") (arrive (Frame "a") (serve_duplex_stream new_unit 7 0)).

Lemma asked_run :
  duplex_run echo (serve_duplex_stream new_unit 7 0) [Frame "a"; Frame "b"] asked.
Proof.
  change ([Frame "a"; Frame "b"]) with (([] ++ [Frame "a"]) ++ [Frame "b"]).
  repeat (apply run_arrive; [|done]). apply run_start.
Qed.

(** The same for a client that sends notifications, which get no response. *)
Definition is_request (line : string) : bool := negb (String.prefix "n" line).
Definition echo_requests (line : string) (_ : unit) : IO nat (Future nat unit (option string)) := λ n,
  (λ n, (Ok (if is_request line then Some line else None), Datatypes.S n), n).
Definition notified : Duplex nat unit :=
  arrive (Frame "c") (arrive (Frame "n") (arrive (Frame "a") (serve_duplex_stream new_unit 7 0))).

Lemma notified_run :
  duplex_run echo_requests (serve_duplex_stream new_unit 7 0) [Frame "a"; Frame "n"; Frame "c"] notified.
Proof.
  change ([Frame "a"; Frame "n"; Frame "c"]) with ((([] ++ [Frame "a"]) ++ [Frame "n"]) ++ [Frame "c"]).
  repeat (apply run_arrive; [|done]). apply run_start.
Qed.

(** *** The home node *)

Definition alice_hello : bytes :=
  match json_to_vec (auth_info Actors.alice) with
  | Ok out => put_u32_le (as_u32 (length out)) ++ out
  | Err _ => []
  end.
Definition alice_socket : TcpStream := mkTcpStream (Ok tt) (alice_hello ++ [x2a]) (mkWriter [] 100).

Definition node0 : Node (Dht:=Store Profile) (Db:=Store OwnProfile) (Chans:=DemoChans) :=
  node_start InMemoryStore_new InMemoryStore_new Sample.chans_empty.
Definition node1 := accept (Ok alice_socket) node0.
Definition node2 := finish_handshake Actors.home alice_socket [] node1.

Lemma node2_reachable :
  node_reachable Actors.home InMemoryStore_new InMemoryStore_new Sample.chans_empty node2.
Proof.
  eapply rtc_l; [by apply (node_accept Actors.home (Ok alice_socket))|].
  eapply rtc_l; [|apply rtc_refl].
  by apply (node_handshake Actors.home alice_socket [] [] node1).
Qed.

(** *** A client program *)

Definition files (file : string) : Result string bytes :=
  if decide (file = "client.key") then Ok [x61] else
  if decide (file = "home.pub") then Ok [x68] else Err "no such file".
Definition parse (s : string) : Result string SocketAddr := Ok (mkSocketAddr (V4 2130706433) 2077).
Definition to_multi (_ : SocketAddr) : Result string Multiaddr := Ok (mkMultiaddr [x01]).

Definition started :=
  init_connect_service files parse to_multi "client.key" "home.pub" "127.0.0.1:2077"
    (Ok (InMemoryStore_new (K:=ProfileId) (V:=Profile)))
    (Ok (InMemoryStore_new (K:=ProfileId) (V:=OwnProfile))) (Sample.chans_empty (Msg:=ProfileEvent))
    empty_world.

(** *** TheButton *)

#[export] Existing Instance Sample.keeps_open.
#[export] Existing Instance Sample.multihash_laws.
#[export] Existing Instance Sample.ed25519_laws.

(** Two clients that have called; the second has gone away. *)
Definition frames0 : Sample.chans AppMessageFrame :=
  Sample.close 1 (mpsc_channel 1 (mpsc_channel 1 Sample.chans_empty).2).2.
Definition call_from (s : SinkId) : DAppEvent :=
  DAppIncomingCall (Call_new (mkCallRequest friends (mkAppMessageFrame []) (Some s)) 9).
Definition button : ServerState unit unit unit (Sample.chans AppMessageFrame) :=
  mkServerState (ConnectService_new [] tt ∅ (mkSimpleProfileRepo tt) frames0 tt) [] [] [].
Definition button_running : Running unit unit unit (Sample.chans AppMessageFrame) :=
  mkRunning button 0 None.
(** Three signals and one tick of the timer; the first press is forwarded before
    the client at [0] has called, the second, though it comes before, after. *)
Definition button_steps : list RunStep :=
  [ RunPoll (mkTurn [] [Item 10%Z] [] []);
    RunPoll (mkTurn [Item (call_from 1)] [Item 10%Z] [] []);
    RunPoll (mkTurn [Item (call_from 0)] [] [Item tt] []);
    RunSend 1;
    RunPoll (mkTurn [] [Item 10%Z] [] []) ].
Definition interrupted : RunStep := RunPoll (mkTurn [] [Item 10%Z] [] [Item 2%Z]).

(** *** A listener on the other side of the network *)

Definition receive (req : WCallRequest) : IO Process (Future Process CapnpError (Field AppListener)) :=
  io_ret (future_ok (Ok (mkAppListener 5))).
Definition no_error (_ : string) : IO Process (Future Process CapnpError unit) := io_ret (future_ok tt).
Definition answer_in (call : Call) (to_callee : option SinkId) : IO Process CallRequestDetails := λ p,
  (call_request call,
   mkProcess (oneshot_send (call_sender call) to_callee (proc_chans p)).2 (proc_forwards p)).
Definition bobs_call : Call := Call_new bob_calls 3.
End Apps.

(** ** Witnesses *)

Section witnesses.
Import HomeServerProps.Demo Run Apps.

Lemma one_live_subscription_witness :
  length (rs_subscriptions rpc4) = 2
  ∧ ∃ sub, rs_subscriptions rpc4 !! 1 = Some sub ∧ session_cancel (sub_session sub) rpc4 = Some 1.
Proof.
  split; [vm_compute; reflexivity|].
  assert (sub_cancel <$> rs_subscriptions rpc4 !! 1 = Some 1) as Hc by (vm_compute; reflexivity).
  apply fmap_Some in Hc as (sub & Hs & Hc). exists sub. split; [done|].
  assert (live sub rpc4) as Hl.
  { unfold live. rewrite <- Hc. vm_compute. reflexivity. }
  destruct (one_live_subscription rpc4 rpc4_reachable 1 1 sub sub Hs Hs eq_refl Hl Hl) as [_ H].
  by rewrite H, <- Hc.
Defined.

(** The subscription that was replaced has been told to stop. *)
Example replaced_is_told : ct_poll 0 (rs_cancel rpc4) = CancelDropped.
Proof. vm_compute. reflexivity. Qed.

Lemma unsubscribe_events_spec_witness :
  (unsubscribe_events "" 0 rpc3).1 = Ok (inr true : JsonValue)
  ∧ session_cancel 0 (unsubscribe_events "" 0 rpc3).2 = None.
Proof.
  split; [vm_compute; reflexivity|].
  pose proof (unsubscribe_events_spec "" 0 rpc3 rpc3_reachable) as H.
  destruct (unsubscribe_events "" 0 rpc3) as [r w]. exact (proj1 H).
Defined.

Lemma duplex_served_in_order_witness :
  ∃ handled, ["a"; "b"] = handled ++ pending asked
    ∧ answered (d_written asked) ++ answered (d_responses asked) `sublist_of` handled.
Proof. exact (proj2 (duplex_served_in_order echo new_unit 7 0 [Frame "a"; Frame "b"] asked asked_run)). Defined.

Lemma requests_eventually_answered_witness :
  eventually echo_requests (λ d, d_done d = None ∧ pending d = [] ∧ d_responses d = []
                                 ∧ answered (d_written d) = ["a"; "c"]) notified.
Proof.
  apply (requests_eventually_answered echo_requests new_unit is_request 7 0 [Frame "a"; Frame "n"; Frame "c"] notified).
  - intros line m w w'. unfold echo_requests. simpl. destruct (is_request line); eexists; (split; [done|]).
    + split; [by eexists|done].
    + split; [done|by intros [? [=]]].
  - exact notified_run.
  - reflexivity.
  - repeat constructor; by eexists.
Defined.

Lemma node_refines_system_witness :
  ∃ home, connections (node_system node2) = [home]
    ∧ peer_id (context home) = signer_profile_id Actors.alice
    ∧ my_signer (context home) = Actors.home.
Proof.
  assert (peer_id ∘ context <$> connections (node_system node2) = [signer_profile_id Actors.alice])
    as Hp by (vm_compute; reflexivity).
  destruct (connections (node_system node2)) as [|home [|home2 l]] eqn:Hc; [done| |done].
  injection Hp as Hp. exists home.
  destruct (node_refines_system Actors.home InMemoryStore_new InMemoryStore_new Sample.chans_empty
              node2 (empty_store_inv _ _) (empty_store_inv _ _) (empty_chans_inv _) node2_reachable)
    as (_ & H & _).
  split; [done|]. split; [done|]. apply H. rewrite Hc. left.
Defined.

Lemma serve_client_iff_witness :
  ∃ home writer, serve_client Actors.home (HomeInvariants.world (node_system node1)) alice_socket
                   = Some (home, [x2a], writer)
    ∧ peer_id (context home) = signer_profile_id Actors.alice.
Proof.
  pose proof (serve_client_iff Actors.home (HomeInvariants.world (node_system node1)) (auth_info Actors.alice) _ _
                [x2a] (mkWriter [] 100) eq_refl eq_refl eq_refl eq_refl) as H.
  cbn zeta in H. fold alice_hello in H.
  match type of H with _ → ?G => assert G as H2 by (apply H; vm_compute; lia) end. clear H.
  change (mkTcpStream _ _ _) with alice_socket in H2.
  assert (is_Some (serve_client Actors.home (HomeInvariants.world (node_system node1)) alice_socket)) as Hsome
    by (apply (bool_decide_unpack _); vm_compute; reflexivity).
  destruct (serve_client _ _ _) as [[[home reader] writer]|]; [|by destruct Hsome].
  destruct H2 as (_ & -> & H & _). by exists home, writer.
Defined.

Lemma init_connect_service_spec_witness :
  ∃ service, started = Returns (Ok (service, signer_profile_id Actors.alice, home_id))
    ∧ my_profile_ids service = [signer_profile_id Actors.alice].
Proof.
  assert (match started with Returns r => is_ok r | Panics => false end = true) as Hok
    by (vm_compute; reflexivity).
  destruct started as [[[[service my_id] hid]|e]|] eqn:Hs; [|done..].
  destruct (init_connect_service_spec files parse to_multi "client.key" "home.pub" "127.0.0.1:2077"
    InMemoryStore_new (Ok InMemoryStore_new) Sample.chans_empty empty_world service my_id hid
    (λ _, I) (λ _, I) Hs) as (signer & hp & H1 & H2 & Hm & Hh & H & _).
  exists service. rewrite H. vm_compute in H1, H2. injection H1 as <-. injection H2 as <-.
  subst my_id hid. split; reflexivity.
Defined.

Lemma button_run_spec_witness :
  let cfg := mkServerConfig (Some 5%N) in
  received_frames 0 (settle cfg (run_steps cfg button_steps button_running))
    = [press_frame; press_frame; press_frame]
  ∧ received_frames 1 (settle cfg (run_steps cfg button_steps button_running)) = []
  ∧ ended (run_steps cfg (button_steps ++ [interrupted]) button_running) = Some (Ok tt).
Proof.
  cbn zeta. split; [|split; vm_compute; reflexivity].
  refine (proj2 (proj2 (proj2 (button_run_spec (mkServerConfig (Some 5%N)) 0 button_steps button_running eq_refl))
            eq_refl eq_refl _)).
  split; [vm_compute; lia|]. apply (bool_decide_unpack _). vm_compute. reflexivity.
Defined.

Lemma calls_offered_in_order_witness :
  ∃ w1, dispatch_calls receive no_error answer_in [Ok bobs_call; Err "noise"; Ok bobs_call]
          sample_process = dispatch_calls receive no_error answer_in [Ok bobs_call] w1
        ∧ oneshot_poll 3 (proc_chans w1) = Sent (Some 0).
Proof.
  eexists. split; [|shelve].
  destruct (calls_offered_in_order receive no_error answer_in [] bobs_call [Err "noise"; Ok bobs_call]
              sample_process sample_process eq_refl) as [H _].
  exact H.
  Unshelve. vm_compute. reflexivity.
Defined.

(** Alice's profile is handed out, used to ask for a contact, and handed out
    again. *)
Definition first_request := await (admin_profile (signer_profile_id Actors.alice)) demo_service.
Definition after_contact := (initiate_contact calls_app home_id first_request.2).2.

Lemma one_wrapper_per_profile_witness :
  let alice := signer_profile_id Actors.alice in
  first_request.1 = Ok 0
  ∧ handed_out {[ alice := Actors.alice ]} [(alice, 0)] after_contact
  ∧ (await (admin_profile alice) after_contact).1 = Ok 0.
Proof.
  cbn zeta. assert (first_request.1 = Ok 0) as H1 by (vm_compute; reflexivity).
  split; [exact H1|]. split; [|vm_compute; reflexivity].
  assert (ui_keeps (Env:=World) (Chans:=ServiceChans)) as Hui.
  { intros sgs refs s Hs. split; [done|]. by apply fut_result. }
  assert (handed_out {[ signer_profile_id Actors.alice := Actors.alice ]} [] demo_service) as H0.
  { split; [|done|done|done]. split_and!; simpl; [done|done|by intros ? []]. }
  destruct (one_wrapper_per_profile {[ signer_profile_id Actors.alice := Actors.alice ]} [] Hui) as (_ & Hgive & _).
  specialize (Hgive (signer_profile_id Actors.alice) demo_service demo_service H0).
  assert (handed_out {[ signer_profile_id Actors.alice := Actors.alice ]} [(signer_profile_id Actors.alice, 0)] first_request.2) as H2.
  { unfold first_request, await in *.
    assert ((admin_profile (signer_profile_id Actors.alice) demo_service).2 = demo_service) as E by done.
    destruct (admin_profile (signer_profile_id Actors.alice) demo_service) as [f s']. simpl in E. subst s'. simpl in Hgive, H1 |- *.
    destruct (f demo_service) as [[r|e] s3]; [|by simpl in H1]. simpl in H1. injection H1 as ->.
    destruct Hgive as (own & Hget & _ & Hout).
    assert (Ok (E:=Errors.Storage.StorageError) own = Ok (own_of Actors.alice)) as [= ->]
      by (rewrite <- Hget; vm_compute; reflexivity).
    exact Hout. }
  destruct (one_wrapper_per_profile {[ signer_profile_id Actors.alice := Actors.alice ]} [(signer_profile_id Actors.alice, 0)] Hui) as ((_ & _ & _ & _ & Hops & _) & _).
  destruct (Hops (signer_profile_id Actors.alice) calls_app) as [Hop _]; [by left|]. exact (proj1 (Hop home_id first_request.2 H2)).
Defined.

(** Alice joins, logs in, and hears of what Bob asks her. *)
Lemma alice_is_new : newcomer Actors.home (start_of Actors.alice empty_world).
Proof.
  split; try done.
  - by exists home_profile.
  - by exists (mkPersonaFacet [] []).
  - intros data. apply Actors_validate_signature.
Qed.

Lemma in_memory_never_fails V : never_fails (InMemoryStore ProfileId V) V.
Proof. done. Qed.

Lemma joined_client_is_reached_witness :
  ∃ w1 ms w2 stream,
    await (join_home home_id None) (start_of Actors.alice empty_world) = (Ok tt, w1)
    ∧ await (login_home home_id) w1 = (Ok ms, w2)
    ∧ ForwardEvents ms stream ∈ client_tasks (me w2).
Proof.
  destruct (joined_client_is_reached (CChans:=Sample.chans ProfileEvent) Actors.home
    (start_of Actors.alice empty_world) None
    alice_is_new (in_memory_never_fails _) (in_memory_never_fails _) (in_memory_never_fails _))
    as (w1 & ms & w2 & stream & H1 & H2 & _ & H3 & _).
  exists w1, ms, w2, stream. split; [exact H1|]. split; [exact H2|exact H3].
Defined.

(** The scenarios for three sample keys. *)
Lemma sample_key b : ∃ sg, Ed25519Signer_new (mkPrivateKey [b]) = Returns (Ok sg) ∧ eds_profile_id sg = mkProfileId [x1b; b].
Proof. by eexists. Qed.
Lemma sample_persona b : ∃ own s, generate_persona (mkPrivateKey [b]) = Returns (own, s) ∧ signer_profile_id s = mkProfileId [x1b; b].
Proof. by do 2 eexists. Qed.

Lemma scenarios_pass_witness :
  do_test (mkPrivateKey [x68]) (mkPrivateKey [x61]) (Sample.chans_empty (Msg:=ChanMsg))
    (test_home_events (mkPrivateKey [x62])) = Returns tt
  ∧ do_test (mkPrivateKey [x68]) (mkPrivateKey [x61]) (Sample.chans_empty (Msg:=ChanMsg))
    (test_home_call (mkPrivateKey [x62])) = Returns tt.
Proof.
  destruct (sample_key x68) as (node & Hn & In), (sample_persona x61) as (own1 & s1 & H1 & I1),
    (sample_persona x62) as (own2 & s2 & H2 & I2).
  destruct (scenarios_pass (open:=Sample.is_open) (mkPrivateKey [x68]) node (mkPrivateKey [x61]) own1 s1
            (mkPrivateKey [x62]) own2 s2 (Sample.chans_empty (Msg:=ChanMsg)) Hn H1 H2)
    as (_ & _ & _ & T1 & T2).
  - rewrite In, I1. discriminate.
  - rewrite I1, I2. discriminate.
  - reflexivity.
  - split; [exact T1|exact T2].
Defined.

End witnesses.
