(* ===== verification/WireSamples.v ===== *)
(** * Sample runs over the wire

    The scenarios through the remote home for three keys, and a channel with a
    loop behind it. *)

From S2P Require Import Prelude Errors External Storage Protocol Crypto Relation Capnp HomeServer Rpc.
From S2P Require Import HomeServerProps Reactor Process ProcessProps Scenarios Memsocket RemoteCalls.
From S2P Require Import MemsocketCall Samples.
From S2P Require Import Connect ConnectProps EndToEnd Composition RemoteClient RemotePairing.
From stdpp Require Import relations.

#[local] Existing Instance Sample.bincode.
#[local] Existing Instance Sample.multihash.
#[local] Existing Instance Sample.ed25519.
#[local] Existing Instance Sample.channels.
#[local] Existing Instance Sample.multihash_laws.
#[local] Existing Instance Sample.ed25519_laws.
#[local] Existing Instance Sample.channels_laws.
#[local] Existing Instance Sample.keeps_open.
#[local] Existing Instance Sample.keeps_live.

(** The same keys over the wire. *)
Lemma scenarios_pass_remote_witness :
  passes (poll_task (λ _, EmptyString))
    (memsocket_test (λ _, EmptyString) (λ _, EmptyString) (mkPrivateKey [x68]) (mkPrivateKey [x61])
       (test_home_call (TM:=memsocket_mode (λ _, EmptyString) (λ _, EmptyString)) (mkPrivateKey [x62])))
    (memsocket_start (Sample.chans_empty (Msg:=ChanMsg))).
Proof.
  destruct (sample_key x68) as (node & Hn & In), (sample_persona x61) as (own1 & s1 & H1 & I1),
    (sample_persona x62) as (own2 & s2 & H2 & I2).
  destruct (scenarios_pass_remote (open:=Sample.is_open) (live:=Sample.is_live) (λ _, EmptyString) (λ _, EmptyString)
            (λ _, EmptyString) (mkPrivateKey [x68]) node (mkPrivateKey [x61]) own1 s1
            (mkPrivateKey [x62]) own2 s2 (Sample.chans_empty (Msg:=ChanMsg)) Hn H1 H2)
    as (_ & _ & _ & _ & T).
  - rewrite In, I1. discriminate.
  - rewrite I1, I2. discriminate.
  - exact T.
Defined.

(** A channel with a loop in front of it, and a frame on its way. *)
Definition idle : HomeProcess (InMemoryStore ProfileId Profile) (InMemoryStore ProfileId OwnProfile) _ :=
  memsocket_start (Sample.chans_empty (Msg:=ChanMsg)).
Definition hello : ChanMsg := FrameMsg (Ok (mkAppMessageFrame [x68])).
Definition relayed := (env_send 1 hello (fwd_appmsg (mkAppListener 0) (env_channel 1 idle).2).2).2.

Lemma relayed_wired : wired (open:=Sample.is_open) (live:=Sample.is_live) relayed ∧ due relayed 0 [hello].
Proof.
  destruct (start_at_rest (open:=Sample.is_open) (live:=Sample.is_live) (Sample.chans_empty (Msg:=ChanMsg)))
    as [Hw _].
  set (p1 := (env_channel 1 idle).2).
  destruct (new_channel None idle 1 0 (chans (node p1)) Hw eq_refl) as (Hw1 & [O1 E1 U1] & _).
  destruct (fwd_appmsg_wired None p1 0 Hw1 O1 E1) as (s & p2 & Hf & Hw2 & _ & Hl & _ & O2 & E2 & N2 & _ & R2).
  { by intros (i & l & Hl & _). }
  { by intros i l Hl. }
  assert (s = 1) as -> by by injection Hf.
  destruct (wired_send None p2 1 hello Hw2 O2) as (c & Hs & Hw3 & Hr & _).
  { intros i l Hi _ Ht. apply N2. by exists i, l. }
  { intros i l Hi Hsrc _. specialize (R2 i l Hi Hsrc). by destruct l. }
  assert (relayed = set_node (set_chans c (node p2)) p2) as ->.
  { unfold relayed. change (env_channel 1 idle).2 with p1. rewrite Hf. cbn [snd env_send process_env].
    unfold with_chans. by rewrite Hs. }
  split; [done|]. apply (due_loop _ 0 Frames 1 0 [hello]); [by simpl; rewrite Hl|by left|].
  apply due_here; [done|]. change (mpsc_received 1 c = [hello]). by rewrite Hr, E2.
Qed.

Lemma forwarding_delivers_witness :
  Acc (flip (task_step (poll_task (λ _, EmptyString)))) relayed
  ∧ ∀ p', rtc (task_step (poll_task (λ _, EmptyString))) relayed p' →
      (¬ ∃ p'', task_step (poll_task (λ _, EmptyString)) p' p'') → received 0 p' = [hello].
Proof.
  destruct relayed_wired as [Hw Hd].
  destruct (forwarding_delivers (λ _, EmptyString) relayed Hw) as [H1 H2]. split; [exact H1|].
  intros p' Hs Hno. destruct (H2 p' Hs Hno) as (_ & H & _). exact (H 0 [hello] Hd).
Defined.


(** *** A call *)

Section a_call.
Import HomeServerProps.Demo.
Abbreviation sample_step := (task_step (poll_task (λ _, EmptyString))) (only parsing).

(** Alice is logged in, her chat checks in, and Bob has a channel. *)
Definition alice_there : HomeProcess (InMemoryStore ProfileId Profile) (InMemoryStore ProfileId OwnProfile) _ :=
  mkHomeProcess logged_in [].
Definition chat_listens := remote_checkin_app 0 chat alice_there.
Definition bob_has_channel := env_channel 1 chat_listens.2.
Definition bob_asks : CallRequestDetails :=
  mkCallRequest friends (mkAppMessageFrame [x68]) (Some bob_has_channel.1).

Lemma alice_expects_calls :
  ∃ i calls, let p := bob_has_channel.2 in
    handling (open:=Sample.is_open) (live:=Sample.is_live) None p i [] [bob_has_channel.1] []
    ∧ expects_calls p (signer_profile_id Actors.alice) chat i 0 calls chat_listens.1.
Proof.
  assert (wired (open:=Sample.is_open) (live:=Sample.is_live) alice_there) as Hw.
  { split.
    - intros i l Hi. discriminate Hi.
    - intros i l Hi. discriminate Hi.
    - intros i j f s t f' s' t' c Hi. discriminate Hi.
    - assert (spawned (node alice_there) = []) as -> by (vm_compute; reflexivity). constructor. }
  destruct (checks_in alice_there (signer_profile_id Actors.alice) 0 (HomeSessionServer_new (ctx_of Actors.alice)) chat [] Hw)
    as (listener & calls & c & p1 & E & Hh & [H1 H2 H3] & _ & N & _); [exists (match stored Actors.alice logged_in with Ok o => o | Err _ => own_of Actors.alice end); vm_compute; reflexivity|vm_compute; reflexivity..|by intros t ?%elem_of_nil|].
  assert (chat_listens = (listener, p1)) as Hcl by exact E.
  unfold bob_has_channel. rewrite Hcl. cbn [fst snd env_channel process_env]. unfold with_chans.
  destruct (mpsc_channel 1 (chans (node p1))) as [back c2] eqn:Hc.
  destruct (handling_channel _ _ _ _ _ _ 1 back c2 Hh Hc) as (Hh2 & _ & _).
  exists (length (loops alice_there)), calls. split; [exact Hh2|]. by split.
Qed.

Lemma call_connects_witness :
  ∃ chan p1, await (start_call (λ _, EmptyString) (conn_of Actors.bob) chat bob_asks) bob_has_channel.2 = (Ok chan, p1)
    ∧ inevitably sample_step (λ p2, ∃ call, received chat_listens.1 p2 = [CallMsg (Ok call)]) p1.
Proof.
  destruct alice_expects_calls as (i & calls & [Hw _ Hq _] & Hec).
  destruct (call_connects (open:=Sample.is_open) (live:=Sample.is_live) (λ _, EmptyString) (λ _, EmptyString)
    bob_has_channel.2 (conn_of Actors.bob) chat bob_asks bob_has_channel.1 (signer_profile_id Actors.alice)
    i 0 calls chat_listens.1 Hw Hec) as (chan & p1 & H1 & H2 & _).
  - split; [by vm_compute|]. intros own Hown. vm_compute in Hown. injection Hown as <-. by vm_compute.
  - done.
  - apply Hq. by left.
  - exists chan, p1. split; [exact H1|]. eapply inevitably_mono; [|exact H2]. intros p2 (call & Hrec & _).
    exists call. rewrite Hrec. assert (received chat_listens.1 bob_has_channel.2 = []) as -> by (vm_compute; reflexivity).
    reflexivity.
Defined.
End a_call.

(** *** A client at a home over the wire *)

Section remote_client.
Import HomeServerProps.Demo EndToEnd.Run.
#[local] Existing Instance Sample.select_first.
#[local] Existing Instance Sample.select_first_laws.

Abbreviation no_text := (λ _, EmptyString) (only parsing).
Abbreviation WireClient :=
  (Client (Panicking (HomeProcess (InMemoryStore ProfileId Profile) (InMemoryStore ProfileId OwnProfile) (Sample.chans ChanMsg)))
     (InMemoryStore ProfileId Profile) (Sample.chans ProfileEvent)).

(** Alice, who has the homes [homes] already. *)
Definition alice_with (homes : list RelationProof) : WireClient :=
  mkClient
    (MyProfileImpl_new
       (mkOwnProfile (mkProfile (signer_profile_id Actors.alice) (signer_public_key Actors.alice)
                        (Persona (mkPersonaFacet homes [x01]))) [x02]) Actors.alice)
    (mkSimpleProfileRepo (mkInMemoryStore {[ signer_profile_id Actors.home := home_profile ]}))
    Sample.chans_empty (Returns idle).

Lemma alice_with_new homes :
  length homes ≤ 1 → remote_newcomer Actors.home homes (alice_with homes) idle.
Proof.
  intros Hlen. split; try done.
  - by exists home_profile.
  - by eexists.
  - unfold fits. simpl. lia.
  - intros data. apply Actors_validate_signature.
Qed.

Lemma idle_wired : wired (open:=Sample.is_open) (live:=Sample.is_live) idle.
Proof.
  exact (proj1 (start_at_rest (open:=Sample.is_open) (live:=Sample.is_live) (Sample.chans_empty (Msg:=ChanMsg)))).
Qed.

(** Bob's connection, and what he asks. *)
Definition bobs_connection : HomeConnectionServer := conn_for Actors.home Actors.bob.
Definition bobs_request : RelationHalfProof :=
  RelationHalfProof_new "friend" (signer_profile_id Actors.alice) Actors.bob.

Lemma joined_client_is_reached_remote_witness :
  ∃ w1 ms w2 stream p2 p4,
    await (join_home (HC:=to_remote_home no_text no_text Actors.home) home_id None) (alice_with []) = (Ok tt, w1)
    ∧ await (login_home (HC:=to_remote_home no_text no_text Actors.home) home_id) w1 = (Ok ms, w2)
    ∧ env w2 = Returns p2
    ∧ await (client_pair_request (stub no_text no_text bobs_connection) bobs_request) p2 = (Ok tt, p4)
    ∧ ∀ p5, rtc (task_step (poll_task no_text)) p4 p5 → (¬ ∃ p6, task_step (poll_task no_text) p5 p6) →
        received stream p5 = [EventMsg (Ok (PairingRequest bobs_request))].
Proof.
  destruct (joined_client_is_reached_remote (open:=Sample.is_open) (live:=Sample.is_live)
      (CChans:=Sample.chans ProfileEvent) no_text no_text no_text Actors.home
      (alice_with []) idle None (alice_with_new [] (Nat.le_0_l 1)) idle_wired (in_memory_never_fails _))
    as (w1 & ms & w2 & stream & p2 & H1 & H2 & H3 & _ & _ & H).
  destruct (H bobs_connection bobs_request p2 eq_refl eq_refl) as (p4 & H4 & _ & H5); [|apply rtc_refl|].
  - apply validate_half_proof_signed. eexists. apply Actors_validate_signature.
  - exists w1, ms, w2, stream, p2, p4. split; [exact H1|]. split; [exact H2|]. split; [exact H3|].
    split; [exact H4|]. intros p5 Hp5 Hno. exact (proj2 (H5 p5 Hp5) Hno).
Defined.

(** Carol's home hosts Alice already. *)
Definition at_carols : RelationProof :=
  match sign_remaining_half (RelationHalfProof_new RELATION_TYPE_HOSTED_ON_HOME
          (signer_profile_id Actors.carol) Actors.alice) Actors.carol with
  | Ok proof => proof
  | Err _ => friends
  end.

Lemma second_home_lost_witness :
  ∃ w1,
    await (join_home (HC:=to_remote_home no_text no_text Actors.home) home_id None) (alice_with [at_carols])
      = (Ok tt, w1)
    ∧ profile_facet (own_profile (mp_own_profile (me w1))) = Persona (mkPersonaFacet [at_carols] [])
    ∧ is_err (await (login_home (HC:=to_remote_home no_text no_text Actors.home) home_id) w1).1 = true.
Proof.
  destruct (second_home_lost (open:=Sample.is_open) (live:=Sample.is_live)
      (CChans:=Sample.chans ProfileEvent) no_text no_text Actors.home at_carols []
      (alice_with [at_carols]) idle None (alice_with_new [at_carols] (Nat.le_refl 1)) idle_wired
      (in_memory_never_fails _))
    as (w1 & p1 & hosted & e & H1 & _ & _ & H2 & H3 & _).
  - vm_compute. discriminate.
  - exists w1. split; [exact H1|]. split; [exact H2|]. exact (f_equal is_err H3).
Defined.

(** Bob, who comes to the home after Alice. *)
Abbreviation WireProcess :=
  (HomeProcess (InMemoryStore ProfileId Profile) (InMemoryStore ProfileId OwnProfile) (Sample.chans ChanMsg)).
Definition bob_at (p : WireProcess) : WireClient :=
  mkClient (MyProfileImpl_new (own_of Actors.bob) Actors.bob)
    (mkSimpleProfileRepo (mkInMemoryStore {[ signer_profile_id Actors.home := home_profile ]}))
    Sample.chans_empty (Returns p).

(** A repository with the profiles of the home and of one user. *)
Definition repo_with (id : ProfileId) (profile : Profile) : SimpleProfileRepo (InMemoryStore ProfileId Profile) :=
  mkSimpleProfileRepo (mkInMemoryStore {[ signer_profile_id Actors.home := home_profile; id := profile ]}).

Lemma repo_with_reaches id profile (w : WireClient) p :
  reaches Actors.home w p → reaches Actors.home (set_repo (repo_with id profile) w) p.
Proof.
  intros [H1 _ H3 H4]. split; [done| |done|done]. exists home_profile. split; [|done].
  unfold kv_get, InMemoryStore_kv, InMemoryStore_get. simpl. by rewrite lookup_insert_eq.
Qed.

Lemma repo_with_knows id profile proof (w : WireClient) :
  id ≠ signer_profile_id Actors.home → profile_id profile = id →
  profile_facet profile = Persona (mkPersonaFacet [proof] []) →
  proof_peer_id proof id = Ok (home_of_signer Actors.home) →
  knows Actors.home (set_repo (repo_with id profile) w) id.
Proof.
  intros Hne Hid Hf Hp. exists profile, proof, []. split_and!; try done.
  unfold kv_get, InMemoryStore_kv, InMemoryStore_get. simpl.
  by rewrite lookup_insert_ne, lookup_singleton_eq by done.
Qed.
End remote_client.
