(* ===== verification/NetworkSamples.v ===== *)
(** * Sample networks

    A home with Alice and Bob: a run of the network in which they pair, and the
    two of them online. *)

From S2P Require Import Prelude Errors External FutureUtil Storage Protocol Crypto Relation Capnp HomeServer Rpc.
From S2P Require Import HomeServerProps HomeInvariants Reactor Process ProcessProps Samples.
From S2P Require Import Connect ConnectFrame ConnectProps Forwarding EndToEnd Composition RemoteClient RemotePairing.
From S2P Require Import Network NetworkLoops NetworkPairing WireSamples.
From stdpp Require Import relations.

#[local] Existing Instance Sample.bincode.
#[local] Existing Instance Sample.multihash.
#[local] Existing Instance Sample.ed25519.
#[local] Existing Instance Sample.channels.
#[local] Existing Instance Sample.multihash_laws.
#[local] Existing Instance Sample.ed25519_laws.
#[local] Existing Instance Sample.channels_laws.
#[local] Existing Instance Sample.keeps_open.
#[local] Existing Instance Sample.bounded.
#[local] Existing Instance Sample.bounded_laws.
#[local] Existing Instance Sample.keeps_reading.
#[local] Existing Instance Sample.keeps_live.

Section samples.
Import HomeServerProps.Demo EndToEnd.Run.
#[local] Existing Instance Sample.select_first.
#[local] Existing Instance Sample.select_first_laws.

Abbreviation no_text := (λ _, EmptyString) (only parsing).

Abbreviation WireProcess :=
  (HomeProcess (InMemoryStore ProfileId Profile) (InMemoryStore ProfileId OwnProfile) (Sample.chans ChanMsg)).
Abbreviation WireClient :=
  (Client (Panicking WireProcess) (InMemoryStore ProfileId Profile) (Sample.chans ProfileEvent)).
Abbreviation WireUser :=
  (User (InMemoryStore ProfileId Profile) (InMemoryStore ProfileId OwnProfile) (Sample.chans ChanMsg)
     (InMemoryStore ProfileId Profile) (Sample.chans ProfileEvent)).
Abbreviation WireNetwork :=
  (Network (InMemoryStore ProfileId Profile) (InMemoryStore ProfileId OwnProfile) (Sample.chans ChanMsg)
     (InMemoryStore ProfileId Profile) (Sample.chans ProfileEvent)).
Abbreviation alice_id := (signer_profile_id Actors.alice).
Abbreviation bob_id := (signer_profile_id Actors.bob).

(** *** A run *)

(** User [i] asks for something and gets the answer; a loop of hers is polled;
    a loop of the process is. *)
Definition asks {E A} (i : nat) (m : IO WireClient (Future WireClient E A)) (n : WireNetwork) : WireNetwork :=
  match users n !! i with
  | Some u =>
      let '(fut, w) := m (client_at (the_process n) u) in
      let '(_, w) := unobserved fut w in set_user i w (user_progress u) (user_futures u) (user_streams u) n
  | None => n
  end.
Definition polls (i k choice : nat) (n : WireNetwork) : WireNetwork :=
  match users n !! i with
  | Some u =>
      match client_tasks (user_me u) !! k with
      | Some t =>
          match client_loop_step select_head t (progress_of u k) choice (client_at (the_process n) u) with
          | Some (st, w) => set_user i w (<[k := st]> (user_progress u)) (user_futures u) (user_streams u) n
          | None => n
          end
      | None => n
      end
  | None => n
  end.
Definition process (c : Choice) (n : WireNetwork) : WireNetwork :=
  match the_process n with
  | Returns p => match poll_task no_text c p with Some p' => set_process (Returns p') n | None => n end
  | Panics => n
  end.

#[local] Instance sample_home : HomeConnector (Panicking WireProcess) :=
  to_the_home no_text no_text Actors.home.
Abbreviation sample_step := (net_step no_text no_text no_text Actors.home select_head).

Lemma asks_step {E A} i (m : IO WireClient (Future WireClient E A)) n0 n :
  user_op E A m → rtc sample_step n0 n → rtc sample_step n0 (asks i m n).
Proof.
  intros Hop Hn. unfold asks. destruct (users n !! i) as [u|] eqn:Hu; [|done].
  destruct (m _) as [fut w] eqn:Hm. destruct (unobserved fut w) as [[] w'] eqn:Hf.
  eapply rtc_r; [eapply rtc_r; [exact Hn|by eapply step_user_op]|].
  assert (i < length (users n)) as Hlt by by eapply lookup_lt_Some.
  assert (∀ w0 w1 pr fs ss pr' fs' ss',
    set_user i w1 pr' fs' ss' (set_user i w0 pr fs ss n) = set_user i w1 pr' fs' ss' n) as Heq.
  { intros. unfold set_user. simpl. by rewrite list_insert_insert_eq. }
  rewrite <- (app_nil_r (user_futures u)) at 2.
  rewrite <- (Heq w w' (user_progress u) (user_futures u ++ [unobserved fut]) (user_streams u)).
  eapply (step_user_poll _ _ _ _ _ i (user_of w (user_progress u) (user_futures u ++ [unobserved fut]) (user_streams u)));
    [by apply list_lookup_insert_eq|done|]. unfold client_at. simpl. rewrite <- Hf. by destruct w.
Qed.

Lemma polls_step i k choice n0 n : rtc sample_step n0 n → rtc sample_step n0 (polls i k choice n).
Proof.
  intros Hn. unfold polls. destruct (users n !! i) as [u|] eqn:Hu; [|done].
  destruct (client_tasks _ !! k) as [t|] eqn:Ht; [|done].
  destruct (client_loop_step _ _ _ _ _) as [[st w]|] eqn:Hs; [|done].
  eapply rtc_r; [exact Hn|]. apply step_loops. by eapply step_client_loop.
Qed.

(** The loop that forwards takes an event, sends it to a listener, and is done. *)
Definition forwards (i : nat) (n : WireNetwork) : WireNetwork := polls i 0 0 (polls i 0 0 (polls i 0 0 n)).

Lemma process_step c n0 n : rtc sample_step n0 n → rtc sample_step n0 (process c n).
Proof.
  intros Hn. unfold process. destruct (the_process n) as [p|] eqn:Hp; [|done].
  destruct (poll_task _ c p) as [p'|] eqn:Hc; [|done].
  eapply rtc_r; [exact Hn|]. apply step_loops. by eapply step_process_loop.
Qed.

(** Alice and Bob, who know each other's profile, have nothing to do with the
    home yet. *)
Definition joined_profile (w : WireClient) : Profile :=
  own_profile (mp_own_profile (me (await (join_home home_id None) w).2)).
Definition newcomer (s : Signer) (peer : Signer) : WireUser :=
  new_user (own_of s) s []
    (repo_with (signer_profile_id peer)
       (joined_profile (mkClient (MyProfileImpl_new (own_of peer) peer)
          (mkSimpleProfileRepo (mkInMemoryStore {[ signer_profile_id Actors.home := home_profile ]}))
          Sample.chans_empty (Returns idle))))
    Sample.chans_empty.
Definition sample_start : WireNetwork :=
  new_network (server_validator (node idle)) (mkInMemoryStore ∅) (mkInMemoryStore ∅) Sample.chans_empty
    [newcomer Actors.alice Actors.bob; newcomer Actors.bob Actors.alice].

(** Both join the home and log in; Bob asks, Alice accepts when she has been
    told, and Bob is told. *)
Definition sample_joined : WireNetwork :=
  asks 1 (login_home home_id) (asks 1 (join_home home_id None)
    (asks 0 (login_home home_id) (asks 0 (join_home home_id None) sample_start))).
Definition sample_asked : WireNetwork :=
  polls 0 1 0 (forwards 0 (process (PollLoop 0) (asks 1 (initiate_relation "friend" alice_id) sample_joined))).
Definition sample_paired : WireNetwork :=
  polls 1 1 0 (forwards 1 (process (PollLoop 1) (asks 0 (accept_relation bobs_request) sample_asked))).

Lemma sample_paired_reachable : rtc sample_step sample_start sample_paired.
Proof.
  unfold sample_paired, sample_asked, sample_joined.
  apply polls_step, polls_step, polls_step, polls_step, process_step, asks_step; [apply op_accept_relation|].
  apply polls_step, polls_step, polls_step, polls_step, process_step, asks_step; [apply op_initiate_relation|].
  do 2 (apply asks_step; [apply op_login_home|]; apply asks_step; [apply op_join_home|]). apply rtc_refl.
Qed.

Definition relations_at (i : nat) (n : WireNetwork) : option (list RelationProof) :=
  u ← users n !! i; relations (user_me u).

(** The two have stored the same proof. *)
Definition sample_proof : RelationProof :=
  match relations_at 0 sample_paired with Some (rp :: _) => rp | _ => friends end.
Lemma sample_paired_relations :
  relations_at 0 sample_paired = Some [sample_proof] ∧ relations_at 1 sample_paired = Some [sample_proof].
Proof. split; vm_compute; reflexivity. Qed.

Lemma newcomers_start : Forall (user_starts (server_validator (node idle)))
  [newcomer Actors.alice Actors.bob; newcomer Actors.bob Actors.alice].
Proof.
  repeat constructor; try done.
  - by intros rs [= <-].
  - by intros rs [= <-].
Qed.

Lemma network_relations_signed_witness :
  rtc sample_step sample_start sample_paired
  ∧ relations_at 1 sample_paired = Some [sample_proof]
  ∧ signed_by_both (server_validator (node idle)) sample_proof.
Proof.
  split; [exact sample_paired_reachable|]. split; [exact (proj2 sample_paired_relations)|].
  assert (∀ n rs rp, rtc sample_step sample_start n → relations_at 1 n = Some rs → rp ∈ rs →
    signed_by_both (server_validator (node idle)) rp) as H.
  { intros n rs rp Hn Hrs Hin. unfold relations_at in Hrs. destruct (users n !! 1) as [u|] eqn:Hu; [|done].
    destruct (network_relations_signed no_text no_text no_text Actors.home select_head (server_validator (node idle))
      (mkInMemoryStore ∅) (mkInMemoryStore ∅) Sample.chans_empty
      [newcomer Actors.alice Actors.bob; newcomer Actors.bob Actors.alice] n) as (H & _ & _);
      [by intros k x|by intros k x|done|exact newcomers_start|exact Hn|].
    exact (H 1 u rs rp Hu Hrs Hin). }
  exact (H _ _ _ sample_paired_reachable (proj2 sample_paired_relations) (list_elem_of_here _ _)).
Defined.

(** Both join and log in, learn of each other's profile, and are online. *)
Abbreviation sample_two_online :=
  (two_online Actors.home (open:=Sample.is_open) (live:=Sample.is_live) (copen:=Sample.is_open)).

Lemma alice_and_bob_online :
  ∃ alice bob p fda fdb sinka sinkb,
    sample_two_online (mkNetwork (Returns p) [alice; bob] [] [] []) p 0 1 alice bob fda fdb sinka sinkb [] []
      [mkOutlook (Some fda) [] []; mkOutlook (Some fdb) [] []]
    ∧ id_of alice = alice_id ∧ mp_signer (user_me bob) = Actors.bob.
Proof.
  destruct (becomes_online (open:=Sample.is_open) (live:=Sample.is_live) (copen:=Sample.is_open)
      no_text no_text Actors.home (alice_with []) idle None [] (alice_with_new [] (Nat.le_0_l 1)) idle_wired
      (in_memory_never_fails _) eq_refl eq_refl)
    as (_ & msa & wa & fda & sinka & pa & _ & _ & _ & Hwa & Oa & _ & Hsa & Hva & (proofa & Hfa & Hpa) & _ & Hothers).
  assert (remote_newcomer Actors.home [] (bob_at pa) pa) as Hbob.
  { destruct (Hothers bob_id) as [Hh Hs]; [discriminate|].
    split; try done.
    - by exists home_profile.
    - by exists [].
    - rewrite Hva. intros data. apply Actors_validate_signature.
    - rewrite Hva. vm_compute. reflexivity.
    - change (is_err (kv_get bob_id (hosted_profile_db (node pa))) = true).
      rewrite Hh. reflexivity. }
  destruct (becomes_online (open:=Sample.is_open) (live:=Sample.is_live) (copen:=Sample.is_open)
      no_text no_text Actors.home (bob_at pa) pa None [] Hbob Hwa (in_memory_never_fails _) eq_refl eq_refl)
    as (_ & msb & wb & fdb & sinkb & pb & _ & _ & _ & Hwb & Ob & _ & Hsb & Hvb & (proofb & Hfb & Hpb) & Hkeep & _).
  destruct (Hkeep Actors.alice sinka (fd_stream fda)) as [Hne Sa2];
    [discriminate|by rewrite <- (Hsa : _ = Actors.alice); apply Oa|].
  apply (online_same_home _ _ pb _ _ _ sinka) in Oa; [|done|by simpl; rewrite Hsa].
  set (alice := with_repo (repo_with bob_id (own_profile (mp_own_profile (me wb)))) (user_of wa ∅ [] []) : WireUser).
  set (bob := with_repo (repo_with alice_id (own_profile (mp_own_profile (me wa)))) (user_of wb ∅ [] []) : WireUser).
  assert (id_of alice = alice_id) as Hia by (unfold id_of; simpl; by rewrite Hsa).
  assert (id_of bob = bob_id) as Hib by (unfold id_of; simpl; by rewrite Hsb).
  exists alice, bob, pb, fda, fdb, sinka, sinkb. split; [|exact (conj Hia Hsb)].
  assert (profile_id (own_profile (mp_own_profile (me wa))) = alice_id) as Hpia.
  { rewrite <- Hia. apply Oa. }
  assert (profile_id (own_profile (mp_own_profile (me wb))) = bob_id) as Hpib.
  { rewrite <- Hib. apply Ob. }
  assert (online (open:=Sample.is_open) (copen:=Sample.is_open) Actors.home pb alice fda sinka []) as Oa'.
  { destruct Oa as [O1 O2 O3]. split; [|done|by apply storing_with_repo].
    by apply (repo_with_reaches _ _ (client_at (Returns pb) (user_of wa ∅ [] []))). }
  assert (online (open:=Sample.is_open) (copen:=Sample.is_open) Actors.home pb bob fdb sinkb []) as Ob'.
  { destruct Ob as [O1 O2 O3]. split; [|done|by apply storing_with_repo].
    by apply (repo_with_reaches _ _ (client_at (Returns pb) (user_of wb ∅ [] []))). }
  split; try done.
  - split; [done|done|]. repeat constructor; exists 0, 0; [apply Oa'|apply Ob'].
  - rewrite Hia, Hib. discriminate.
  - rewrite Hia, Hib. split.
    + by apply (repo_with_knows _ _ proofa (client_at (Returns pb) (user_of wb ∅ [] []))).
    + by apply (repo_with_knows _ _ proofb (client_at (Returns pb) (user_of wa ∅ [] []))).
  - by intros [|[|j]] o ? ? ?.
Qed.

Lemma members_pair_in_the_network_witness :
  ∃ (alice bob : WireUser) p proof w1,
    let hp := RelationHalfProof_new "friend" alice_id Actors.bob in
    let nw := mkNetwork (Returns p) [alice; bob] [] [] [] in
    let nw1 := set_user 1 w1 (user_progress bob) (user_futures bob) (user_streams bob) nw in
    await (initiate_relation (HC:=to_remote_home no_text no_text Actors.home) "friend" alice_id)
      (client_at (Returns p) bob) = (Ok tt, w1)
    ∧ ∀ nw2, rtc (works_step no_text select_head) nw1 nw2 → ∃ alice2 w3,
        (await (accept_relation (HC:=to_remote_home no_text no_text Actors.home) hp)
           (client_at (the_process nw2) alice2)) = (Ok proof, w3)
        ∧ inevitably (loops_step no_text select_head)
            (λ nw', has_relations 0 [proof] nw' ∧ has_relations 1 [proof] nw')
            (set_user 0 w3 (user_progress alice2) (user_futures alice2) (user_streams alice2) nw2).
Proof.
  destruct alice_and_bob_online as (alice & bob & p & fda & fdb & sinka & sinkb & H & Ha & Hb).
  destruct (members_pair_in_the_network no_text no_text no_text Actors.home select_head select_head_ok
    "friend" _ _ _ _ _ _ _ _ _ _ _ _ _ H) as (proof & w1 & _ & _ & _ & H1 & _ & H2).
  rewrite Ha, Hb in *. exists alice, bob, p, proof, w1. split; [exact H1|]. intros nw2 Hs.
  destruct (H2 nw2 Hs) as (_ & alice2 & w3 & _ & H3 & Hacc & H4). exists alice2, w3. split; [exact H3|].
  split; [exact Hacc|]. intros nw' Hs' Hno. destruct (H4 nw' Hs' Hno) as (H5 & H6 & _). by split.
Defined.

(** Bob has asked, and nothing has been done about it yet. *)
Lemma network_settles_witness :
  ∃ (nw : WireNetwork) alice fd hp,
    let told nw' := ∃ alice', users nw' !! 0 = Some alice'
      ∧ mpsc_received (fd_relations fd) (user_chans alice') = [PairingRequest hp] in
    users nw !! 0 = Some alice
    ∧ inevitably (works_step no_text select_head) told nw
    ∧ inevitably (loops_step no_text select_head) told nw.
Proof.
  destruct alice_and_bob_online as (alice & bob & p & fda & fdb & sinka & sinkb & H & Ha & Hb).
  destruct (network_asked no_text no_text Actors.home "friend" _ _ _ _ _ _ _ _ _ _ _ _ _ H)
    as (c & w1 & _ & Hn1 & Hus & _).
  destruct (network_settles no_text select_head select_head_ok _ _ _ Hn1) as [Hworks Hloops].
  eexists _, alice, fda, _. split; [by rewrite Hus|]. split.
  - eapply inevitably_mono; [|exact Hworks]. intros nw' [_ Hall].
    destruct (Forall2_lookup_r _ _ _ 0 _ Hall eq_refl) as (alice' & Ha' & _ & Htold).
    exists alice'. split; [exact Ha'|]. apply (Htold fda); [done|by left].
  - eapply inevitably_mono; [|apply Hloops; repeat constructor; unfold few_events; simpl; lia].
    intros nw' [_ Hall].
    destruct (Forall2_lookup_r _ _ _ 0 _ Hall eq_refl) as (alice' & Ha' & _ & Htold).
    exists alice'. split; [exact Ha'|]. apply (Htold fda); [done|by left].
Defined.

(** *** An application that does not read

    Alice listens to her session and reads nothing; Bob asks her four times, and
    everything is polled as often as it can do anything. *)
Definition listens (i : nat) (ms : MySessionId) (n : WireNetwork) : WireNetwork :=
  match users n !! i with
  | Some u =>
      let '(l, w) := my_session_events ms (client_at (the_process n) u) in
      set_user i w (user_progress u) (user_futures u) (user_streams u ++ [l]) n
  | None => n
  end.
Fixpoint times {A} (k : nat) (f : A → A) (a : A) : A :=
  match k with O => a | S k => f (times k f a) end.
Definition all_polls (n : WireNetwork) : WireNetwork :=
  polls 0 1 0 (polls 0 0 1 (polls 0 0 0 (process (PollLoop 0) n))).
Definition sample_unread : WireNetwork :=
  times 30 all_polls (times 4 (asks 1 (initiate_relation "friend" alice_id)) (listens 0 0 sample_joined)).

(** She has been sent all four, but her loops are stuck at the third: her
    application's channel holds two. *)
Definition can_poll (n : WireNetwork) (i k choice : nat) : bool :=
  match users n !! i with
  | Some u =>
      match client_tasks (user_me u) !! k with
      | Some t =>
          match client_loop_step select_head t (progress_of u k) choice (client_at (the_process n) u) with
          | Some _ => true
          | None => false
          end
      | None => false
      end
  | None => false
  end.
Definition alice_received (n : WireNetwork) : option (list nat * list SinkId) :=
  u ← users n !! 0; Some ((λ l, length (mpsc_received l (user_chans u))) <$> [0; 1], user_streams u).

Lemma sample_unread_stuck :
  alice_received sample_unread = Some ([3; 2], [1])
  ∧ [can_poll sample_unread 0 0 0; can_poll sample_unread 0 0 1; can_poll sample_unread 0 1 0] = [false; false; false]
  ∧ match the_process sample_unread with Returns p => length (received 0 p) | Panics => 0 end = 4.
Proof. split_and!; vm_compute; reflexivity. Qed.
End samples.
