(* ===== verification/StorageTests.v ===== *)
(** * The tests of the storage crate

    The unit tests in [storage/src/common/imp.rs], [storage/src/sync/imp.rs],
    [storage/src/async/imp.rs], [storage/src/async/fs.rs] and
    [storage/src/meta/mod.rs], as programs over the data they are run with; a
    failed assertion or [unwrap] panics.  The theorem says that they pass for all
    such data, with the libraries as parameters. *)

From Stdlib Require Import Strings.Ascii ZArith.
From S2P Require Import Prelude Errors External Strs Storage HashSpace Ipfs Address Config.
Import Errors.Storage.

Definition assert_true (b : bool) : Panicking unit := if b then Returns tt else Panics.
Definition assert_eq {A} `{EqDecision A} (x y : A) : Panicking unit := assert_true (bool_decide (x = y)).

Record Person : Set := mkPerson { person_name : string; phone : string; age : N }.
#[export] Instance Person_eq_dec : EqDecision Person.
Proof. solve_decision. Defined.

(** ** [storage/src/meta/mod.rs]: an implementation of [Attribute] and [Data] *)

#[warnings="-register-all"]
Inductive MetaAttrVal : Set :=
| BOOL (v : bool)
| INT (v : Z)
| FLOAT (v : Z)
| TIMESTAMP (v : Z)
| LOCATION (v : GpsLocation)
| STRING (v : string)
| LINK (v : string)
| BLOB (v : bytes)
| ARRAY (vs : list MetaAttrVal)
| OBJECT (attrs : list MetaAttr)
with MetaAttr : Set :=
| MetaAttr_new (name : string) (value : MetaAttrVal).

Definition meta_name (a : MetaAttr) : string := let '(MetaAttr_new name _) := a in name.

(** [MetaAttrVal::to_attr_val], and a [MetaAttr] seen as an [Attribute]. *)
Fixpoint to_attr_val (v : MetaAttrVal) : AttributeValue :=
  match v with
  | BOOL v => Boolean v
  | INT v => Integer v
  | FLOAT v => Float v
  | TIMESTAMP v => Timestamp v
  | LOCATION v => Location v
  | STRING v => AttrString v
  | BLOB v => Blob v
  | LINK v => Link v
  | ARRAY v => Array (to_attr_val <$> v)
  | OBJECT v => Object (to_attribute <$> v)
  end
with to_attribute (m : MetaAttr) : Attribute :=
  let '(MetaAttr_new name value) := m in mkAttribute name (to_attr_val value).

Record MetaData : Set := MetaData_new
  { meta_blob : bytes; meta_hash : bytes; meta_attrs : list MetaAttr }.

Definition MetaData_data (d : MetaData) : Data := mkData (meta_blob d) (to_attribute <$> meta_attrs d).

Section metadata.
(** [(val - pi) < 2E-16] on floating point numbers. *)
Context (f64_close : Z → Z → bool).

Definition test_attrs (spoon linkhash : string) (answer pi now red green blue : Z) : list MetaAttr :=
  let famous := [STRING spoon; INT answer; FLOAT pi] in
  let color := [MetaAttr_new "red" (INT red); MetaAttr_new "green" (INT green);
                MetaAttr_new "blue" (INT blue)] in
  [MetaAttr_new "works" (BOOL true); MetaAttr_new "timestamp" (TIMESTAMP now);
   MetaAttr_new "link" (LINK ("magnet/" +:+ linkhash)); MetaAttr_new "famous" (ARRAY famous);
   MetaAttr_new "color" (OBJECT color)].

Definition expect_integer (v : option AttributeValue) (n : Z) : Panicking unit :=
  v ← unwrap_option v; match v with Integer val => assert_eq val n | _ => Panics end.

Definition test_metadata (spoon linkhash : string) (answer pi now red green blue : Z) (blob hash : bytes)
  : Panicking unit :=
  let metadata := MetaData_data (MetaData_new blob hash
                    (test_attrs spoon linkhash answer pi now red green blue)) in
  works_attrval ← unwrap_option (first_attrval_by_name metadata "works");
  _ ← match works_attrval with Boolean v => assert_true v | _ => Panics end;
  fame_attrval ← unwrap_option (first_attrval_by_name metadata "famous");
  _ ← match fame_attrval with
      | Array arr =>
          _ ← assert_eq (length arr) 3;
          v0 ← unwrap_option (arr !! 0);
          _ ← match v0 with AttrString val => assert_eq val spoon | _ => Panics end;
          v1 ← unwrap_option (arr !! 1);
          _ ← match v1 with Integer val => assert_eq val answer | _ => Panics end;
          v2 ← unwrap_option (arr !! 2);
          match v2 with Float val => assert_true (f64_close val pi) | _ => Panics end
      | _ => Panics
      end;
  _ ← expect_integer (first_attrval_by_path metadata ["color"; "red"]) red;
  _ ← expect_integer (first_attrval_by_path metadata ["color"; "green"]) green;
  assert_true (match first_attrval_by_path metadata ["color"; "purple"] with None => true | Some _ => false end).
End metadata.

(** ** [storage/src/common/imp.rs] *)

Definition test_serializer {O} `{EqDecision O} {SJ : SerdeJson O} (orig_obj : O) : Panicking unit :=
  let ser_obj := serialize SerdeJsonSerializer orig_obj in
  _ ← assert_true (is_ok ser_obj);
  ser_obj ← unwrap ser_obj;
  let deser_res := deserialize SerdeJsonSerializer ser_obj in
  _ ← assert_true (is_ok deser_res);
  deser ← unwrap deser_res;
  assert_eq orig_obj deser.

Section hashes.
Context {MH : Multihash} {MB : Multibase}.

Definition test_hasher (alg : MhAlg) (ser_obj : bytes) : Panicking unit :=
  let hasher := MultiHasher_hasher (MultiHasher_new alg) in
  let hash := get_hash hasher ser_obj in
  _ ← assert_true (is_ok hash);
  hash ← unwrap hash;
  assert_true (is_ok (hasher_validate hasher ser_obj hash)).

Definition test_hash_coder (base : MbBase) (hash_bytes : bytes) : Panicking unit :=
  let coder := MultiBaseHashCoder_coder (MultiBaseHashCoder_new base) in
  let hash_str := coder_encode coder hash_bytes in
  _ ← assert_true (is_ok hash_str);
  hash_str ← unwrap hash_str;
  let decode_res := coder_decode coder hash_str in
  _ ← assert_true (is_ok decode_res);
  decoded ← unwrap decode_res;
  assert_eq hash_bytes decoded.

(** ** [storage/src/sync/imp.rs] *)

Definition test_storage (hash : bytes) (object : Person) : Panicking unit :=
  let '(store_res, storage) := sync_store hash object InMemoryStore_new in
  _ ← assert_true (is_ok store_res);
  let lookup_res := sync_lookup hash storage in
  _ ← assert_true (is_ok lookup_res);
  found ← unwrap lookup_res;
  assert_eq found object.

(** The space of the tests of both modules. *)
Abbreviation Space := (ModularHashSpace bytes bytes string (InMemoryStore bytes bytes)).
Definition new_space (alg : MhAlg) (base : MbBase) : Space :=
  ModularHashSpace_new (MultiHasher_hasher (MultiHasher_new alg)) InMemoryStore_new
    (MultiBaseHashCoder_coder (MultiBaseHashCoder_new base)).

Definition sync_test_hashspace (alg : MhAlg) (base : MbBase) (object : bytes) : Panicking unit :=
  let '(store_res, hashspace) := Sync_store object (new_space alg base) in
  _ ← assert_true (is_ok store_res);
  hash ← unwrap store_res;
  let lookup_res := Sync_resolve hash hashspace in
  _ ← assert_true (is_ok lookup_res);
  found ← unwrap lookup_res;
  assert_eq found object.

(** ** [storage/src/async/imp.rs] *)

Definition test_inmemory_storage (hash : string) (object : Person) : Panicking unit :=
  let '(store_res, storage) := kv_set hash object InMemoryStore_new in
  _ ← assert_true (is_ok store_res);
  let lookup_res := kv_get hash storage in
  _ ← assert_true (is_ok lookup_res);
  found ← unwrap lookup_res;
  assert_eq found object.

Definition test_hashspace (alg : MhAlg) (base : MbBase) (object : bytes) : Panicking unit :=
  let '(store_res, hashspace) := hs_store object (new_space alg base) in
  _ ← assert_true (is_ok store_res);
  hash ← unwrap store_res;
  let lookup_res := hs_resolve hash hashspace in
  _ ← assert_true (is_ok lookup_res);
  found ← unwrap lookup_res;
  _ ← assert_eq found object;
  let validate_res := hs_validate object hash hashspace in
  _ ← assert_true (is_ok validate_res);
  valid ← unwrap validate_res;
  assert_true valid.

Definition separator : string := String HashWebLink_HashSpaceId_Separator EmptyString.

Definition test_hashweb (alg : MhAlg) (base : MbBase) (default_space : string) (content : bytes)
  : Panicking unit :=
  let hashweb := HashWeb_new (Space := Space) {[default_space := new_space alg base]} default_space in
  let '(link, hashweb) := HashWeb_store content hashweb in
  link ← unwrap link;
  _ ← assert_true (String.prefix (default_space +:+ separator) link);
  found ← HashWeb_resolve link hashweb;
  found ← unwrap found;
  assert_eq found content.

(** The test of the IPFS space is ignored unless a node runs on the machine. *)
Definition test_ipfs_hashspace {C} {IC : IpfsClient C} (orig_data : bytes) : Panicking unit :=
  ipfs ← unwrap (Ipfs_new (C:=C) "localhost" 5001);
  let '(hash, ipfs) := hs_store orig_data ipfs in
  hash ← unwrap hash;
  resolved_data ← unwrap (hs_resolve hash ipfs);
  assert_eq orig_data resolved_data.

Record DummyFormatParser : Set := mkDummyFormatParser { link_attr : MetaAttr }.
Definition dummy_parse (p : DummyFormatParser) : FormatParser := λ blob,
  Ok (MetaData_data (MetaData_new blob (String.list_byte_of_string "dummy_hash") [link_attr p])).

(** With the names of the space, the format and the two attributes. *)
Definition test_blob_address_resolution (alg : MhAlg) (base : MbBase) (myblob : bytes)
    (default_space myformat container link_name : string) : Panicking unit :=
  let '(myblob_hash, cache_space) := hs_store myblob (new_space alg base) in
  myblob_hash ← unwrap myblob_hash;
  let hashweb := HashWeb_new (Space := Space) {[default_space := cache_space]} default_space in
  let hashlink_str := default_space +:+ separator +:+ myblob_hash in
  resolved ← HashWeb_resolve hashlink_str hashweb;
  resolved ← unwrap resolved;
  _ ← assert_eq resolved myblob;
  let link_attr := MetaAttr_new link_name (LINK (default_space +:+ separator +:+ myblob_hash)) in
  let container_attr := MetaAttr_new container (OBJECT [link_attr]) in
  let myparser := mkDummyFormatParser container_attr in
  let registry := FormatRegistry_new {[myformat := dummy_parse myparser]} in
  let link_address := hashlink_str +:+ String HashWebLink_Attribute_Separator EmptyString +:+ myformat
    +:+ String Format_Separator EmptyString
    +:+ meta_name container_attr +:+ separator +:+ meta_name link_attr in
  let resolver := AddressResolver_new registry hashweb in
  resolved ← resolve_blob resolver link_address;
  resolved ← unwrap resolved;
  assert_eq resolved myblob.

End hashes.

(** ** [storage/src/async/fs.rs] *)

Section file_store.
Context {SJ : SerdeJson string}.
Abbreviation Store := BlockingFileStore.

Definition write_and_read (content : string) (storage : Store) (i : N) : Panicking Store :=
  let '(write, storage) := kv_set (print_u64 i) content storage in
  _ ← unwrap write;
  read ← unwrap (kv_get (V:=string) (print_u64 i) storage);
  _ ← assert_eq read content;
  Returns storage.

Definition read_and_clear (content : string) (storage : Store) (i : N) : Panicking Store :=
  read ← unwrap (kv_get (V:=string) (print_u64 i) storage);
  let '(del, storage) := kv_clear_local (V:=string) (print_u64 i) storage in
  _ ← unwrap del;
  _ ← assert_eq read content;
  Returns storage.

(** [for i in range { .. }]. *)
Fixpoint for_in (body : Store → N → Panicking Store) (range : list N) (storage : Store) : Panicking Store :=
  match range with
  | [] => Returns storage
  | i :: range => storage ← body storage i; for_in body range storage
  end.

Definition test_file_store (base : string) (fs : FileSystem) (count : nat) (content : string)
  : Panicking Store :=
  storage ← unwrap (BlockingFileStore_new base fs);
  let range := N.of_nat <$> seq 0 count in
  storage ← for_in (write_and_read content) range storage;
  for_in (read_and_clear content) range storage.

End file_store.

(** ** Lemmas *)

Lemma assert_eq_refl {A} `{EqDecision A} (x : A) : assert_eq x x = Returns tt.
Proof. unfold assert_eq, assert_true. by rewrite bool_decide_true. Qed.

Section hash_tests.
Context {MH : Multihash} {MB : Multibase} {MBL : MultibaseLaws}.
Abbreviation Space := (ModularHashSpace bytes bytes string (InMemoryStore bytes bytes)).
Implicit Types (alg : MhAlg) (base : MbBase) (object : bytes).

Lemma new_space_good alg base : modular_good (new_space alg base).
Proof. split; simpl; [apply MultiHasher_laws|apply MultiBaseHashCoder_laws]. Qed.

(** What is stored in a new space. *)
Lemma new_space_store alg base object h :
  mh_encode alg object = Ok h →
  ∃ space, Modular_store object (new_space alg base) = (Ok (mb_encode base h), space)
    ∧ modular_good space ∧ Modular_resolve (mb_encode base h) space = Ok object
    ∧ Modular_validate object (mb_encode base h) space = Ok true.
Proof.
  intros Hh. set (space := with_storage (new_space alg base) (kv_set h object InMemoryStore_new).2).
  assert (Modular_store object (new_space alg base) = (Ok (mb_encode base h), space)) as Hs.
  { unfold Modular_store, new_space. simpl. unfold get_hash_bytes. simpl. by rewrite Hh. }
  exists space. split; [done|]. destruct (new_space_good alg base) as [HL CL].
  pose proof (hs_store_good object _ (new_space_good alg base)) as Hgood. simpl in Hgood.
  rewrite Hs in Hgood. split; [done|].
  pose proof (Modular_store_then_resolve _ _ _ _ HL CL Hs) as Hr. split; [done|].
  by apply Modular_resolve_then_validate.
Qed.

Lemma hashspaces_pass alg base object h :
  mh_encode alg object = Ok h →
  test_hashspace alg base object = Returns tt ∧ sync_test_hashspace alg base object = Returns tt.
Proof.
  intros Hh. destruct (new_space_store alg base object h Hh) as (space & Hs & _ & Hr & Hv).
  split.
  - unfold test_hashspace. simpl. rewrite Hs. simpl. rewrite Hr. simpl. rewrite assert_eq_refl. simpl.
    by rewrite Hv.
  - unfold sync_test_hashspace. destruct (sync_async_equiv (new_space alg base) object (mb_encode base h))
      as (_ & _ & _ & Heq & _). rewrite Heq by done. rewrite Hs. simpl.
    destruct (sync_async_equiv space object (mb_encode base h)) as (_ & Hres & _).
    rewrite Hres, Hr. simpl. by rewrite assert_eq_refl.
Qed.

Lemma string_app_assoc (a b c : string) : (a +:+ b) +:+ c = a +:+ b +:+ c.
Proof. induction a as [|x a IH]; [done|]. by rewrite !string_app_cons, IH. Qed.

Lemma prefix_app (a b : string) : String.prefix a (a +:+ b) = true.
Proof.
  induction a as [|c a IH]; [by destruct b|]. rewrite string_app_cons. simpl.
  destruct (ascii_dec c c); [done|congruence].
Qed.

(** A proper name for a space. *)
Definition space_name (id : string) : Prop := id ≠ "" ∧ no_char "/"%char id = true.

Lemma hashweb_passes alg base default_space content h :
  space_name default_space → mh_encode alg content = Ok h →
  test_hashweb alg base default_space content = Returns tt.
Proof.
  intros [Hne Hid] Hh. destruct (new_space_store alg base content h Hh) as (space & Hs & _ & Hr & _).
  unfold test_hashweb, HashWeb_store. simpl. rewrite lookup_singleton_eq, Hs. simpl.
  unfold separator. change (String HashWebLink_HashSpaceId_Separator (mb_encode base h))
    with (String "/"%char "" +:+ mb_encode base h).
  rewrite <- string_app_assoc, prefix_app. simpl. rewrite string_app_assoc.
  change (String "/"%char "" +:+ mb_encode base h) with (String "/"%char (mb_encode base h)).
  unfold HashWeb_resolve. rewrite HashWebLink_parse_no_slash by done. simpl.
  rewrite insert_singleton_eq, lookup_singleton_eq. rewrite Hr. simpl. by rewrite assert_eq_refl.
Qed.

Lemma blob_address_passes alg base myblob h default_space myformat container link_name :
  space_name default_space → no_char "#"%char default_space = true →
  mh_encode alg myblob = Ok h → no_char "#"%char (mb_encode base h) = true →
  well_formed_attr (myformat, [container; link_name]) →
  test_blob_address_resolution alg base myblob default_space myformat container link_name = Returns tt.
Proof.
  intros [Hne Hid] Hhash Hh Hb Hwf.
  destruct (new_space_store alg base myblob h Hh) as (space & Hs & _ & Hr & _).
  unfold test_blob_address_resolution. simpl hs_store. rewrite Hs. cbn [mbind panicking_bind unwrap].
  unfold separator. change (String HashWebLink_HashSpaceId_Separator "" +:+ mb_encode base h)
    with (String "/"%char (mb_encode base h)).
  set (web := HashWeb_new _ _). set (link := default_space +:+ String "/"%char (mb_encode base h)).
  assert (HashWeb_resolve link web = Returns (Ok myblob)) as Hlink.
  { unfold HashWeb_resolve, link. rewrite HashWebLink_parse_no_slash by done. simpl.
    by rewrite lookup_singleton_eq, Hr. }
  rewrite Hlink. cbn [mbind panicking_bind unwrap]. rewrite assert_eq_refl. cbn [mbind panicking_bind].
  set (resolver := AddressResolver_new _ web).
  set (address := mkAddress link [(myformat, [container; link_name])]).
  assert (resolve_blob resolver (address_text address) = Returns (Ok myblob)) as Ha.
  { rewrite resolve_blob_text.
    2: { split; [|split; [done|by constructor]]. unfold address, link. simpl.
         rewrite no_char_app, Hhash. simpl. done. }
    change (HashWeb_resolve (addr_link address) (hashweb resolver)) with (HashWeb_resolve link web).
    rewrite Hlink. cbn [mbind panicking_bind map_err].
    apply (resolve_attrs_follows resolver [(myformat, [container; link_name])]); [by constructor|].
    eapply (follows_cons _ _ _ _ _ link); [|exact Hlink|constructor].
    exists (dummy_parse (mkDummyFormatParser (MetaAttr_new container (OBJECT [MetaAttr_new link_name (LINK link)])))).
    eexists. split; [simpl; apply lookup_singleton_eq|]. split; [reflexivity|].
    apply (at_node [] container [mkAttribute link_name (Link link)] []); [done|].
    by apply (at_leaf [] link_name (Link link) []). }
  change (address_text address) with
    (link +:+ String "#"%char (myformat +:+ String "@"%char (container +:+ String "/"%char link_name))) in Ha.
  cbn [meta_name]. match goal with |- context [resolve_blob _ ?a] => assert (a = 
    link +:+ String "#"%char (myformat +:+ String "@"%char (container +:+ String "/"%char link_name))) as -> end.
  { done. }
  rewrite Ha. simpl. by rewrite assert_eq_refl.
Qed.

End hash_tests.

(** ** The file store, on a file system without faults *)

Lemma digits_no_char acc s n c :
  digits_value acc s = Some n → to_digit c = None → no_char c s = true.
Proof.
  revert acc; induction s as [|d s IH]; intros acc; [done|]. cbn [digits_value].
  destruct (to_digit d) as [x|] eqn:Hd; [|done]. intros Hs Hc. apply no_char_cons. split; [congruence|].
  by eapply IH.
Qed.

Lemma print_u64_plain n : (n <= U64_MAX)%N → plain_key (print_u64 n).
Proof.
  intros Hn. destruct (digits_of_value 20 n EmptyString 0) as [k Hk]; [unfold U64_MAX in Hn; simpl; lia|done|].
  destruct (digits_of_head 20 n EmptyString) as (d & s & Hs & Hd); [done|].
  unfold print_u64. split; [by eapply digits_no_char|].
  assert (no_char "."%char (digits_of 20 n "") = true) as Hdot by by eapply digits_no_char.
  rewrite Hs in Hdot |- *. apply no_char_cons in Hdot as [Hdot _].
  intros Hin. repeat (apply elem_of_cons in Hin as [Hin|Hin]; [by simplify_eq|]). by apply not_elem_of_nil in Hin.
Qed.

Section file_store_test.
Context {SJ : SerdeJson string} {SJL : SerdeJsonLaws string}.
Implicit Types (s : BlockingFileStore) (k content : string).

Definition no_faults s : Prop := fs_plan (file_system s) = [].

Lemma set_succeeds k content b s :
  no_faults s → plain_key k → json_to_vec content = Ok b →
  ∃ s', kv_set k content s = (Ok tt, s') ∧ no_faults s' ∧ kv_get (V:=string) k s' = Ok content
    ∧ ∀ k' c, plain_key k' → kv_get (V:=string) k' s = Ok c → k' ≠ k → kv_get (V:=string) k' s' = Ok c.
Proof.
  intros Hp Hk Hb. destruct s as [base [files dirs plan]]. unfold no_faults in Hp. simpl in Hp. subst plan.
  simpl. unfold BlockingFileStore_set. rewrite Hb. simpl.
  unfold set_bytes, create_dir_all, file_create, file_write_all, next_fault. simpl.
  rewrite (path_join_parent base k Hk), decide_True by set_solver. simpl.
  eexists. split; [done|]. split; [done|].
  unfold BlockingFileStore_get, get_bytes, file_read. simpl. split.
  - rewrite lookup_insert_eq. simpl. by rewrite (json_roundtrip _ _ Hb).
  - intros k' c Hk' Hg Hne. rewrite !lookup_insert_ne; [done|..];
      intros Heq; by apply Hne, eq_sym, (path_join_eq base).
Qed.

Lemma clear_succeeds k c s :
  no_faults s → plain_key k → kv_get (V:=string) k s = Ok c →
  ∃ s', kv_clear_local (V:=string) k s = (Ok tt, s') ∧ no_faults s'
    ∧ ∀ k' c, plain_key k' → kv_get (V:=string) k' s = Ok c → k' ≠ k → kv_get (V:=string) k' s' = Ok c.
Proof.
  intros Hp Hk Hg. destruct s as [base [files dirs plan]]. unfold no_faults in Hp. simpl in *. subst plan.
  unfold BlockingFileStore_clear_local, BlockingFileStore_get, get_bytes, file_read, remove_file, next_fault in *.
  simpl in *. destruct (files !! path_join base k) as [b|] eqn:Hf; [|done].
  eexists. split; [done|]. split; [done|]. simpl.
  intros k' c' Hk' Hg' Hne. rewrite lookup_delete_ne; [done|].
  intros Heq. by apply Hne, eq_sym, (path_join_eq base).
Qed.

(** The keys of [range] hold [content]. *)
Definition holds_at content (range : list N) s : Prop :=
  Forall (λ i, kv_get (V:=string) (print_u64 i) s = Ok content) range.

Lemma print_u64_inj i j : (i <= U64_MAX)%N → (j <= U64_MAX)%N → print_u64 i = print_u64 j → i = j.
Proof.
  intros Hi Hj Heq. pose proof (parse_print_u64 i Hi) as H. rewrite Heq, (parse_print_u64 j Hj) in H.
  by injection H.
Qed.

Lemma write_loop content b range before s :
  json_to_vec content = Ok b → Forall (λ i, (i <= U64_MAX)%N) (before ++ range) →
  no_faults s → holds_at content before s →
  ∃ s', for_in (write_and_read content) range s = Returns s' ∧ no_faults s'
    ∧ holds_at content (before ++ range) s'.
Proof.
  intros Hb. revert before s. induction range as [|i range IH]; intros before s Hmax Hp Hd.
  { exists s. rewrite app_nil_r. by split_and!. }
  assert (i <= U64_MAX)%N as Hi by (rewrite list.Forall_app, list.Forall_cons in Hmax; tauto).
  destruct (set_succeeds (print_u64 i) content b s Hp (print_u64_plain i Hi) Hb) as (s1 & Hs & Hp1 & Hg & Hk).
  destruct (IH (before ++ [i]) s1) as (s2 & Hr & Hp2 & Hh2).
  - by rewrite <- app_assoc.
  - done.
  - apply list.Forall_app. split; [|by repeat constructor].
    unfold holds_at in *. rewrite list.Forall_forall in Hd |- *. intros j Hj.
    destruct (decide (j = i)) as [->|Hne]; [done|].
    assert (j <= U64_MAX)%N as Hjm by (rewrite list.Forall_app, !list.Forall_forall in Hmax; by apply (proj1 Hmax)).
    apply Hk; [by apply print_u64_plain|by apply Hd|]. intros Heq. by apply Hne, print_u64_inj.
  - exists s2. rewrite <- app_assoc in Hh2. split_and!; [|done|done].
    assert (write_and_read content s i = Returns s1) as Hw.
    { unfold write_and_read. rewrite Hs. cbn [unwrap mbind panicking_bind].
      rewrite Hg. cbn [unwrap mbind panicking_bind]. by rewrite assert_eq_refl. }
    cbn [for_in]. by rewrite Hw.
Qed.

Lemma clear_loop content range s :
  NoDup range → Forall (λ i, (i <= U64_MAX)%N) range → no_faults s → holds_at content range s →
  ∃ s', for_in (read_and_clear content) range s = Returns s' ∧ no_faults s'.
Proof.
  revert s. induction range as [|i range IH]; intros s Hnd Hmax Hp Hh.
  { exists s. by split_and!. }
  apply list.NoDup_cons in Hnd as [Hni Hnd]. apply list.Forall_cons in Hmax as [Hi Hmax].
  apply list.Forall_cons in Hh as [Hg Hh].
  destruct (clear_succeeds (print_u64 i) content s Hp (print_u64_plain i Hi) Hg) as (s1 & Hs & Hp1 & Hk).
  destruct (IH s1) as (s2 & Hr & Hp2); [done|done|done| |].
  - unfold holds_at in *. rewrite list.Forall_forall in Hh, Hmax |- *. intros j Hj.
    apply Hk; [by apply print_u64_plain, Hmax|by apply Hh|]. intros Heq. apply Hni.
    by rewrite <- (print_u64_inj j i (Hmax j Hj) Hi Heq).
  - exists s2. split; [|done]. assert (read_and_clear content s i = Returns s1) as Hw.
    { unfold read_and_clear. rewrite Hg. cbn [unwrap mbind panicking_bind]. rewrite Hs.
      cbn [unwrap mbind panicking_bind]. by rewrite assert_eq_refl. }
    cbn [for_in]. by rewrite Hw.
Qed.

Lemma file_store_passes path fs count content b :
  fs_plan fs = [] → json_to_vec content = Ok b → (N.of_nat count <= 2 ^ 31)%N →
  ∃ s, test_file_store path fs count content = Returns s.
Proof.
  intros Hp Hb Hc. unfold test_file_store. cbn [BlockingFileStore_new unwrap mbind panicking_bind].
  set (range := N.of_nat <$> seq 0 count).
  assert (Forall (λ i, (i <= U64_MAX)%N) range) as Hmax.
  { apply list.Forall_fmap, list.Forall_forall. intros i Hi%elem_of_seq. unfold U64_MAX. simpl. lia. }
  destruct (write_loop content b range [] (mkBlockingFileStore path fs) Hb Hmax) as (s1 & H1 & Hp1 & Hh);
    [done|by constructor|].
  destruct (clear_loop content range s1) as (s2 & H2 & _); [|done|done|done|].
  { apply list.NoDup_fmap; [intros ???; lia|apply list.NoDup_seq]. }
  exists s2. by rewrite H1.
Qed.

End file_store_test.

(** ** Theorem *)

Section theorem.
Context {MH : Multihash} {MB : Multibase} {MBL : MultibaseLaws}
        {PJ : SerdeJson Person} {PJL : SerdeJsonLaws Person}
        {SJ : SerdeJson string} {SJL : SerdeJsonLaws string}.
Context (f64_close : Z → Z → bool).

(** What the tests rely on: the hash algorithm is supported, the encoding of the
    blob's hash has no [#], and the values can be serialized. *)
Record TestLibraries (alg : MhAlg) (base : MbBase) (blob : bytes) (person : Person) (text : string) : Prop :=
  mkTestLibraries
  { tl_hash d : ∃ h, mh_encode alg d = Ok h;
    tl_alphabet h : mh_encode alg blob = Ok h → no_char "#"%char (mb_encode base h) = true;
    tl_person : ∃ b, json_to_vec person = Ok b ∧ utf8_valid b = true;
    tl_text : ∃ b, json_to_vec text = Ok b }.

Lemma metadata_passes spoon linkhash answer pi now red green blue blob hash :
  f64_close pi pi = true →
  test_metadata f64_close spoon linkhash answer pi now red green blue blob hash = Returns tt.
Proof.
  intros Hpi. unfold test_metadata, expect_integer. cbv zeta. set (d := MetaData_data _).
  assert (first_attrval_by_name d "works" = Some (Boolean true)) as -> by reflexivity.
  assert (first_attrval_by_name d "famous" = Some (Array [AttrString spoon; Integer answer; Float pi]))
    as -> by reflexivity.
  assert (first_attrval_by_path d ["color"; "red"] = Some (Integer red)) as -> by reflexivity.
  assert (first_attrval_by_path d ["color"; "green"] = Some (Integer green)) as -> by reflexivity.
  assert (first_attrval_by_path d ["color"; "purple"] = None) as -> by reflexivity.
  cbn [unwrap_option mbind panicking_bind assert_true lookup list_lookup].
  rewrite !assert_eq_refl, Hpi. by cbn.
Qed.

(** C30: the unit tests of the storage crate pass for all data: attributes are found
    by name and path, serializer, hasher and coder invert, what is stored is
    found, resolves and validates in stores, hash spaces and hash webs, a blob
    is resolved from its address through a link attribute, and a file store on a
    working disk serves any number of keys and clears them again. *)
Theorem storage_tests_pass alg base person text spoon linkhash answer pi now red green blue blob hash
    key object content space fmt container link_name path fs count :
  TestLibraries alg base blob person text → f64_close pi pi = true →
  space_name space → no_char "#"%char space = true → well_formed_attr (fmt, [container; link_name]) →
  fs_plan fs = [] → (N.of_nat count <= 2 ^ 31)%N →
  test_metadata f64_close spoon linkhash answer pi now red green blue blob hash = Returns tt
  ∧ test_serializer person = Returns tt
  ∧ test_hasher alg object = Returns tt ∧ test_hash_coder base hash = Returns tt
  ∧ test_storage hash person = Returns tt ∧ test_inmemory_storage key person = Returns tt
  ∧ sync_test_hashspace alg base object = Returns tt ∧ test_hashspace alg base object = Returns tt
  ∧ test_hashweb alg base space content = Returns tt
  ∧ test_blob_address_resolution alg base blob space fmt container link_name = Returns tt
  ∧ ∃ s, test_file_store path fs count text = Returns s.
Proof.
  intros [Hhash Hbase (pb & Hpb & Hutf) (tb & Htb)] Hpi Hsp Hsharp Hwf Hplan Hcount.
  destruct (Hhash object) as [h Hh], (Hhash content) as [hc Hc], (Hhash blob) as [hb Hb].
  destruct (hashspaces_pass alg base object h Hh) as [Has Hsy].
  split_and!; try done.
  - by apply metadata_passes.
  - unfold test_serializer. simpl. rewrite Hpb. simpl. rewrite Hutf. simpl.
    rewrite (json_roundtrip _ _ Hpb). simpl. by rewrite assert_eq_refl.
  - unfold test_hasher. simpl. unfold get_hash_bytes. simpl. by rewrite Hh.
  - unfold test_hash_coder. simpl. rewrite mb_decode_encode. simpl. by rewrite assert_eq_refl.
  - unfold test_storage. simpl. unfold sync_lookup. simpl. rewrite lookup_insert_eq. simpl. by rewrite assert_eq_refl.
  - unfold test_inmemory_storage. simpl. unfold InMemoryStore_get. simpl. rewrite lookup_insert_eq. simpl.
    by rewrite assert_eq_refl.
  - by eapply hashweb_passes.
  - eapply blob_address_passes; try done. by apply Hbase.
  - by eapply file_store_passes.
Qed.

(** The ignored one: with a node on the machine that takes the data. *)
Lemma ipfs_test_passes {C} {IC : IpfsClient C} {ICL : IpfsClientLaws C} orig_data ipfs :
  Ipfs_new (C:=C) "localhost" 5001 = Ok ipfs → is_ok (Ipfs_store orig_data ipfs).1 = true →
  test_ipfs_hashspace (C:=C) orig_data = Returns tt.
Proof.
  intros Hi Hok. unfold test_ipfs_hashspace. rewrite Hi. simpl.
  destruct (Ipfs_store orig_data ipfs) as [[hash|] ipfs'] eqn:Hs; [|done]. simpl.
  destruct (ipfs_spec ipfs ipfs' orig_data hash Hs) as [Hr _]. rewrite Hr. simpl. by rewrite assert_eq_refl.
Qed.

End theorem.

(** ** Witness: the data of the tests, with comma separated fields for [serde_json] *)

Section witness.
#[local] Existing Instance Sample.multihash.
#[local] Existing Instance Sample.multibase.
#[local] Existing Instance Sample.multibase_laws.

#[local] Instance text_json : SerdeJson string :=
  {| json_to_vec s := Ok (String.list_byte_of_string s);
     json_from_slice b := Ok (String.string_of_list_byte b) |}.
#[local] Instance text_json_laws : SerdeJsonLaws string.
Proof. split. intros s b. simpl. intros [= <-]. by rewrite String.string_of_list_byte_of_string. Qed.

#[local] Instance person_json : SerdeJson Person :=
  {| json_to_vec p :=
       if no_char ","%char (person_name p) && no_char ","%char (phone p) && N.leb (age p) U64_MAX
       then Ok (String.list_byte_of_string (join ","%char [person_name p; phone p; print_u64 (age p)]))
       else Err "comma";
     json_from_slice b :=
       match split ","%char (String.string_of_list_byte b) with
       | [name; phone; age] => map_err (λ _, "number"%string) (mkPerson name phone <$> parse_u64 age)
       | _ => Err "fields"
       end |}.

#[local] Instance person_json_laws : SerdeJsonLaws Person.
Proof.
  split. intros [name ph n] b. cbn [json_to_vec json_from_slice person_json person_name phone age].
  destruct (no_char _ name) eqn:Hname; [|done]. destruct (no_char _ ph) eqn:Hph; [|done].
  destruct (N.leb_spec n U64_MAX) as [Hn|]; [|done]. intros [= <-].
  rewrite String.string_of_list_byte_of_string.
  change (name +:+ _) with (join ","%char [name; ph; print_u64 n]). rewrite split_join; [|done|].
  - by rewrite parse_print_u64.
  - repeat constructor; [done|done|].
    destruct (digits_of_value 20 n EmptyString 0) as [k Hk]; [unfold U64_MAX in Hn; simpl; lia|done|].
    by eapply digits_no_char.
Qed.

Definition aladar : Person := mkPerson "Aladar" "+36202020202" 28.

Lemma sample_libraries :
  TestLibraries mh_Keccak256 mb_Base64url [x62] aladar "my_application".
Proof. split; [by eexists|by intros h [= <-]|eexists; split; by vm_compute|by eexists]. Qed.
Lemma sample_names :
  space_name "mystore" ∧ well_formed_attr ("myformat", ["attributes"; "hashweblink"]).
Proof. split_and!; [done..|]. by repeat constructor. Qed.

Lemma storage_tests_pass_witness :
  test_serializer aladar = Returns tt
  ∧ test_hashweb mh_Keccak256 mb_Base64url "mystore" [x61] = Returns tt
  ∧ test_blob_address_resolution mh_Keccak256 mb_Base64url [x62] "mystore" "myformat" "attributes" "hashweblink"
    = Returns tt
  ∧ ∃ s, test_file_store "./filetest/store/" (mkFileSystem ∅ ∅ []) 3 "my_application" = Returns s.
Proof.
  destruct (storage_tests_pass (λ _ _, true) mh_Keccak256 mb_Base64url aladar "my_application" "spoon"
    "far/away" 42 0 0 90 60 90 [x62] [x61] "key" [x61] [x61] "mystore" "myformat" "attributes" "hashweblink"
    "./filetest/store/" (mkFileSystem ∅ ∅ []) 3 sample_libraries eq_refl (proj1 sample_names) eq_refl
    (proj2 sample_names) eq_refl) as (_ & T1 & _ & _ & _ & _ & _ & _ & T2 & T3 & T4).
  - lia.
  - split; [exact T1|]. split; [exact T2|]. split; [exact T3|exact T4].
Defined.

End witness.
