(* ===== verification/ProtocolTests.v ===== *)
(** * The tests of the protocol and connection crates

    The unit tests in [home-protocol/src/lib.rs], [crypto.rs], [future.rs],
    [mercury_capnp/mod.rs] and [connect/src/net.rs], as programs over the data
    they are run with; a failed assertion or [unwrap] panics. *)

From Stdlib Require Import ZArith.
From S2P Require Import Prelude Errors External FutureUtil Protocol Crypto Capnp Connect Net Config StorageTests.

(** ** [home-protocol/src/lib.rs]: channels of which one end is dropped *)

(** Dropping the receiver of a channel: sending fails from then on. *)
Class DropReceiver (Msg Chans : Type) `{Channels Msg Chans} := {
  mpsc_drop_receiver : SinkId → Chans → Chans;
  send_after_drop s m c : is_err (mpsc_send s m (mpsc_drop_receiver s c)).1 = true;
}.

Section channels.
Context {Chans : Type} {CH : Channels string Chans} {DR : DropReceiver string Chans}.

(** [receiver.take(1).collect()] drops the receiver it consumes. *)
Definition test_mpsc_drop_receiver (item : string) (c : Chans) : Panicking unit :=
  let '(channel, c) := mpsc_channel 2 c in
  let '(sent, c) := mpsc_send channel item c in
  _ ← unwrap sent;
  let recv_vec := take 1 (mpsc_received channel c) in
  let c := mpsc_drop_receiver channel c in
  _ ← assert_eq (length recv_vec) 1;
  received ← unwrap_option (recv_vec !! 0);
  _ ← assert_eq received item;
  let '(sent, _) := mpsc_send channel item c in
  assert_true (is_err sent).

(** The sender is dropped, so the stream ends after what was sent. *)
Definition test_mpsc_drop_sender (item : string) (c : Chans) : Panicking unit :=
  let '(channel, c) := mpsc_channel 2 c in
  let '(sent, c) := mpsc_send channel item c in
  _ ← unwrap sent;
  let recv_vec := mpsc_received channel c in
  _ ← assert_eq (length recv_vec) 1;
  received ← unwrap_option (recv_vec !! 0);
  assert_eq received item.

Lemma mpsc_tests_pass {CHL : ChannelsLaws string Chans} {open} {KO : KeepsOpen (Msg:=string) open} item c :
  test_mpsc_drop_receiver item c = Returns tt ∧ test_mpsc_drop_sender item c = Returns tt.
Proof.
  unfold test_mpsc_drop_receiver, test_mpsc_drop_sender.
  destruct (mpsc_channel 2 c) as [s c1] eqn:Hc.
  pose proof (open_new (open:=open) 2 c) as Ho. rewrite Hc in Ho. simpl in Ho.
  pose proof (keep_send (open:=open) s item c1 Ho) as Hok.
  destruct (mpsc_send s item c1) as [r c2] eqn:Hs. simpl in Hok. subst r.
  destruct (mpsc_channel_new _ _ _ _ Hc) as [Hnew _], (mpsc_send_ok _ _ _ _ Hs) as [Hr _].
  rewrite Hr, Hnew. simpl. rewrite !assert_eq_refl. simpl. split; [|done].
  pose proof (send_after_drop s item c2) as Herr.
  destruct (mpsc_send s item (mpsc_drop_receiver s c2)) as [r c3]. simpl in Herr. by rewrite Herr.
Qed.

End channels.

(** ** [home-protocol/src/crypto.rs] *)

Section crypto.
Context {MH : Multihash} {ED : Ed25519}.

Definition test_ed25519 (secret_key : PrivateKey) (public_key : PublicKey) (message expected_signature : bytes)
    (invalid_signature : Signature) : Panicking unit :=
  signer ← Ed25519Signer_new secret_key;
  signer ← unwrap signer;
  let signature := signer_sign (Ed25519Signer_signer signer) message in
  _ ← assert_eq (sig_bytes signature) expected_signature;
  valid_res ← unwrap (ed25519_validate_signature public_key message signature);
  _ ← assert_true valid_res;
  let invalid_res := ed25519_validate_signature public_key message invalid_signature in
  assert_true (is_err invalid_res).

(** Given that the library answers with the keys and the signature of the test,
    and does not take the invalid text for a signature. *)
Lemma ed25519_test_passes {MHL : MultihashLaws} {EDL : Ed25519Laws} sk seed pk message signature invalid :
  ed_seed_from_slice (sk_bytes sk) = Ok seed → ed_public_key seed = Ok (pk_bytes pk) →
  ed_sign seed message = signature → is_err (ed_signature_from_bytes (sig_bytes invalid)) = true →
  test_ed25519 sk pk message signature invalid = Returns tt.
Proof.
  intros Hseed Hpk Hsig Hinv. unfold test_ed25519, Ed25519Signer_new, with_context. rewrite Hseed. simpl.
  rewrite Hpk. simpl. unfold ProfileId_from_public_key. simpl.
  destruct (mh_keccak_total (pk_bytes pk)) as [h ->]. simpl. rewrite Hsig, assert_eq_refl. simpl.
  destruct (ed_verify_sign seed (pk_bytes pk) message Hpk) as (p & s & Hp & Hs & Hv). subst signature.
  unfold ed25519_validate_signature, with_context. simpl. rewrite Hp. simpl. rewrite Hs. simpl. rewrite Hv. simpl.
  by destruct (ed_signature_from_bytes (sig_bytes invalid)).
Qed.

End crypto.

(** ** [home-protocol/src/future.rs]: futures that are completed results *)

Section futures.
Context {T E : Type} `{EqDecision T, EqDecision E}.
Context (select_all : list (nat * Result E T) → (nat * Result E T) * list (nat * Result E T)).

(** [reactor.run(..).unwrap()]: the future of [collect_results] cannot fail. *)
Definition run_collect (futs : list (Result E T)) : Panicking (list (Result E T)) :=
  unwrap_option (collect_results select_all futs).

Definition test_collect_empty : Panicking unit :=
  result ← run_collect []; assert_eq result [].

Definition test_collect_few (a b : T) (e f : E) : Panicking unit :=
  let futs := [Ok a; Err e; Ok b; Err f] in
  result ← run_collect futs; assert_eq result futs.

Lemma collect_tests_pass a b e f :
  select_all_ok (λ r, r) select_all →
  test_collect_empty = Returns tt ∧ test_collect_few a b e f = Returns tt.
Proof.
  intros Hsel. unfold test_collect_empty, test_collect_few, run_collect.
  rewrite !(collect_results_total (λ r, r) select_all Hsel), list_fmap_id. simpl.
  by rewrite !assert_eq_refl.
Qed.

End futures.

(** ** [home-protocol/src/mercury_capnp/mod.rs]

    [write_message] and [read_message] are parameters. *)

Definition relation_half_proof_encoding (write_message : WRelationHalfProof → Result CapnpError bytes)
    (read_message : bytes → Result CapnpError WRelationHalfProof) (relation_half_proof : RelationHalfProof)
  : Panicking unit :=
  buffer ← unwrap (write_message (half_proof_fill_from relation_half_proof));
  obj_reader ← unwrap (read_message buffer);
  recoded ← unwrap (half_proof_try_from obj_reader);
  assert_eq recoded relation_half_proof.

Lemma encoding_test_passes write_message read_message hp buffer :
  write_message (half_proof_fill_from hp) = Ok buffer →
  (∀ m b, write_message m = Ok b → read_message b = Ok m) →
  relation_half_proof_encoding write_message read_message hp = Returns tt.
Proof.
  intros Hw Hr. unfold relation_half_proof_encoding. rewrite Hw. cbn [unwrap mbind panicking_bind].
  rewrite (Hr _ _ Hw). cbn [unwrap mbind panicking_bind]. rewrite half_proof_roundtrip. cbn. by rewrite assert_eq_refl.
Qed.

(** ** [connect/src/net.rs] *)

#[export] Instance IpAddr_eq_dec : EqDecision IpAddr.
Proof. solve_decision. Defined.
#[export] Instance SocketAddr_eq_dec : EqDecision SocketAddr.
Proof. solve_decision. Defined.

Definition test_multiaddr_conversion {MA : MultiaddrComponents} (parse : string → Result string Multiaddr)
    (tcp_text utp_text : string) (octets port : Z) : Panicking unit :=
  multiaddr ← unwrap (parse tcp_text);
  socketaddr ← unwrap (multiaddr_to_socketaddr multiaddr);
  _ ← assert_eq socketaddr (mkSocketAddr (V4 octets) port);
  multiaddr ← unwrap (parse utp_text);
  assert_true match multiaddr_to_socketaddr multiaddr with
              | Err e => bool_decide (conn_kind e = Conn.AddressConversionFailed)
              | Ok _ => false
              end.

(** With addresses that have the components their texts say. *)
Lemma multiaddr_test_passes {MA : MultiaddrComponents} parse tcp_text utp_text tcp utp octets port :
  parse tcp_text = Ok tcp → multiaddr_iter tcp = [IP4 octets; TCP port] →
  parse utp_text = Ok utp → (∃ code, multiaddr_iter utp = [IP4 octets; OtherComponent code]) →
  test_multiaddr_conversion parse tcp_text utp_text octets port = Returns tt.
Proof.
  intros H1 H2 H3 [code H4]. unfold test_multiaddr_conversion, multiaddr_to_socketaddr.
  rewrite H1. simpl. rewrite H2. simpl. rewrite assert_eq_refl. simpl. rewrite H3. simpl. by rewrite H4.
Qed.
